(* ===== verification/_CoqProject ===== *)
-Q . S2P
Prelude.v
StableSort.v
GoStrings.v
GoStringFacts.v
GoNet.v
GoTime.v
PowerStateModel.v
Nut.v
NutFacts.v
NutExample.v
Policy.v
PolicyFacts.v
PolicyRuns.v
Store.v
StoreFacts.v
StoreExample.v
Coordinator.v
HostPlan.v
HostPlanFacts.v
HostPlanExample.v
ConfigModel.v
ConfigValidate.v
ConfigFacts.v
ConfigExample.v
Wol.v
WolExample.v
Recovery.v
Orchestrator.v
HostAdapters.v
HostAdapterFacts.v
HostAdapterExample.v
Health.v
HealthFacts.v
HealthExample.v
Armed.v
OrchestratorFacts.v
OrchestratorRuns.v
ArmedFacts.v
Chronicle.v
Completion.v
OrchestratorExample.v
PolicyExample.v
CompletionExample.v
ArmedExample.v
ChronicleExample.v
Disk.v
DiskFacts.v
Revision.v
RevisionFacts.v
RevisionStartup.v
RevisionCrash.v
RevisionRuns.v
RevisionNames.v
RevisionHistory.v
RevisionExample.v
SystemHealth.v
SystemHealthFacts.v
SystemHealthExample.v
Report.v
ReportFacts.v
ReportExample.v
Watchdog.v
Ipc.v
Server.v
Control.v
ControlFacts.v
ControlExample.v
Agent.v
AgentFacts.v
Progress.v
ProgressExample.v
AgentExample.v
GoFlag.v
Ctl.v
CtlFacts.v
CtlExample.v
Programs.v
ProgramsFacts.v
ProgramsExample.v
