(* ===== verification/Prelude.v ===== *)
(** * Verification of the cockpit-ups-wol safety agent

    The agent (src/agent, written in Go) watches a UPS through NUT, shuts a
    fleet of hosts down when the power fails, asks the UPS to cut the power,
    and wakes the hosts again when it is back.  It has to survive its own
    crashes and power losses in the middle of all this.  This library models
    the agent and the programs around it, from their command lines to what
    they leave on disk, and proves what the rest of the system relies on.

    ** The parts, and the files that model them

    Paths are under src/agent/internal, programs under src/agent/cmd.  A file
    ending in [Facts] or [Runs] has the theorems of the model it is named
    after; the files ending in [Example] run the models on concrete fleets,
    directories and outages, and apply the theorems to them.

    Deciding:

    - [PowerStateModel]: state/model.go.  Power, shutdown and recovery states,
      the durable state record, the semantic validation.
    - [Nut], [NutFacts]: nut/client.go, nut/fsd.go.  Parsing of upsc output,
      the check of upsmon.conf, the forced shutdown (FSD).
    - [Policy], [PolicyFacts], [PolicyRuns]: policy/engine.go.  The state
      machine that turns UPS samples into decisions.  [PolicyFacts] has a
      relational specification ([Step_rule]) that [Step] implements and the
      exact conditions of each commitment; [PolicyRuns] reasons over runs.
    - [HostPlan], [HostPlanFacts]: host/plan.go.  The shutdown plan and the
      dependency-ordered recovery plan, for every order in which Go may range
      over its maps.  [StableSort] is sort.SliceStable.

    Remembering:

    - [Store], [StoreFacts]: state/store.go on a file system with unsynced
      directory operations, torn writes and failing calls.
    - [Coordinator]: policy/coordinator.go against the interface
      [StateWriter]/[StateWriterLaws], which [Store] is shown to implement.
    - [Chronicle]: the calls of the store against the log of the controller.

    Acting:

    - [Recovery]: host/recovery.go.  The next host to wake, and waking it.
    - [Orchestrator], [OrchestratorFacts], [OrchestratorRuns]:
      orchestrator/controller.go.  One [Tick] of the controller over a
      [World], which is the coordinator and a log of every outside call;
      the answers of the outside are any function of that log.
      [Completion]: the time a recovery takes, to its end.
    - [HostAdapters], [HostAdapterFacts]: host/status.go, host/shutdown.go,
      host/armed_runtime_validation.go, orchestrator/adapters.go.  Probes,
      waiting for confirmations, the SSH command, which hosts may run armed.
    - [Wol]: wol/magic.go, wol/sender.go.  The magic packet and its sender.

    Running and being watched:

    - [Health], [HealthFacts]: health/model.go, health/supervisor.go.  The
      supervisor, its repairs and its durable snapshot.
    - [SystemHealth], [SystemHealthFacts]: health/systemd.go and the program
      cockpit-ups-wol-health, whose snapshot gates a recovery.
    - [Armed], [ArmedFacts]: app/armed.go, app/system_health_gate.go,
      app/runtime_prerequisite_health.go and parts of app/runtime.go.  The
      start of an armed process from the durable state, the collaborators it
      gives the controller, the power tick with its gates.
    - [Agent], [AgentFacts]: app/runtime.go, app/armed.go.  Loading the
      configuration, and the loops of both modes on what they wake up for.
    - [Watchdog]: system/systemd_notify.go.  The goroutine that feeds
      systemd's watchdog.  [Progress]: host/status.go, host/shutdown.go and
      app/runtime.go again, with the times at which work reports progress.
    - [Ipc], [Server]: ipc/health.go, ipc/server.go.  Requests, a connection,
      a call, and the listening server.

    Configuring:

    - [ConfigModel], [ConfigValidate], [ConfigFacts]: config/config.go and
      config/address_validation.go.  The configuration, its defaults, every
      validation rule and the search for dependency cycles.
    - [Disk], [DiskFacts]: the directory tree of the configuration history:
      visible state, unsynced operations, power loss, failing calls, and a
      small program logic over it.
    - [Revision]: config/revision.go, revision_maintenance.go, startup.go,
      status.go, bootstrap.go, lock_try.go.  Drafts, activation with
      probation, promotion, rollback, reconciliation at start, pruning.
      [RevisionFacts] has the laws of pointers and manifests, [RevisionStartup]
      reconciliation, [RevisionCrash] power loss during an activation,
      [RevisionRuns] probation and rejected candidates, [RevisionNames] and
      [RevisionHistory] new revisions, pruning, bootstrap and the operator's
      rollback.
    - [Control], [ControlFacts]: control/config_runtime.go.  The service under
      validation: restarting it and polling its health.
    - [Report], [ReportFacts]: report/report.go.  The plan shown for review
      and the status of the history.

    Programs:

    - [Ctl], [CtlFacts]: cockpit-ups-wolctl, every command.
    - [Programs], [ProgramsFacts]: cockpit-ups-wol-agent, wolctl, the command
      line of cockpit-ups-wol-health, state/cmd/schema-fixture, version.
    - [GoStrings], [GoStringFacts], [GoNet], [GoTime], [GoFlag]: what they use
      of Go's strings, strconv, bufio, net, time and flag packages.

    How they interact: a process of the agent reconciles the configuration
    history ([Revision]), loads the state ([Store]), builds an engine
    ([Policy]) behind a coordinator, and at every tick feeds one UPS sample
    ([Nut]) and the gates' verdict ([Health], [SystemHealth], dependencies) to
    the controller, which plans ([HostPlan]), probes and shuts down
    ([HostAdapters]), wakes ([Recovery], [Wol]) and writes every step through
    the coordinator to disk, while its waits report to the watchdog.  The
    control program changes the history; it asks the restarted agent for its
    health through the socket before it promotes a configuration.

    ** What the theorems show

    - Write-ahead: no host is asked to shut down, no packet is sent and no FSD
      is requested unless the generation that says so is already on disk; a
      crash at any point forgets no request; attempts are bounded per outage
      across restarts; FSD comes last; hosts wake in dependency order
      ([OrchestratorRuns]).
    - Progress: a committed recovery ends within a time its delays and
      attempts bound, every host online or given up, while power, health,
      network and the writing of the state are good ([Completion]).
    - The whole agent: from its command line, with any files and woken in any
      order, a live armed process is a run of the controller, on the
      configuration its history records ([ProgramsFacts]); and a power loss
      between any two system calls of the store is a crash of that controller
      ([Chronicle]).  So all of the above holds of the program.
    - Durability: a power loss at any point of a write leaves the old or the
      new generation loadable ([StoreFacts]); no caller sees a changed
      decision that is not durable ([Coordinator]).
    - The policy commits a shutdown or a recovery exactly under the documented
      conditions, recovery only after an uninterrupted run of good samples,
      and an outage cannot last beyond its limit ([PolicyFacts],
      [PolicyRuns]).  A query reads what upsc printed, and the forced shutdown
      is run only by the one primary of the one UPS ([NutFacts]).
    - The planner returns the priority-least topological order, exactly when
      there is one, whatever order maps are ranged in ([HostPlanFacts]);
      validation accepts exactly the stated rules, its cycle search
      terminates, and every accepted configuration has a recovery plan
      ([ConfigFacts]); the plan shown for review is the one executed
      ([ReportFacts]).
    - The armed process commits recovery only with all gates open, honours the
      transaction on disk when it starts and paces the controller's own
      shutdown ([ArmedFacts]); the health program opens the gate exactly when
      every critical unit is up ([SystemHealthFacts]); probes, waits, the SSH
      command and the exclusion of hosts do what they claim
      ([HostAdapterFacts], [Wol]); automatic repair is bounded across restarts
      ([HealthFacts]).
    - Being watched: the watchdog is fed while the agent makes progress and
      not when it is stuck ([Watchdog]); an agent whose probes and pauses are
      short enough makes progress ([Progress]); a call on the socket is
      answered, whatever other clients send ([Server]).
    - Configuration revisions: whatever the disk holds and whichever calls
      fail, a start that succeeds runs the configuration its active revision
      records ([RevisionStartup]); a power loss anywhere in an activation
      leads back to the old revision or to the fully validated new one
      ([RevisionCrash]), provided the entry of the revision's directory is
      durable, which the code does not ensure ([RevisionExample]); a rejected
      candidate or rollback leaves what was in force ([RevisionRuns],
      [RevisionHistory]); probation ends; pruning removes exactly what no
      pointer names and age does not protect.
    - Operating: a configuration is promoted only after the restarted agent
      has answered ([ControlFacts]); config-apply installs the candidate or
      puts the old configuration back, and only root changes the history, with
      a valid candidate ([CtlFacts]).

    ** Conventions

    Code that returns an error is in the monad [GoM]: state in, state and
    [result] out.  [time.Duration] and counters keep their int64 or uint64
    wrap-around where they are multiplied or incremented; [time.Time] is
    nanoseconds since Go's zero time.  float64 is IEEE binary64.  A nil
    pointer is [None].  A Go map is a [gmap]; where the code ranges over a map
    the order is an argument, or the theorem quantifies over it.

    A goroutine or loop around a [select] is a function of what the [select]
    receives, in any order; the times and answers of the outside are inputs.

    Recursion that is not structural has fuel, and a theorem that it is
    enough: the planner's loop gets one unit more than there are eligible
    hosts, the depth-first search one more than there are hosts, the IPv6
    parser one per group, the doubling of the retry delay six rounds (five
    reach the minute), the probation loop any number above the probation
    divided by the health interval ([enough_fuel], with a clock that advances
    by what is slept), the polling of the service any number above its
    timeout divided by the interval ([enough_polls], likewise).  The
    supervisor's back-off recurses on the number of turns left.

    JSON, YAML and SHA-256 are interfaces with laws ([StateCodecLaws],
    [SnapshotCodecLaws], [RevisionCodecLaws], [IpcCodecLaws],
    [PrintCodecLaws]): what is encoded decodes to the same value; the examples
    instantiate them.  Sockets, processes, files other than those of the three
    stores, and the clock answer as the arguments of each definition say.

    ** What is not modelled

    The scheduling of goroutines and the times of tickers, which are inputs;
    contexts and deadlines, except where they decide a result; logging; usage
    texts; what YAML and JSON libraries do with text.  Outside src/agent: the
    Cockpit plug-in (TypeScript), packaging, JSON schemas and scripts. *)

From stdpp Require Export base gmap strings list fin_maps pretty sorting.
From Stdlib Require Export ZArith Lia.
From Stdlib Require Export SpecFloat.

(** ** Scope and pipeline notation *)

Declare Scope go_scope.
Delimit Scope go_scope with go.
Open Scope go_scope.

(** [x |> f |> g] reads like a sequence of Go field assignments. *)
Notation "x |> f" := (f x) (at level 64, left associativity, only parsing) : go_scope.

(** ** Machine integers, durations and instants

    [time.Duration] is an [int64] of nanoseconds; products such as
    [time.Duration(n) * time.Second] wrap around.  [time.Time] is the number
    of nanoseconds since Go's zero time, so that [IsZero] is a comparison
    with [0]; [Sub] saturates exactly as Go's does. *)

Definition two63 : Z := 9223372036854775808.
Definition two64 : Z := 18446744073709551616.
Definition max_int64 : Z := 9223372036854775807.
Definition min_int64 : Z := -9223372036854775808.

Definition wrap64 (z : Z) : Z := ((z + two63) mod two64 - two63)%Z.
Definition int64_range (z : Z) : Prop := (min_int64 ≤ z ≤ max_int64)%Z.

Abbreviation Duration := Z (only parsing).
Abbreviation Time := Z (only parsing).

Definition Second : Duration := 1000000000%Z.
Definition Millisecond : Duration := 1000000%Z.
Definition Minute : Duration := 60000000000%Z.

(** [time.Duration(n) * unit] *)
Definition duration_of (n unit : Z) : Duration := wrap64 (n * unit)%Z.

Definition zero_time : Time := 0%Z.
Definition IsZero (t : Time) : bool := (t =? 0)%Z.
Definition time_add (t : Time) (d : Duration) : Time := (t + d)%Z.
Definition time_sub (t u : Time) : Duration :=
  Z.max min_int64 (Z.min max_int64 (t - u)).
Definition Before (t u : Time) : bool := (t <? u)%Z.

(** [uint64] counters *)
Definition wrapu64 (z : Z) : Z := (z mod two64)%Z.

Lemma wrap64_id z : int64_range z → wrap64 z = z.
Proof.
  unfold int64_range, wrap64, two63, two64, min_int64, max_int64. intros H.
  rewrite Z.mod_small; lia.
Qed.

Lemma wrap64_range z : int64_range (wrap64 z).
Proof.
  unfold int64_range, wrap64, two63, two64, min_int64, max_int64.
  pose proof (Z.mod_pos_bound (z + 9223372036854775808) 18446744073709551616). lia.
Qed.

Lemma time_sub_range t u : int64_range (time_sub t u).
Proof. unfold int64_range, time_sub, min_int64, max_int64. lia. Qed.

Lemma time_sub_exact t u : int64_range (t - u) → time_sub t u = (t - u)%Z.
Proof. unfold int64_range, time_sub, min_int64, max_int64. lia. Qed.

(** Comparing a saturated difference with a threshold that is an [int64] is
    comparing the exact difference. *)
Lemma time_sub_ge t u d :
  (min_int64 < d ≤ max_int64)%Z → (d <=? time_sub t u)%Z = (d <=? t - u)%Z.
Proof. unfold int64_range, time_sub, min_int64, max_int64. lia. Qed.

Lemma time_sub_mono t t' u : (t ≤ t' → time_sub t u ≤ time_sub t' u)%Z.
Proof. unfold time_sub. lia. Qed.

Lemma duration_of_seconds n :
  (0 ≤ n ≤ 9223372036)%Z → duration_of n Second = (n * Second)%Z.
Proof.
  intros H. apply wrap64_id. unfold int64_range, min_int64, max_int64, Second. lia.
Qed.

(** ** float64

    IEEE binary64 values are the kernel-independent [spec_float]s of the
    Standard Library; comparisons are the IEEE ones (false on NaN). *)

Abbreviation float64 := spec_float (only parsing).
Definition float64_of_int (z : Z) : float64 := binary_normalize 53 1024 z 0 false.
Definition float64_le (x y : float64) : bool := SFleb x y.

#[export] Instance spec_float_eq_dec : EqDecision spec_float.
Proof. solve_decision. Defined.

(** ** Errors

    A Go [error]: a message, possibly wrapping a cause ([%w]), a join, or one
    of the package-level sentinel values that [errors.Is] looks for. *)

Set Warnings "-register-all".

Inductive error : Type :=
  | Errorf (msg : string)
  | Sentinel (name msg : string)
  | Wrapf (prefix : string) (cause : error) (suffix : string)
  | JoinErr (errs : list error).

Fixpoint err_msg (e : error) : string :=
  match e with
  | Errorf msg => msg
  | Sentinel _ msg => msg
  | Wrapf prefix cause suffix => prefix +:+ err_msg cause +:+ suffix
  | JoinErr errs =>
      (fix join (l : list error) : string :=
         match l with
         | [] => ""
         | [e'] => err_msg e'
         | e' :: l' => err_msg e' +:+ String (Ascii.ascii_of_nat 10) "" +:+ join l'
         end) errs
  end.

(** [errors.Is(e, sentinel)] *)
Fixpoint errors_is (name : string) (e : error) : bool :=
  match e with
  | Errorf _ => false
  | Sentinel n _ => bool_decide (n = name)
  | Wrapf _ cause _ => errors_is name cause
  | JoinErr errs =>
      (fix any (l : list error) : bool :=
         match l with [] => false | e' :: l' => errors_is name e' || any l' end) errs
  end.

(** [errors.Join(errs...)]: nil when there is no error. *)
Definition errors_join (errs : list error) : option error :=
  match errs with [] => None | _ => Some (JoinErr errs) end.

(** ** Lists *)

(** Elements with distinct keys are determined by their key. *)
Lemma NoDup_key_inj {A B} (f : A → B) l x y :
  NoDup (f <$> l) → x ∈ l → y ∈ l → f x = f y → x = y.
Proof.
  induction l as [|z l IH]; simpl; [by intros ? ?%not_elem_of_nil|].
  intros [Hz Hnd]%NoDup_cons. rewrite !elem_of_cons.
  intros [->|Hx] [->|Hy] Heq; try done; [destruct Hz; rewrite Heq|destruct Hz; rewrite <-Heq|by apply IH];
    by apply list_elem_of_fmap_2.
Qed.

(** ** Lookup tables

    [byID] after [for _, h := range hosts { byID[h.ID] = h }]: the last element
    of each name. *)
Definition by_id {A} (key : A → string) (hosts : list A) : gmap string A :=
  fold_left (λ m h, <[key h := h]> m) hosts ∅.

Lemma by_id_fold {A} (key : A → string) hosts (m : gmap string A) id :
  NoDup (key <$> hosts) →
  (∀ h, h ∈ hosts → key h = id → fold_left (λ m h, <[key h := h]> m) hosts m !! id = Some h) ∧
  ((∀ h, h ∈ hosts → key h ≠ id) → fold_left (λ m h, <[key h := h]> m) hosts m !! id = m !! id).
Proof.
  revert m. induction hosts as [|x hosts IH]; intros m Hnd; simpl; [split; [by intros ? ?%not_elem_of_nil|done]|].
  apply NoDup_cons in Hnd as [Hx Hnd]. destruct (IH (<[key x := x]> m) Hnd) as [H1 H2]. split.
  - intros h [->|Hin]%elem_of_cons Hid; [|by apply H1].
    rewrite H2; [by rewrite Hid, lookup_insert_eq|]. intros h' Hin' <-. apply Hx. rewrite Hid. by apply list_elem_of_fmap_2.
  - intros Hne. rewrite H2 by (intros h Hin; apply Hne; by right).
    apply lookup_insert_ne. apply Hne. left.
Qed.

Lemma by_id_lookup {A} (key : A → string) hosts h :
  NoDup (key <$> hosts) → h ∈ hosts → by_id key hosts !! key h = Some h.
Proof. intros Hnd Hin. by apply (by_id_fold key hosts ∅ (key h) Hnd). Qed.

Lemma by_id_None {A} (key : A → string) hosts id :
  NoDup (key <$> hosts) → (∀ h, h ∈ hosts → key h ≠ id) → by_id key hosts !! id = None.
Proof. intros Hnd Hne. unfold by_id. rewrite (proj2 (by_id_fold key hosts ∅ id Hnd) Hne). apply lookup_empty. Qed.

(** The keys of a map, in the canonical order of [gmap]. *)
Definition map_keys {A} (m : gmap string A) : list string := fst <$> map_to_list m.

(** An order in which Go may range over a map. *)
Definition range_of {A} (m : gmap string A) (order : list string) : Prop := order ≡ₚ map_keys m.

Lemma elem_map_keys {A} (m : gmap string A) id : id ∈ map_keys m ↔ is_Some (m !! id).
Proof.
  unfold map_keys. rewrite list_elem_of_fmap. split.
  - intros ([id' c] & -> & Hin%elem_of_map_to_list). by eexists.
  - intros [c Hc]. exists (id, c). by rewrite elem_of_map_to_list.
Qed.

Lemma length_map_keys {A} (m : gmap string A) : length (map_keys m) = size m.
Proof. unfold map_keys. by rewrite length_fmap, length_map_to_list. Qed.

Lemma NoDup_map_keys {A} (m : gmap string A) : NoDup (map_keys m).
Proof. apply NoDup_fst_map_to_list. Qed.

Lemma elem_range_of {A} (m : gmap string A) order id : range_of m order → id ∈ order ↔ is_Some (m !! id).
Proof. intros ->. apply elem_map_keys. Qed.

(** ** State and error monad

    [GoM S A] is a Go method with receiver state [S] and results [(A, error)]:
    the state reached so far is kept when an error is returned. *)

Definition result (A : Type) : Type := (error + A)%type.
Definition GoM (S A : Type) : Type := S → S * result A.

#[export] Instance GoM_ret S : MRet (GoM S) := λ A a s, (s, inr a).
#[export] Instance GoM_bind S : MBind (GoM S) := λ A B f m s,
  match m s with
  | (s', inl e) => (s', inl e)
  | (s', inr a) => f a s'
  end.

Definition throw {S A} (e : error) : GoM S A := λ s, (s, inl e).
Definition gets {S A} (f : S → A) : GoM S A := λ s, (s, inr (f s)).
Definition modify {S} (f : S → S) : GoM S unit := λ s, (f s, inr ()).
(** Run a call and look at its error, as in [x, err := f()]. *)
Definition attempt {S A} (m : GoM S A) : GoM S (result A) := λ s,
  let '(s', r) := m s in (s', inr r).
Definition when {S} (b : bool) (m : GoM S unit) : GoM S unit :=
  if b then m else mret ().

(** [fmt.Errorf(prefix + ": %w", err)] around a failing call. *)
Definition wrap_err {S A} (prefix : string) (m : GoM S A) : GoM S A := λ s,
  match m s with
  | (s', inl e) => (s', inl (Wrapf prefix e ""))
  | r => r
  end.

(** A [for] loop over a slice whose body may return an error. *)
Fixpoint for_each {S A} (f : A → GoM S unit) (l : list A) : GoM S unit :=
  match l with
  | [] => mret ()
  | x :: l' => _ ← f x; for_each f l'
  end.

(** A loop that collects the errors of its body and joins them at the end. *)
Fixpoint for_collect {S A} (f : A → GoM S (list error)) (l : list A) : GoM S (list error) :=
  match l with
  | [] => mret []
  | x :: l' => e ← f x; es ← for_collect f l'; mret (e ++ es)
  end.

(** ** Reasoning about [GoM]

    [spec P m Q E]: started in a state satisfying [P], [m] ends in [Q a] when
    it returns [a] and in [E] when it returns an error. *)
Definition spec {S A} (P : S → Prop) (m : GoM S A) (Q : A → S → Prop) (E : S → Prop) : Prop :=
  ∀ s, P s → match m s with (s', inl _) => E s' | (s', inr a) => Q a s' end.

Section spec.
Context {S : Type}.
Implicit Types P E : S → Prop.

Lemma spec_ret {A} (a : A) P E : spec P (mret a) (λ a' s, a' = a ∧ P s) E.
Proof. by intros s Hs. Qed.

Lemma spec_throw {A} e P E (Q : A → S → Prop) : (∀ s, P s → E s) → spec P (throw e) Q E.
Proof. intros H s Hs. by apply H. Qed.

Lemma spec_bind {A B} (m : GoM S A) (f : A → GoM S B) P Q R E :
  spec P m Q E → (∀ a, spec (Q a) (f a) R E) → spec P (m ≫= f) R E.
Proof.
  intros Hm Hf s Hs. specialize (Hm s Hs). unfold mbind, GoM_bind.
  destruct (m s) as [s' [e|a]]; [done|]. by apply Hf.
Qed.

Lemma spec_conseq {A} (m : GoM S A) P P' Q Q' E E' :
  spec P' m Q' E' → (∀ s, P s → P' s) → (∀ a s, Q' a s → Q a s) → (∀ s, E' s → E s) →
  spec P m Q E.
Proof.
  intros Hm HP HQ HE s Hs. specialize (Hm s (HP s Hs)). destruct (m s) as [s' [e|a]]; auto.
Qed.

Lemma spec_gets {A} (f : S → A) P E : spec P (gets f) (λ a s, a = f s ∧ P s) E.
Proof. by intros s Hs. Qed.

Lemma spec_modify (f : S → S) P (Q : unit → S → Prop) E :
  (∀ s, P s → Q () (f s)) → spec P (modify f) Q E.
Proof. intros H s Hs. by apply H. Qed.

(** A consequence of the precondition moves to the context. *)
Lemma spec_fact {A} (φ : Prop) (m : GoM S A) P Q E :
  (∀ s, P s → φ) → (φ → spec P m Q E) → spec P m Q E.
Proof. intros Hφ H s Hs. by apply H; eauto. Qed.

(** Name a part of the initial state. *)
Lemma spec_ghost {A B} (f : S → B) (m : GoM S A) P Q E :
  (∀ b, spec (λ s, P s ∧ f s = b) m Q E) → spec P m Q E.
Proof. intros H s Hs. by apply (H (f s)). Qed.

Lemma spec_when (b : bool) (m : GoM S unit) P Q E :
  (b = true → spec P m (λ _, Q) E) → (b = false → ∀ s, P s → Q s) → spec P (when b m) (λ _, Q) E.
Proof. intros Ht Hf. unfold when. destruct b; [by apply Ht|]. intros s Hs. by apply Hf. Qed.

(** A fact about the results so far moves to the context. *)
Lemma spec_pure {A} (φ : Prop) (m : GoM S A) P Q E :
  (φ → spec P m Q E) → spec (λ s, φ ∧ P s) m Q E.
Proof. intros H s [Hφ Hs]. by apply H. Qed.

Lemma wrap_err_spec {A} pre (m : GoM S A) P Q E : spec P m Q E → spec P (wrap_err pre m) Q E.
Proof. intros Hm s Hs. specialize (Hm s Hs). unfold wrap_err. by destruct (m s) as [s' [e|a]]. Qed.

Lemma spec_attempt {A} (m : GoM S A) P Q E E' :
  spec P m Q E → spec P (attempt m) (λ r s, match r with inl _ => E s | inr a => Q a s end) E'.
Proof.
  intros Hm s Hs. specialize (Hm s Hs). unfold attempt. by destruct (m s) as [s' [e|a]].
Qed.
End spec.
