(* ===== verification/StableSort.v ===== *)
(** * Stable sorting, as used through [sort.SliceStable]

    [sort.SliceStable(x, less)] returns the unique stable rearrangement of [x]
    when [less] is a strict weak order.  It is modelled by insertion sort, and
    this file proves what the callers rely on: the result is a permutation, it
    is ordered, equal keys keep their order, and for a total [less] the result
    does not depend on the order of the input (so that a slice filled by
    ranging over a Go map sorts deterministically). *)

From S2P Require Import Prelude.

(** A strict weak order, the contract of a [less] function. *)
Class StrictWeakOrder {A} (less : A → A → bool) : Prop := {
  swo_irrefl x : less x x = false;
  swo_trans x y z : less x y = true → less y z = true → less x z = true;
  swo_ntrans x y z : less x y = false → less y z = false → less x z = false;
}.

Section sort.
Context {A : Type} (less : A → A → bool).

Fixpoint insert_stable (x : A) (l : list A) : list A :=
  match l with
  | [] => [x]
  | y :: l' => if less y x then y :: insert_stable x l' else x :: l
  end.

Fixpoint SliceStable (l : list A) : list A :=
  match l with
  | [] => []
  | x :: l' => insert_stable x (SliceStable l')
  end.

(** [x] may stand before [y]. *)
Definition not_after (x y : A) : Prop := less y x = false.

Lemma insert_stable_perm x l : insert_stable x l ≡ₚ x :: l.
Proof.
  induction l as [|y l IH]; simpl; [done|].
  destruct (less y x); [|done]. rewrite IH. apply Permutation_swap.
Qed.

Lemma SliceStable_perm l : SliceStable l ≡ₚ l.
Proof.
  induction l as [|x l IH]; simpl; [done|]. by rewrite insert_stable_perm, IH.
Qed.

Lemma SliceStable_elem x l : x ∈ SliceStable l ↔ x ∈ l.
Proof. by rewrite SliceStable_perm. Qed.

Lemma SliceStable_length l : length (SliceStable l) = length l.
Proof. by rewrite SliceStable_perm. Qed.

Context `{!StrictWeakOrder less}.

Lemma less_asym x y : less x y = true → less y x = false.
Proof.
  intros Hxy. destruct (less y x) eqn:Hyx; [|done].
  pose proof (swo_trans x y x Hxy Hyx). by rewrite swo_irrefl in *.
Qed.

Lemma insert_stable_sorted x l :
  StronglySorted not_after l → StronglySorted not_after (insert_stable x l).
Proof.
  induction l as [|y l IH]; intros Hs; simpl; [by repeat constructor|].
  inversion_clear Hs as [|?? Hs' Hall]. destruct (less y x) eqn:Hyx.
  - constructor; [by apply IH|]. rewrite Forall_forall in *. intros z.
    rewrite insert_stable_perm, elem_of_cons.
    intros [->|Hz]; [by apply less_asym | by apply Hall].
  - constructor; [by constructor|]. constructor; [done|].
    rewrite Forall_forall in *. intros z Hz.
    unfold not_after in *. eapply swo_ntrans; eauto.
Qed.

Lemma SliceStable_sorted l : StronglySorted not_after (SliceStable l).
Proof. induction l; simpl; [constructor | by apply insert_stable_sorted]. Qed.

(** Elements that compare equal keep their relative order. *)
Lemma insert_stable_filter x l (P : A → Prop) `{∀ z, Decision (P z)} :
  (∀ y, y ∈ l → P x → P y → less y x = false) →
  filter P (insert_stable x l) = filter P (x :: l).
Proof.
  induction l as [|y l IH]; intros Heq; simpl; [done|].
  destruct (less y x) eqn:Hyx; [|done].
  rewrite !filter_cons, IH by set_solver. rewrite filter_cons.
  destruct (decide (P x)), (decide (P y)); try done.
  rewrite Heq in Hyx; set_solver.
Qed.

Lemma SliceStable_stable k l :
  let equal z := less k z = false ∧ less z k = false in
  filter equal (SliceStable l) = filter equal l.
Proof.
  simpl. induction l as [|x l IH]; simpl; [done|].
  rewrite insert_stable_filter, !filter_cons, IH; [done|].
  intros y _ [Hkx Hxk] [Hky Hyk]. by eapply swo_ntrans.
Qed.

(** Sorting commutes with dropping elements. *)
Lemma insert_stable_drop x l (P : A → Prop) `{∀ z, Decision (P z)} :
  StronglySorted not_after l →
  filter P (insert_stable x l) = if decide (P x) then insert_stable x (filter P l) else filter P l.
Proof.
  induction 1 as [|y l Hs IH Hall]; simpl; [by rewrite filter_cons|].
  destruct (less y x) eqn:Hyx; rewrite !filter_cons; [rewrite IH|].
  - destruct (decide (P y)), (decide (P x)); simpl; by rewrite ?Hyx.
  - destruct (decide (P x)); [|done]. destruct (decide (P y)); simpl; [by rewrite Hyx|].
    destruct (filter P l) as [|z l'] eqn:Hf; simpl; [done|].
    assert (Hz : z ∈ l) by (apply (list_elem_of_filter P); rewrite Hf; left).
    rewrite Forall_forall in Hall. by rewrite (swo_ntrans z y x (Hall z Hz) Hyx).
Qed.

Lemma SliceStable_filter l (P : A → Prop) `{∀ z, Decision (P z)} :
  filter P (SliceStable l) = SliceStable (filter P l).
Proof.
  induction l as [|x l IH]; simpl; [done|].
  rewrite insert_stable_drop, filter_cons, IH by apply SliceStable_sorted. by destruct (decide (P x)).
Qed.

(** A total [less] has one sorted arrangement per set of elements. *)
Lemma SliceStable_unique l1 l2 :
  (∀ x y, x ∈ l1 → y ∈ l1 → less x y = false → less y x = false → x = y) →
  l1 ≡ₚ l2 → SliceStable l1 = SliceStable l2.
Proof.
  intros Htot Hp.
  apply (StronglySorted_unique_strong not_after); [|apply SliceStable_sorted..|].
  - intros x y. rewrite !SliceStable_elem, <-Hp. unfold not_after. eauto.
  - by rewrite !SliceStable_perm.
Qed.

Lemma SliceStable_sorted_id l : StronglySorted not_after l → SliceStable l = l.
Proof.
  induction 1 as [|x l Hs IH Hall]; simpl; [done|]. rewrite IH.
  destruct Hall as [|y l Hxy Hall]; simpl; [done|]. by rewrite Hxy.
Qed.
End sort.

(** ** String order *)

Definition string_less (s t : string) : bool := String.ltb s t.

Lemma string_less_leb s t : string_less s t = negb (String.leb t s).
Proof.
  unfold string_less, String.ltb, String.leb. rewrite String.compare_antisym.
  by destruct (String.compare t s).
Qed.

#[export] Instance string_less_swo : StrictWeakOrder string_less.
Proof.
  assert (Htr : ∀ x y z, String.leb x y = true → String.leb y z = true → String.leb x z = true).
  { intros x y z H1 H2. apply Is_true_true. eapply (transitivity (R:=String.le)); apply Is_true_true; eauto. }
  split.
  - intros x. rewrite string_less_leb.
    destruct (String.leb_total x x) as [->| ->]; done.
  - intros x y z. rewrite !string_less_leb, !negb_true_iff. intros H1 H2.
    destruct (String.leb z x) eqn:H3; [|done].
    destruct (String.leb_total y z) as [H4|H4]; [|congruence].
    rewrite <-H1. symmetry. eauto.
  - intros x y z. rewrite !string_less_leb, !negb_false_iff. eauto.
Qed.

Lemma string_less_total s t : string_less s t = false → string_less t s = false → s = t.
Proof.
  rewrite !string_less_leb, !negb_false_iff. intros. by apply String.leb_antisym.
Qed.

(** ** Orders by key *)

(** Order first by an integer key and, where it ties, by a string key. *)
Definition less_by {A} (key : A → Z) (id : A → string) (x y : A) : bool :=
  if (key x =? key y)%Z then string_less (id x) (id y) else (key x <? key y)%Z.

#[export] Instance less_by_swo {A} (key : A → Z) (id : A → string) : StrictWeakOrder (less_by key id).
Proof.
  split; unfold less_by.
  - intros x. rewrite Z.eqb_refl. apply swo_irrefl.
  - intros x y z. repeat case_match; rewrite ?Z.eqb_eq, ?Z.eqb_neq, ?Z.ltb_lt in *; try lia.
    apply swo_trans.
  - intros x y z. repeat case_match; rewrite ?Z.eqb_eq, ?Z.eqb_neq, ?Z.ltb_ge in *; try lia.
    apply swo_ntrans.
Qed.

Lemma less_by_total {A} (key : A → Z) (id : A → string) x y :
  less_by key id x y = false → less_by key id y x = false → id x = id y.
Proof.
  unfold less_by. rewrite (Z.eqb_sym (key y)). case_match; [apply string_less_total|].
  rewrite Z.eqb_neq, ?Z.ltb_ge in *. lia.
Qed.

Definition less_key {A} (key : A → Z) (x y : A) : bool := (key x <? key y)%Z.
Definition less_id {A} (id : A → string) (x y : A) : bool := string_less (id x) (id y).

#[export] Instance less_key_swo {A} (key : A → Z) : StrictWeakOrder (less_key key).
Proof. split; unfold less_key; intros; rewrite ?Z.ltb_lt, ?Z.ltb_ge in *; lia. Qed.

#[export] Instance less_id_swo {A} (id : A → string) : StrictWeakOrder (less_id id).
Proof. split; unfold less_id; intros *; [apply swo_irrefl | apply swo_trans | apply swo_ntrans]. Qed.

(** Where elements tie by [key] they stand in the order of [id]; then sorting
    by [key] alone is sorting by both. *)
Definition ties_by_id {A} (key : A → Z) (id : A → string) : list A → Prop :=
  StronglySorted (λ x y, key x = key y → string_less (id y) (id x) = false).

Lemma insert_less_key {A} (key : A → Z) (id : A → string) x l :
  Forall (λ y, key x = key y → string_less (id y) (id x) = false) l →
  insert_stable (less_key key) x l = insert_stable (less_by key id) x l.
Proof.
  induction 1 as [|y l Hy Hl IH]; simpl; [done|]. rewrite IH. unfold less_key, less_by.
  destruct (Z.eqb_spec (key y) (key x)) as [Heq|_]; [|done]. by rewrite Heq, Z.ltb_irrefl, Hy.
Qed.

Lemma SliceStable_less_key {A} (key : A → Z) (id : A → string) l :
  ties_by_id key id l → SliceStable (less_key key) l = SliceStable (less_by key id) l.
Proof.
  induction 1 as [|x l Hs IH Hall]; simpl; [done|]. rewrite IH. apply insert_less_key.
  rewrite Forall_forall in *. intros y Hy. apply Hall. by apply SliceStable_elem in Hy.
Qed.

Lemma SliceStable_fmap {A B} (f : A → B) (less : A → A → bool) (less' : B → B → bool) l :
  (∀ x y, less' (f x) (f y) = less x y) → SliceStable less' (f <$> l) = f <$> SliceStable less l.
Proof.
  intros Hf. induction l as [|x l IH]; [done|]. rewrite fmap_cons. cbn [SliceStable]. rewrite IH.
  generalize (SliceStable less l). clear l IH. intros l. induction l as [|y l IH]; [done|].
  rewrite fmap_cons. cbn [insert_stable]. rewrite Hf, IH. by destruct (less y x).
Qed.
