(* ===== verification/GoStrings.v ===== *)
(** * The parts of Go's [strings], [bufio] and [strconv] the program uses

    Go strings are byte strings; they are modelled by [string], one [ascii]
    per byte.  White space is [unicode.IsSpace], so besides the six ASCII
    spaces the UTF-8 encodings of the Unicode spaces count. *)

From Stdlib Require Import Ascii.
From S2P Require Import Prelude.

Definition byte_of (n : nat) : ascii := ascii_of_nat n.
Definition bytes (l : list nat) : list ascii := byte_of <$> l.

(** UTF-8 encodings of the runes for which [unicode.IsSpace] holds. *)
Definition space_runes : list (list ascii) :=
  Eval vm_compute in
  (bytes <$> ([[9]; [10]; [11]; [12]; [13]; [32]; [194; 133]; [194; 160]; [225; 154; 128]] ++
   ((λ n, [226; 128; n]) <$> (seq 128 11)) ++
   [[226; 128; 168]; [226; 128; 169]; [226; 128; 175]; [226; 129; 159]; [227; 128; 128]]))%nat.

Fixpoint strip_prefix (p l : list ascii) : option (list ascii) :=
  match p, l with
  | [], _ => Some l
  | c :: p', d :: l' => if Ascii.eqb c d then strip_prefix p' l' else None
  | _ :: _, [] => None
  end.

(** The rest of [l] after a leading space rune from [runes]. *)
Fixpoint strip_one (runes : list (list ascii)) (l : list ascii) : option (list ascii) :=
  match runes with
  | [] => None
  | r :: rs => match strip_prefix r l with Some l' => Some l' | None => strip_one rs l end
  end.

Fixpoint trim_front (fuel : nat) (runes : list (list ascii)) (l : list ascii) : list ascii :=
  match fuel with
  | O => l
  | S n => match strip_one runes l with Some l' => trim_front n runes l' | None => l end
  end.

Definition trim_list (l : list ascii) : list ascii :=
  let front := trim_front (length l) space_runes l in
  reverse (trim_front (length front) (reverse <$> space_runes) (reverse front)).

(** [strings.TrimSpace] *)
Definition TrimSpace (s : string) : string :=
  String.string_of_list_ascii (trim_list (String.list_ascii_of_string s)).

(** [strings.Fields]: [skip] bytes of a space rune remain to be dropped. *)
Fixpoint fields_go (skip : nat) (cur : list ascii) (l : list ascii) : list (list ascii) :=
  match l with
  | [] => match cur with [] => [] | _ => [reverse cur] end
  | c :: l' =>
      match skip with
      | S n => fields_go n cur l'
      | O =>
          match strip_one space_runes l with
          | Some rest =>
              let drop := (length l - length rest - 1)%nat in
              match cur with
              | [] => fields_go drop [] l'
              | _ => reverse cur :: fields_go drop [] l'
              end
          | None => fields_go 0 (c :: cur) l'
          end
      end
  end.

Definition Fields (s : string) : list string :=
  String.string_of_list_ascii <$> fields_go 0 [] (String.list_ascii_of_string s).

(** [strings.Cut(s, sep)] for a one-byte separator. *)
Fixpoint Cut (sep : ascii) (s : string) : option (string * string) :=
  match s with
  | EmptyString => None
  | String c s' =>
      if Ascii.eqb c sep then Some (EmptyString, s')
      else match Cut sep s' with
           | Some (before, after) => Some (String c before, after)
           | None => None
           end
  end.

(** [strings.HasPrefix] *)
Definition HasPrefix (s p : string) : bool := String.prefix p s.

(** [strings.ContainsAny] for a set of bytes. *)
Definition ContainsAny (s chars : string) : bool :=
  existsb (λ c, existsb (Ascii.eqb c) (String.list_ascii_of_string chars))
    (String.list_ascii_of_string s).

Definition is_upper (c : ascii) : bool :=
  (65 <=? nat_of_ascii c)%nat && (nat_of_ascii c <=? 90)%nat.
Definition is_digit (c : ascii) : bool :=
  (48 <=? nat_of_ascii c)%nat && (nat_of_ascii c <=? 57)%nat.
Definition digit_val (c : ascii) : Z := Z.of_nat (nat_of_ascii c) - 48.

Definition lower (c : ascii) : ascii :=
  if is_upper c then ascii_of_nat (nat_of_ascii c + 32) else c.

(** [strings.ToLower], as far as the comparison with ASCII words goes: the
    capital I with dot above (bytes C4 B0) also lowers to [i]. *)
Fixpoint to_lower_list (l : list ascii) : list ascii :=
  match l with
  | c :: ((d :: l') as tl) =>
      if Ascii.eqb c (byte_of 196) && Ascii.eqb d (byte_of 176)
      then "i"%char :: to_lower_list l'
      else lower c :: to_lower_list tl
  | [c] => [lower c]
  | [] => []
  end.
Definition ToLower (s : string) : string :=
  String.string_of_list_ascii (to_lower_list (String.list_ascii_of_string s)).

(** [strings.EqualFold] against an ASCII word none of whose letters has a
    non-ASCII case folding. *)
Definition EqualFold (s word : string) : bool :=
  bool_decide (map lower (String.list_ascii_of_string s) = map lower (String.list_ascii_of_string word)).

(** ** [bufio.Scanner] with [ScanLines] *)

Definition newline : ascii := "010"%char.
Definition carriage_return : ascii := "013"%char.
Definition MaxScanTokenSize : Z := 65536.

Fixpoint split_lines (cur : list ascii) (l : list ascii) : list (list ascii) :=
  match l with
  | [] => match cur with [] => [] | _ => [reverse cur] end
  | c :: l' =>
      if Ascii.eqb c newline then reverse cur :: split_lines [] l' else split_lines (c :: cur) l'
  end.

Definition drop_cr (l : list ascii) : list ascii :=
  match reverse l with
  | c :: r => if Ascii.eqb c carriage_return then reverse r else l
  | [] => l
  end.

(** The lines produced before the end of the data or before a line that does
    not fit the scanner's buffer, and whether the latter happened. *)
Fixpoint scan_lines (lines : list (list ascii)) : list string * option error :=
  match lines with
  | [] => ([], None)
  | l :: ls =>
      if (Z.of_nat (length l) <? MaxScanTokenSize)%Z
      then let '(toks, err) := scan_lines ls in
           (String.string_of_list_ascii (drop_cr l) :: toks, err)
      else ([], Some (Sentinel "bufio.ErrTooLong" "bufio.Scanner: token too long"))
  end.

Definition Scanner (data : string) : list string * option error :=
  scan_lines (split_lines [] (String.list_ascii_of_string data)).

(** ** [strconv.ParseInt(s, 10, 64)] *)

Fixpoint parse_digits (acc : Z) (l : list ascii) : option Z :=
  match l with
  | [] => Some acc
  | c :: l' => if is_digit c then parse_digits (acc * 10 + digit_val c) l' else None
  end.

Definition ParseInt (s : string) : option Z :=
  let body (l : list ascii) := match l with [] => None | _ => parse_digits 0 l end in
  let v := match String.list_ascii_of_string s with
           | [] => None
           | c :: l => if Ascii.eqb c "+"%char then body l
                       else if Ascii.eqb c "-"%char then Z.opp <$> body l
                       else body (c :: l)
           end in
  match v with
  | Some n => if (min_int64 <=? n)%Z && (n <=? max_int64)%Z then Some n else None
  | None => None
  end.

(** ** [strconv.ParseFloat(s, 64)] *)

Definition hex_val (c : ascii) : option Z :=
  let n := Z.of_nat (nat_of_ascii (lower c)) in
  if is_digit c then Some (digit_val c)
  else if (97 <=? n)%Z && (n <=? 102)%Z then Some (n - 87)%Z else None.

Definition digit_in (hex : bool) (c : ascii) : option Z :=
  if hex then hex_val c else if is_digit c then Some (digit_val c) else None.

(** Mantissa digits with at most one point; underscores are passed over.
    Yields the mantissa, the number of digits after the point, whether a
    digit was seen, whether an underscore was seen, and the rest. *)
Fixpoint read_mantissa (hex dot digits under : bool) (m : Z) (frac : Z) (l : list ascii)
    : Z * Z * bool * bool * list ascii :=
  match l with
  | [] => (m, frac, digits, under, [])
  | c :: l' =>
      if Ascii.eqb c "_"%char then read_mantissa hex dot digits true m frac l'
      else if Ascii.eqb c "."%char then
        if dot then (m, frac, digits, under, l) else read_mantissa hex true digits under m frac l'
      else match digit_in hex c with
           | Some v =>
               read_mantissa hex dot true under (m * (if hex then 16 else 10) + v)
                 (if dot then frac + 1 else frac)%Z l'
           | None => (m, frac, digits, under, l)
           end
  end.

Fixpoint read_exponent (under : bool) (e : Z) (l : list ascii) : Z * bool * list ascii :=
  match l with
  | [] => (e, under, [])
  | c :: l' =>
      if is_digit c then read_exponent under (if (e <? 10000)%Z then e * 10 + digit_val c else e)%Z l'
      else if Ascii.eqb c "_"%char then read_exponent true e l'
      else (e, under, l)
  end.

(** Where an underscore may stand: between digits, a base prefix counting as one. *)
Fixpoint underscores_go (hex : bool) (prev : ascii) (l : list ascii) : bool :=
  match l with
  | [] => negb (Ascii.eqb prev "_"%char)
  | c :: l' =>
      if (match digit_in hex c with Some _ => true | None => false end)
      then underscores_go hex "0"%char l'
      else if Ascii.eqb c "_"%char
      then Ascii.eqb prev "0"%char && underscores_go hex "_"%char l'
      else if Ascii.eqb prev "_"%char then false else underscores_go hex "!"%char l'
  end.

Definition split_sign (l : list ascii) : bool * list ascii :=
  match l with
  | c :: l' => if Ascii.eqb c "-"%char then (true, l')
               else if Ascii.eqb c "+"%char then (false, l') else (false, l)
  | [] => (false, [])
  end.

(** [0x] with at least one more byte *)
Definition split_hex (l : list ascii) : bool * list ascii :=
  match l with
  | z :: x :: ((_ :: _) as l') =>
      if Ascii.eqb z "0"%char && Ascii.eqb (lower x) "x"%char then (true, l') else (false, l)
  | _ => (false, l)
  end.

(** The base prefixes [underscoreOK] recognises. *)
Definition underscoreOK (l : list ascii) : bool :=
  match l with
  | z :: x :: l' =>
      let b := lower x in
      if Ascii.eqb z "0"%char && (Ascii.eqb b "b"%char || Ascii.eqb b "o"%char || Ascii.eqb b "x"%char)
      then underscores_go (Ascii.eqb b "x"%char) "0"%char l'
      else underscores_go false "^"%char l
  | _ => underscores_go false "^"%char l
  end.

(** Correctly rounded [(-1)^neg * m * 10^e]. *)
Definition decimal_value (neg : bool) (m e : Z) : float64 :=
  match m with
  | Zpos p =>
      if (0 <=? e)%Z then binary_normalize 53 1024 ((if neg then -1 else 1) * (m * 10 ^ e)) 0 neg
      else match (10 ^ (- e))%Z with
           | Zpos q => SFdiv 53 1024 (S754_finite neg p 0) (S754_finite false q 0)
           | _ => S754_nan
           end
  | _ => S754_zero neg
  end.

Definition hex_value (neg : bool) (m e : Z) : float64 :=
  binary_normalize 53 1024 (if neg then - m else m)%Z e neg.

Definition parse_number (all : list ascii) : option float64 :=
  let '(neg, body) := split_sign all in
  let '(hex, l) := split_hex body in
  let '(m, frac, digits, under, rest) := read_mantissa hex false false false 0 0 l in
  if negb digits then None
  else
    let finish (e : Z) (under : bool) :=
      if under && negb (underscoreOK body) then None
      else Some (if hex then hex_value neg m (e - 4 * frac) else decimal_value neg m (e - frac)) in
    match rest with
    | [] => if hex then None else finish 0%Z under
    | c :: rest' =>
        if Ascii.eqb (lower c) (if hex then "p"%char else "e"%char) then
          let '(eneg, ds) := split_sign rest' in
          match ds with
          | d :: _ =>
              if is_digit d then
                let '(e, under', tail) := read_exponent under 0 ds in
                match tail with
                | [] => finish (if eneg then - e else e)%Z under'
                | _ => None
                end
              else None
          | [] => None
          end
        else None
    end.

Definition ParseFloat (s : string) : option float64 :=
  let l := String.list_ascii_of_string s in
  let '(neg, body) := split_sign l in
  let word := String.string_of_list_ascii (lower <$> body) in
  if bool_decide (word = "inf") || bool_decide (word = "infinity") then Some (S754_infinity neg)
  else if bool_decide (String.string_of_list_ascii (lower <$> l) = "nan") then Some S754_nan
  else match parse_number l with
       | Some (S754_infinity _) => None
       | r => r
       end.

Example ParseFloat_percent : ParseFloat "87.5" = Some (S754_finite false 6157265115545600 (-46)).
Proof. vm_compute. reflexivity. Qed.
Example ParseFloat_tenth : ParseFloat "0.1" = Some (S754_finite false 7205759403792794 (-56)).
Proof. vm_compute. reflexivity. Qed.
Example ParseFloat_nan : ParseFloat "NaN" = Some S754_nan.
Proof. vm_compute. reflexivity. Qed.
Example ParseFloat_hex : ParseFloat "0x1p-2" = ParseFloat "0.25".
Proof. vm_compute. reflexivity. Qed.
Example ParseFloat_exponent : ParseFloat "-1_2.5e+1" = Some (float64_of_int (-125)).
Proof. vm_compute. reflexivity. Qed.
Example ParseFloat_overflow : ParseFloat "1e400" = None.
Proof. vm_compute. reflexivity. Qed.
Example Fields_status : Fields "  OL  CHRG LB " = ["OL"; "CHRG"; "LB"].
Proof. vm_compute. reflexivity. Qed.
Example TrimSpace_both : TrimSpace "  ups.status 	" = "ups.status".
Proof. vm_compute. reflexivity. Qed.
