(* ===== verification/GoStringFacts.v ===== *)
(** * Facts about trimming, cutting, fields and lines

    What [GoStrings] does on ordinary ASCII text: the shape of the output of
    the tools the agent runs and of the files it keeps. *)

From Stdlib Require Import Ascii.
From S2P Require Import Prelude GoStrings.

(** A visible ASCII character. *)
Definition visible (c : ascii) : Prop := (33 ≤ nat_of_ascii c ≤ 126)%nat.

#[export] Instance visible_dec c : Decision (visible c).
Proof. unfold visible. apply _. Defined.

Definition space : ascii := " "%char.

Lemma list_of_append s t :
  String.list_ascii_of_string (s +:+ t) = String.list_ascii_of_string s ++ String.list_ascii_of_string t.
Proof. induction s as [|c s IH]; [done|]. simpl. by rewrite IH. Qed.

Lemma length_chars s : length (String.list_ascii_of_string s) = String.length s.
Proof. induction s as [|c s IH]; [done|]. simpl. by rewrite IH. Qed.

(** ** Space runes *)

Lemma strip_one_visible (runes : list (list ascii)) c l :
  visible c → Forall (λ r, ∃ d r', r = d :: r' ∧ ¬ visible d) runes → strip_one runes (c :: l) = None.
Proof.
  intros Hc. induction 1 as [|r runes (d & r' & -> & Hd) _ IH]; [done|]. cbn [strip_one].
  assert (Hs : strip_prefix (d :: r') (c :: l) = None).
  { cbn [strip_prefix]. by destruct (Ascii.eqb_spec d c) as [->|]. }
  by rewrite Hs.
Qed.

Lemma invisible_heads (runes : list (list ascii)) :
  forallb (λ r, match r with d :: _ => negb (bool_decide (visible d)) | [] => false end) runes = true →
  Forall (λ r, ∃ d r', r = d :: r' ∧ ¬ visible d) runes.
Proof.
  induction runes as [|[|d r] runes IH]; simpl; intros Hr; [constructor|done|].
  apply andb_true_iff in Hr as [Hd Hr]. constructor; [|auto].
  exists d, r. split; [done|]. apply negb_true_iff, bool_decide_eq_false in Hd. done.
Qed.

Lemma space_heads : Forall (λ r, ∃ d r', r = d :: r' ∧ ¬ visible d) space_runes.
Proof. apply invisible_heads. vm_compute. reflexivity. Qed.
Lemma space_lasts : Forall (λ r, ∃ d r', r = d :: r' ∧ ¬ visible d) (reverse <$> space_runes).
Proof. apply invisible_heads. vm_compute. reflexivity. Qed.

(** ** Trimming *)

Lemma trim_front_visible n runes c l :
  visible c → Forall (λ r, ∃ d r', r = d :: r' ∧ ¬ visible d) runes → trim_front n runes (c :: l) = c :: l.
Proof. intros Hc Hr. destruct n; [done|]. cbn [trim_front]. by rewrite strip_one_visible. Qed.

(** A blank of one byte. *)
Definition blank (c : ascii) : Prop := c = space ∨ c = newline.

Lemma strip_one_blank c l : blank c → strip_one space_runes (c :: l) = Some l.
Proof. by intros [->| ->]. Qed.
Lemma strip_one_blank_last c l : blank c → strip_one (reverse <$> space_runes) (c :: l) = Some l.
Proof. by intros [->| ->]. Qed.

(** Nothing to trim in front. *)
Definition starts (l : list ascii) : Prop := l = [] ∨ ∃ c l', l = c :: l' ∧ visible c.

#[export] Instance starts_dec l : Decision (starts l).
Proof.
  destruct l as [|c l']; [by left; left|]. destruct (decide (visible c)) as [Hc|Hc]; [left; right; eauto|].
  right. intros [|(d & r & [= -> ->] & Hd)]; done.
Defined.

(** Nothing to trim: empty, or visible at both ends. *)
Definition tight (l : list ascii) : Prop := starts l ∧ starts (reverse l).

#[export] Instance tight_dec l : Decision (tight l).
Proof. unfold tight. apply _. Defined.

Lemma starts_app l l' : starts l → l ≠ [] → starts (l ++ l').
Proof. intros [->|(c & r & -> & Hc)] Hne; [done|]. right. by exists c, (r ++ l'). Qed.

Lemma trim_front_blanks runes blanks : (∀ c l, blank c → strip_one runes (c :: l) = Some l) →
  Forall (λ r, ∃ d r', r = d :: r' ∧ ¬ visible d) runes → Forall blank blanks →
  ∀ l n, starts l → (length blanks ≤ n)%nat → trim_front n runes (blanks ++ l) = l.
Proof.
  intros Hstrip Hr. induction 1 as [|c blanks Hc _ IH]; intros l n Hl Hn; simpl in *.
  - destruct Hl as [->|(c & l' & -> & Hc)]; [|by apply trim_front_visible].
    destruct n; [done|]. simpl. destruct (strip_one runes []) eqn:Hs; [|done]. exfalso. revert Hs. clear -Hr.
    induction Hr as [|r runes (d & r' & -> & _) _ IH]; simpl; [done|exact IH].
  - destruct n as [|n]; [lia|]. cbn [trim_front]. rewrite Hstrip by done. apply IH; [done|lia].
Qed.

Lemma trim_list_padded before l after :
  Forall blank before → tight l → Forall blank after → trim_list (before ++ l ++ after) = l.
Proof.
  intros Hb [Hl Hl'] Ha. unfold trim_list. destruct (decide (l = [])) as [->|Hne].
  - assert (Hall : trim_front (length (before ++ [] ++ after)) space_runes (before ++ [] ++ after) = []).
    { rewrite app_nil_l. rewrite <-(app_nil_r (before ++ after)) at 2.
      apply trim_front_blanks; [exact strip_one_blank|exact space_heads|by apply Forall_app|by left|apply Nat.le_refl]. }
    by rewrite Hall.
  - rewrite (trim_front_blanks space_runes before strip_one_blank space_heads Hb (l ++ after));
      [|by apply starts_app|rewrite !length_app; lia].
    rewrite reverse_app, (trim_front_blanks _ (reverse after) strip_one_blank_last space_lasts);
      [apply reverse_involutive|by apply Forall_reverse|done|rewrite length_app, length_reverse; lia].
Qed.

Lemma visible_tight l : Forall visible l → tight l.
Proof.
  assert (Hs : ∀ r, Forall visible r → starts r) by (intros r [|c r' Hc]; [by left|right; eauto]).
  intros Hl. split; apply Hs; [done|by apply Forall_reverse].
Qed.

Lemma trim_list_newline c l : Forall visible (c :: l) → trim_list ((c :: l) ++ [newline]) = c :: l.
Proof.
  intros Hl%visible_tight. apply (trim_list_padded [] (c :: l) [newline]); [constructor|done|].
  constructor; [by right|constructor].
Qed.

(** [TrimSpace] of printed text. *)
Lemma TrimSpace_padded t before s after :
  String.list_ascii_of_string t = before ++ String.list_ascii_of_string s ++ after →
  Forall blank before → tight (String.list_ascii_of_string s) → Forall blank after → TrimSpace t = s.
Proof.
  intros Ht Hb Hs Ha. unfold TrimSpace. rewrite Ht, trim_list_padded by done.
  apply String.string_of_list_ascii_of_string.
Qed.

Lemma TrimSpace_tight s : tight (String.list_ascii_of_string s) → TrimSpace s = s.
Proof. intros Hs. apply (TrimSpace_padded s [] s []); [by rewrite app_nil_r|constructor|done|constructor]. Qed.

(** ** Cutting *)

Lemma Cut_first sep before after :
  sep ∉ String.list_ascii_of_string before → Cut sep (before +:+ (String.String sep after)) = Some (before, after).
Proof.
  induction before as [|c before IH]; simpl; intros Hn.
  - by destruct (Ascii.eqb_spec sep sep).
  - apply not_elem_of_cons in Hn as [Hc Hn]. destruct (Ascii.eqb_spec c sep) as [->|_]; [done|].
    simpl in IH. by rewrite IH.
Qed.

(** ** Lines *)

Definition one_line (l : list ascii) : Prop :=
  (newline ∉ l) ∧ (carriage_return ∉ l) ∧ (Z.of_nat (length l) < MaxScanTokenSize)%Z.

Lemma split_lines_line l rest : newline ∉ l → ∀ cur,
  split_lines cur (l ++ newline :: rest) = (reverse cur ++ l) :: split_lines [] rest.
Proof.
  induction l as [|c l IH]; intros Hn cur; cbn [app split_lines].
  - by rewrite app_nil_r.
  - apply not_elem_of_cons in Hn as [Hc Hn]. destruct (Ascii.eqb_spec c newline) as [->|_]; [done|].
    by rewrite IH, reverse_cons, <-app_assoc.
Qed.

Lemma drop_cr_id l : carriage_return ∉ l → drop_cr l = l.
Proof.
  intros Hn. unfold drop_cr. destruct (reverse l) as [|c r] eqn:Hr; [done|].
  destruct (Ascii.eqb_spec c carriage_return) as [->|_]; [|done].
  destruct Hn. apply elem_of_reverse. rewrite Hr. left.
Qed.

(** A text of complete lines. *)
Fixpoint text_of (lines : list string) : string :=
  match lines with [] => "" | l :: lines => l +:+ (String newline (text_of lines)) end.

Lemma Scanner_text lines : Forall (λ l, one_line (String.list_ascii_of_string l)) lines → Scanner (text_of lines) = (lines, None).
Proof.
  unfold Scanner. induction 1 as [|l lines (Hn & Hc & Hs) _ IH]; [done|]. cbn [text_of].
  rewrite list_of_append. cbn [String.list_ascii_of_string]. rewrite split_lines_line by done. simpl.
  rewrite (proj2 (Z.ltb_lt _ _)) by done. rewrite IH, drop_cr_id by done. by rewrite String.string_of_list_ascii_of_string.
Qed.

(** ** Fields *)

Lemma fields_go_word w rest : Forall visible w → ∀ cur, fields_go 0 cur (w ++ rest) = fields_go 0 (reverse w ++ cur) rest.
Proof.
  induction 1 as [|c w Hc _ IH]; intros cur; [done|]. cbn [app fields_go].
  rewrite strip_one_visible by (done || exact space_heads). by rewrite IH, reverse_cons, <-app_assoc.
Qed.

Definition word (w : string) : Prop := Forall visible (String.list_ascii_of_string w) ∧ w ≠ "".

Lemma Fields_words ws : Forall word ws → Fields (String.concat " " ws) = ws.
Proof.
  unfold Fields. induction 1 as [|w ws [Hw Hne] Hws IH]; [done|].
  assert (Hrev : ∃ c r, reverse (String.list_ascii_of_string w) = c :: r).
  { destruct w as [|c w]; [done|]. simpl. rewrite reverse_cons. destruct (reverse _); simpl; eauto. }
  destruct Hrev as (c & r & Hrev).
  assert (Hback : String.string_of_list_ascii (reverse (c :: r)) = w)
    by (rewrite <-Hrev, reverse_involutive; apply String.string_of_list_ascii_of_string).
  destruct ws as [|w' ws].
  - cbn [String.concat]. rewrite <-(app_nil_r (String.list_ascii_of_string w)), fields_go_word by done.
    rewrite app_nil_r, Hrev. cbn [fields_go fmap list_fmap]. by rewrite Hback.
  - change (String.concat " " (w :: w' :: ws)) with (w +:+ (String space (String.concat " " (w' :: ws)))).
    rewrite list_of_append, fields_go_word, app_nil_r, Hrev by done. cbn [String.list_ascii_of_string fields_go].
    rewrite strip_one_blank by (by left). cbn [length]. rewrite Nat.sub_succ_l, Nat.sub_diag, Nat.sub_diag by lia.
    rewrite fmap_cons, IH, Hback. done.
Qed.

(** The characters of words put together. *)
Lemma concat_words_cons w w' ws :
  String.list_ascii_of_string (String.concat " " (w :: w' :: ws)) =
  String.list_ascii_of_string w ++ space :: String.list_ascii_of_string (String.concat " " (w' :: ws)).
Proof.
  change (String.concat " " (w :: w' :: ws)) with (w +:+ (String.String space (String.concat " " (w' :: ws)))).
  by rewrite list_of_append.
Qed.

Lemma concat_words_chars ws c : Forall word ws →
  c ∈ String.list_ascii_of_string (String.concat " " ws) → visible c ∨ c = space.
Proof.
  induction 1 as [|w ws [Hw _] Hws IH]; [intros []%elem_of_nil|]. rewrite Forall_forall in Hw.
  destruct ws as [|w' ws]; [simpl; eauto|]. rewrite concat_words_cons, elem_of_app, elem_of_cons. naive_solver.
Qed.

(** A printed line is trimmed already. *)
Lemma concat_words_tight ws : Forall word ws → tight (String.list_ascii_of_string (String.concat " " ws)).
Proof.
  intros Hws.
  enough (H : tight (String.list_ascii_of_string (String.concat " " ws)) ∧
              (ws = [] ∨ String.list_ascii_of_string (String.concat " " ws) ≠ [])) by tauto.
  induction Hws as [|w ws [Hw Hne] Hws [[_ Hend] Hsome]]; [split; [by apply visible_tight|by left]|].
  assert (Hw' : String.list_ascii_of_string w ≠ []) by (by destruct w).
  destruct ws as [|w' ws]; [split; [by apply visible_tight|by right]|]. destruct Hsome as [|Hsome]; [done|].
  rewrite concat_words_cons. split; [split|right; by destruct (String.list_ascii_of_string w)].
  - apply starts_app; [|done]. by apply visible_tight.
  - rewrite reverse_app, reverse_cons, <-app_assoc. apply starts_app; [done|].
    intros H%(f_equal reverse). by rewrite reverse_involutive in H.
Qed.
