(* ===== verification/GoNet.v ===== *)
(** * Addresses ([net.ParseMAC], [net.ParseIP])

    The two parsers of Go's [net] package the agent relies on, as executable
    functions on byte strings: hardware addresses with colons, dashes or dots;
    dotted IPv4 without leading zeros; IPv6 with one ellipsis and an optional
    trailing IPv4 part.  Octets are [Z]s from 0 to 255. *)

From Stdlib Require Import Ascii.
From S2P Require Import Prelude GoStrings.

Definition colon : ascii := ":"%char.
Definition dash : ascii := "-"%char.
Definition dot : ascii := "."%char.
Definition percent : ascii := "%"%char.

(** ** Hardware addresses *)

(** [xtoi2(s, sep)]: two hexadecimal digits, then nothing or [sep]. *)
Definition xtoi2 (sep : option ascii) (l : list ascii) : option Z :=
  match l with
  | a :: b :: rest =>
      match rest with
      | c :: _ => if bool_decide (sep = Some c) then
                    match hex_val a, hex_val b with Some x, Some y => Some (16 * x + y)%Z | _, _ => None end
                  else None
      | [] => match hex_val a, hex_val b with Some x, Some y => Some (16 * x + y)%Z | _, _ => None end
      end
  | _ => None
  end.

(** [n] octets of [xx:xx:...] *)
Fixpoint mac_octets (n : nat) (sep : ascii) (l : list ascii) : option (list Z) :=
  match n with
  | O => Some []
  | S n =>
      match xtoi2 (Some sep) l, mac_octets n sep (drop 3 l) with
      | Some o, Some os => Some (o :: os)
      | _, _ => None
      end
  end.

(** [n] pairs of octets of [xxxx.xxxx...] *)
Fixpoint mac_pairs (n : nat) (l : list ascii) : option (list Z) :=
  match n with
  | O => Some []
  | S n =>
      match xtoi2 None (take 2 l), xtoi2 (Some dot) (drop 2 l), mac_pairs n (drop 5 l) with
      | Some o1, Some o2, Some os => Some (o1 :: o2 :: os)
      | _, _, _ => None
      end
  end.

Definition mac_length (n : nat) : bool := (n =? 6) || (n =? 8) || (n =? 20).

Definition ParseMAC (s : string) : option (list Z) :=
  let l := String.list_ascii_of_string s in
  let len := length l in
  if len <? 14 then None
  else if bool_decide (l !! 2 = Some colon) || bool_decide (l !! 2 = Some dash) then
    let n := (len + 1) / 3 in
    if negb ((len + 1) mod 3 =? 0) || negb (mac_length n) then None
    else mac_octets n (default colon (l !! 2)) l
  else if bool_decide (l !! 4 = Some dot) then
    let n := 2 * (len + 1) / 5 in
    if negb ((len + 1) mod 5 =? 0) || negb (mac_length n) then None
    else mac_pairs (n / 2) l
  else None.

(** ** IPv4 *)

(** [parseIPv4Fields]: the octets read, the current value, its digits, the
    rest of the text. *)
Fixpoint ipv4_fields (fields : list Z) (val : Z) (digLen : nat) (l : list ascii) : option (list Z) :=
  match l with
  | [] => if length fields <? 3 then None else if digLen =? 0 then None else Some (fields ++ [val])
  | c :: l =>
      if is_digit c then
        if (digLen =? 1) && (val =? 0)%Z then None
        else let val := (val * 10 + digit_val c)%Z in
             if (255 <? val)%Z then None else ipv4_fields fields val (S digLen) l
      else if bool_decide (c = dot) then
        if (digLen =? 0) || (length fields =? 3) then None
        else ipv4_fields (fields ++ [val]) 0 0 l
      else None
  end.

Definition parseIPv4 (l : list ascii) : option (list Z) := ipv4_fields [] 0 0 l.

(** ** IPv6 *)

(** The hexadecimal digits at the front; [None] for more than four. *)
Fixpoint hex_group (off : nat) (acc : Z) (l : list ascii) : option (nat * Z * list ascii) :=
  match l with
  | c :: l' =>
      match hex_val c with
      | Some d => if 3 <? off then None else hex_group (S off) (16 * acc + d)%Z l'
      | None => Some (off, acc, l)
      end
  | [] => Some (off, acc, [])
  end.

(** The groups read into [ip] (at most eight, [fuel]), the position of the
    ellipsis, and the text left over. *)
Fixpoint ipv6_groups (fuel : nat) (ip : list Z) (ellipsis : option nat) (s : list ascii)
  : option (list Z * option nat * list ascii) :=
  match fuel with
  | O => Some (ip, ellipsis, s)
  | S fuel =>
      match hex_group 0 0 s with
      | None => None
      | Some (off, acc, rest) =>
          if off =? 0 then None
          else if bool_decide (head rest = Some dot) then
            if bool_decide (ellipsis = None) && negb (length ip =? 12) then None
            else if 16 <? length ip + 4 then None
            else match parseIPv4 s with
                 | Some fields => Some (ip ++ fields, ellipsis, [])
                 | None => None
                 end
          else
            let ip := ip ++ [Z.shiftr acc 8; Z.land acc 255] in
            match rest with
            | [] => Some (ip, ellipsis, [])
            | c :: rest =>
                if negb (bool_decide (c = colon)) then None
                else match rest with
                | [] => None
                | c' :: rest' =>
                    if bool_decide (c' = colon) then
                      if bool_decide (ellipsis = None) then
                        match rest' with
                        | [] => Some (ip, Some (length ip), [])
                        | _ => ipv6_groups fuel ip (Some (length ip)) rest'
                        end
                      else None
                    else ipv6_groups fuel ip ellipsis rest
                end
            end
      end
  end.

(** Put zeros for the ellipsis. *)
Definition expand (ip : list Z) (ellipsis : option nat) : option (list Z) :=
  if length ip <? 16 then
    match ellipsis with
    | None => None
    | Some e => Some (take e ip ++ repeat 0%Z (16 - length ip) ++ drop e ip)
    end
  else match ellipsis with None => Some ip | Some _ => None end.

Definition parseIPv6 (s : list ascii) : option (list Z) :=
  match s with
  | c1 :: c2 :: rest =>
      if bool_decide (c1 = colon) && bool_decide (c2 = colon) then
        if bool_decide (rest = []) then Some (repeat 0%Z 16)
        else match ipv6_groups 8 [] (Some 0) rest with
             | Some (ip, ellipsis, []) => expand ip ellipsis
             | _ => None
             end
      else match ipv6_groups 8 [] None s with
           | Some (ip, ellipsis, []) => expand ip ellipsis
           | _ => None
           end
  | _ => None
  end.

(** The first character that decides the address family. *)
Fixpoint family (l : list ascii) : option ascii :=
  match l with
  | [] => None
  | c :: l => if bool_decide (c = dot) || bool_decide (c = colon) || bool_decide (c = percent)
              then Some c else family l
  end.

(** IPv4 addresses are held in their IPv6 form. *)
Definition v4InV6 : list Z := repeat 0%Z 10 ++ [255; 255]%Z.

(** [net.ParseIP]: 16 octets; an address with a zone is refused. *)
Definition ParseIP (s : string) : option (list Z) :=
  let l := String.list_ascii_of_string s in
  if bool_decide (percent ∈ l) then None
  else match family l with
       | Some c => if bool_decide (c = dot)
                   then match parseIPv4 l with Some o => Some (v4InV6 ++ o) | None => None end
                   else parseIPv6 l
       | None => None
       end.

(** [IP.To4] of 16 octets *)
Definition To4 (ip : list Z) : option (list Z) :=
  if bool_decide (take 12 ip = v4InV6) then Some (drop 12 ip) else None.

Example mac_ok : ParseMAC "00:11:32:aB:Cd:ef" = Some [0; 17; 50; 171; 205; 239]%Z.
Proof. reflexivity. Qed.
Example mac_dots : ParseMAC "0011.32ab.cdef" = Some [0; 17; 50; 171; 205; 239]%Z.
Proof. reflexivity. Qed.
Example mac_mixed : ParseMAC "00:11-32:ab:cd:ef" = None.
Proof. reflexivity. Qed.
Example ip_v4 : ParseIP "192.168.1.255" = Some (v4InV6 ++ [192; 168; 1; 255])%Z.
Proof. vm_compute. reflexivity. Qed.
Example ip_leading_zero : ParseIP "192.168.01.1" = None.
Proof. vm_compute. reflexivity. Qed.
Example ip_v6 : ParseIP "fe80::1:2" = Some ([254; 128] ++ repeat 0 10 ++ [0; 1; 0; 2])%Z.
Proof. vm_compute. reflexivity. Qed.
Example ip_mapped : ParseIP "::ffff:10.0.0.1" = Some (v4InV6 ++ [10; 0; 0; 1])%Z.
Proof. vm_compute. reflexivity. Qed.
Example ip_trailing_colon : ParseIP "1:2:3:4:5:6:7:" = None.
Proof. vm_compute. reflexivity. Qed.
