(* ===== verification/GoTime.v ===== *)
(** * Go's time formatting

    What the agent uses of package [time]'s text formats: RFC 3339 in UTC,
    and a rounded duration. *)

From S2P Require Import Prelude.

(** At least [width] digits. *)
Fixpoint zeros (n : nat) : string := match n with O => "" | S n => String.String (Ascii.ascii_of_nat 48) (zeros n) end.

Definition pad (width : nat) (n : Z) : string :=
  let s := pretty n in zeros (width - String.length s) +:+ s.

(** Year, month and day of a number of days since 0001-01-01, in the
    proleptic Gregorian calendar: 400-year eras that begin on 1 March. *)
Definition civil (days : Z) : Z * Z * Z :=
  let z := (days + 306)%Z in
  let era := (z / 146097)%Z in
  let doe := (z mod 146097)%Z in
  let yoe := ((doe - doe / 1460 + doe / 36524 - doe / 146096) / 365)%Z in
  let doy := (doe - (365 * yoe + yoe / 4 - yoe / 100))%Z in
  let mp := ((5 * doy + 2) / 153)%Z in
  let d := (doy - (153 * mp + 2) / 5 + 1)%Z in
  let m := if (mp <? 10)%Z then (mp + 3)%Z else (mp - 9)%Z in
  let y := (yoe + era * 400 + (if (m <=? 2)%Z then 1 else 0))%Z in
  (y, m, d).

(** [t.UTC().Format(time.RFC3339)] *)
Definition FormatRFC3339 (t : Time) : string :=
  let secs := (t / Second)%Z in
  let '(y, m, d) := civil (secs / 86400) in
  let s := (secs mod 86400)%Z in
  pad 4 y +:+ "-" +:+ pad 2 m +:+ "-" +:+ pad 2 d +:+ "T" +:+
  pad 2 (s / 3600) +:+ ":" +:+ pad 2 (s / 60 mod 60) +:+ ":" +:+ pad 2 (s mod 60) +:+ "Z".

(** [d.Round(time.Second).String()] of a duration that is not negative:
    halves round up, and what does not fit is the longest duration. *)
Definition RoundedSeconds (d : Duration) : string :=
  let r := (d mod Second)%Z in
  let rounded := if (r + r <? Second)%Z then (d - r)%Z else (d + Second - r)%Z in
  if (max_int64 <? rounded)%Z then "2562047h47m16.854775807s"
  else
    let s := (rounded / Second)%Z in
    let h := (s / 3600)%Z in
    let m := (s / 60 mod 60)%Z in
    if (h =? 0)%Z then
      if (m =? 0)%Z then pretty s +:+ "s" else pretty m +:+ "m" +:+ pretty (s mod 60)%Z +:+ "s"
    else pretty h +:+ "h" +:+ pretty m +:+ "m" +:+ pretty (s mod 60)%Z +:+ "s".

Example unix_epoch : FormatRFC3339 (62135596800 * Second) = "1970-01-01T00:00:00Z".
Proof. vm_compute. reflexivity. Qed.
Example leap_day : FormatRFC3339 ((62135596800 + 951827696) * Second) = "2000-02-29T12:34:56Z".
Proof. vm_compute. reflexivity. Qed.
Example first_day : FormatRFC3339 zero_time = "0001-01-01T00:00:00Z".
Proof. vm_compute. reflexivity. Qed.
Example rounded : RoundedSeconds (3723 * Second + 500 * Millisecond) = "1h2m4s".
Proof. vm_compute. reflexivity. Qed.
