(* ===== verification/PowerStateModel.v ===== *)
(** * The durable power-transaction state ([agent/internal/state/model.go])

    The data every other component works on: the canonical power states, the
    per-host shutdown and recovery states, the whole state generation, and
    [validateSemantic], the consistency rule the store enforces on every
    generation it reads or writes.  Go's string enumerations become inductive
    types with one constructor per declared constant and one for any other
    string (a decoded file, or the zero value of a missing map entry). *)

From S2P Require Import Prelude.

Definition Version : Z := 1.

Inductive PowerState : Type :=
  | BootReconcile
  | Normal
  | OnBattery
  | ShutdownCommitted
  | ShutdownInProgress
  | WaitingForAC
  | RecoveryWait
  | RecoveryStarted
  | RestoreHosts
  | FailedSafe
  | OtherPowerState (raw : string).

Inductive ShutdownState : Type :=
  | ShutdownNotRequired
  | ShutdownPlanned
  | ShutdownRequested
  | ShutdownAcknowledged
  | ShutdownCompleted
  | ShutdownUnknown
  | ShutdownFailed
  | OtherShutdownState (raw : string).

Inductive RecoveryState : Type :=
  | RecoveryNotRequired
  | RecoveryWaiting
  | RecoveryWOLSent
  | RecoveryOnline
  | RecoveryUnknown
  | RecoveryFailed
  | OtherRecoveryState (raw : string).

#[export] Instance PowerState_eq_dec : EqDecision PowerState.
Proof. solve_decision. Defined.
#[export] Instance ShutdownState_eq_dec : EqDecision ShutdownState.
Proof. solve_decision. Defined.
#[export] Instance RecoveryState_eq_dec : EqDecision RecoveryState.
Proof. solve_decision. Defined.

(** The strings the enumerations are stored as. *)
Definition PowerState_string (p : PowerState) : string :=
  match p with
  | BootReconcile => "BOOT_RECONCILE"
  | Normal => "NORMAL"
  | OnBattery => "ON_BATTERY"
  | ShutdownCommitted => "SHUTDOWN_COMMITTED"
  | ShutdownInProgress => "SHUTDOWN_IN_PROGRESS"
  | WaitingForAC => "WAITING_FOR_AC"
  | RecoveryWait => "RECOVERY_WAIT"
  | RecoveryStarted => "RECOVERY_STARTED"
  | RestoreHosts => "RESTORE_HOSTS"
  | FailedSafe => "FAILED_SAFE"
  | OtherPowerState raw => raw
  end.

Record UPSObservation : Type := mkUPSObservation {
  ob_Utility : string;
  ob_LowBattery : option bool;
  ob_FSD : option bool;
  ob_BatteryCharge : option float64;
  ob_BatteryRuntimeSeconds : option Z;
  ob_RawStatus : string;
  ob_ObservedAtWallclock : string;
}.

Record HostState : Type := mkHostState {
  hs_WasOnline : option bool;
  hs_ShutdownState : ShutdownState;
  hs_RecoveryState : RecoveryState;
  hs_ShutdownAttempts : Z;
  hs_WakeAttempts : Z;
  hs_LastActionID : string;
  hs_LastVerification : string;
  hs_LastError : string;
}.

(** The zero value: what reading a missing key of [Hosts] yields. *)
Definition zeroHostState : HostState :=
  mkHostState None (OtherShutdownState "") (OtherRecoveryState "") 0 0 "" "" "".

Record State : Type := mkState {
  st_StateVersion : Z;
  st_TransactionID : string;
  st_ParentTransactionID : string;
  st_Sequence : Z;
  st_PowerState : PowerState;
  st_ShutdownCommitted : bool;
  st_RecoveryStarted : bool;
  st_ActiveConfigRevision : string;
  st_LastUPS : option UPSObservation;
  st_OutageElapsedSeconds : Z;
  st_Hosts : option (gmap string HostState);
  st_FailedSafeReason : string;
  st_Checksum : string;
}.

#[export] Instance UPSObservation_eq_dec : EqDecision UPSObservation.
Proof. solve_decision. Defined.
#[export] Instance HostState_eq_dec : EqDecision HostState.
Proof. solve_decision. Defined.
#[export] Instance State_eq_dec : EqDecision State.
Proof. solve_decision. Defined.

(** [state.State{}] *)
Definition zeroState : State :=
  mkState 0 "" "" 0 (OtherPowerState "") false false "" None 0 None "" "".

(** [state.New] *)
Definition New (transactionID configRevision : string) : State :=
  mkState Version transactionID "" 0 BootReconcile false false configRevision None 0
    (Some ∅) "" "".

(** ** Field assignments *)

Definition hs_set_WasOnline v (h : HostState) : HostState :=
  mkHostState v (hs_ShutdownState h) (hs_RecoveryState h) (hs_ShutdownAttempts h)
    (hs_WakeAttempts h) (hs_LastActionID h) (hs_LastVerification h) (hs_LastError h).
Definition hs_set_ShutdownState v (h : HostState) : HostState :=
  mkHostState (hs_WasOnline h) v (hs_RecoveryState h) (hs_ShutdownAttempts h)
    (hs_WakeAttempts h) (hs_LastActionID h) (hs_LastVerification h) (hs_LastError h).
Definition hs_set_RecoveryState v (h : HostState) : HostState :=
  mkHostState (hs_WasOnline h) (hs_ShutdownState h) v (hs_ShutdownAttempts h)
    (hs_WakeAttempts h) (hs_LastActionID h) (hs_LastVerification h) (hs_LastError h).
Definition hs_set_ShutdownAttempts v (h : HostState) : HostState :=
  mkHostState (hs_WasOnline h) (hs_ShutdownState h) (hs_RecoveryState h) v
    (hs_WakeAttempts h) (hs_LastActionID h) (hs_LastVerification h) (hs_LastError h).
Definition hs_set_WakeAttempts v (h : HostState) : HostState :=
  mkHostState (hs_WasOnline h) (hs_ShutdownState h) (hs_RecoveryState h) (hs_ShutdownAttempts h)
    v (hs_LastActionID h) (hs_LastVerification h) (hs_LastError h).
Definition hs_set_LastActionID v (h : HostState) : HostState :=
  mkHostState (hs_WasOnline h) (hs_ShutdownState h) (hs_RecoveryState h) (hs_ShutdownAttempts h)
    (hs_WakeAttempts h) v (hs_LastVerification h) (hs_LastError h).
Definition hs_set_LastVerification v (h : HostState) : HostState :=
  mkHostState (hs_WasOnline h) (hs_ShutdownState h) (hs_RecoveryState h) (hs_ShutdownAttempts h)
    (hs_WakeAttempts h) (hs_LastActionID h) v (hs_LastError h).
Definition hs_set_LastError v (h : HostState) : HostState :=
  mkHostState (hs_WasOnline h) (hs_ShutdownState h) (hs_RecoveryState h) (hs_ShutdownAttempts h)
    (hs_WakeAttempts h) (hs_LastActionID h) (hs_LastVerification h) v.

Definition st_set_StateVersion v (s : State) : State :=
  mkState v (st_TransactionID s) (st_ParentTransactionID s) (st_Sequence s)
    (st_PowerState s) (st_ShutdownCommitted s) (st_RecoveryStarted s)
    (st_ActiveConfigRevision s) (st_LastUPS s) (st_OutageElapsedSeconds s) (st_Hosts s)
    (st_FailedSafeReason s) (st_Checksum s).
Definition st_set_TransactionID v (s : State) : State :=
  mkState (st_StateVersion s) v (st_ParentTransactionID s) (st_Sequence s) (st_PowerState s)
    (st_ShutdownCommitted s) (st_RecoveryStarted s) (st_ActiveConfigRevision s)
    (st_LastUPS s) (st_OutageElapsedSeconds s) (st_Hosts s) (st_FailedSafeReason s)
    (st_Checksum s).
Definition st_set_ParentTransactionID v (s : State) : State :=
  mkState (st_StateVersion s) (st_TransactionID s) v (st_Sequence s) (st_PowerState s)
    (st_ShutdownCommitted s) (st_RecoveryStarted s) (st_ActiveConfigRevision s)
    (st_LastUPS s) (st_OutageElapsedSeconds s) (st_Hosts s) (st_FailedSafeReason s)
    (st_Checksum s).
Definition st_set_Sequence v (s : State) : State :=
  mkState (st_StateVersion s) (st_TransactionID s) (st_ParentTransactionID s) v
    (st_PowerState s) (st_ShutdownCommitted s) (st_RecoveryStarted s)
    (st_ActiveConfigRevision s) (st_LastUPS s) (st_OutageElapsedSeconds s) (st_Hosts s)
    (st_FailedSafeReason s) (st_Checksum s).
Definition st_set_PowerState v (s : State) : State :=
  mkState (st_StateVersion s) (st_TransactionID s) (st_ParentTransactionID s)
    (st_Sequence s) v (st_ShutdownCommitted s) (st_RecoveryStarted s)
    (st_ActiveConfigRevision s) (st_LastUPS s) (st_OutageElapsedSeconds s) (st_Hosts s)
    (st_FailedSafeReason s) (st_Checksum s).
Definition st_set_ShutdownCommitted v (s : State) : State :=
  mkState (st_StateVersion s) (st_TransactionID s) (st_ParentTransactionID s)
    (st_Sequence s) (st_PowerState s) v (st_RecoveryStarted s) (st_ActiveConfigRevision s)
    (st_LastUPS s) (st_OutageElapsedSeconds s) (st_Hosts s) (st_FailedSafeReason s)
    (st_Checksum s).
Definition st_set_RecoveryStarted v (s : State) : State :=
  mkState (st_StateVersion s) (st_TransactionID s) (st_ParentTransactionID s)
    (st_Sequence s) (st_PowerState s) (st_ShutdownCommitted s) v (st_ActiveConfigRevision s)
    (st_LastUPS s) (st_OutageElapsedSeconds s) (st_Hosts s) (st_FailedSafeReason s)
    (st_Checksum s).
Definition st_set_ActiveConfigRevision v (s : State) : State :=
  mkState (st_StateVersion s) (st_TransactionID s) (st_ParentTransactionID s)
    (st_Sequence s) (st_PowerState s) (st_ShutdownCommitted s) (st_RecoveryStarted s) v
    (st_LastUPS s) (st_OutageElapsedSeconds s) (st_Hosts s) (st_FailedSafeReason s)
    (st_Checksum s).
Definition st_set_LastUPS v (s : State) : State :=
  mkState (st_StateVersion s) (st_TransactionID s) (st_ParentTransactionID s)
    (st_Sequence s) (st_PowerState s) (st_ShutdownCommitted s) (st_RecoveryStarted s)
    (st_ActiveConfigRevision s) v (st_OutageElapsedSeconds s) (st_Hosts s)
    (st_FailedSafeReason s) (st_Checksum s).
Definition st_set_OutageElapsedSeconds v (s : State) : State :=
  mkState (st_StateVersion s) (st_TransactionID s) (st_ParentTransactionID s)
    (st_Sequence s) (st_PowerState s) (st_ShutdownCommitted s) (st_RecoveryStarted s)
    (st_ActiveConfigRevision s) (st_LastUPS s) v (st_Hosts s) (st_FailedSafeReason s)
    (st_Checksum s).
Definition st_set_Hosts v (s : State) : State :=
  mkState (st_StateVersion s) (st_TransactionID s) (st_ParentTransactionID s)
    (st_Sequence s) (st_PowerState s) (st_ShutdownCommitted s) (st_RecoveryStarted s)
    (st_ActiveConfigRevision s) (st_LastUPS s) (st_OutageElapsedSeconds s) v
    (st_FailedSafeReason s) (st_Checksum s).
Definition st_set_FailedSafeReason v (s : State) : State :=
  mkState (st_StateVersion s) (st_TransactionID s) (st_ParentTransactionID s)
    (st_Sequence s) (st_PowerState s) (st_ShutdownCommitted s) (st_RecoveryStarted s)
    (st_ActiveConfigRevision s) (st_LastUPS s) (st_OutageElapsedSeconds s) (st_Hosts s) v
    (st_Checksum s).
Definition st_set_Checksum v (s : State) : State :=
  mkState (st_StateVersion s) (st_TransactionID s) (st_ParentTransactionID s)
    (st_Sequence s) (st_PowerState s) (st_ShutdownCommitted s) (st_RecoveryStarted s)
    (st_ActiveConfigRevision s) (st_LastUPS s) (st_OutageElapsedSeconds s) (st_Hosts s)
    (st_FailedSafeReason s) v.

(** ** The host map

    [Hosts] is a Go map: a nil map reads as empty. *)

Definition hosts_of (s : State) : gmap string HostState := default ∅ (st_Hosts s).

(** [st.Hosts[id]] *)
Definition host_at (s : State) (id : string) : HostState := default zeroHostState (hosts_of s !! id).

(** [st.Hosts[id] = hs] *)
Definition st_put_host (id : string) (hs : HostState) (s : State) : State :=
  st_set_Hosts (Some (<[id := hs]> (hosts_of s))) s.

(** [cloneState] ([agent/internal/orchestrator/controller.go]): the copy has a map of its own. *)
Definition cloneState (s : State) : State := st_set_Hosts (Some (hosts_of s)) s.

(** ** Semantic validity of a generation ([agent/internal/state/store.go]) *)

Definition validateSemantic (s : State) : option error :=
  if negb (st_StateVersion s =? Version)%Z
  then Some (Errorf ("unsupported state version " +:+ pretty (st_StateVersion s)))
  else if bool_decide (st_TransactionID s = "")
  then Some (Errorf "transaction_id is required")
  else if bool_decide (st_ActiveConfigRevision s = "")
  then Some (Errorf "active_config_revision is required")
  else if bool_decide (st_Hosts s = None)
  then Some (Errorf "hosts map is required")
  else if st_RecoveryStarted s && negb (st_ShutdownCommitted s)
  then Some (Errorf "recovery_started requires shutdown_committed")
  else if bool_decide (st_PowerState s = RestoreHosts) && negb (st_RecoveryStarted s)
  then Some (Errorf "RESTORE_HOSTS requires recovery_started")
  else None.

(** What [validateSemantic] accepts, as a proposition. *)
Record valid_state (s : State) : Prop := {
  valid_version : st_StateVersion s = Version;
  valid_transaction : st_TransactionID s ≠ "";
  valid_revision : st_ActiveConfigRevision s ≠ "";
  valid_hosts : is_Some (st_Hosts s);
  valid_recovery : st_RecoveryStarted s = true → st_ShutdownCommitted s = true;
  valid_restore : st_PowerState s = RestoreHosts → st_RecoveryStarted s = true;
}.

Lemma validateSemantic_spec s : validateSemantic s = None ↔ valid_state s.
Proof.
  unfold validateSemantic. split.
  - intros H. repeat (case_match; try done).
    repeat match goal with
    | H : bool_decide _ = false |- _ => apply bool_decide_eq_false in H
    | H : negb _ = false |- _ => apply negb_false_iff in H
    | H : (_ =? _)%Z = true |- _ => apply Z.eqb_eq in H
    end.
    split; try done.
    + destruct (st_Hosts s); [by eexists | done].
    + intros Hr. destruct (st_ShutdownCommitted s); [done | by rewrite Hr in *].
    + intros Hp. destruct (st_RecoveryStarted s); [done|].
      rewrite bool_decide_true in *; done.
  - intros [Hv Ht Hr [m Hm] Hrec Hres].
    rewrite (proj2 (Z.eqb_eq _ _) Hv). simpl.
    rewrite !bool_decide_false by (try done; congruence).
    destruct (st_RecoveryStarted s); simpl.
    + rewrite Hrec by done. simpl. by rewrite andb_false_r.
    + rewrite bool_decide_false; [done|]. intros Hp. by specialize (Hres Hp).
Qed.

Lemma host_at_put id id' hs s :
  host_at (st_put_host id hs s) id' = if decide (id = id') then hs else host_at s id'.
Proof.
  unfold host_at, st_put_host, hosts_of. simpl. rewrite lookup_insert. by case_decide.
Qed.

Lemma host_at_put_eq id hs s : host_at (st_put_host id hs s) id = hs.
Proof. rewrite host_at_put. by case_decide. Qed.

Lemma host_at_put_ne id id' hs s : id ≠ id' → host_at (st_put_host id hs s) id' = host_at s id'.
Proof. intros. rewrite host_at_put. by case_decide. Qed.

Lemma hosts_of_put id hs s : hosts_of (st_put_host id hs s) = <[id := hs]> (hosts_of s).
Proof. done. Qed.

Lemma hosts_of_clone s : hosts_of (cloneState s) = hosts_of s.
Proof. done. Qed.

Lemma host_at_clone s id : host_at (cloneState s) id = host_at s id.
Proof. done. Qed.
