(* ===== verification/Nut.v ===== *)
(** * NUT client: status normalization and the FSD request ([agent/internal/nut])

    [ParseUPSC] turns the text printed by [upsc] into a [Status];
    [ValidatePrimaryMonitor] decides from [upsmon.conf] whether this process
    may ask upsmon for a forced shutdown; [Query] and [RequestFSD] are the two
    operations built on them.  The process runner is an argument: it is given
    the time allowed and the command line, and answers with its output and
    error; that it stops in time is its business. *)

From Stdlib Require Import Ascii.
From S2P Require Import Prelude GoStrings.

Inductive UtilityState : Type :=
  | UtilityOnline
  | UtilityOnBattery
  | UtilityUnknown
  | OtherUtility (raw : string).

#[export] Instance UtilityState_eq_dec : EqDecision UtilityState.
Proof. solve_decision. Defined.

Definition UtilityState_string (u : UtilityState) : string :=
  match u with
  | UtilityOnline => "ONLINE"
  | UtilityOnBattery => "ON_BATTERY"
  | UtilityUnknown => "UNKNOWN"
  | OtherUtility raw => raw
  end.

Record Status : Type := mkStatus {
  us_Utility : UtilityState;
  us_LowBattery : bool;
  us_FSD : bool;
  us_ChargePercent : option float64;
  us_RuntimeSeconds : option Z;
  us_RawStatus : string;
  us_Variables : gmap string string;
}.

(** [nut.Status{Utility: nut.UtilityUnknown}] *)
Definition unknown_status : Status := mkStatus UtilityUnknown false false None None "" ∅.

(** [Runner.Run]: the time its context allows, command and arguments to
    combined output and error. *)
Abbreviation Runner := (Duration → string → list string → string * option error) (only parsing).

Record Client : Type := mkClient {
  cl_Runner : option Runner;
  cl_UPSCPath : string;
  cl_UPSMonPath : string;
  cl_Timeout : Duration;
}.

(** [exec_Run]: what [ExecRunner] finds when it runs a process. *)
Definition NewClient (exec_Run : Runner) : Client := mkClient (Some exec_Run) "upsc" "upsmon" (5 * Second).

Definition call_timeout (c : Client) : Duration := if (cl_Timeout c <=? 0)%Z then (5 * Second)%Z else cl_Timeout c.

Definition Target (upsName host : string) (port : Z) : string :=
  let host := if bool_decide (host = "") then "localhost" else host in
  if (port <=? 0)%Z || (port =? 3493)%Z
  then upsName +:+ "@" +:+ host
  else upsName +:+ "@" +:+ host +:+ ":" +:+ pretty port.

(** ** Parsing [upsc] output *)

(** The loop over the scanned lines that fills [vars]. *)
Fixpoint parse_vars (vars : gmap string string) (lines : list string) : gmap string string :=
  match lines with
  | [] => vars
  | l :: ls =>
      let line := TrimSpace l in
      if bool_decide (line = "") then parse_vars vars ls
      else match Cut ":"%char line with
           | None => parse_vars vars ls
           | Some (key, value) => parse_vars (<[TrimSpace key := TrimSpace value]> vars) ls
           end
  end.

(** The token switch: [hasOL], [hasOB], [LowBattery], [FSD]. *)
Definition has_token (tok : string) (tokens : list string) : bool :=
  existsb (λ t, bool_decide (t = tok)) tokens.

Definition utility_of_tokens (tokens : list string) : UtilityState :=
  let hasOL := has_token "OL" tokens in
  let hasOB := has_token "OB" tokens in
  if hasOL && negb hasOB then UtilityOnline
  else if hasOB && negb hasOL then UtilityOnBattery
  else UtilityUnknown.

Definition variable_value {A} (parse : string → option A) (key : string) (vars : gmap string string) : option A :=
  match vars !! key with
  | Some v => if bool_decide (v = "") then None else parse v
  | None => None
  end.

Definition ParseUPSC (data : string) : Status * option error :=
  let '(lines, err) := Scanner data in
  let vars := parse_vars ∅ lines in
  let failed e := (mkStatus UtilityUnknown false false None None "" vars, Some e) in
  match err with
  | Some e => failed e
  | None =>
      match vars !! "ups.status" with
      | None => failed (Errorf "ups.status missing")
      | Some raw =>
          if bool_decide (TrimSpace raw = "") then failed (Errorf "ups.status missing")
          else
            let tokens := Fields raw in
            (mkStatus (utility_of_tokens tokens) (has_token "LB" tokens) (has_token "FSD" tokens)
               (variable_value ParseFloat "battery.charge" vars)
               (variable_value ParseInt "battery.runtime" vars)
               raw vars, None)
      end
  end.

Definition set_Utility (u : UtilityState) (s : Status) : Status :=
  mkStatus u (us_LowBattery s) (us_FSD s) (us_ChargePercent s) (us_RuntimeSeconds s)
    (us_RawStatus s) (us_Variables s).

Definition Query (c : Client) (target : string) : Status * option error :=
  match cl_Runner c with
  | None => (unknown_status, Some (Errorf "nut runner is nil"))
  | Some run =>
      let upscPath := if bool_decide (cl_UPSCPath c = "") then "upsc" else cl_UPSCPath c in
      match run (call_timeout c) upscPath [target] with
      | (_, Some e) => (unknown_status, Some (Wrapf ("upsc " +:+ target +:+ " failed: ") e ""))
      | (out, None) =>
          match ParseUPSC out with
          | (st, Some e) => (set_Utility UtilityUnknown st, Some e)
          | (st, None) => (st, None)
          end
      end
  end.

(** ** Ownership of the forced shutdown ([fsd.go]) *)

Definition ErrNotPrimary : error :=
  Sentinel "nut.ErrNotPrimary" "upsmon configuration does not declare this UPS primary".
Definition ErrMultiplePrimaries : error :=
  Sentinel "nut.ErrMultiplePrimaries" "upsmon configuration declares multiple primary UPS monitors".

(** The UPS name of a MONITOR line that declares a primary, if the line is one. *)
Definition primary_entry (text : string) : option string :=
  let line := TrimSpace text in
  if bool_decide (line = "") || HasPrefix line "#" then None
  else match Fields line with
       | f0 :: f1 :: _ :: _ :: _ :: f5 :: _ =>
           if negb (EqualFold f0 "MONITOR") then None
           else
             let role := ToLower f5 in
             if bool_decide (role = "primary") || bool_decide (role = "master")
             then Some (match Cut "@"%char f1 with Some (before, _) => before | None => f1 end)
             else None
       | _ => None
       end.

(** The scan loop: [primaryCount] and [targetPrimary]. *)
Fixpoint count_primaries (upsName : string) (lines : list string) (primaryCount : Z) (targetPrimary : bool)
    : Z * bool :=
  match lines with
  | [] => (primaryCount, targetPrimary)
  | l :: ls =>
      match primary_entry l with
      | None => count_primaries upsName ls primaryCount targetPrimary
      | Some configuredUPS =>
          count_primaries upsName ls (primaryCount + 1)
            (if bool_decide (configuredUPS = upsName) then true else targetPrimary)
      end
  end.

(** [file] is what opening and reading [upsmon.conf] yields. *)
Definition ValidatePrimaryMonitor (file : result string) (upsName : string) : option error :=
  match file with
  | inl e => Some (Wrapf "open upsmon config: " e "")
  | inr data =>
      let '(lines, err) := Scanner data in
      let '(primaryCount, targetPrimary) := count_primaries upsName lines 0 false in
      match err with
      | Some e => Some (Wrapf "scan upsmon config: " e "")
      | None =>
          if negb targetPrimary then Some ErrNotPrimary
          else if negb (primaryCount =? 1)%Z
          then Some (Wrapf EmptyString ErrMultiplePrimaries
                       (": found " +:+ pretty primaryCount +:+ " primary/master MONITOR entries"))
          else None
      end
  end.

(** The second component lists the commands that were run. *)
Definition RequestFSD (c : Client) (file : result string) (upsName : string)
    : option error * list (string * list string) :=
  match ValidatePrimaryMonitor file upsName with
  | Some e => (Some e, [])
  | None =>
      match cl_Runner c with
      | None => (Some (Errorf "nut runner is nil"), [])
      | Some run =>
          let upsmonPath := if bool_decide (cl_UPSMonPath c = "") then "upsmon" else cl_UPSMonPath c in
          let args := ["-c"; "fsd"] in
          match run (call_timeout c) upsmonPath args with
          | (_, None) => (None, [(upsmonPath, args)])
          | (out, Some e) =>
              let msg := TrimSpace out in
              (Some (if bool_decide (msg = "")
                     then Wrapf "upsmon -c fsd failed: " e ""
                     else Wrapf "upsmon -c fsd failed: " e (": " +:+ msg)),
               [(upsmonPath, args)])
          end
      end
  end.
