(* ===== verification/NutFacts.v ===== *)
(** * What the NUT client reads and what it runs

    [upsc] prints a variable per line; what [Query] makes of such an output is
    compared with the variables themselves.  [upsmon.conf] consists of
    directives; [RequestFSD] runs [upsmon -c fsd] exactly when they declare
    one primary, and it is this UPS. *)

From Stdlib Require Import Ascii.
From S2P Require Import Prelude GoStrings GoStringFacts Nut.

(** ** The tokens of ups.status *)

Lemma has_token_true tok tokens : has_token tok tokens = true ↔ tok ∈ tokens.
Proof.
  unfold has_token. rewrite existsb_exists. split.
  - intros (t & Ht & He). apply bool_decide_eq_true in He as ->. by apply list_elem_of_In.
  - intros Ht. exists tok. split; [by apply list_elem_of_In | by apply bool_decide_eq_true].
Qed.

Lemma has_token_false tok tokens : has_token tok tokens = false ↔ tok ∉ tokens.
Proof. rewrite <-has_token_true. by destruct (has_token tok tokens). Qed.

Lemma utility_online_iff tokens :
  utility_of_tokens tokens = UtilityOnline ↔ "OL" ∈ tokens ∧ "OB" ∉ tokens.
Proof.
  rewrite <-has_token_true, <-has_token_false. unfold utility_of_tokens.
  destruct (has_token "OL" tokens), (has_token "OB" tokens); simpl; naive_solver.
Qed.

Lemma utility_on_battery_iff tokens :
  utility_of_tokens tokens = UtilityOnBattery ↔ "OB" ∈ tokens ∧ "OL" ∉ tokens.
Proof.
  rewrite <-has_token_true, <-has_token_false. unfold utility_of_tokens.
  destruct (has_token "OL" tokens), (has_token "OB" tokens); simpl; naive_solver.
Qed.

(** ** Numbers *)

Lemma digit_of_N x : (x < 10)%N → is_digit (pretty_N_char x) = true ∧ digit_val (pretty_N_char x) = Z.of_N x.
Proof.
  intros Hx. assert (H : x ∈ [0; 1; 2; 3; 4; 5; 6; 7; 8; 9]%N) by (set_unfold; lia).
  repeat (apply elem_of_cons in H as [->|H]; [by vm_compute|]). by apply elem_of_nil in H.
Qed.

(** Printing a number in front of [s] and reading it back. *)
Lemma parse_digits_pretty x : ∀ s, ∃ ds,
  String.list_ascii_of_string (pretty_N_go x s) = ds ++ String.list_ascii_of_string s ∧ ((0 < x)%N → ds ≠ []) ∧
  Forall (λ c, is_digit c = true) ds ∧
  ∀ acc l, parse_digits acc (ds ++ l) = parse_digits (acc * 10 ^ Z.of_nat (length ds) + Z.of_N x) l.
Proof.
  induction (N.lt_wf_0 x) as [x _ IH]. intros s. destruct (decide (x = 0%N)) as [->|Hx].
  - exists []. rewrite pretty_N_go_0. split_and!; [done|lia|constructor|]. intros acc l. simpl. f_equal. lia.
  - assert (Hpos : (0 < x)%N) by lia. rewrite pretty_N_go_step by done.
    destruct (IH (x `div` 10)%N (N.div_lt x 10 Hpos ltac:(lia)) (String (pretty_N_char (x `mod` 10)) s)) as (ds & -> & _ & Hd & Hp).
    destruct (digit_of_N (x `mod` 10)) as [Hc Hv]; [apply N.mod_lt; lia|].
    exists (ds ++ [pretty_N_char (x `mod` 10)]). split_and!.
    + by rewrite <-app_assoc.
    + by destruct ds.
    + apply Forall_app. repeat constructor; done.
    + intros acc l. rewrite <-app_assoc, Hp. simpl. rewrite Hc, Hv, length_app. f_equal. simpl.
      rewrite Nat.add_1_r, Nat2Z.inj_succ, Z.pow_succ_r by lia. pose proof (N.div_mod x 10). nia.
Qed.

(** What [pretty] prints of a natural number: digits that read back. *)
Lemma pretty_pos_digits p : ∃ c ds,
  String.list_ascii_of_string (pretty (N.pos p)) = c :: ds ∧ is_digit c = true ∧ parse_digits 0 (c :: ds) = Some (Z.pos p).
Proof.
  assert (Hp : pretty (N.pos p) = pretty_N_go (N.pos p) "") by done. rewrite Hp.
  destruct (parse_digits_pretty (N.pos p) "") as (ds & -> & Hne & Hd & Hparse). specialize (Hparse 0%Z []).
  rewrite app_nil_r in *. simpl in Hparse. destruct ds as [|c ds]; [by destruct Hne|]. exists c, ds. by inversion Hd.
Qed.

Lemma digit_not_sign c : is_digit c = true → Ascii.eqb c "+"%char = false ∧ Ascii.eqb c "-"%char = false.
Proof. intros Hc. split; apply Ascii.eqb_neq; by intros ->. Qed.

Lemma ParseInt_pretty n : int64_range n → ParseInt (pretty n) = Some n.
Proof.
  intros [Hlo Hhi]. unfold ParseInt. destruct n as [|p|p]; [done| |].
  - destruct (pretty_pos_digits p) as (c & ds & Hc & Hd & Hp). change (pretty (Z.pos p)) with (pretty (N.pos p)).
    destruct (digit_not_sign c Hd) as [Hplus Hminus]. rewrite Hc, Hplus, Hminus, Hp.
    by rewrite (proj2 (Z.leb_le _ _) Hlo), (proj2 (Z.leb_le _ _) Hhi).
  - destruct (pretty_pos_digits p) as (c & ds & Hc & Hd & Hp).
    change (pretty (Z.neg p)) with (String.String "-"%char (pretty (N.pos p))).
    cbn [String.list_ascii_of_string]. rewrite Hc. cbn [Ascii.eqb Bool.eqb]. rewrite Hp.
    change (Z.opp <$> Some (Z.pos p)) with (Some (Z.neg p)). cbv iota.
    by rewrite (proj2 (Z.leb_le _ _) Hlo), (proj2 (Z.leb_le _ _) Hhi).
Qed.

(** A whole percentage. *)
Lemma ParseFloat_pretty n : (0 ≤ n ≤ 100)%Z → ParseFloat (pretty n) = Some (float64_of_int n).
Proof.
  intros Hn.
  assert (Hall : forallb (λ z, bool_decide (ParseFloat (pretty z) = Some (float64_of_int z))) (seqZ 0 101) = true)
    by (vm_compute; reflexivity).
  rewrite forallb_forall in Hall. specialize (Hall n). rewrite bool_decide_eq_true in Hall.
  apply Hall, list_elem_of_In, elem_of_seqZ. lia.
Qed.

(** ** The output of upsc *)

(** A variable as [upsc] prints it. *)
Definition upsc_line (v : string * string) : string := v.1 +:+ ": " +:+ v.2.

(** Printable text that neither starts nor ends with a blank. *)
Definition printable (s : string) : Prop :=
  Forall (λ c, visible c ∨ c = space) (String.list_ascii_of_string s) ∧ tight (String.list_ascii_of_string s).

Record upsc_variable (v : string * string) : Prop := {
  uv_key : printable v.1;
  uv_named : v.1 ≠ "";
  uv_colon : (":"%char ∉ String.list_ascii_of_string v.1);
  uv_value : printable v.2;
  uv_length : (Z.of_nat (String.length (upsc_line v)) < MaxScanTokenSize)%Z;
}.

Lemma printable_char s c : printable s → c ∈ String.list_ascii_of_string s → visible c ∨ c = space.
Proof. intros [Hs _]. rewrite Forall_forall in Hs. apply Hs. Qed.

Lemma upsc_line_chars v :
  String.list_ascii_of_string (upsc_line v) =
  String.list_ascii_of_string v.1 ++ ":"%char :: space :: String.list_ascii_of_string v.2.
Proof. unfold upsc_line. by rewrite list_of_append. Qed.

Lemma upsc_line_one v : upsc_variable v → one_line (String.list_ascii_of_string (upsc_line v)).
Proof.
  intros [Hk _ _ Hv Hl]. rewrite <-length_chars in Hl.
  assert (Hc : ∀ c, c ∈ String.list_ascii_of_string (upsc_line v) → visible c ∨ c = space).
  { intros c. rewrite upsc_line_chars, elem_of_app, !elem_of_cons.
    intros [Hc|[->|[->|Hc]]]; eauto using printable_char. left. by vm_compute; lia. }
  split_and!; [intros [Hn|Hn]%Hc..|done]; done || (vm_compute in Hn; lia).
Qed.

Lemma tight_starts s : tight (String.list_ascii_of_string s) → s ≠ "" →
  ∃ c l, String.list_ascii_of_string s = c :: l ∧ visible c.
Proof. intros [[Hs|Hs] _] Hne; [by destruct s|done]. Qed.

(** What trimming leaves of a line: an empty value loses the blank. *)
Lemma TrimSpace_upsc_line v : upsc_variable v →
  TrimSpace (upsc_line v) = v.1 +:+ (String.String ":"%char (if bool_decide (v.2 = "") then "" else " " +:+ v.2)).
Proof.
  intros [[_ [Hk _]] Hne _ [_ Hv] _]. destruct v as [k val]. simpl in *. unfold upsc_line. simpl.
  assert (Hstart : ∀ t, starts (String.list_ascii_of_string (k +:+ t))).
  { intros t. rewrite list_of_append. apply starts_app; [done|]. by destruct k. }
  case_bool_decide as Hval; [subst val|].
  - apply (TrimSpace_padded _ [] _ [space]); [by rewrite !list_of_append, <-app_assoc|constructor| |repeat constructor].
    + split; [apply Hstart|]. rewrite list_of_append, reverse_app. right.
      exists ":"%char, (reverse (String.list_ascii_of_string k)). split; [done|]. unfold visible. vm_compute. lia.
  - apply TrimSpace_tight. split; [apply Hstart|]. destruct Hv as [_ Hv].
    rewrite list_of_append. simpl. rewrite !reverse_app, !reverse_cons, <-!app_assoc. apply starts_app; [done|].
    intros Hr. apply (f_equal reverse) in Hr. rewrite reverse_involutive in Hr. by destruct val.
Qed.

Lemma parse_upsc_line m v lines : upsc_variable v →
  parse_vars m (upsc_line v :: lines) = parse_vars (<[v.1 := v.2]> m) lines.
Proof.
  intros Hv. cbn [parse_vars]. rewrite TrimSpace_upsc_line by done. destruct Hv as [[_ Hk] Hne Hcolon [_ Hv] _].
  rewrite bool_decide_false by (destruct v as [[|c k] val]; done). rewrite Cut_first by done.
  rewrite TrimSpace_tight by done. do 2 f_equal. case_bool_decide as Hval; [by rewrite Hval|].
  apply (TrimSpace_padded _ [space] _ []); [by rewrite app_nil_r|repeat constructor|done|constructor].
Qed.

(** Names are distinct in the output of [upsc]. *)
Lemma parse_upsc vars : Forall upsc_variable vars → NoDup vars.*1 → ∀ m k x,
  (∀ k, k ∈ vars.*1 → m !! k = None) →
  parse_vars m (upsc_line <$> vars) !! k = Some x ↔ (k, x) ∈ vars ∨ m !! k = Some x.
Proof.
  induction 1 as [|[k0 x0] vars Hv _ IH]; intros Hnd m k x Hm.
  - set_solver.
  - apply NoDup_cons in Hnd as [Hnew Hnd]. rewrite fmap_cons, parse_upsc_line by done. rewrite IH; [|done|].
    + simpl. rewrite elem_of_cons, lookup_insert_Some. specialize (Hm k0 ltac:(left)). naive_solver.
    + intros k' Hk'. rewrite lookup_insert_ne by (simpl in *; intros ->; done). apply Hm. by right.
Qed.

(** A query that returns an error says that utility is unknown, and nothing
    else, whatever was printed. *)
Lemma Query_fails_safe c target st e : Query c target = (st, Some e) →
  us_Utility st = UtilityUnknown ∧ us_LowBattery st = false ∧ us_FSD st = false ∧
  us_ChargePercent st = None ∧ us_RuntimeSeconds st = None.
Proof.
  unfold Query, ParseUPSC. destruct (cl_Runner c) as [run|]; [|by intros [= <- _]].
  destruct (run _ _ _) as [out [e'|]]; [by intros [= <- _]|].
  destruct (Scanner out) as [lines [e'|]]; [by intros [= <- _]|].
  destruct (_ !! "ups.status"); [case_bool_decide|]; by intros [= <- _].
Qed.

(** C15: Reading what [upsc] printed gives back what it said.  For every list
    of named variables printed one to a line, [Query] succeeds when the status
    has a flag; the variables are exactly those printed; utility is online
    exactly when OL is a flag and OB is not, on battery exactly when it is the
    other way round, and otherwise unknown; the low-battery and FSD flags are
    LB and FSD; a printed whole runtime or percentage is that number, and what
    was not printed is absent. *)
Theorem Query_reads_upsc c run target vars flags :
  cl_Runner c = Some run →
  run (call_timeout c) (if bool_decide (cl_UPSCPath c = "") then "upsc" else cl_UPSCPath c) [target] =
    (text_of (upsc_line <$> vars), None) →
  Forall upsc_variable vars → NoDup vars.*1 → Forall word flags → flags ≠ [] →
  ("ups.status", String.concat " " flags) ∈ vars →
  let '(st, err) := Query c target in
  err = None ∧ (∀ k x, us_Variables st !! k = Some x ↔ (k, x) ∈ vars) ∧ us_RawStatus st = String.concat " " flags ∧
  (us_Utility st = UtilityOnline ↔ "OL" ∈ flags ∧ "OB" ∉ flags) ∧
  (us_Utility st = UtilityOnBattery ↔ "OB" ∈ flags ∧ "OL" ∉ flags) ∧
  (us_Utility st = UtilityUnknown ↔ ("OB" ∈ flags ↔ "OL" ∈ flags)) ∧
  (us_LowBattery st = true ↔ "LB" ∈ flags) ∧ (us_FSD st = true ↔ "FSD" ∈ flags) ∧
  (∀ n, int64_range n → ("battery.runtime", pretty n) ∈ vars → us_RuntimeSeconds st = Some n) ∧
  (∀ n, (0 ≤ n ≤ 100)%Z → ("battery.charge", pretty n) ∈ vars → us_ChargePercent st = Some (float64_of_int n)) ∧
  ("battery.runtime" ∉ vars.*1 → us_RuntimeSeconds st = None) ∧ ("battery.charge" ∉ vars.*1 → us_ChargePercent st = None).
Proof.
  intros Hrun Hout Hvars Hnd Hflags Hne Hstatus. unfold Query. rewrite Hrun, Hout. unfold ParseUPSC.
  rewrite Scanner_text by (apply Forall_fmap; eapply Forall_impl; [done|]; apply upsc_line_one).
  pose proof (parse_upsc vars Hvars Hnd ∅) as Hlook. 
  set (m := parse_vars ∅ (upsc_line <$> vars)) in *.
  assert (Hm : ∀ k x, m !! k = Some x ↔ (k, x) ∈ vars).
  { intros k x. rewrite Hlook by (intros; apply lookup_empty). rewrite lookup_empty. naive_solver. }
  clear Hlook. assert (Habs : ∀ k, k ∉ vars.*1 → m !! k = None).
  { intros k Hk. destruct (m !! k) as [x|] eqn:Hx; [|done]. destruct Hk. apply Hm in Hx. by apply (list_elem_of_fmap_2 fst) in Hx. }
  pose proof (proj2 (Hm _ _) Hstatus) as Hraw. rewrite Hraw.
  assert (Hsome : TrimSpace (String.concat " " flags) ≠ "").
  { rewrite Forall_forall in Hvars. apply Hvars in Hstatus as [_ _ _ [_ Ht] _]. rewrite TrimSpace_tight by done.
    intros He. apply Fields_words in Hflags. by rewrite He in Hflags. }
  rewrite bool_decide_false by done. rewrite Fields_words by done. cbn [us_Variables us_RawStatus us_Utility us_LowBattery us_FSD us_RuntimeSeconds us_ChargePercent].
  assert (Hnum : ∀ {A} (parse : string → option A) k s v, parse "" = None → (k, s) ∈ vars → parse s = Some v → variable_value parse k m = Some v).
  { intros A parse k s v Hn Hk Hp. unfold variable_value. apply Hm in Hk. rewrite Hk, bool_decide_false; [done|].
    intros ->. by rewrite Hn in Hp. }
  split_and!; try done.
  - apply utility_online_iff.
  - apply utility_on_battery_iff.
  - unfold utility_of_tokens. rewrite <-!has_token_true. destruct (has_token "OL" flags), (has_token "OB" flags); simpl; naive_solver.
  - apply has_token_true.
  - apply has_token_true.
  - intros n Hn Hin. eapply Hnum; [done|exact Hin|by apply ParseInt_pretty].
  - intros n Hn Hin. eapply Hnum; [by vm_compute|exact Hin|by apply ParseFloat_pretty].
  - intros Hk. unfold variable_value. by rewrite Habs.
  - intros Hk. unfold variable_value. by rewrite Habs.
Qed.

(** ** upsmon.conf *)

Lemma count_primaries_spec ups lines : ∀ n found,
  count_primaries ups lines n found =
    ((n + Z.of_nat (length (omap primary_entry lines)))%Z, found || bool_decide (ups ∈ omap primary_entry lines)).
Proof.
  induction lines as [|l lines IH]; intros n found; cbn [count_primaries omap list_omap].
  - rewrite bool_decide_false by set_solver. rewrite orb_false_r. f_equal. simpl. lia.
  - destruct (primary_entry l) as [u|]; [|by rewrite IH]. rewrite IH. f_equal; [simpl; lia|].
    destruct (decide (u = ups)) as [->|Hu]; [rewrite (bool_decide_true (ups = ups)) by done|rewrite (bool_decide_false (u = ups)) by done].
    + rewrite (bool_decide_true (ups ∈ ups :: _)) by left. by rewrite orb_true_r.
    + f_equal. apply bool_decide_ext. rewrite elem_of_cons. naive_solver.
Qed.

Lemma ValidatePrimaryMonitor_None file ups :
  ValidatePrimaryMonitor file ups = None ↔
  ∃ data lines, file = inr data ∧ Scanner data = (lines, None) ∧ omap primary_entry lines = [ups].
Proof.
  unfold ValidatePrimaryMonitor. destruct file as [e|data]; [naive_solver|].
  destruct (Scanner data) as [lines err] eqn:Hs. rewrite count_primaries_spec, Z.add_0_l. simpl.
  destruct err as [e|].
  { split; [done|]. intros (d & l & [= <-] & Hs' & _). by rewrite Hs in Hs'. }
  case_bool_decide as Hin; simpl.
  - destruct (Z.eqb_spec (Z.of_nat (length (omap primary_entry lines))) 1) as [Hlen|Hlen]; simpl; split; try done.
    + intros _. exists data, lines. split_and!; try done. destruct (omap primary_entry lines) as [|u [|]]; try (simpl in Hlen; lia).
      apply list_elem_of_singleton in Hin. by subst.
    + intros (d & l & [= <-] & Hs' & Ho). rewrite Hs in Hs'. injection Hs' as <-. destruct Hlen. by rewrite Ho.
  - split; [done|]. intros (d & l & [= <-] & Hs' & Ho). rewrite Hs in Hs'. injection Hs' as <-.
    destruct Hin. rewrite Ho. left.
Qed.

(** What the file may hold, as its manual describes it. *)
Inductive Directive : Type :=
  | Monitor (ups system power user password role : string)
  | Other (name : string) (arguments : list string)
  | Comment (text : list string)
  | Blank.

Definition directive_line (d : Directive) : string :=
  match d with
  | Monitor ups system power user password role =>
      String.concat " " ["MONITOR"; ups +:+ "@" +:+ system; power; user; password; role]
  | Other name arguments => String.concat " " (name :: arguments)
  | Comment text => String.concat " " ("#" :: text)
  | Blank => ""
  end.

Definition is_primary (role : string) : Prop := role = "primary" ∨ role = "master".
#[export] Instance is_primary_dec role : Decision (is_primary role).
Proof. unfold is_primary. apply _. Defined.

(** The UPS a directive makes this machine the primary of. *)
Definition declared_primary (d : Directive) : option string :=
  match d with Monitor ups _ _ _ _ role => if decide (is_primary role) then Some ups else None | _ => None end.

Definition roles : list string := ["primary"; "master"; "secondary"; "slave"].

Definition directive_ok (d : Directive) : Prop :=
  (Z.of_nat (String.length (directive_line d)) < MaxScanTokenSize)%Z ∧
  match d with
  | Monitor ups system power user password role =>
      Forall word [ups; system; power; user; password] ∧ ("@"%char ∉ String.list_ascii_of_string ups) ∧ role ∈ roles
  | Other name arguments => Forall word (name :: arguments) ∧ EqualFold name "MONITOR" = false ∧ HasPrefix name "#" = false
  | Comment text => Forall word text
  | Blank => True
  end.

Definition directive_words (d : Directive) : list string :=
  match d with
  | Monitor ups system power user password role => ["MONITOR"; ups +:+ "@" +:+ system; power; user; password; role]
  | Other name arguments => name :: arguments
  | Comment text => "#" :: text
  | Blank => []
  end.

Lemma directive_line_words d : directive_line d = String.concat " " (directive_words d).
Proof. by destruct d. Qed.

Lemma word_check s : forallb (λ c, bool_decide (visible c)) (String.list_ascii_of_string s) = true → s ≠ "" → word s.
Proof.
  intros Hs Hne. split; [|done]. rewrite forallb_forall in Hs. apply Forall_forall. intros c Hc%list_elem_of_In%Hs.
  by apply bool_decide_eq_true in Hc.
Qed.

Lemma role_word role : role ∈ roles → word role.
Proof. unfold roles. set_unfold. intros [->|[->|[->|[->|[]]]]]; by apply word_check. Qed.

Lemma directive_words_ok d : directive_ok d → Forall word (directive_words d).
Proof.
  intros [_ Hd]. destruct d as [ups system power user password role|name arguments|text|]; simpl in *.
  - destruct Hd as (Hw & _ & Hrole%role_word). rewrite !Forall_cons in *.
    destruct Hw as ([Hu Hne] & [Hs _] & Hp & Huser & Hpw & _). split_and!; try done; [by apply word_check|].
    split; [|by destruct ups]. rewrite !list_of_append. apply Forall_app. split; [done|]. constructor; [|done].
    unfold visible. vm_compute. lia.
  - tauto.
  - constructor; [by apply word_check|done].
  - constructor.
Qed.

(** What the scan makes of a printed directive. *)
Lemma primary_entry_line d : directive_ok d → primary_entry (directive_line d) = declared_primary d.
Proof.
  intros Hd. pose proof (directive_words_ok d Hd) as Hw. unfold primary_entry.
  rewrite directive_line_words, TrimSpace_tight, Fields_words by eauto using concat_words_tight.
  destruct Hd as [_ Hd]. destruct d as [ups system power user password role|name arguments|text|]; simpl in *.
  - destruct Hd as (_ & Hat & Hrole). change (ups +:+ "@" +:+ system) with (ups +:+ (String.String "@"%char system)).
    rewrite (Cut_first _ _ _ Hat). unfold roles in Hrole. set_unfold in Hrole.
    destruct Hrole as [->|[->|[->|[->|[]]]]]; reflexivity.
  - destruct Hd as (Hws & Hm & Hh). destruct (_ || _); [done|]. destruct arguments as [|a1 [|a2 [|a3 [|a4 [|a5 arguments]]]]]; try done.
    by rewrite Hm.
  - by destruct text.
  - done.
Qed.

Lemma directive_line_one d : directive_ok d → one_line (String.list_ascii_of_string (directive_line d)).
Proof.
  intros Hd. pose proof (directive_words_ok d Hd) as Hw. destruct Hd as [Hlen _]. rewrite <-length_chars in Hlen.
  assert (Hc : ∀ c, c ∈ String.list_ascii_of_string (directive_line d) → visible c ∨ c = space)
    by (rewrite directive_line_words; eauto using concat_words_chars).
  split_and!; [intros [Hn|Hn]%Hc..|done]; done || (vm_compute in Hn; lia).
Qed.

Lemma declared_lines conf : Forall directive_ok conf → omap primary_entry (directive_line <$> conf) = omap declared_primary conf.
Proof. induction 1 as [|d conf Hd _ IH]; [done|]. rewrite fmap_cons. cbn [omap list_omap]. by rewrite primary_entry_line, IH. Qed.

(** C12: The forced shutdown is only run where this machine is the one primary
    of the one UPS.  Whatever the file, [RequestFSD] runs either nothing or
    [upsmon -c fsd] once, within the client's time limit; it returns nil
    exactly when it ran it and it succeeded.  When upsmon.conf is written as
    its manual says, it runs it exactly when the MONITOR directives of role
    primary or master are a single one, for this UPS; when the file cannot be
    read, never. *)
Theorem forced_shutdown_is_owned c run conf file ups :
  cl_Runner c = Some run → Forall directive_ok conf →
  file = inr (text_of (directive_line <$> conf)) →
  let command := (if bool_decide (cl_UPSMonPath c = "") then "upsmon" else cl_UPSMonPath c, ["-c"; "fsd"]) in
  let ran file := (RequestFSD c file ups).2 in
  (∀ file, ran file = [] ∨ ran file = [command]) ∧
  (∀ file, (RequestFSD c file ups).1 = None ↔ ran file = [command] ∧ (run (call_timeout c) command.1 command.2).2 = None) ∧
  (ran file = [command] ↔ omap declared_primary conf = [ups]) ∧
  (∀ e, ran (inl e) = []).
Proof.
  intros Hrun Hconf -> command ran.
  assert (Hspec : ∀ file, match ValidatePrimaryMonitor file ups with
                          | Some e => RequestFSD c file ups = (Some e, [])
                          | None => ran file = [command] ∧ ((RequestFSD c file ups).1 = None ↔ (run (call_timeout c) command.1 command.2).2 = None)
                          end).
  { intros file. unfold ran, RequestFSD. rewrite Hrun. destruct (ValidatePrimaryMonitor file ups); [done|].
    simpl. by destruct (run _ _ _) as [out [e|]]. }
  split_and!.
  - intros file. specialize (Hspec file). destruct (ValidatePrimaryMonitor file ups); [left; unfold ran; by rewrite Hspec|tauto].
  - intros file. specialize (Hspec file). destruct (ValidatePrimaryMonitor file ups); [|tauto].
    unfold ran. rewrite Hspec. simpl. naive_solver.
  - rewrite <-declared_lines by done.
    assert (Hscan : Scanner (text_of (directive_line <$> conf)) = (directive_line <$> conf, None))
      by (apply Scanner_text, Forall_fmap; eapply Forall_impl; [exact Hconf|]; apply directive_line_one).
    pose proof (ValidatePrimaryMonitor_None (inr (text_of (directive_line <$> conf))) ups) as Hv.
    specialize (Hspec (inr (text_of (directive_line <$> conf)))).
    destruct (ValidatePrimaryMonitor _ ups) as [e|].
    + unfold ran. rewrite Hspec. split; [done|]. intros Ho. by assert (Some e = None) by (apply Hv; eauto).
    + split; [|tauto]. intros _. destruct (proj1 Hv eq_refl) as (data & lines & [= <-] & Hs & Ho).
      rewrite Hscan in Hs. by injection Hs as <-.
  - intros e. unfold ran. pose proof (Hspec (inl e)) as H. simpl in H. by rewrite H.
Qed.
