(* ===== verification/NutExample.v ===== *)
(** * A small UPS

    The output of upsc and the upsmon.conf of one machine, read by a client
    whose processes answer at once. *)

From Stdlib Require Import Ascii.
From S2P Require Import Prelude GoStrings GoStringFacts Nut NutFacts.

Definition office_vars : list (string * string) :=
  [("battery.charge", "87"); ("battery.runtime", "1260"); ("device.model", "Back-UPS ES 700");
   ("ups.alarm", ""); ("ups.status", "OB DISCHRG LB")].

Definition office_conf : list Directive :=
  [Comment ["upsmon"; "of"; "the"; "office"]; Blank; Monitor "office" "localhost" "1" "agent" "secret" "primary";
   Monitor "rack" "10.0.0.2" "1" "agent" "secret" "secondary"; Other "MINSUPPLIES" ["1"]].

Definition exec_Run : Duration → string → list string → string * option error := λ _ name _,
  if bool_decide (name = "upsc") then (text_of (upsc_line <$> office_vars), None) else ("", None).

Definition client : Client := NewClient exec_Run.

Example office_query :
  let st := (Query client (Target "office" "" 3493)).1 in
  us_Utility st = UtilityOnBattery ∧ us_LowBattery st = true ∧ us_RuntimeSeconds st = Some 1260%Z.
Proof. vm_compute. done. Qed.


#[local] Instance printable_dec s : Decision (printable s).
Proof. unfold printable. apply _. Defined.

Lemma office_variables : Forall upsc_variable office_vars.
Proof. unfold office_vars. repeat apply Forall_cons_2; [..|constructor]; split; by apply (bool_decide_unpack _); vm_compute. Qed.

Lemma office_directives : Forall directive_ok office_conf.
Proof.
  unfold office_conf. repeat apply Forall_cons_2; [..|constructor]; split; by apply (bool_decide_unpack _); vm_compute.
Qed.

Lemma Query_reads_upsc_witness :
  let st := (Query client "office@localhost").1 in
  us_Utility st = UtilityOnBattery ∧ us_ChargePercent st = Some (float64_of_int 87) ∧ us_Variables st !! "ups.alarm" = Some "".
Proof.
  assert (Hw : Forall word ["OB"; "DISCHRG"; "LB"]) by (repeat apply Forall_cons_2; [..|constructor]; by apply word_check).
  pose proof (Query_reads_upsc client exec_Run "office@localhost" office_vars ["OB"; "DISCHRG"; "LB"]
                eq_refl eq_refl office_variables ltac:(apply (bool_decide_unpack _); by vm_compute) Hw ltac:(done)
                ltac:(apply (bool_decide_unpack _); by vm_compute)) as H.
  destruct (Query client "office@localhost") as [st err]. destruct H as (_ & Hvars & _ & _ & Hbat & _ & _ & _ & _ & Hcharge & _ & _).
  split_and!.
  - apply Hbat. split; apply (bool_decide_unpack _); by vm_compute.
  - apply Hcharge; [lia|]. apply (bool_decide_unpack _); by vm_compute.
  - apply Hvars. apply (bool_decide_unpack _); by vm_compute.
Defined.

Lemma forced_shutdown_is_owned_witness :
  (RequestFSD client (inr (text_of (directive_line <$> office_conf))) "office").2 = [("upsmon", ["-c"; "fsd"])] ∧
  (RequestFSD client (inr (text_of (directive_line <$> office_conf))) "rack").2 = [].
Proof.
  split.
  - destruct (forced_shutdown_is_owned client exec_Run office_conf _ "office" eq_refl office_directives eq_refl) as (_ & _ & H & _).
    apply H. by vm_compute.
  - destruct (forced_shutdown_is_owned client exec_Run office_conf _ "rack" eq_refl office_directives eq_refl) as (H & _ & Hiff & _).
    destruct (H (inr (text_of (directive_line <$> office_conf)))) as [?|Hran]; [done|]. apply Hiff in Hran. by vm_compute in Hran.
Defined.
