(* ===== verification/Policy.v ===== *)
(** * The power-policy engine ([agent/internal/policy/engine.go])

    The deterministic state machine that turns one UPS observation at a time
    into a [Decision].  [Step] follows [Engine.Step] branch by branch; the
    receiver's fields are threaded explicitly, so an operation yields the
    engine after the call together with its decision. *)

From S2P Require Import Prelude PowerStateModel Nut.

Definition outageCheckpointInterval : Duration := (30 * Second)%Z.
Definition preCommitOnlineConfirmations : Z := 2.

Record Config : Type := mkConfig {
  cfg_GracePeriod : Duration;
  cfg_MaxOnBattery : Duration;
  cfg_CriticalCharge : option float64;
  cfg_CriticalRuntime : Duration;
  cfg_CommunicationLossGrace : Duration;
  cfg_RecoveryEnabled : option bool;
  cfg_UtilityStable : Duration;
  cfg_RecoveryChargeMin : option float64;
  cfg_RecoveryRuntimeMin : Duration;
  cfg_RecoveryRechargeTime : Duration;
  cfg_RecoveryNetworkWait : Duration;
}.

Record Inputs : Type := mkInputs {
  in_UPS : Status;
  in_NetworkReady : bool;
  in_HealthSafe : bool;
}.

Inductive Action : Type :=
  | ActionNone
  | ActionCommitShutdown
  | ActionStopRecovery
  | ActionCommitRecovery
  | ActionStartRestore.

#[export] Instance Action_eq_dec : EqDecision Action.
Proof. solve_decision. Defined.

Record Decision : Type := mkDecision {
  dec_Changed : bool;
  dec_Action : Action;
  dec_Reason : string;
}.

Record Engine : Type := mkEngine {
  e_cfg : Config;
  e_st : State;
  e_resumeState : PowerState;
  e_onBatterySince : Time;
  e_onlineSince : Time;
  e_unknownSince : Time;
  e_networkWaitSince : Time;
  e_lastOutageCheckpoint : Time;
  e_onlineConfirmations : Z;
}.

(** ** Field assignments *)

Definition e_set_st v (e : Engine) : Engine :=
  mkEngine (e_cfg e) v (e_resumeState e) (e_onBatterySince e) (e_onlineSince e) (e_unknownSince e)
    (e_networkWaitSince e) (e_lastOutageCheckpoint e) (e_onlineConfirmations e).
Definition e_set_resumeState v (e : Engine) : Engine :=
  mkEngine (e_cfg e) (e_st e) v (e_onBatterySince e) (e_onlineSince e) (e_unknownSince e)
    (e_networkWaitSince e) (e_lastOutageCheckpoint e) (e_onlineConfirmations e).
Definition e_set_onBatterySince v (e : Engine) : Engine :=
  mkEngine (e_cfg e) (e_st e) (e_resumeState e) v (e_onlineSince e) (e_unknownSince e)
    (e_networkWaitSince e) (e_lastOutageCheckpoint e) (e_onlineConfirmations e).
Definition e_set_onlineSince v (e : Engine) : Engine :=
  mkEngine (e_cfg e) (e_st e) (e_resumeState e) (e_onBatterySince e) v (e_unknownSince e)
    (e_networkWaitSince e) (e_lastOutageCheckpoint e) (e_onlineConfirmations e).
Definition e_set_unknownSince v (e : Engine) : Engine :=
  mkEngine (e_cfg e) (e_st e) (e_resumeState e) (e_onBatterySince e) (e_onlineSince e) v
    (e_networkWaitSince e) (e_lastOutageCheckpoint e) (e_onlineConfirmations e).
Definition e_set_networkWaitSince v (e : Engine) : Engine :=
  mkEngine (e_cfg e) (e_st e) (e_resumeState e) (e_onBatterySince e) (e_onlineSince e)
    (e_unknownSince e) v (e_lastOutageCheckpoint e) (e_onlineConfirmations e).
Definition e_set_lastOutageCheckpoint v (e : Engine) : Engine :=
  mkEngine (e_cfg e) (e_st e) (e_resumeState e) (e_onBatterySince e) (e_onlineSince e)
    (e_unknownSince e) (e_networkWaitSince e) v (e_onlineConfirmations e).
Definition e_set_onlineConfirmations v (e : Engine) : Engine :=
  mkEngine (e_cfg e) (e_st e) (e_resumeState e) (e_onBatterySince e) (e_onlineSince e)
    (e_unknownSince e) (e_networkWaitSince e) (e_lastOutageCheckpoint e) v.

(** Assignments through [e.st] *)
Definition e_set_PowerState v (e : Engine) : Engine := e_set_st (st_set_PowerState v (e_st e)) e.
Definition e_set_ShutdownCommitted v (e : Engine) : Engine := e_set_st (st_set_ShutdownCommitted v (e_st e)) e.
Definition e_set_RecoveryStarted v (e : Engine) : Engine := e_set_st (st_set_RecoveryStarted v (e_st e)) e.
Definition e_set_OutageElapsed v (e : Engine) : Engine := e_set_st (st_set_OutageElapsedSeconds v (e_st e)) e.
Definition e_set_FailedSafeReason v (e : Engine) : Engine := e_set_st (st_set_FailedSafeReason v (e_st e)) e.

Abbreviation e_power e := (st_PowerState (e_st e)) (only parsing).
Abbreviation e_committed e := (st_ShutdownCommitted (e_st e)) (only parsing).
Abbreviation e_recovery e := (st_RecoveryStarted (e_st e)) (only parsing).
Abbreviation e_elapsed e := (st_OutageElapsedSeconds (e_st e)) (only parsing).

(** ** Construction and gates *)

Definition cfg_set_UtilityStable v (c : Config) : Config :=
  mkConfig (cfg_GracePeriod c) (cfg_MaxOnBattery c) (cfg_CriticalCharge c) (cfg_CriticalRuntime c)
    (cfg_CommunicationLossGrace c) (cfg_RecoveryEnabled c) v (cfg_RecoveryChargeMin c)
    (cfg_RecoveryRuntimeMin c) (cfg_RecoveryRechargeTime c) (cfg_RecoveryNetworkWait c).

Definition New (cfg : Config) (persisted : State) : Engine :=
  let cfg := if (cfg_UtilityStable cfg <=? 0)%Z then cfg_set_UtilityStable (120 * Second)%Z cfg else cfg in
  let persisted := if (st_StateVersion persisted =? 0)%Z then st_set_StateVersion Version persisted else persisted in
  let resume := st_PowerState persisted in
  let persisted := st_set_PowerState BootReconcile persisted in
  mkEngine cfg persisted resume zero_time zero_time zero_time zero_time zero_time 0.

Definition recoveryEnabled (cfg : Config) : bool := default true (cfg_RecoveryEnabled cfg).

Definition rechargeGate (cfg : Config) (st : Status) (stableFor : Duration) : bool :=
  match cfg_RecoveryChargeMin cfg with
  | Some chargeMin =>
      match us_ChargePercent st with
      | Some charge => float64_le chargeMin charge
      | None =>
          match (if (0 <? cfg_RecoveryRuntimeMin cfg)%Z then us_RuntimeSeconds st else None) with
          | Some runtime => (cfg_RecoveryRuntimeMin cfg <=? duration_of runtime Second)%Z
          | None =>
              if (0 <? cfg_RecoveryRechargeTime cfg)%Z
              then (cfg_RecoveryRechargeTime cfg <=? stableFor)%Z else false
          end
      end
  | None =>
      if (0 <? cfg_RecoveryRuntimeMin cfg)%Z then
        match us_RuntimeSeconds st with
        | Some runtime => (cfg_RecoveryRuntimeMin cfg <=? duration_of runtime Second)%Z
        | None =>
            if (0 <? cfg_RecoveryRechargeTime cfg)%Z
            then (cfg_RecoveryRechargeTime cfg <=? stableFor)%Z else false
        end
      else if (0 <? cfg_RecoveryRechargeTime cfg)%Z
      then (cfg_RecoveryRechargeTime cfg <=? stableFor)%Z
      else false
  end.

Definition is_utility (u : UtilityState) (st : Status) : bool := bool_decide (us_Utility st = u).

Definition unsafeUPS (st : Status) : bool :=
  is_utility UtilityOnBattery st || is_utility UtilityUnknown st || us_LowBattery st || us_FSD st.

(** ** Shared transitions *)

Definition no_change (reason : string) : Decision := mkDecision false ActionNone reason.

Definition failSafe (reason : string) (e : Engine) : Engine * Decision :=
  (e |> e_set_PowerState FailedSafe |> e_set_FailedSafeReason reason,
   mkDecision true ActionNone reason).

Definition commitShutdown (reason : string) (e : Engine) : Engine * Decision :=
  (e |> e_set_ShutdownCommitted true |> e_set_PowerState ShutdownCommitted,
   mkDecision true ActionCommitShutdown reason).

(** [int64(elapsed / time.Second)]: Go's division truncates. *)
Definition recordOutageElapsed (elapsed : Duration) (e : Engine) : Engine :=
  let seconds := Z.quot elapsed Second in
  if (e_elapsed e <? seconds)%Z then e_set_OutageElapsed seconds e else e.

Definition checkpointOutage (now : Time) (elapsed : Duration) (reason : string) (e : Engine)
    : Engine * Decision :=
  if IsZero (e_lastOutageCheckpoint e)
  then (e_set_lastOutageCheckpoint now e, no_change reason)
  else if (time_sub now (e_lastOutageCheckpoint e) <? outageCheckpointInterval)%Z
  then (e, no_change reason)
  else
    let before := e_elapsed e in
    let e := e |> recordOutageElapsed elapsed |> e_set_lastOutageCheckpoint now in
    if negb (e_elapsed e =? before)%Z
    then (e, mkDecision true ActionNone (reason +:+ "; outage elapsed checkpointed"))
    else (e, no_change reason).

(** ** Boot reconciliation *)

Definition reconcileBoot (now : Time) (i : Inputs) (e : Engine) : Engine * result Decision :=
  let ups := in_UPS i in
  if is_utility UtilityUnknown ups
  then (e, inr (no_change "waiting for trustworthy UPS state"))
  else if e_recovery e then
    if negb (recoveryEnabled (e_cfg e))
    then (e |> e_set_RecoveryStarted false |> e_set_PowerState WaitingForAC,
          inr (mkDecision true ActionStopRecovery "automatic recovery disabled during boot reconciliation"))
    else if is_utility UtilityOnBattery ups || us_LowBattery ups || us_FSD ups
    then (e |> e_set_RecoveryStarted false |> e_set_PowerState OnBattery,
          inr (mkDecision true ActionStopRecovery "booted into unsafe power after recovery started"))
    else (e |> e_set_RecoveryStarted false |> e_set_onlineSince now |> e_set_networkWaitSince zero_time
            |> e_set_PowerState RecoveryWait,
          inr (mkDecision true ActionNone "resumed recovery re-gated after boot"))
  else if e_committed e && bool_decide (e_resumeState e = OnBattery) && is_utility UtilityOnBattery ups
  then (e_set_PowerState OnBattery e,
        inr (mkDecision true ActionStopRecovery "completing interrupted recovery abort"))
  else if e_committed e then
    if is_utility UtilityOnline ups then
      if negb (recoveryEnabled (e_cfg e))
      then (e_set_PowerState WaitingForAC e,
            inr (mkDecision (negb (bool_decide (e_resumeState e = WaitingForAC))) ActionNone
                   "committed shutdown found; automatic recovery disabled"))
      else (e |> e_set_onlineSince now |> e_set_networkWaitSince zero_time |> e_set_PowerState RecoveryWait,
            inr (mkDecision true ActionNone "committed shutdown found; utility online; wait recovery gates"))
    else (e_set_PowerState WaitingForAC e,
          inr (mkDecision true ActionNone "committed shutdown found; wait for utility"))
  else if is_utility UtilityOnBattery ups then
    let elapsed := duration_of (e_elapsed e) Second in
    let elapsed := if bool_decide (e_resumeState e = OnBattery) && (elapsed <? cfg_GracePeriod (e_cfg e))%Z
                   then cfg_GracePeriod (e_cfg e) else elapsed in
    (e |> e_set_onBatterySince (time_add now (wrap64 (- elapsed))) |> e_set_lastOutageCheckpoint now
       |> e_set_onlineConfirmations 0%Z |> e_set_PowerState OnBattery,
     inr (mkDecision true ActionNone "booted while on battery"))
  else if is_utility UtilityOnline ups
  then (e |> e_set_OutageElapsed 0%Z |> e_set_PowerState Normal,
        inr (mkDecision true ActionNone "boot reconciliation complete"))
  else (e, inl (Errorf "unhandled boot reconciliation input")).

(** ** On battery *)

Definition stepOnBattery (now : Time) (i : Inputs) (e : Engine) : Engine * Decision :=
  let ups := in_UPS i in
  let cfg := e_cfg e in
  if is_utility UtilityOnline ups && negb (e_committed e) then
    let e := e |> e_set_unknownSince zero_time
               |> e_set_onlineConfirmations (e_onlineConfirmations e + 1)%Z in
    if (e_onlineConfirmations e <? preCommitOnlineConfirmations)%Z
    then (e, no_change "utility online sample observed; awaiting confirmation")
    else (e |> e_set_onlineConfirmations 0%Z |> e_set_onBatterySince zero_time
            |> e_set_lastOutageCheckpoint zero_time |> e_set_OutageElapsed 0%Z
            |> e_set_PowerState Normal,
          mkDecision true ActionNone "utility restored before shutdown commit after consecutive confirmation")
  else
    let e := e_set_onlineConfirmations 0%Z e in
    if us_LowBattery ups && negb (is_utility UtilityOnline ups)
    then commitShutdown "low battery observed" e
    else if is_utility UtilityUnknown ups then
      let e := if IsZero (e_unknownSince e) then e_set_unknownSince now e else e in
      if (0 <? cfg_CommunicationLossGrace cfg)%Z
         && (cfg_CommunicationLossGrace cfg <=? time_sub now (e_unknownSince e))%Z
      then commitShutdown "UPS communication loss grace expired during active outage" e
      else (e, no_change "UPS state unknown; outage context retained within communication-loss grace")
    else
      let e := e_set_unknownSince zero_time e in
      if negb (is_utility UtilityOnBattery ups)
      then (e, no_change "")
      else
        let e := if IsZero (e_onBatterySince e)
                 then e |> e_set_onBatterySince now |> e_set_lastOutageCheckpoint now else e in
        let elapsed := time_sub now (e_onBatterySince e) in
        if (elapsed <? cfg_GracePeriod cfg)%Z
        then checkpointOutage now elapsed "outage grace period" e
        else if (0 <? cfg_CriticalRuntime cfg)%Z
             && match us_RuntimeSeconds ups with
                | Some runtime => (duration_of runtime Second <=? cfg_CriticalRuntime cfg)%Z
                | None => false
                end
        then commitShutdown "critical runtime threshold reached" (recordOutageElapsed elapsed e)
        else if match cfg_CriticalCharge cfg, us_ChargePercent ups with
                | Some critical, Some charge => float64_le charge critical
                | _, _ => false
                end
        then commitShutdown "critical battery threshold reached" (recordOutageElapsed elapsed e)
        else if (0 <? cfg_MaxOnBattery cfg)%Z && (cfg_MaxOnBattery cfg <=? elapsed)%Z
        then commitShutdown "maximum time on battery reached" (recordOutageElapsed elapsed e)
        else checkpointOutage now elapsed "on battery; no shutdown trigger reached" e.

(** ** Waiting for the recovery gates *)

Definition stepRecoveryWait (now : Time) (i : Inputs) (e : Engine) : Engine * Decision :=
  let ups := in_UPS i in
  let cfg := e_cfg e in
  if negb (recoveryEnabled cfg)
  then (e |> e_set_onlineSince zero_time |> e_set_networkWaitSince zero_time |> e_set_PowerState WaitingForAC,
        mkDecision true ActionNone "automatic recovery disabled")
  else if negb (is_utility UtilityOnline ups) || us_LowBattery ups || us_FSD ups then
    let e := e |> e_set_onlineSince zero_time |> e_set_networkWaitSince zero_time in
    if is_utility UtilityOnBattery ups || us_LowBattery ups || us_FSD ups
    then (e_set_PowerState WaitingForAC e,
          mkDecision true ActionNone "recovery gate reset by unsafe power")
    else (e, no_change "recovery blocked: UPS state unknown")
  else
    let e := if IsZero (e_onlineSince e) then e_set_onlineSince now e else e in
    let stableFor := time_sub now (e_onlineSince e) in
    if (stableFor <? cfg_UtilityStable cfg)%Z
    then (e_set_networkWaitSince zero_time e, no_change "utility stability timer")
    else if negb (rechargeGate cfg ups stableFor)
    then (e_set_networkWaitSince zero_time e, no_change "UPS recharge gate not satisfied")
    else if negb (in_NetworkReady i) then
      let e := if IsZero (e_networkWaitSince e) then e_set_networkWaitSince now e else e in
      if (0 <? cfg_RecoveryNetworkWait cfg)%Z
         && (cfg_RecoveryNetworkWait cfg <=? time_sub now (e_networkWaitSince e))%Z
      then failSafe "network dependencies did not become ready within configured recovery wait" e
      else (e, no_change "network not ready")
    else
      let e := e_set_networkWaitSince zero_time e in
      if negb (in_HealthSafe i)
      then (e, no_change "control stack health not safe")
      else (e |> e_set_RecoveryStarted true |> e_set_PowerState RecoveryStarted,
            mkDecision true ActionCommitRecovery "all recovery gates satisfied").

(** ** One observation *)

(** The cases of the switch in [Step], one definition per power state. *)
Definition step_case_Normal (now : Time) (i : Inputs) (e : Engine) : Engine * Decision :=
  if is_utility UtilityOnBattery (in_UPS i)
  then (e |> e_set_onBatterySince now |> e_set_lastOutageCheckpoint now |> e_set_unknownSince zero_time
          |> e_set_onlineConfirmations 0%Z |> e_set_OutageElapsed 0%Z |> e_set_PowerState OnBattery,
        mkDecision true ActionNone "UPS on battery")
  else (e, no_change "").

Definition step_case_WaitingForAC (now : Time) (i : Inputs) (e : Engine) : Engine * Decision :=
  if is_utility UtilityOnline (in_UPS i) then
    if negb (recoveryEnabled (e_cfg e))
    then (e, no_change "automatic recovery disabled")
    else (e |> e_set_onlineSince now |> e_set_networkWaitSince zero_time |> e_set_PowerState RecoveryWait,
          mkDecision true ActionNone "utility restored; recovery gates pending")
  else (e, no_change "").

Definition step_case_RecoveryStarted (now : Time) (i : Inputs) (e : Engine) : Engine * Decision :=
  if negb (recoveryEnabled (e_cfg e))
  then (e |> e_set_RecoveryStarted false |> e_set_PowerState WaitingForAC,
        mkDecision true ActionStopRecovery "automatic recovery disabled")
  else if unsafeUPS (in_UPS i)
  then (e |> e_set_onlineSince zero_time |> e_set_networkWaitSince zero_time
          |> e_set_RecoveryStarted false |> e_set_PowerState OnBattery,
        mkDecision true ActionStopRecovery "unsafe UPS state after recovery commit")
  else if negb (in_HealthSafe i)
  then failSafe "critical control-stack health became unsafe during recovery" e
  else if negb (in_NetworkReady i) then
    let e := if IsZero (e_networkWaitSince e) then e_set_networkWaitSince now e else e in
    if (0 <? cfg_RecoveryNetworkWait (e_cfg e))%Z
       && (cfg_RecoveryNetworkWait (e_cfg e) <=? time_sub now (e_networkWaitSince e))%Z
    then failSafe "network readiness timeout during committed recovery" e
    else (e, no_change "recovery paused: network not ready")
  else (e |> e_set_networkWaitSince zero_time |> e_set_PowerState RestoreHosts,
        mkDecision true ActionStartRestore "recovery commit durable").

Definition step_case_RestoreHosts (now : Time) (i : Inputs) (e : Engine) : Engine * Decision :=
  if negb (recoveryEnabled (e_cfg e))
  then (e |> e_set_RecoveryStarted false |> e_set_PowerState WaitingForAC,
        mkDecision true ActionStopRecovery "automatic recovery disabled")
  else if unsafeUPS (in_UPS i)
  then (e |> e_set_onlineSince zero_time |> e_set_networkWaitSince zero_time
          |> e_set_RecoveryStarted false |> e_set_PowerState OnBattery,
        mkDecision true ActionStopRecovery "power failed during host restoration")
  else if negb (in_HealthSafe i)
  then failSafe "critical control-stack health became unsafe during host restoration" e
  else if negb (in_NetworkReady i) then
    let e := if IsZero (e_networkWaitSince e) then e_set_networkWaitSince now e else e in
    (e_set_PowerState RecoveryStarted e,
     mkDecision true ActionNone "host restoration paused: network not ready")
  else (e_set_networkWaitSince zero_time e, no_change "").

Definition ok (r : Engine * Decision) : Engine * result Decision := (r.1, inr r.2).

Definition Step (now : Time) (i : Inputs) (e : Engine) : Engine * result Decision :=
  if bool_decide (e_power e = FailedSafe) then (e, inr (no_change "FAILED_SAFE"))
  else if bool_decide (e_power e = BootReconcile) then reconcileBoot now i e
  else if us_FSD (in_UPS i) && negb (e_committed e) then ok (commitShutdown "FSD observed" e)
  else match e_power e with
  | Normal => ok (step_case_Normal now i e)
  | OnBattery => ok (stepOnBattery now i e)
  | ShutdownCommitted =>
      ok (e_set_PowerState ShutdownInProgress e,
          mkDecision true ActionNone "shutdown transaction committed")
  | ShutdownInProgress => ok (e, no_change "")
  | WaitingForAC => ok (step_case_WaitingForAC now i e)
  | RecoveryWait => ok (stepRecoveryWait now i e)
  | RecoveryStarted => ok (step_case_RecoveryStarted now i e)
  | RestoreHosts => ok (step_case_RestoreHosts now i e)
  | p => (e, inl (Errorf ("unsupported power state " +:+ PowerState_string p)))
  end.

Definition MarkShutdownPhaseComplete (e : Engine) : Engine * Decision :=
  if negb (bool_decide (e_power e = ShutdownInProgress)) && negb (bool_decide (e_power e = ShutdownCommitted))
  then (e, no_change "shutdown completion ignored outside shutdown phase")
  else (e_set_PowerState WaitingForAC e, mkDecision true ActionNone "managed shutdown phase complete").

Definition MarkRecoveryComplete (e : Engine) : Engine * Decision :=
  if negb (bool_decide (e_power e = RestoreHosts))
  then (e, no_change "recovery completion ignored outside restore phase")
  else
    (e |> e_set_PowerState Normal |> e_set_ShutdownCommitted false |> e_set_RecoveryStarted false
       |> e_set_OutageElapsed 0%Z |> e_set_resumeState Normal |> e_set_onBatterySince zero_time
       |> e_set_onlineSince zero_time |> e_set_unknownSince zero_time |> e_set_networkWaitSince zero_time
       |> e_set_lastOutageCheckpoint zero_time |> e_set_onlineConfirmations 0%Z,
     mkDecision true ActionNone "recovery complete").
