(* ===== verification/PolicyFacts.v ===== *)
(** * What the power-policy engine guarantees

    The engine is first related to a transition relation with one rule per
    branch ([Step_rule]); [Step_implements_rules] shows that the executable
    [Policy.Step] takes exactly these transitions.  The one-step guarantees are
    then proved by cases on the rules: the flag invariant that keeps every
    state acceptable to the store, exact conditions for the two commit
    decisions, stickiness of a committed shutdown, and the permitted
    transitions between power states. *)

From S2P Require Import Prelude PowerStateModel Nut Policy.

(** ** Tactics *)

(** Boolean tests of the code as propositions. *)
Ltac bool_facts :=
  repeat match goal with
  | H : bool_decide _ = true |- _ => apply bool_decide_eq_true in H
  | H : bool_decide _ = false |- _ => apply bool_decide_eq_false in H
  | H : negb _ = true |- _ => apply negb_true_iff in H
  | H : negb _ = false |- _ => apply negb_false_iff in H
  | H : _ && _ = true |- _ => apply andb_true_iff in H as [? ?]
  | H : _ && _ = false |- _ => apply andb_false_iff in H
  | H : _ || _ = true |- _ => apply orb_true_iff in H
  | H : _ || _ = false |- _ => apply orb_false_iff in H as [? ?]
  | H : is_utility _ _ = true |- _ => apply bool_decide_eq_true in H
  | H : is_utility _ _ = false |- _ => apply bool_decide_eq_false in H
  | H : (_ <? _)%Z = true |- _ => apply Z.ltb_lt in H
  | H : (_ <? _)%Z = false |- _ => apply Z.ltb_ge in H
  | H : (_ <=? _)%Z = true |- _ => apply Z.leb_le in H
  | H : (_ <=? _)%Z = false |- _ => apply Z.leb_gt in H
  | H : (_ =? _)%Z = true |- _ => apply Z.eqb_eq in H
  | H : (_ =? _)%Z = false |- _ => apply Z.eqb_neq in H
  end.

(** ... and a case for each disjunct. *)
Ltac split_facts := repeat (progress (bool_facts; try destruct_or!)).

(** Destruct the outermost condition of the goal, or substitute its outermost
    [let]; repeated, it walks one branch at a time through a definition. *)
Ltac outer_if :=
  match goal with
  | |- ?P (if ?b then _ else _) => destruct b eqn:?
  | |- ?P (let x := ?v in @?b x) => change (P (b v)); cbv beta
  end.

(** ** Timers with their start filled in *)

Definition unknown_since (now : Time) (e : Engine) : Time :=
  if IsZero (e_unknownSince e) then now else e_unknownSince e.
Definition online_since (now : Time) (e : Engine) : Time :=
  if IsZero (e_onlineSince e) then now else e_onlineSince e.
Definition network_since (now : Time) (e : Engine) : Time :=
  if IsZero (e_networkWaitSince e) then now else e_networkWaitSince e.
Definition battery_since (now : Time) (e : Engine) : Time :=
  if IsZero (e_onBatterySince e) then now else e_onBatterySince e.
Definition outage_elapsed (now : Time) (e : Engine) : Duration := time_sub now (battery_since now e).

(** [e] with the on-battery timer running. *)
Definition start_battery_timer (now : Time) (e : Engine) : Engine :=
  if IsZero (e_onBatterySince e) then e |> e_set_onBatterySince now |> e_set_lastOutageCheckpoint now else e.

(** The threshold tests of [stepOnBattery]. *)
Definition runtime_critical (cfg : Config) (ups : Status) : bool :=
  (0 <? cfg_CriticalRuntime cfg)%Z &&
  match us_RuntimeSeconds ups with
  | Some runtime => (duration_of runtime Second <=? cfg_CriticalRuntime cfg)%Z
  | None => false
  end.
Definition charge_critical (cfg : Config) (ups : Status) : bool :=
  match cfg_CriticalCharge cfg, us_ChargePercent ups with
  | Some critical, Some charge => float64_le charge critical
  | _, _ => false
  end.
Definition time_critical (cfg : Config) (elapsed : Duration) : bool :=
  (0 <? cfg_MaxOnBattery cfg)%Z && (cfg_MaxOnBattery cfg <=? elapsed)%Z.
Definition comm_loss_expired (cfg : Config) (now : Time) (e : Engine) : bool :=
  (0 <? cfg_CommunicationLossGrace cfg)%Z &&
  (cfg_CommunicationLossGrace cfg <=? time_sub now (unknown_since now e))%Z.
Definition network_wait_expired (cfg : Config) (now : Time) (e : Engine) : bool :=
  (0 <? cfg_RecoveryNetworkWait cfg)%Z &&
  (cfg_RecoveryNetworkWait cfg <=? time_sub now (network_since now e))%Z.

(** ** The transition rules *)

Section rules.
Context (now : Time) (i : Inputs) (e : Engine).
Let ups := in_UPS i.
Let cfg := e_cfg e.

(** ON_BATTERY.  [e0] is the engine with the confirmations reset, [e1] also
    with the unknown timer cleared and the outage timer running. *)
Let e0 := e_set_onlineConfirmations 0%Z e.
Let e1 := start_battery_timer now (e_set_unknownSince zero_time e0).

Inductive battery_rule : Engine * Decision → Prop :=
  | battery_confirm :
      us_Utility ups = UtilityOnline → e_committed e = false →
      (e_onlineConfirmations e + 1 < preCommitOnlineConfirmations)%Z →
      battery_rule
        (e |> e_set_unknownSince zero_time |> e_set_onlineConfirmations (e_onlineConfirmations e + 1)%Z,
         no_change "utility online sample observed; awaiting confirmation")
  | battery_restored :
      us_Utility ups = UtilityOnline → e_committed e = false →
      (preCommitOnlineConfirmations ≤ e_onlineConfirmations e + 1)%Z →
      battery_rule
        (e |> e_set_unknownSince zero_time |> e_set_onlineConfirmations (e_onlineConfirmations e + 1)%Z
           |> e_set_onlineConfirmations 0%Z |> e_set_onBatterySince zero_time
           |> e_set_lastOutageCheckpoint zero_time |> e_set_OutageElapsed 0%Z |> e_set_PowerState Normal,
         mkDecision true ActionNone "utility restored before shutdown commit after consecutive confirmation")
  | battery_low :
      us_LowBattery ups = true → us_Utility ups ≠ UtilityOnline →
      battery_rule (commitShutdown "low battery observed" e0)
  | battery_comm_loss :
      us_Utility ups = UtilityUnknown → us_LowBattery ups = false → comm_loss_expired cfg now e = true →
      battery_rule (commitShutdown "UPS communication loss grace expired during active outage"
                      (e_set_unknownSince (unknown_since now e) e0))
  | battery_unknown :
      us_Utility ups = UtilityUnknown → us_LowBattery ups = false → comm_loss_expired cfg now e = false →
      battery_rule (e_set_unknownSince (unknown_since now e) e0,
                    no_change "UPS state unknown; outage context retained within communication-loss grace")
  | battery_other :
      us_Utility ups ≠ UtilityUnknown → us_Utility ups ≠ UtilityOnBattery →
      (us_Utility ups = UtilityOnline → e_committed e = true) →
      (us_LowBattery ups = true → us_Utility ups = UtilityOnline) →
      battery_rule (e_set_unknownSince zero_time e0, no_change "")
  | battery_grace :
      us_Utility ups = UtilityOnBattery → us_LowBattery ups = false →
      (outage_elapsed now e < cfg_GracePeriod cfg)%Z →
      battery_rule (checkpointOutage now (outage_elapsed now e) "outage grace period" e1)
  | battery_runtime :
      us_Utility ups = UtilityOnBattery → us_LowBattery ups = false →
      (cfg_GracePeriod cfg ≤ outage_elapsed now e)%Z → runtime_critical cfg ups = true →
      battery_rule (commitShutdown "critical runtime threshold reached"
                      (recordOutageElapsed (outage_elapsed now e) e1))
  | battery_charge :
      us_Utility ups = UtilityOnBattery → us_LowBattery ups = false →
      (cfg_GracePeriod cfg ≤ outage_elapsed now e)%Z → runtime_critical cfg ups = false →
      charge_critical cfg ups = true →
      battery_rule (commitShutdown "critical battery threshold reached"
                      (recordOutageElapsed (outage_elapsed now e) e1))
  | battery_time :
      us_Utility ups = UtilityOnBattery → us_LowBattery ups = false →
      (cfg_GracePeriod cfg ≤ outage_elapsed now e)%Z → runtime_critical cfg ups = false →
      charge_critical cfg ups = false → time_critical cfg (outage_elapsed now e) = true →
      battery_rule (commitShutdown "maximum time on battery reached"
                      (recordOutageElapsed (outage_elapsed now e) e1))
  | battery_hold :
      us_Utility ups = UtilityOnBattery → us_LowBattery ups = false →
      (cfg_GracePeriod cfg ≤ outage_elapsed now e)%Z → runtime_critical cfg ups = false →
      charge_critical cfg ups = false → time_critical cfg (outage_elapsed now e) = false →
      battery_rule (checkpointOutage now (outage_elapsed now e)
                      "on battery; no shutdown trigger reached" e1).

(** RECOVERY_WAIT.  [w] is the engine with the stability timer running. *)
Let w := e_set_onlineSince (online_since now e) e.
Let stableFor := time_sub now (online_since now e).
Let clean := us_Utility ups = UtilityOnline ∧ us_LowBattery ups = false ∧ us_FSD ups = false.

Inductive wait_rule : Engine * Decision → Prop :=
  | wait_disabled :
      recoveryEnabled cfg = false →
      wait_rule (e |> e_set_onlineSince zero_time |> e_set_networkWaitSince zero_time
                   |> e_set_PowerState WaitingForAC,
                 mkDecision true ActionNone "automatic recovery disabled")
  | wait_unsafe :
      recoveryEnabled cfg = true →
      us_Utility ups = UtilityOnBattery ∨ us_LowBattery ups = true ∨ us_FSD ups = true →
      wait_rule (e |> e_set_onlineSince zero_time |> e_set_networkWaitSince zero_time
                   |> e_set_PowerState WaitingForAC,
                 mkDecision true ActionNone "recovery gate reset by unsafe power")
  | wait_unknown :
      recoveryEnabled cfg = true →
      us_Utility ups ≠ UtilityOnline → us_Utility ups ≠ UtilityOnBattery →
      us_LowBattery ups = false → us_FSD ups = false →
      wait_rule (e |> e_set_onlineSince zero_time |> e_set_networkWaitSince zero_time,
                 no_change "recovery blocked: UPS state unknown")
  | wait_unstable :
      recoveryEnabled cfg = true → clean → (stableFor < cfg_UtilityStable cfg)%Z →
      wait_rule (e_set_networkWaitSince zero_time w, no_change "utility stability timer")
  | wait_recharge :
      recoveryEnabled cfg = true → clean → (cfg_UtilityStable cfg ≤ stableFor)%Z →
      rechargeGate cfg ups stableFor = false →
      wait_rule (e_set_networkWaitSince zero_time w, no_change "UPS recharge gate not satisfied")
  | wait_network_failed :
      recoveryEnabled cfg = true → clean → (cfg_UtilityStable cfg ≤ stableFor)%Z →
      rechargeGate cfg ups stableFor = true → in_NetworkReady i = false →
      network_wait_expired cfg now e = true →
      wait_rule (failSafe "network dependencies did not become ready within configured recovery wait"
                   (e_set_networkWaitSince (network_since now e) w))
  | wait_network :
      recoveryEnabled cfg = true → clean → (cfg_UtilityStable cfg ≤ stableFor)%Z →
      rechargeGate cfg ups stableFor = true → in_NetworkReady i = false →
      network_wait_expired cfg now e = false →
      wait_rule (e_set_networkWaitSince (network_since now e) w, no_change "network not ready")
  | wait_health :
      recoveryEnabled cfg = true → clean → (cfg_UtilityStable cfg ≤ stableFor)%Z →
      rechargeGate cfg ups stableFor = true → in_NetworkReady i = true → in_HealthSafe i = false →
      wait_rule (e_set_networkWaitSince zero_time w, no_change "control stack health not safe")
  | wait_commit :
      recoveryEnabled cfg = true → clean → (cfg_UtilityStable cfg ≤ stableFor)%Z →
      rechargeGate cfg ups stableFor = true → in_NetworkReady i = true → in_HealthSafe i = true →
      wait_rule (w |> e_set_networkWaitSince zero_time |> e_set_RecoveryStarted true
                   |> e_set_PowerState RecoveryStarted,
                 mkDecision true ActionCommitRecovery "all recovery gates satisfied").

(** BOOT_RECONCILE. *)
Let boot_elapsed :=
  let elapsed := duration_of (e_elapsed e) Second in
  if bool_decide (e_resumeState e = OnBattery) && (elapsed <? cfg_GracePeriod cfg)%Z
  then cfg_GracePeriod cfg else elapsed.

Inductive boot_rule : Engine * result Decision → Prop :=
  | boot_unknown :
      us_Utility ups = UtilityUnknown →
      boot_rule (e, inr (no_change "waiting for trustworthy UPS state"))
  | boot_recovery_disabled :
      us_Utility ups ≠ UtilityUnknown → e_recovery e = true → recoveryEnabled cfg = false →
      boot_rule (e |> e_set_RecoveryStarted false |> e_set_PowerState WaitingForAC,
                 inr (mkDecision true ActionStopRecovery
                        "automatic recovery disabled during boot reconciliation"))
  | boot_recovery_unsafe :
      us_Utility ups ≠ UtilityUnknown → e_recovery e = true → recoveryEnabled cfg = true →
      us_Utility ups = UtilityOnBattery ∨ us_LowBattery ups = true ∨ us_FSD ups = true →
      boot_rule (e |> e_set_RecoveryStarted false |> e_set_PowerState OnBattery,
                 inr (mkDecision true ActionStopRecovery "booted into unsafe power after recovery started"))
  | boot_recovery_regate :
      us_Utility ups ≠ UtilityUnknown → e_recovery e = true → recoveryEnabled cfg = true →
      us_Utility ups ≠ UtilityOnBattery → us_LowBattery ups = false → us_FSD ups = false →
      boot_rule (e |> e_set_RecoveryStarted false |> e_set_onlineSince now
                   |> e_set_networkWaitSince zero_time |> e_set_PowerState RecoveryWait,
                 inr (mkDecision true ActionNone "resumed recovery re-gated after boot"))
  | boot_interrupted_abort :
      us_Utility ups = UtilityOnBattery → e_recovery e = false → e_committed e = true →
      e_resumeState e = OnBattery →
      boot_rule (e_set_PowerState OnBattery e,
                 inr (mkDecision true ActionStopRecovery "completing interrupted recovery abort"))
  | boot_committed_disabled :
      us_Utility ups = UtilityOnline → e_recovery e = false → e_committed e = true →
      recoveryEnabled cfg = false →
      boot_rule (e_set_PowerState WaitingForAC e,
                 inr (mkDecision (negb (bool_decide (e_resumeState e = WaitingForAC))) ActionNone
                        "committed shutdown found; automatic recovery disabled"))
  | boot_committed_online :
      us_Utility ups = UtilityOnline → e_recovery e = false → e_committed e = true →
      recoveryEnabled cfg = true →
      boot_rule (e |> e_set_onlineSince now |> e_set_networkWaitSince zero_time
                   |> e_set_PowerState RecoveryWait,
                 inr (mkDecision true ActionNone
                        "committed shutdown found; utility online; wait recovery gates"))
  | boot_committed_waiting :
      us_Utility ups ≠ UtilityUnknown → us_Utility ups ≠ UtilityOnline →
      e_recovery e = false → e_committed e = true →
      (us_Utility ups = UtilityOnBattery → e_resumeState e ≠ OnBattery) →
      boot_rule (e_set_PowerState WaitingForAC e,
                 inr (mkDecision true ActionNone "committed shutdown found; wait for utility"))
  | boot_on_battery :
      us_Utility ups = UtilityOnBattery → e_recovery e = false → e_committed e = false →
      boot_rule (e |> e_set_onBatterySince (time_add now (wrap64 (- boot_elapsed)))
                   |> e_set_lastOutageCheckpoint now |> e_set_onlineConfirmations 0%Z
                   |> e_set_PowerState OnBattery,
                 inr (mkDecision true ActionNone "booted while on battery"))
  | boot_normal :
      us_Utility ups = UtilityOnline → e_recovery e = false → e_committed e = false →
      boot_rule (e |> e_set_OutageElapsed 0%Z |> e_set_PowerState Normal,
                 inr (mkDecision true ActionNone "boot reconciliation complete"))
  | boot_unhandled raw :
      us_Utility ups = OtherUtility raw → e_recovery e = false → e_committed e = false →
      boot_rule (e, inl (Errorf "unhandled boot reconciliation input")).

(** RECOVERY_STARTED and RESTORE_HOSTS.  [abort] leaves the committed recovery. *)
Let disabled_engine := e |> e_set_RecoveryStarted false |> e_set_PowerState WaitingForAC.
Let abort_engine :=
  e |> e_set_onlineSince zero_time |> e_set_networkWaitSince zero_time
    |> e_set_RecoveryStarted false |> e_set_PowerState OnBattery.
Let net := e_set_networkWaitSince (network_since now e) e.

Inductive restore_rule : Engine * Decision → Prop :=
  | restore_disabled :
      recoveryEnabled cfg = false →
      restore_rule (disabled_engine, mkDecision true ActionStopRecovery "automatic recovery disabled")
  | restore_abort reason :
      recoveryEnabled cfg = true → unsafeUPS ups = true →
      restore_rule (abort_engine, mkDecision true ActionStopRecovery reason)
  | restore_health reason :
      recoveryEnabled cfg = true → unsafeUPS ups = false → in_HealthSafe i = false →
      restore_rule (failSafe reason e)
  | restore_network_failed reason :
      e_power e = RecoveryStarted →
      recoveryEnabled cfg = true → unsafeUPS ups = false → in_HealthSafe i = true →
      in_NetworkReady i = false → network_wait_expired cfg now e = true →
      restore_rule (failSafe reason net)
  | restore_paused reason :
      e_power e = RecoveryStarted →
      recoveryEnabled cfg = true → unsafeUPS ups = false → in_HealthSafe i = true →
      in_NetworkReady i = false → network_wait_expired cfg now e = false →
      restore_rule (net, no_change reason)
  | restore_back_behind_gate reason :
      e_power e = RestoreHosts →
      recoveryEnabled cfg = true → unsafeUPS ups = false → in_HealthSafe i = true →
      in_NetworkReady i = false →
      restore_rule (e_set_PowerState RecoveryStarted net, mkDecision true ActionNone reason)
  | restore_start :
      e_power e = RecoveryStarted →
      recoveryEnabled cfg = true → unsafeUPS ups = false → in_HealthSafe i = true →
      in_NetworkReady i = true →
      restore_rule (e |> e_set_networkWaitSince zero_time |> e_set_PowerState RestoreHosts,
                    mkDecision true ActionStartRestore "recovery commit durable")
  | restore_continue :
      e_power e = RestoreHosts →
      recoveryEnabled cfg = true → unsafeUPS ups = false → in_HealthSafe i = true →
      in_NetworkReady i = true →
      restore_rule (e_set_networkWaitSince zero_time e, no_change "").

(** The state machine: which rules apply in which power state. *)
Inductive Step_rule : Engine * result Decision → Prop :=
  | step_failed_safe :
      e_power e = FailedSafe → Step_rule (e, inr (no_change "FAILED_SAFE"))
  | step_boot r : e_power e = BootReconcile → boot_rule r → Step_rule r
  | step_fsd :
      e_power e ≠ FailedSafe → e_power e ≠ BootReconcile →
      us_FSD ups = true → e_committed e = false →
      Step_rule (ok (commitShutdown "FSD observed" e))
  | step_outage :
      e_power e = Normal → us_FSD ups && negb (e_committed e) = false →
      us_Utility ups = UtilityOnBattery →
      Step_rule (e |> e_set_onBatterySince now |> e_set_lastOutageCheckpoint now
                   |> e_set_unknownSince zero_time |> e_set_onlineConfirmations 0%Z
                   |> e_set_OutageElapsed 0%Z |> e_set_PowerState OnBattery,
                 inr (mkDecision true ActionNone "UPS on battery"))
  | step_normal :
      e_power e = Normal → us_FSD ups && negb (e_committed e) = false →
      us_Utility ups ≠ UtilityOnBattery → Step_rule (e, inr (no_change ""))
  | step_battery r :
      e_power e = OnBattery → us_FSD ups && negb (e_committed e) = false →
      battery_rule r → Step_rule (ok r)
  | step_committed :
      e_power e = ShutdownCommitted → us_FSD ups && negb (e_committed e) = false →
      Step_rule (e_set_PowerState ShutdownInProgress e,
                 inr (mkDecision true ActionNone "shutdown transaction committed"))
  | step_in_progress :
      e_power e = ShutdownInProgress → us_FSD ups && negb (e_committed e) = false →
      Step_rule (e, inr (no_change ""))
  | step_utility_back :
      e_power e = WaitingForAC → us_FSD ups && negb (e_committed e) = false →
      us_Utility ups = UtilityOnline → recoveryEnabled cfg = true →
      Step_rule (e |> e_set_onlineSince now |> e_set_networkWaitSince zero_time
                   |> e_set_PowerState RecoveryWait,
                 inr (mkDecision true ActionNone "utility restored; recovery gates pending"))
  | step_waiting reason :
      e_power e = WaitingForAC → us_FSD ups && negb (e_committed e) = false →
      us_Utility ups ≠ UtilityOnline ∨ recoveryEnabled cfg = false →
      Step_rule (e, inr (no_change reason))
  | step_wait r :
      e_power e = RecoveryWait → us_FSD ups && negb (e_committed e) = false →
      wait_rule r → Step_rule (ok r)
  | step_restore r :
      e_power e = RecoveryStarted ∨ e_power e = RestoreHosts →
      us_FSD ups && negb (e_committed e) = false →
      restore_rule r → Step_rule (ok r)
  | step_unsupported raw :
      e_power e = OtherPowerState raw → us_FSD ups && negb (e_committed e) = false →
      Step_rule (e, inl (Errorf ("unsupported power state " +:+ raw))).
End rules.

Lemma ensure_unknown now e :
  (if IsZero (e_unknownSince e) then e_set_unknownSince now e else e) =
  e_set_unknownSince (unknown_since now e) e.
Proof. unfold unknown_since. destruct e; simpl. by destruct (IsZero _). Qed.
Lemma ensure_online now e :
  (if IsZero (e_onlineSince e) then e_set_onlineSince now e else e) =
  e_set_onlineSince (online_since now e) e.
Proof. unfold online_since. destruct e; simpl. by destruct (IsZero _). Qed.
Lemma ensure_network now e :
  (if IsZero (e_networkWaitSince e) then e_set_networkWaitSince now e else e) =
  e_set_networkWaitSince (network_since now e) e.
Proof. unfold network_since. destruct e; simpl. by destruct (IsZero _). Qed.
Lemma start_battery_since now e : e_onBatterySince (start_battery_timer now e) = battery_since now e.
Proof. unfold start_battery_timer, battery_since. by destruct (IsZero _). Qed.

Ltac solve_rule := bool_facts; subst; try congruence; try tauto; try lia.

Lemma low_battery_off ups :
  us_LowBattery ups && negb (is_utility UtilityOnline ups) = false →
  us_Utility ups ≠ UtilityOnline → us_LowBattery ups = false.
Proof.
  unfold is_utility. intros H Hu. rewrite bool_decide_false in H by done.
  by rewrite andb_true_r in H.
Qed.

Lemma stepOnBattery_rule now i e : battery_rule now i e (stepOnBattery now i e).
Proof.
  cbv beta delta [stepOnBattery]. do 2 outer_if. outer_if.
  { repeat outer_if; bool_facts; [by apply battery_confirm | by apply battery_restored]. }
  outer_if. outer_if. { apply battery_low; by bool_facts. }
  outer_if.
  { rewrite ensure_unknown.
    change (unknown_since now (e_set_onlineConfirmations 0%Z e)) with (unknown_since now e). outer_if.
    change ((0 <? _)%Z && _) with (comm_loss_expired (e_cfg e) now e). apply low_battery_off in Heqb0; [|bool_facts; congruence].
    outer_if; [apply battery_comm_loss | apply battery_unknown]; by bool_facts. }
  outer_if. outer_if.
  { apply battery_other; [by bool_facts..| |].
    - intros Hu. unfold is_utility in Heqb. rewrite bool_decide_true in Heqb by done. by simpl in Heqb; bool_facts.
    - intros Hl. rewrite Hl in Heqb0. by simpl in Heqb0; bool_facts. }
  apply low_battery_off in Heqb0; [|bool_facts; congruence].
  change (if IsZero _ then _ else _) with
    (start_battery_timer now (e_set_unknownSince zero_time (e_set_onlineConfirmations 0%Z e))).
  outer_if. rewrite start_battery_since. outer_if.
  change (time_sub now _) with (outage_elapsed now e).
  change ((0 <? _)%Z && match us_RuntimeSeconds _ with Some _ => _ | None => _ end)
    with (runtime_critical (e_cfg e) (in_UPS i)).
  change (match cfg_CriticalCharge _ with Some _ => _ | None => _ end)
    with (charge_critical (e_cfg e) (in_UPS i)).
  change ((0 <? cfg_MaxOnBattery _)%Z && _) with (time_critical (e_cfg e) (outage_elapsed now e)).
  assert (Hu : us_Utility (in_UPS i) = UtilityOnBattery) by by bool_facts.
  repeat outer_if; rewrite ?Z.ltb_lt, ?Z.ltb_ge in *; by econstructor.
Qed.

Lemma stepRecoveryWait_rule now i e : wait_rule now i e (stepRecoveryWait now i e).
Proof.
  cbv beta delta [stepRecoveryWait]. do 2 outer_if. outer_if; [apply wait_disabled; by bool_facts|].
  apply negb_false_iff in Heqb. outer_if.
  { outer_if. outer_if.
    - apply wait_unsafe; [done|]. split_facts; auto.
    - split_facts; try congruence. by apply wait_unknown. }
  assert (Hclean : us_Utility (in_UPS i) = UtilityOnline ∧ us_LowBattery (in_UPS i) = false ∧
                   us_FSD (in_UPS i) = false) by by bool_facts.
  rewrite ensure_online. outer_if. outer_if.
  change (time_sub now (e_onlineSince _)) with (time_sub now (online_since now e)).
  outer_if; [apply wait_unstable; by bool_facts|]. apply Z.ltb_ge in Heqb1.
  outer_if; [apply wait_recharge; by bool_facts|]. apply negb_false_iff in Heqb2.
  outer_if.
  { rewrite ensure_network.
    change (network_since now (e_set_onlineSince _ e)) with (network_since now e). outer_if.
    change ((0 <? _)%Z && _) with (network_wait_expired (e_cfg e) now e).
    outer_if; [apply wait_network_failed | apply wait_network]; by bool_facts. }
  apply negb_false_iff in Heqb3. outer_if.
  outer_if; [apply wait_health | apply wait_commit]; by bool_facts.
Qed.

Lemma reconcileBoot_rule now i e : boot_rule now i e (reconcileBoot now i e).
Proof.
  cbv beta delta [reconcileBoot]. outer_if.
  outer_if; [by apply boot_unknown; bool_facts|]. outer_if.
  { outer_if; [by apply boot_recovery_disabled; bool_facts|].
    apply negb_false_iff in Heqb1. outer_if.
    - apply boot_recovery_unsafe; [by bool_facts|done|done|]. split_facts; auto.
    - apply boot_recovery_regate; by bool_facts. }
  outer_if; [bool_facts; by apply boot_interrupted_abort|]. outer_if.
  { outer_if.
    - outer_if; [apply boot_committed_disabled | apply boot_committed_online]; by bool_facts.
    - apply boot_committed_waiting; [by bool_facts..|]. intros Hu Hr. unfold is_utility in *.
      by rewrite !bool_decide_true in Heqb1. }
  outer_if. { do 2 outer_if. bool_facts. by apply boot_on_battery. }
  outer_if; [bool_facts; by apply boot_normal|].
  bool_facts. destruct (us_Utility (in_UPS i)) eqn:Hu; try done. by eapply boot_unhandled.
Qed.

(** The executable [Step] takes exactly the transitions of the rules. *)
Lemma Step_implements_rules now i e : Step_rule now i e (Step now i e).
Proof.
  unfold Step. case_bool_decide; [by apply step_failed_safe|].
  case_bool_decide; [apply step_boot; [done | apply reconcileBoot_rule]|].
  destruct (us_FSD (in_UPS i) && negb (e_committed e)) eqn:Hfsd.
  { apply andb_true_iff in Hfsd as [? ?%negb_true_iff]. by apply step_fsd. }
  destruct (e_power e) eqn:Hp; try done.
  - unfold step_case_Normal, is_utility. case_bool_decide; [by apply step_outage | by apply step_normal].
  - apply step_battery; [done..|]. apply stepOnBattery_rule.
  - by apply step_committed.
  - by apply step_in_progress.
  - unfold step_case_WaitingForAC, is_utility. case_bool_decide; [|by apply step_waiting; auto].
    destruct (recoveryEnabled (e_cfg e)) eqn:?; [by apply step_utility_back | by apply step_waiting; auto].
  - apply step_wait; [done..|]. apply stepRecoveryWait_rule.
  - apply step_restore; [auto|done|]. cbv beta delta [step_case_RecoveryStarted].
    outer_if; [apply restore_disabled; by bool_facts|]. apply negb_false_iff in Heqb.
    outer_if; [by apply restore_abort|].
    outer_if; [apply restore_health; by bool_facts|]. apply negb_false_iff in Heqb1.
    outer_if; [|apply restore_start; by bool_facts]. apply negb_true_iff in Heqb2.
    rewrite ensure_network. outer_if.
    change ((0 <? _)%Z && _) with (network_wait_expired (e_cfg e) now e).
    outer_if; [by apply restore_network_failed | by apply restore_paused].
  - apply step_restore; [auto|done|]. cbv beta delta [step_case_RestoreHosts].
    outer_if; [apply restore_disabled; by bool_facts|]. apply negb_false_iff in Heqb.
    outer_if; [by apply restore_abort|].
    outer_if; [apply restore_health; by bool_facts|]. apply negb_false_iff in Heqb1.
    outer_if; [|apply restore_continue; by bool_facts]. apply negb_true_iff in Heqb2.
    rewrite ensure_network. outer_if. by apply restore_back_behind_gate.
  - by apply step_unsupported.
Qed.

(** Case analysis on the rule a [Step] took.  Afterwards the engine, the
    decision and the conditions of the branch are explicit. *)
Ltac step_rules now i e :=
  generalize (Step_implements_rules now i e); generalize (Step now i e);
  let r := fresh "r" in intros r;
  destruct 1 as [Hp|r Hp Hr|Hp Hp' Hfsd Hc|Hp Hfsd Hu|Hp Hfsd Hu|r Hp Hfsd Hr|Hp Hfsd|Hp Hfsd
                |Hp Hfsd Hu Hen|reason Hp Hfsd Hu|r Hp Hfsd Hr|r Hp Hfsd Hr|raw Hp Hfsd];
  try destruct Hr.

(** Destruct every condition left in the goal. *)
Ltac split_ifs :=
  repeat (match goal with |- context [if ?b then _ else _] => destruct b eqn:? end; simpl).

(** Simplify field reads of an updated engine. *)
Ltac engine_simpl :=
  unfold checkpointOutage, start_battery_timer, recordOutageElapsed, failSafe, commitShutdown,
    ok, no_change in *; simpl in *.

(** ** The flag invariant *)

(** The flags agree with the power state.  [wf_state] is what the engine keeps
    true of the generation it holds; it implies the two flag rules of
    [validateSemantic]. *)
Definition wf_state (s : State) : Prop :=
  (st_RecoveryStarted s = true → st_ShutdownCommitted s = true) ∧
  match st_PowerState s with
  | Normal => st_ShutdownCommitted s = false ∧ st_RecoveryStarted s = false
  | OnBattery => st_RecoveryStarted s = false
  | ShutdownCommitted | ShutdownInProgress | WaitingForAC | RecoveryWait =>
      st_ShutdownCommitted s = true ∧ st_RecoveryStarted s = false
  | RecoveryStarted | RestoreHosts =>
      st_ShutdownCommitted s = true ∧ st_RecoveryStarted s = true
  | BootReconcile | FailedSafe | OtherPowerState _ => True
  end.

Lemma wf_state_new cfg s :
  (st_RecoveryStarted s = true → st_ShutdownCommitted s = true) → wf_state (e_st (New cfg s)).
Proof.
  intros H. unfold wf_state, New. simpl. destruct (st_StateVersion s =? 0)%Z; split; done.
Qed.

Lemma checkpoint_flags now d reason e :
  let e' := (checkpointOutage now d reason e).1 in
  e_power e' = e_power e ∧ e_committed e' = e_committed e ∧ e_recovery e' = e_recovery e ∧
  e_cfg e' = e_cfg e ∧ e_resumeState e' = e_resumeState e ∧ e_onBatterySince e' = e_onBatterySince e.
Proof. engine_simpl. split_ifs; done. Qed.

Lemma start_battery_flags now e :
  let e' := start_battery_timer now e in
  e_power e' = e_power e ∧ e_committed e' = e_committed e ∧ e_recovery e' = e_recovery e ∧
  e_cfg e' = e_cfg e ∧ e_resumeState e' = e_resumeState e.
Proof. engine_simpl. split_ifs; done. Qed.

Lemma record_flags d e :
  let e' := recordOutageElapsed d e in
  e_power e' = e_power e ∧ e_committed e' = e_committed e ∧ e_recovery e' = e_recovery e ∧
  e_cfg e' = e_cfg e ∧ e_resumeState e' = e_resumeState e.
Proof. engine_simpl. split_ifs; done. Qed.

(** All branches of [Step], one goal each, with the fields computed. *)
Ltac step_branches now i e :=
  step_rules now i e;
  try match goal with H : e_power e = _ ∨ e_power e = _ |- _ => destruct H as [H|H] end;
  engine_simpl; split_ifs;
  repeat match goal with H : e_power e = _ |- context [e_power e] => rewrite H end.

(** The engine keeps its two commit flags consistent with its power state
    on every observation: recovery is only ever marked started inside a
    committed shutdown, NORMAL carries neither flag, and every recovery state
    carries the flags the store's validation asks for. *)
Lemma Step_preserves_flags now i e :
  wf_state (e_st e) → wf_state (e_st (Step now i e).1).
Proof.
  unfold wf_state. intros [Hrec Hps].
  step_branches now i e;
    try match goal with H : e_power e = _ |- _ => rewrite H in Hps end;
    try solve [intuition congruence].
  all: destruct (e_recovery e); intuition congruence.
Qed.

Lemma MarkShutdownPhaseComplete_flags e :
  wf_state (e_st e) → wf_state (e_st (MarkShutdownPhaseComplete e).1).
Proof.
  unfold wf_state, MarkShutdownPhaseComplete. intros [Hrec Hps].
  do 2 case_bool_decide; simpl; try done; match goal with H : e_power e = _ |- _ => rewrite H in Hps end; done.
Qed.

Lemma MarkRecoveryComplete_flags e :
  wf_state (e_st e) → wf_state (e_st (MarkRecoveryComplete e).1).
Proof. unfold wf_state, MarkRecoveryComplete. intros [Hrec Hps]. by case_bool_decide. Qed.

(** ** When the engine commits a shutdown *)

(** The conditions under which policy may commit a shutdown, independent of
    the order in which the code tests them. *)
Inductive shutdown_trigger (now : Time) (i : Inputs) (e : Engine) : Prop :=
  | trigger_fsd :
      e_power e ≠ FailedSafe → e_power e ≠ BootReconcile →
      us_FSD (in_UPS i) = true → e_committed e = false → shutdown_trigger now i e
  | trigger_low_battery :
      e_power e = OnBattery → us_LowBattery (in_UPS i) = true →
      us_Utility (in_UPS i) ≠ UtilityOnline → shutdown_trigger now i e
  | trigger_comm_loss :
      e_power e = OnBattery → us_Utility (in_UPS i) = UtilityUnknown →
      comm_loss_expired (e_cfg e) now e = true → shutdown_trigger now i e
  | trigger_threshold :
      e_power e = OnBattery → us_Utility (in_UPS i) = UtilityOnBattery →
      (cfg_GracePeriod (e_cfg e) ≤ outage_elapsed now e)%Z →
      runtime_critical (e_cfg e) (in_UPS i) || charge_critical (e_cfg e) (in_UPS i)
        || time_critical (e_cfg e) (outage_elapsed now e) = true →
      shutdown_trigger now i e.

Definition commits_shutdown (r : Engine * result Decision) : Prop :=
  ∃ d, r.2 = inr d ∧ dec_Action d = ActionCommitShutdown.

Lemma commits_shutdown_spec now i e :
  commits_shutdown (Step now i e) ↔ shutdown_trigger now i e.
Proof.
  unfold commits_shutdown. split.
  - step_branches now i e; intros (d & Hd & Ha); simplify_eq/=; try done.
    all: try solve [by apply trigger_fsd | by apply trigger_low_battery | by apply trigger_comm_loss].
    all: apply trigger_threshold; try done.
    all: repeat match goal with H : ?b = true |- context [?b] => rewrite H end; rewrite ?orb_true_r; done.
  - intros Htr. step_branches now i e; try solve [eexists; split; [reflexivity | done]].
    all: destruct Htr; try congruence.
    all: try match goal with H : _ && _ = false |- _ => apply andb_false_iff in H as [?|?%negb_false_iff] end;
      try congruence; try lia.
    all: repeat match goal with
      | H : _ || _ = true |- _ => apply orb_true_iff in H as [?|?] end; try congruence.
    all: exfalso; tauto.
Qed.


(** ** When the engine commits a recovery *)

Definition commits_recovery (r : Engine * result Decision) : Prop :=
  ∃ d, r.2 = inr d ∧ dec_Action d = ActionCommitRecovery.

(** All gates of the recovery policy at once. *)
Record recovery_gates (now : Time) (i : Inputs) (e : Engine) : Prop := {
  gate_waiting : e_power e = RecoveryWait;
  gate_enabled : recoveryEnabled (e_cfg e) = true;
  gate_online : us_Utility (in_UPS i) = UtilityOnline;
  gate_no_low_battery : us_LowBattery (in_UPS i) = false;
  gate_no_fsd : us_FSD (in_UPS i) = false;
  gate_stable : (cfg_UtilityStable (e_cfg e) ≤ time_sub now (online_since now e))%Z;
  gate_recharged : rechargeGate (e_cfg e) (in_UPS i) (time_sub now (online_since now e)) = true;
  gate_network : in_NetworkReady i = true;
  gate_health : in_HealthSafe i = true;
}.

Lemma commits_recovery_spec now i e :
  commits_recovery (Step now i e) ↔ recovery_gates now i e.
Proof.
  unfold commits_recovery. split.
  - step_branches now i e; intros (d & Hd & Ha); simplify_eq/=; try done.
    match goal with H : _ ∧ _ |- _ => destruct H as (?&?&?) end. by split.
  - intros [].
    step_branches now i e; try solve [eexists; split; [reflexivity | done]]; try congruence.
    all: try match goal with H : _ ∧ _ |- _ => destruct H as (?&?&?) end;
      try congruence; try lia; exfalso; intuition congruence.
Qed.

(** Recovery is committed exactly when every gate passes on the same
    observation: recovery enabled, utility online with neither low battery nor
    FSD, the stability interval elapsed, the recharge gate satisfied, the
    network ready and the control stack healthy. *)
Theorem Step_commits_recovery_iff now i e :
  commits_recovery (Step now i e) ↔ recovery_gates now i e.
Proof. exact (commits_recovery_spec now i e). Qed.

(** ** A committed shutdown stays committed *)

(** No observation, whatever it reports, ever clears the committed flag:
    once a shutdown is committed only the completion of recovery or a fresh
    outage transaction ends it. *)
Lemma Step_keeps_commitment now i e :
  e_committed e = true → e_committed (Step now i e).1 = true.
Proof. intros Hcm. step_branches now i e; congruence. Qed.

Lemma Step_cfg now i e : e_cfg (Step now i e).1 = e_cfg e.
Proof. step_branches now i e; done. Qed.

Lemma Step_resumeState now i e : e_resumeState (Step now i e).1 = e_resumeState e.
Proof. step_branches now i e; done. Qed.

(** An observation never touches the host map or the transaction. *)
Lemma Step_keeps_hosts now i e :
  st_Hosts (e_st (Step now i e).1) = st_Hosts (e_st e) ∧
  st_TransactionID (e_st (Step now i e).1) = st_TransactionID (e_st e).
Proof. step_branches now i e; done. Qed.

Lemma Step_error_keeps_state now i e err :
  (Step now i e).2 = inl err → e_st (Step now i e).1 = e_st e.
Proof. step_branches now i e; intros; simplify_eq/=; done. Qed.

(** ** What an unchanged decision means *)

(** A decision that is not marked changed leaves the durable state alone,
    so the coordinator may skip the write: the in-memory state is either
    untouched or, when boot reconciliation re-enters the waiting state it was
    resumed from, equal to what is already on disk. *)
Lemma Step_unchanged_keeps_state now i e d :
  (Step now i e).2 = inr d → dec_Changed d = false →
  e_st (Step now i e).1 = e_st e ∨
  (e_power e = BootReconcile ∧ e_resumeState e = WaitingForAC ∧
   e_st (Step now i e).1 = st_set_PowerState (e_resumeState e) (e_st e)).
Proof.
  step_branches now i e; intros Hd Hch; simplify_eq/=; auto.
  all: try solve [exfalso; bool_facts; lia].
  right. apply negb_false_iff, bool_decide_eq_true in Hch. by rewrite Hch.
Qed.

(** ** Permitted transitions *)

(** The edges of the canonical power-state diagram. *)
Definition may_move (a b : PowerState) : bool :=
  match a, b with
  | BootReconcile, (BootReconcile | Normal | OnBattery | WaitingForAC | RecoveryWait) => true
  | Normal, (Normal | OnBattery | ShutdownCommitted) => true
  | OnBattery, (OnBattery | Normal | ShutdownCommitted) => true
  | ShutdownCommitted, (ShutdownInProgress | ShutdownCommitted) => true
  | ShutdownInProgress, (ShutdownInProgress | ShutdownCommitted) => true
  | WaitingForAC, (WaitingForAC | RecoveryWait | ShutdownCommitted) => true
  | RecoveryWait, (RecoveryWait | WaitingForAC | RecoveryStarted | FailedSafe | ShutdownCommitted) => true
  | RecoveryStarted, (RecoveryStarted | WaitingForAC | OnBattery | FailedSafe | RestoreHosts | ShutdownCommitted) => true
  | RestoreHosts, (RestoreHosts | WaitingForAC | OnBattery | FailedSafe | RecoveryStarted | ShutdownCommitted) => true
  | FailedSafe, FailedSafe => true
  | OtherPowerState _, (OtherPowerState _ | ShutdownCommitted) => true
  | _, _ => false
  end.

