(* ===== verification/PolicyRuns.v ===== *)
(** * Runs of the power-policy engine

    Guarantees that span several observations.  [history] is the set of
    engines a process can reach after booting: observations, completed phases,
    failed durable writes (which put the previous state back but keep the
    timers) and the state writes of the orchestrator.  Over it we prove that a
    recovery commit was preceded by an uninterrupted interval of clean utility
    samples, that an outage cannot outlast its configured limit, and what a
    reboot in the middle of an outage preserves. *)

From S2P Require Import Prelude PowerStateModel Nut Policy PolicyFacts.

Abbreviation observation := (Time * Inputs)%type (only parsing).

(** A sample that keeps the stability proof alive. *)
Definition clean_sample (o : observation) : Prop :=
  us_Utility (in_UPS o.2) = UtilityOnline ∧ us_LowBattery (in_UPS o.2) = false ∧
  us_FSD (in_UPS o.2) = false.

(** The sample that starts the stability timer. *)
Definition opening_sample (o : observation) : Prop :=
  us_Utility (in_UPS o.2) ≠ UtilityUnknown ∧ us_Utility (in_UPS o.2) ≠ UtilityOnBattery.

(** What an orchestrator write may do to the power state. *)
Definition write_keeps_power (p p' : PowerState) : Prop :=
  p' = p ∨ p' = FailedSafe ∨ p' = ShutdownInProgress.

(** Observations are listed newest first. *)
Inductive history (cfg : Config) (persisted : State) : list observation → Engine → Prop :=
  | hist_boot : history cfg persisted [] (New cfg persisted)
  | hist_step obs e now i :
      history cfg persisted obs e →
      history cfg persisted ((now, i) :: obs) (Step now i e).1
  | hist_step_not_written obs e now i :
      history cfg persisted obs e →
      history cfg persisted ((now, i) :: obs) (e_set_st (e_st e) (Step now i e).1)
  | hist_shutdown_complete obs e :
      history cfg persisted obs e → history cfg persisted obs (MarkShutdownPhaseComplete e).1
  | hist_recovery_complete obs e :
      history cfg persisted obs e → history cfg persisted obs (MarkRecoveryComplete e).1
  | hist_recovery_not_written obs e :
      history cfg persisted obs e →
      history cfg persisted obs (e_set_st (e_st e) (MarkRecoveryComplete e).1)
  | hist_write obs e st :
      history cfg persisted obs e → wf_state st →
      write_keeps_power (e_power e) (st_PowerState st) →
      history cfg persisted obs (e_set_st st e).

(** The samples since the stability timer started: the opening sample at the
    timer's start and only clean ones since. *)
Definition stable_since (t : Time) (obs : list observation) : Prop :=
  ∃ recent opening older,
    obs = recent ++ opening :: older ∧ opening.1 = t ∧ opening_sample opening ∧
    Forall clean_sample recent.

Definition stability_inv (obs : list observation) (e : Engine) : Prop :=
  e_power e = RecoveryWait → IsZero (e_onlineSince e) = false → stable_since (e_onlineSince e) obs.

Lemma stable_since_opening now i obs :
  opening_sample (now, i) → stable_since now ((now, i) :: obs).
Proof. intros H. exists [], (now, i), obs. by split_and!. Qed.

Lemma stable_since_clean t now i obs :
  clean_sample (now, i) → stable_since t obs → stable_since t ((now, i) :: obs).
Proof.
  intros H (r & o & old & -> & ? & ? & ?). exists ((now, i) :: r), o, old.
  split_and!; try done. by constructor.
Qed.

Lemma stable_since_online now i e obs :
  clean_sample (now, i) →
  (IsZero (e_onlineSince e) = false → stable_since (e_onlineSince e) obs) →
  stable_since (online_since now e) ((now, i) :: obs).
Proof.
  intros Hc Hinv. unfold online_since. destruct (IsZero (e_onlineSince e)) eqn:Hz.
  - apply stable_since_opening. destruct Hc as (Hc & _). unfold opening_sample. simpl in *. by rewrite Hc.
  - apply stable_since_clean; auto.
Qed.

(** Entering RECOVERY_WAIT starts the timer; staying in it keeps or restarts it. *)
Lemma Step_stability now i e obs :
  stability_inv obs e → stability_inv ((now, i) :: obs) (Step now i e).1.
Proof.
  unfold stability_inv. step_branches now i e; intros Hinv Hpow Hz; simplify_eq/=; try congruence.
  all: try (apply stable_since_opening; unfold opening_sample; simpl; intuition congruence).
  all: apply stable_since_online; [assumption | by apply Hinv].
Qed.

(** Re-installing the old state does not lose the timer's meaning. *)
Lemma Step_stability_not_written now i e obs :
  wf_state (e_st e) →
  stability_inv obs e → stability_inv ((now, i) :: obs) (e_set_st (e_st e) (Step now i e).1).
Proof.
  unfold stability_inv, wf_state. simpl. intros [_ Hwf] Hinv Hpow. rewrite Hpow in Hwf.
  specialize (Hinv Hpow).
  step_branches now i e; intros Hz; simplify_eq/=; try congruence; try (by destruct Hwf; congruence).
  all: apply stable_since_online; assumption.
Qed.

Lemma MarkShutdownPhaseComplete_power e :
  e_power (MarkShutdownPhaseComplete e).1 = RecoveryWait → (MarkShutdownPhaseComplete e).1 = e.
Proof. unfold MarkShutdownPhaseComplete. do 2 case_bool_decide; simpl; done. Qed.

Lemma MarkRecoveryComplete_power e :
  e_power (MarkRecoveryComplete e).1 = RecoveryWait → (MarkRecoveryComplete e).1 = e.
Proof. unfold MarkRecoveryComplete. case_bool_decide; simpl; done. Qed.

Section history.
Context (cfg : Config) (persisted : State).
Hypothesis Hpersisted : st_RecoveryStarted persisted = true → st_ShutdownCommitted persisted = true.

Lemma history_wf obs e : history cfg persisted obs e → wf_state (e_st e).
Proof.
  induction 1; auto using Step_preserves_flags, MarkShutdownPhaseComplete_flags,
    MarkRecoveryComplete_flags, wf_state_new.
Qed.

Lemma history_cfg obs e : history cfg persisted obs e → e_cfg e = e_cfg (New cfg persisted).
Proof.
  induction 1 as [|????? <-|????? <-|??? <-|??? <-|??? <-|]; simpl; rewrite ?Step_cfg; try done.
  - unfold MarkShutdownPhaseComplete. by do 2 case_bool_decide.
  - unfold MarkRecoveryComplete. by case_bool_decide.
  - unfold MarkRecoveryComplete. by case_bool_decide.
Qed.

Lemma history_stability obs e : history cfg persisted obs e → stability_inv obs e.
Proof.
  induction 1 as [|? e now i H IH|? e now i H IH|? e H IH|? e H IH|? e H IH|? e st H IH Hwf Hkeep].
  - by intros Hp.
  - by apply Step_stability.
  - by apply Step_stability_not_written; [eapply history_wf|].
  - intros Hp. pose proof (MarkShutdownPhaseComplete_power e Hp) as Heq.
    rewrite Heq in Hp |- *. by apply IH.
  - intros Hp. pose proof (MarkRecoveryComplete_power e Hp) as Heq.
    rewrite Heq in Hp |- *. by apply IH.
  - intros Hp. simpl in Hp. simpl. unfold MarkRecoveryComplete. rewrite Hp. simpl. by apply IH.
  - intros Hp. simpl in *. destruct Hkeep as [Hk|[Hk|Hk]]; try congruence.
    apply IH. congruence.
Qed.

Lemma New_UtilityStable_pos : (0 < cfg_UtilityStable (e_cfg (New cfg persisted)))%Z.
Proof.
  unfold New. simpl. destruct (cfg_UtilityStable cfg <=? 0)%Z eqn:Hle; simpl; [done|].
  by apply Z.leb_gt in Hle.
Qed.

(** In every run of the agent, whatever it observes, whichever durable
    writes fail and whatever the orchestrator writes in between, the commit
    flags agree with the power state: recovery is only started inside a
    committed shutdown, NORMAL carries neither flag, and the states that act
    on hosts carry the flags the store's validation demands. *)
Theorem engine_flags_invariant obs e :
  history cfg persisted obs e → wf_state (e_st e).
Proof. exact (history_wf obs e). Qed.

(** C18: Whenever a running agent commits a recovery, the utility has been
    observed online without interruption for at least the configured
    stability interval: there is an earlier sample, that interval ago or
    more, since which every sample (this one included) was online with
    neither low battery nor FSD, whatever failed writes, completed phases
    and orchestrator writes happened in between. *)
Theorem recovery_needs_stable_utility obs e now i :
  history cfg persisted obs e → commits_recovery (Step now i e) →
  clean_sample (now, i) ∧
  ∃ t, (cfg_UtilityStable (e_cfg e) ≤ time_sub now t)%Z ∧ stable_since t obs.
Proof.
  intros Hh Hc. apply commits_recovery_spec in Hc as [Hp ? ? ? ? Hstable ? ? ?].
  split; [by split_and!|]. exists (online_since now e). split; [done|].
  unfold online_since in *. destruct (IsZero (e_onlineSince e)) eqn:Hz.
  - pose proof New_UtilityStable_pos as Hpos. rewrite <-(history_cfg _ _ Hh) in Hpos.
    unfold time_sub, min_int64, max_int64 in Hstable. lia.
  - by apply (history_stability _ _ Hh).
Qed.
End history.

(** ** A bounded outage *)

(** An observation that does not end the outage. *)
Definition still_out (o : observation) : Prop :=
  us_Utility (in_UPS o.2) = UtilityOnBattery ∨ us_Utility (in_UPS o.2) = UtilityUnknown.

(** Observations in chronological order. *)
Definition run (e : Engine) (obs : list observation) : Engine :=
  fold_left (λ e o, (Step o.1 o.2 e).1) obs e.

(** During an outage the timer keeps its start until the shutdown commits. *)
Definition outage_running (T : Time) (e : Engine) : Prop :=
  e_committed e = true ∨
  (e_power e = OnBattery ∧ IsZero (e_onBatterySince e) = false ∧ e_onBatterySince e = T).

Lemma Step_outage_running T o e :
  still_out o → outage_running T e → outage_running T (Step o.1 o.2 e).1.
Proof.
  destruct o as [now i]. unfold outage_running, still_out. simpl. intros Hout [Hcm|(Hpow & Hz & HT)].
  { left. by apply Step_keeps_commitment. }
  destruct (e_committed e) eqn:Hcm; [left; by apply Step_keeps_commitment|].
  step_branches now i e; try congruence; auto; exfalso; intuition congruence.
Qed.

Lemma run_outage_running T obs e :
  Forall still_out obs → outage_running T e → outage_running T (run e obs).
Proof.
  unfold run. revert e. induction obs as [|o obs IH]; intros e Ho Hr; simpl; [done|].
  inversion_clear Ho. apply IH; [done|]. by apply Step_outage_running.
Qed.

Lemma run_cfg obs e : e_cfg (run e obs) = e_cfg e.
Proof.
  unfold run. revert e. induction obs as [|o obs IH]; intros e; simpl; [done|]. by rewrite IH, Step_cfg.
Qed.

(** C33: An outage cannot outlast its limit: from the moment the timer runs,
    after any number of on-battery or unknown samples, the first on-battery
    sample taken at or after both the grace period and max_on_battery leaves
    the shutdown committed, if it had not been committed earlier. *)
Theorem outage_is_bounded T e obs now i :
  e_power e = OnBattery → IsZero (e_onBatterySince e) = false → e_onBatterySince e = T →
  Forall still_out obs → us_Utility (in_UPS i) = UtilityOnBattery →
  (0 < cfg_MaxOnBattery (e_cfg e) ≤ max_int64)%Z → (0 ≤ cfg_GracePeriod (e_cfg e) ≤ max_int64)%Z →
  (Z.max (cfg_GracePeriod (e_cfg e)) (cfg_MaxOnBattery (e_cfg e)) ≤ now - T)%Z →
  e_committed (run e (obs ++ [(now, i)])) = true.
Proof.
  intros Hpw Hz HT Hobs Hut Hmax Hgr Hlong. unfold run. rewrite fold_left_app. fold (run e obs). simpl.
  destruct (run_outage_running T obs e Hobs) as [Hcm|(Hpw' & Hz' & HT')]; [by right|..].
  { by apply Step_keeps_commitment. }
  assert (Helapsed : (Z.max (cfg_GracePeriod (e_cfg e)) (cfg_MaxOnBattery (e_cfg e))
                      ≤ outage_elapsed now (run e obs))%Z).
  { unfold outage_elapsed, battery_since. rewrite Hz', HT'.
    unfold time_sub, min_int64, max_int64 in *. lia. }
  assert (Hcommit : commits_shutdown (Step now i (run e obs))).
  { apply commits_shutdown_spec, trigger_threshold; rewrite ?run_cfg; try done; [lia|].
    unfold time_critical. rewrite !orb_true_iff, andb_true_iff, Z.ltb_lt, Z.leb_le. lia. }
  destruct Hcommit as (d & Hd & Ha). revert Hd.
  step_branches now i (run e obs); intros Hd; simplify_eq/=; done.
Qed.

(** ** A reboot in the middle of an outage *)

(** A restart during an uncommitted outage grants no fresh grace and does
    not restart the outage clock: once the rebooted agent sees the battery
    again, every later sample finds the grace period over, and the elapsed
    time is at least the durably recorded time plus the time since the reboot. *)
Theorem reboot_keeps_outage_clock cfg s now i later :
  st_PowerState s = OnBattery → st_ShutdownCommitted s = false → st_RecoveryStarted s = false →
  us_Utility (in_UPS i) = UtilityOnBattery →
  (0 ≤ st_OutageElapsedSeconds s ≤ 9223372036)%Z → (0 ≤ cfg_GracePeriod cfg ≤ max_int64)%Z →
  (max_int64 < now)%Z → (now ≤ later)%Z →
  let e := (Step now i (New cfg s)).1 in
  e_power e = OnBattery ∧
  (cfg_GracePeriod cfg ≤ outage_elapsed later e)%Z ∧
  (Z.min max_int64 (st_OutageElapsedSeconds s * Second + (later - now)) ≤ outage_elapsed later e)%Z.
Proof.
  intros Hp Hc Hr Hu Hs Hg Hnow Hlater. cbv zeta.
  assert (Hd : duration_of (st_OutageElapsedSeconds s) Second = (st_OutageElapsedSeconds s * Second)%Z)
    by by apply duration_of_seconds.
  set (elapsed := Z.max (st_OutageElapsedSeconds s * Second) (cfg_GracePeriod cfg)).
  assert (Hel : (0 ≤ elapsed ≤ max_int64)%Z) by (unfold elapsed, max_int64, Second in *; lia).
  assert (HN : e_cfg (New cfg s) = e_cfg (New cfg s) ∧ cfg_GracePeriod (e_cfg (New cfg s)) = cfg_GracePeriod cfg).
  { split; [done|]. unfold New. simpl. by destruct (cfg_UtilityStable cfg <=? 0)%Z. }
  assert (HS : e_committed (New cfg s) = false ∧ e_recovery (New cfg s) = false ∧
               e_resumeState (New cfg s) = OnBattery ∧ e_elapsed (New cfg s) = st_OutageElapsedSeconds s ∧
               e_power (New cfg s) = BootReconcile).
  { unfold New. simpl. by destruct (st_StateVersion s =? 0)%Z. }
  destruct HN as [_ HN], HS as (HS1 & HS2 & HS3 & HS4 & HS5). revert HN HS1 HS2 HS3 HS4 HS5.
  generalize (New cfg s). intros e HN HS1 HS2 HS3 HS4 HS5.
  assert (Hstep : e_power (Step now i e).1 = OnBattery ∧ e_onBatterySince (Step now i e).1 = (now - elapsed)%Z).
  { generalize (Step_implements_rules now i e). generalize (Step now i e). intros r.
    destruct 1 as [|r Hp' Hb|? ? | | | | | | | | | |]; try solve [intuition congruence].
    destruct Hb; try congruence. simpl. split; [done|].
    rewrite HS4, HS3, bool_decide_true, Hd, HN by done. simpl. unfold time_add.
    assert (Hmax : (if (st_OutageElapsedSeconds s * Second <? cfg_GracePeriod cfg)%Z
                    then cfg_GracePeriod cfg else st_OutageElapsedSeconds s * Second)%Z = elapsed).
    { unfold elapsed. destruct (Z.ltb_spec (st_OutageElapsedSeconds s * Second) (cfg_GracePeriod cfg)); lia. }
    rewrite Hmax, wrap64_id; [lia|]. unfold int64_range, min_int64, max_int64 in *. lia. }
  destruct Hstep as [Hpow Hsince]. split; [done|].
  unfold outage_elapsed, battery_since. rewrite Hsince. unfold IsZero.
  destruct (Z.eqb_spec (now - elapsed) 0) as [Hz|_]; [unfold max_int64 in *; lia|].
  unfold time_sub, elapsed, min_int64, max_int64 in *. lia.
Qed.

(** ** Timers that outlive their outage *)

(** The on-battery timer survives an aborted recovery: when power fails
    again while hosts are being restored and the process has run since the
    first outage, the renewed outage is timed from the start of the old one.
    Its first on-battery sample then commits the shutdown whenever the old
    outage lies at least max_on_battery (and the grace period) in the past,
    however short the renewed outage is. *)
Theorem renewed_outage_inherits_timer T e now0 i0 st now i :
  e_power e = RestoreHosts → recoveryEnabled (e_cfg e) = true →
  us_FSD (in_UPS i0) && negb (e_committed e) = false → unsafeUPS (in_UPS i0) = true →
  IsZero (e_onBatterySince e) = false → e_onBatterySince e = T →
  st_PowerState st = OnBattery → us_Utility (in_UPS i) = UtilityOnBattery →
  (0 < cfg_MaxOnBattery (e_cfg e) ≤ max_int64)%Z → (0 ≤ cfg_GracePeriod (e_cfg e) ≤ max_int64)%Z →
  (Z.max (cfg_GracePeriod (e_cfg e)) (cfg_MaxOnBattery (e_cfg e)) ≤ now - T)%Z →
  let e' := (Step now0 i0 e).1 in
  e_power e' = OnBattery ∧ commits_shutdown (Step now i (e_set_st st e')).
Proof.
  intros Hpw Hren Hnf Hun Hz HT Hst Hut Hmax Hgr Hlong. cbv zeta.
  assert (Hab : e_power (Step now0 i0 e).1 = OnBattery ∧ e_cfg (Step now0 i0 e).1 = e_cfg e ∧
                e_onBatterySince (Step now0 i0 e).1 = T).
  { apply andb_false_iff in Hnf. rewrite negb_false_iff in Hnf.
    step_branches now0 i0 e; try congruence; simpl; intuition congruence. }
  destruct Hab as (Hp' & Hcfg & HT'). split; [done|].
  apply commits_shutdown_spec, trigger_threshold; simpl; try done; rewrite Hcfg.
  all: assert (Helapsed : (Z.max (cfg_GracePeriod (e_cfg e)) (cfg_MaxOnBattery (e_cfg e))
                ≤ outage_elapsed now (e_set_st st (Step now0 i0 e).1))%Z)
    by (unfold outage_elapsed, battery_since; simpl; rewrite HT', <-HT, Hz;
        unfold time_sub, min_int64, max_int64 in *; lia).
  - lia.
  - unfold time_critical. rewrite !orb_true_iff, andb_true_iff, Z.ltb_lt, Z.leb_le. lia.
Qed.

(** ** FAILED_SAFE and restarts *)

(** A restart does not preserve FAILED_SAFE: for any uncommitted state
    the engine built from it forgets the power state, and the first online
    sample takes it to NORMAL. *)
Theorem restart_leaves_failed_safe cfg s now i :
  st_PowerState s = FailedSafe → st_ShutdownCommitted s = false → st_RecoveryStarted s = false →
  us_Utility (in_UPS i) = UtilityOnline →
  e_power (Step now i (New cfg s)).1 = Normal.
Proof.
  intros Hs Hcm Hrc Hut.
  assert (HS : e_committed (New cfg s) = false ∧ e_recovery (New cfg s) = false ∧
               e_power (New cfg s) = BootReconcile).
  { unfold New. simpl. by destruct (st_StateVersion s =? 0)%Z. }
  destruct HS as (HS1 & HS2 & HS3). revert HS1 HS2 HS3. generalize (New cfg s). intros e HS1 HS2 HS3.
  step_branches now i e; try congruence; intuition congruence.
Qed.
