(* ===== verification/Store.v ===== *)
(** * The crash-safe state store ([agent/internal/state/store.go])

    The state directory holds two names, [current.json] and [previous.json].
    Renames change the visible directory at once but become durable only with
    [syncDir]; until then a power loss may keep any of them or none.  The data
    of the temporary file becomes durable with its own [Sync]; a file renamed
    into place before that may come back torn.  Every system call may also
    fail, as the list of faults decides.  [Write] is the code's sequence of
    calls in the state monad over this file system; the file system records
    the crash-relevant state after each call, so that a theorem can speak of a
    power loss between any two of them.

    The JSON codec and SHA-256 are an interface: [StateCodec] names the
    functions the store calls and [StateCodecLaws] what it relies on. *)

From S2P Require Import Prelude PowerStateModel.

(** ** The codec interface *)

Class StateCodec : Type := {
  json_Marshal : State → result string;
  json_Encode : State → result string;     (* the indented encoder used for the file *)
  json_Unmarshal : string → result State;
  sha256_hex : string → string;
}.

(** States that survive encoding: finite numbers, valid UTF-8.  Stamping a
    sequence number, version or checksum does not change that. *)
Class StateCodecLaws `{StateCodec} (encodable : State → Prop) : Prop := {
  codec_marshal s : encodable s → ∃ b, json_Marshal s = inr b;
  codec_encode s : encodable s → ∃ b, json_Encode s = inr b;
  codec_roundtrip s b : encodable s → json_Encode s = inr b → json_Unmarshal b = inr s;
  codec_digest b : sha256_hex b ≠ "";
  codec_stamp s seq v ck : encodable s → encodable (s |> st_set_Sequence seq |> st_set_StateVersion v |> st_set_Checksum ck);
}.

(** ** Directory, pending renames, crashes *)

Record Dir : Type := mkDir { d_current : option string; d_previous : option string }.

Inductive DirOp : Type :=
  | RotateCurrent
  | ActivateTmp (contents : string) (synced : bool).

Definition apply_op (d : Dir) (op : DirOp) : Dir :=
  match op with
  | RotateCurrent =>
      match d_current d with
      | Some b => mkDir None (Some b)
      | None => d
      end
  | ActivateTmp b _ => mkDir (Some b) (d_previous d)
  end.

Record FS : Type := mkFS {
  fs_durable : Dir;
  fs_pending : list DirOp;
  fs_tmp : option (string * bool);
  fs_faults : list bool;
  fs_trace : list (Dir * list DirOp);
}.

(** What processes see. *)
Definition fs_view (fs : FS) : Dir := fold_left apply_op (fs_pending fs) (fs_durable fs).

(** What a power loss may leave of a directory with pending renames. *)
Inductive crash : list DirOp → Dir → Dir → Prop :=
  | crash_nil d : crash [] d d
  | crash_lost op ops d d' : crash ops d d' → crash (op :: ops) d d'
  | crash_kept op ops d d' : crash ops (apply_op d op) d' → crash (op :: ops) d d'
  | crash_torn b b' ops d d' :
      crash ops (mkDir (Some b') (d_previous d)) d' → crash (ActivateTmp b false :: ops) d d'.

(** ** System calls *)

Definition fs_record (fs : FS) : FS :=
  mkFS (fs_durable fs) (fs_pending fs) (fs_tmp fs) (fs_faults fs)
    ((fs_durable fs, fs_pending fs) :: fs_trace fs).

(** A call either fails, leaving the file system as it is, or has its effect. *)
Definition syscall (name : string) (effect : FS → FS) : GoM FS unit := λ fs,
  match fs_faults fs with
  | true :: faults =>
      (fs_record (mkFS (fs_durable fs) (fs_pending fs) (fs_tmp fs) faults (fs_trace fs)),
       inl (Errorf name))
  | false :: faults =>
      (fs_record (effect (mkFS (fs_durable fs) (fs_pending fs) (fs_tmp fs) faults (fs_trace fs))), inr ())
  | [] => (fs_record (effect fs), inr ())
  end.

Definition set_tmp (t : option (string * bool)) (fs : FS) : FS :=
  mkFS (fs_durable fs) (fs_pending fs) t (fs_faults fs) (fs_trace fs).
Definition add_pending (op : DirOp) (fs : FS) : FS :=
  mkFS (fs_durable fs) (fs_pending fs ++ [op]) (fs_tmp fs) (fs_faults fs) (fs_trace fs).
Definition make_durable (fs : FS) : FS :=
  mkFS (fs_view fs) [] (fs_tmp fs) (fs_faults fs) (fs_trace fs).

Definition sys_quiet (name : string) : GoM FS unit := syscall name id.
Definition sys_create_temp : GoM FS unit := syscall "createtemp" (set_tmp (Some (EmptyString, false))).
Definition sys_write_temp (b : string) : GoM FS unit := syscall "write" (set_tmp (Some (b, false))).
Definition sys_sync_temp : GoM FS unit :=
  syscall "fsync" (λ fs, set_tmp (match fs_tmp fs with Some (b, _) => Some (b, true) | None => None end) fs).
Definition sys_rotate : GoM FS unit := syscall "rename" (add_pending RotateCurrent).
Definition sys_activate : GoM FS unit :=
  syscall "rename" (λ fs, match fs_tmp fs with
                          | Some (b, synced) => fs |> set_tmp None |> add_pending (ActivateTmp b synced)
                          | None => fs
                          end).
(** [syncDir] *)
Definition syncDir : GoM FS unit := syscall "fsync dir" make_durable.

(** Opening and reading a file: it may be missing, and the read may fail. *)
Definition read_file (path : Dir → option string) : GoM FS (result string) := λ fs,
  match sys_quiet "open" fs with
  | (fs', inl e) => (fs', inr (inl e))
  | (fs', inr _) =>
      (fs', inr match path (fs_view fs) with
                | Some b => inr b
                | None => inl (Sentinel "os.ErrNotExist" "no such file or directory")
                end)
  end.

(** ** The store *)

Inductive Source : Type := SourceCurrent | SourcePrevious.

Definition ErrNoValidState : error := Sentinel "state.ErrNoValidState" "no valid state generation".

Section store.
Context `{StateCodec}.

Definition checksum (st : State) : result string :=
  match json_Marshal (st_set_Checksum "" st) with
  | inl e => inl e
  | inr b => inr (sha256_hex b)
  end.

Definition withChecksum (st : State) : result State :=
  match checksum (st_set_Checksum "" st) with
  | inl e => inl e
  | inr sum => inr (st_set_Checksum sum (st_set_Checksum "" st))
  end.

(** The checks of [readAndValidate] on the bytes of a file. *)
Definition validate_bytes (b : string) : result State :=
  match json_Unmarshal b with
  | inl e => inl e
  | inr st =>
      match validateSemantic st with
      | Some e => inl e
      | None =>
          if bool_decide (st_Checksum st = "") then inl (Errorf "state checksum missing")
          else match checksum st with
               | inl e => inl e
               | inr expected =>
                   if bool_decide (st_Checksum st = expected) then inr st
                   else inl (Errorf "state checksum mismatch")
               end
      end
  end.

Definition readAndValidate (path : Dir → option string) : GoM FS (result State) :=
  r ← read_file path;
  mret match r with inl e => inl e | inr b => validate_bytes b end.

Definition Load : GoM FS (State * Source) :=
  cur ← readAndValidate d_current;
  match cur with
  | inr st => mret (st, SourceCurrent)
  | inl _ =>
      prev ← readAndValidate d_previous;
      match prev with
      | inr st => mret (st, SourcePrevious)
      | inl _ => throw ErrNoValidState
      end
  end.

Definition lift_result {S A} (r : result A) : GoM S A :=
  match r with inl e => throw e | inr a => mret a end.

(** The stamped state [Write] validates and persists. *)
Definition stamp (baseSeq : Z) (next : State) : State :=
  let next := st_set_Sequence (wrapu64 (baseSeq + 1)) next in
  if (st_StateVersion next =? 0)%Z then st_set_StateVersion Version next else next.

Definition Write (next : State) : GoM FS State :=
  _ ← wrap_err "create state dir: " (sys_quiet "mkdir");
  _ ← wrap_err "open state lock: " (sys_quiet "open lock");
  _ ← wrap_err "lock state: " (sys_quiet "flock");
  loaded ← attempt Load;
  let baseSeq := match loaded with inr (current, _) => st_Sequence current | inl _ => 0%Z end in
  let next := stamp baseSeq next in
  _ ← match validateSemantic next with Some e => throw e | None => mret () end;
  payload ← lift_result (withChecksum next);
  _ ← wrap_err "create temp state: " sys_create_temp;
  _ ← wrap_err "chmod temp state: " (sys_quiet "chmod");
  contents ← wrap_err "write temp state: " (lift_result (json_Encode payload));
  _ ← wrap_err "write temp state: " (sys_write_temp contents);
  _ ← wrap_err "fsync temp state: " sys_sync_temp;
  _ ← wrap_err "close temp state: " (sys_quiet "close");
  cur ← readAndValidate d_current;
  _ ← match cur with
      | inr _ =>
          _ ← wrap_err "rotate current state: " sys_rotate;
          wrap_err "fsync rotated state dir: " syncDir
      | inl _ => mret ()
      end;
  _ ← wrap_err "activate current state: " sys_activate;
  _ ← wrap_err "fsync state dir: " syncDir;
  mret payload.

(** What [Load] finds in a directory when no call fails. *)
Definition load_dir (d : Dir) : option (State * Source) :=
  let valid f := match f d with
                 | Some b => match validate_bytes b with inr st => Some st | inl _ => None end
                 | None => None
                 end in
  match valid d_current with
  | Some st => Some (st, SourceCurrent)
  | None => match valid d_previous with
            | Some st => Some (st, SourcePrevious)
            | None => None
            end
  end.
End store.
