(* ===== verification/StoreFacts.v ===== *)
(** * What the state store guarantees

    [Write] is crash safe: whatever call fails and wherever the power is lost,
    a generation that loaded before still loads, or the new one does.  Without
    faults it installs the new generation as current, keeps the replaced one
    as previous, and numbers generations consecutively. *)

From S2P Require Import Prelude PowerStateModel Store.

(** [p] is [next] as the store persists it: same transaction, stamped. *)
Definition persisted_as (next p : State) : Prop :=
  ∃ seq ck, p = st_set_Checksum ck (stamp seq next).

Section facts.
Context `{StateCodecLaws encodable}.

(** ** Validation of what was encoded *)

Lemma validateSemantic_checksum ck s : validateSemantic (st_set_Checksum ck s) = validateSemantic s.
Proof. done. Qed.

Lemma encodable_stamp seq ck s : encodable s → encodable (st_set_Checksum ck (stamp seq s)).
Proof.
  intros Hs. apply (codec_stamp s (wrapu64 (seq + 1)) (if (st_StateVersion s =? 0)%Z then Version else st_StateVersion s) ck) in Hs.
  revert Hs. unfold stamp. simpl. destruct s as [v ????????????]; simpl. by destruct (v =? 0)%Z.
Qed.

Lemma withChecksum_inv s p :
  withChecksum s = inr p → ∃ ck, p = st_set_Checksum ck s ∧ checksum p = inr ck ∧ ck ≠ "".
Proof.
  unfold withChecksum, checksum. intros Hw.
  change (st_set_Checksum "" (st_set_Checksum "" s)) with (st_set_Checksum "" s) in Hw.
  destruct (json_Marshal _) as [e|b] eqn:Hm; simplify_eq/=.
  exists (sha256_hex b). split_and!; [done| |apply codec_digest].
  change (st_set_Checksum "" (st_set_Checksum _ _)) with (st_set_Checksum "" s). by rewrite Hm.
Qed.

Lemma withChecksum_total seq s : encodable s → ∃ p, withChecksum (stamp seq s) = inr p.
Proof.
  intros Hs. destruct (codec_marshal _ (encodable_stamp seq "" s Hs)) as [b Hb].
  unfold withChecksum, checksum.
  change (st_set_Checksum "" (st_set_Checksum "" ?x)) with (st_set_Checksum "" x). rewrite Hb. eauto.
Qed.

Lemma validateSemantic_stamp seq seq' s : validateSemantic (stamp seq s) = validateSemantic (stamp seq' s).
Proof. unfold stamp. simpl. by destruct (_ =? _)%Z. Qed.

(** The bytes [Write] puts in the file decode to the payload it returns. *)
Lemma validate_bytes_payload seq next p b :
  encodable next → validateSemantic (stamp seq next) = None →
  withChecksum (stamp seq next) = inr p → json_Encode p = inr b → validate_bytes b = inr p.
Proof.
  intros Henc Hval Hw Hb. apply withChecksum_inv in Hw as (ck & -> & Hsum & Hne).
  unfold validate_bytes. rewrite (codec_roundtrip _ _ (encodable_stamp seq ck next Henc) Hb).
  rewrite validateSemantic_checksum, Hval. simpl. rewrite bool_decide_false by done.
  by rewrite Hsum, bool_decide_true.
Qed.

(** The part of [Write] after the temporary file is closed. *)
Definition install (payload : State) : GoM FS State :=
  cur ← readAndValidate d_current;
  _ ← match cur with
      | inr _ =>
          _ ← wrap_err "rotate current state: " sys_rotate;
          wrap_err "fsync rotated state dir: " syncDir
      | inl _ => mret ()
      end;
  _ ← wrap_err "activate current state: " sys_activate;
  _ ← wrap_err "fsync state dir: " syncDir;
  mret payload.

(** ** Crash safety *)

Section crash_safety.
Context (s0 next : State).
Hypothesis Hnext : encodable next.

(** The generations a power loss may leave as the newest one. *)
Definition acceptable (s : State) : Prop := s = s0 ∨ persisted_as next s.

Definition loads (d : Dir) : Prop := ∃ s src, load_dir d = Some (s, src) ∧ acceptable s.

Definition recoverable (d : Dir) (ops : list DirOp) : Prop := ∀ d', crash ops d d' → loads d'.

Definition safe (fs : FS) : Prop := Forall (λ p, recoverable p.1 p.2) (fs_trace fs).

Definition shape (d : Dir) (ops : list DirOp) (tmp : option (string * bool)) (fs : FS) : Prop :=
  fs_durable fs = d ∧ fs_pending fs = ops ∧ fs_tmp fs = tmp ∧ safe fs.

Lemma shape_safe d ops tmp fs : shape d ops tmp fs → safe fs.
Proof. by intros (?&?&?&?). Qed.

Lemma syscall_shape name eff d ops tmp d' ops' tmp' :
  (∀ faults trace, eff (mkFS d ops tmp faults trace) = mkFS d' ops' tmp' faults trace) →
  recoverable d ops → recoverable d' ops' →
  spec (shape d ops tmp) (syscall name eff) (λ _, shape d' ops' tmp') safe.
Proof.
  intros Heff Hd Hd' [dd oo tt ff tr] (<- & <- & <- & Hs). simpl in *. unfold syscall. simpl.
  destruct ff as [|[] ff]; simpl; rewrite ?Heff; simpl; try split_and!; try done;
    unfold safe in *; simpl in *; by constructor.
Qed.

Lemma quiet_shape name d ops tmp :
  recoverable d ops → spec (shape d ops tmp) (sys_quiet name) (λ _, shape d ops tmp) safe.
Proof. intros. by apply syscall_shape. Qed.

Lemma lift_result_spec {A} (r : result A) d ops tmp :
  spec (shape d ops tmp) (lift_result r) (λ a fs, r = inr a ∧ shape d ops tmp fs) safe.
Proof. intros fs Hfs. destruct r; simpl; [by eapply shape_safe | done]. Qed.

(** Reading finds what is on disk, or fails. *)
Lemma readAndValidate_shape path d tmp :
  recoverable d [] →
  spec (shape d [] tmp) (readAndValidate path)
    (λ r fs, shape d [] tmp fs ∧
             (∀ st, r = inr st → ∃ b, path d = Some b ∧ validate_bytes b = inr st)) safe.
Proof.
  intros Hd fs Hfs. pose proof (quiet_shape "open" d [] tmp Hd fs Hfs) as Hq.
  unfold readAndValidate, mbind, GoM_bind, read_file.
  destruct (sys_quiet "open" fs) as [fs' [e|[]]] eqn:Heq; cbn -[fs_view].
  - split; [|done]. revert Heq. unfold sys_quiet, syscall.
    destruct Hfs as (Hd' & Ho & Ht & _). destruct (fs_faults fs) as [|[] ?]; simpl; intros; simplify_eq.
    by split_and!.
  - split; [done|]. destruct Hfs as (Hd' & Ho & Ht & _).
    replace (fs_view fs) with d by (unfold fs_view; by rewrite Ho, Hd').
    intros st. destruct (path d) as [b|] eqn:Hp; simpl; intros Hst; by eauto.
Qed.

Lemma Load_shape d tmp :
  recoverable d [] → spec (shape d [] tmp) Load (λ _, shape d [] tmp) (shape d [] tmp).
Proof.
  intros Hd. unfold Load. intros fs Hfs.
  pose proof (readAndValidate_shape d_current d tmp Hd fs Hfs) as H1.
  unfold mbind, GoM_bind. destruct (readAndValidate d_current fs) as [fs1 [e|[e|st]]] eqn:E1.
  - revert E1. unfold readAndValidate, mbind, GoM_bind, read_file.
    by destruct (sys_quiet "open" fs) as [? [?|?]].
  - destruct H1 as [H1 _]. pose proof (readAndValidate_shape d_previous d tmp Hd fs1 H1) as H2.
    destruct (readAndValidate d_previous fs1) as [fs2 [e'|[e'|st]]] eqn:E2; simpl; try by destruct H2.
    revert E2. unfold readAndValidate, mbind, GoM_bind, read_file.
    by destruct (sys_quiet "open" fs1) as [? [?|?]].
  - by destruct H1.
Qed.

(** The outcomes of a power loss in the four situations [Write] goes through. *)
Lemma recoverable_quiet d : loads d → recoverable d [].
Proof. intros Hd d' Hc. inversion Hc; by subst. Qed.

Lemma loads_current p d :
  acceptable p → (∃ b, d_current d = Some b ∧ validate_bytes b = inr p) → loads d.
Proof.
  intros Hp (b & Hb & Hv). exists p, SourceCurrent. split; [|done]. unfold load_dir. by rewrite Hb, Hv.
Qed.

Lemma loads_rotated p b d :
  acceptable p → d_current d = None → d_previous d = Some b → validate_bytes b = inr p → loads d.
Proof.
  intros Hp Hn Hb Hv. exists p, SourcePrevious. split; [|done]. unfold load_dir. by rewrite Hn, Hb, Hv.
Qed.

Lemma recoverable_rotate d :
  loads d → loads (apply_op d RotateCurrent) → recoverable d [RotateCurrent].
Proof. intros H1 H2 d' Hc. repeat match goal with H : crash _ _ _ |- _ => inversion H; clear H; subst end; done. Qed.

Lemma recoverable_activate d b :
  loads d → loads (apply_op d (ActivateTmp b true)) → recoverable d [ActivateTmp b true].
Proof. intros H1 H2 d' Hc. repeat match goal with H : crash _ _ _ |- _ => inversion H; clear H; subst end; done. Qed.

Lemma activate_shape d b p :
  loads d → acceptable p → validate_bytes b = inr p →
  spec (shape d [] (Some (b, true)))
    (_ ← wrap_err "activate current state: " sys_activate;
     _ ← wrap_err "fsync state dir: " syncDir; mret p)
    (λ r fs, r = p ∧ shape (apply_op d (ActivateTmp b true)) [] None fs) safe.
Proof.
  intros Hd Hp Hv.
  assert (Hl : loads (apply_op d (ActivateTmp b true))) by (apply (loads_current p); simpl; eauto).
  eapply spec_bind.
  { apply wrap_err_spec, (syscall_shape _ _ d [] (Some (b, true)) d [ActivateTmp b true] None); [done|..].
    - by apply recoverable_quiet.
    - by apply recoverable_activate. }
  intros []. eapply spec_bind.
  { apply wrap_err_spec, (syscall_shape _ _ d [ActivateTmp b true] None (apply_op d (ActivateTmp b true)) [] None);
      [done|by apply recoverable_activate|by apply recoverable_quiet]. }
  intros []. apply spec_ret.
Qed.

Lemma install_shape d b p :
  loads d → (∀ st b', d_current d = Some b' → validate_bytes b' = inr st → acceptable st) →
  acceptable p → validate_bytes b = inr p →
  spec (shape d [] (Some (b, true))) (install p) (λ r fs, r = p ∧ safe fs) safe.
Proof.
  intros Hd Hcur Hp Hv. unfold install. eapply spec_bind.
  { apply readAndValidate_shape. by apply recoverable_quiet. }
  intros [e|st].
  - (* the current file is unreadable: it is replaced in place *)
    eapply spec_bind; [|intros []; eapply spec_conseq; [by apply (activate_shape d b p)| | |]]; simpl.
    + apply (spec_ret ()).
    + intros fs (_ & H1 & _). exact H1.
    + intros a fs (-> & Hs). split; [done | by eapply shape_safe].
    + done.
  - (* it is valid: rotate it first *)
    intros fs (Hfs & Hst). destruct (Hst st eq_refl) as (b' & Hb' & Hv').
    clear Hst. revert fs Hfs.
    set (d1 := apply_op d RotateCurrent).
    assert (Hd1 : loads d1).
    { apply (loads_rotated st b'); [by eapply Hcur| | |done]; unfold d1; simpl; by rewrite Hb'. }
    eapply (spec_bind _ _ (shape d [] (Some (b, true))) (λ _, shape d1 [] (Some (b, true)))).
    + eapply spec_bind.
      { apply wrap_err_spec, (syscall_shape _ _ d [] (Some (b, true)) d [RotateCurrent] (Some (b, true)));
          [done|by apply recoverable_quiet|by apply recoverable_rotate]. }
      intros [].
      apply wrap_err_spec, (syscall_shape _ _ d [RotateCurrent] (Some (b, true)) d1 [] (Some (b, true)));
        [done|by apply recoverable_rotate|by apply recoverable_quiet].
    + intros []. eapply spec_conseq; [by apply (activate_shape d1 b p)|done| |done].
      intros a fs (-> & Hs). split; [done | by eapply shape_safe].
Qed.

Lemma Write_shape d :
  load_dir d = Some (s0, SourceCurrent) ∨ load_dir d = Some (s0, SourcePrevious) →
  spec (λ fs, shape d [] (fs_tmp fs) fs) (Write next) (λ p fs, persisted_as next p ∧ safe fs) safe.
Proof.
  intros Hload.
  assert (Hd : loads d) by (destruct Hload; unfold loads, acceptable; eauto 6).
  assert (Hcur : ∀ st b', d_current d = Some b' → validate_bytes b' = inr st → acceptable st).
  { intros st b' Hb Hv. left. unfold load_dir in Hload. rewrite Hb, Hv in Hload.
    destruct Hload as [Hl|Hl]; [by simplify_eq | discriminate Hl]. }
  pose proof (recoverable_quiet d Hd) as Hr.
  intros fs Hfs. revert fs Hfs. unfold Write.
  assert (Hq : ∀ pre name tmp, spec (shape d [] tmp) (wrap_err pre (sys_quiet name)) (λ _, shape d [] tmp) safe).
  { intros. by apply wrap_err_spec, quiet_shape. }
  intros fs Hfs. generalize dependent (fs_tmp fs). intros tmp Hfs. revert fs Hfs.
  do 3 (eapply spec_bind; [apply Hq|intros []]).
  eapply spec_bind; [eapply spec_attempt, Load_shape, Hr|]. intros loaded.
  eapply (spec_conseq _ _ (shape d [] tmp)); [|by destruct loaded|intros a s' Has; exact Has|done].
  set (seq := match loaded with inr (c, _) => st_Sequence c | inl _ => 0%Z end). simpl.
  destruct (validateSemantic (stamp seq next)) eqn:Hval.
  { intros fs' Hfs'. by eapply shape_safe. }
  eapply spec_bind; [apply (spec_ret ())|]. intros []. apply spec_pure. intros _.
  eapply spec_bind; [apply lift_result_spec|]. intros p. apply spec_pure. intros Hp.
  assert (Hpa : persisted_as next p).
  { apply withChecksum_inv in Hp as (ck & -> & _). by exists seq, ck. }
  eapply spec_bind; [apply wrap_err_spec, (syscall_shape _ _ d [] tmp d [] (Some (EmptyString, false))); done|].
  intros []. eapply spec_bind; [apply Hq|]. intros [].
  eapply spec_bind; [apply wrap_err_spec, lift_result_spec|]. intros b. apply spec_pure. intros Hb.
  eapply spec_bind; [apply wrap_err_spec, (syscall_shape _ _ d [] _ d [] (Some (b, false))); done|].
  intros [].
  eapply spec_bind; [apply wrap_err_spec, (syscall_shape _ _ d [] _ d [] (Some (b, true))); done|].
  intros []. eapply spec_bind; [apply Hq|]. intros [].
  eapply spec_conseq; [apply (install_shape d b p)|done|by intros a s' [-> ?]|done]; try done.
  - by right.
  - by eapply validate_bytes_payload.
Qed.
End crash_safety.

(** ** Functional behaviour, with and without failing calls

    [v] is the directory as processes see it; [c] says that no call fails. *)

(** The generation a start of the agent would resume from. *)
Definition load_state (d : Dir) : option State := fst <$> load_dir d.

Definition file_state (path : Dir → option string) (d : Dir) : option State :=
  b ← path d; match validate_bytes b with inr st => Some st | inl _ => None end.

Lemma load_dir_files d :
  load_dir d = match file_state d_current d, file_state d_previous d with
               | Some st, _ => Some (st, SourceCurrent)
               | None, Some st => Some (st, SourcePrevious)
               | None, None => None
               end.
Proof.
  unfold load_dir, file_state.
  destruct (d_current d) as [b|]; simpl; [destruct (validate_bytes b)|];
    (destruct (d_previous d) as [b'|]; simpl; [destruct (validate_bytes b')|]); done.
Qed.

Lemma load_state_rotate d st :
  file_state d_current d = Some st → load_state (apply_op d RotateCurrent) = load_state d.
Proof.
  unfold load_state. rewrite !load_dir_files. intros Hc. rewrite Hc.
  destruct d as [[cur|] prev]; [|done].
  change (file_state d_previous (apply_op (mkDir (Some cur) prev) RotateCurrent))
    with (file_state d_current (mkDir (Some cur) prev)).
  by rewrite Hc.
Qed.

(** [ok] is what is promised of the directory when a call fails. *)
Section calls.
Context (c : bool) (ok : Dir → Prop).

Definition vshape (v : Dir) (tmp : option (string * bool)) (fs : FS) : Prop :=
  fs_view fs = v ∧ fs_tmp fs = tmp ∧ (c = true → fs_faults fs = []).
Definition verr (fs : FS) : Prop := c = false ∧ ok (fs_view fs).

Lemma fs_view_record fs : fs_view (fs_record fs) = fs_view fs.
Proof. done. Qed.

Lemma syscall_v name eff v tmp v' tmp' :
  (∀ fs, fs_view fs = v → fs_tmp fs = tmp →
         fs_view (eff fs) = v' ∧ fs_tmp (eff fs) = tmp' ∧ fs_faults (eff fs) = fs_faults fs) →
  ok v → spec (vshape v tmp) (syscall name eff) (λ _, vshape v' tmp') verr.
Proof.
  intros Heff Hv fs (Hvw & Ht & Hc). unfold syscall.
  assert (Hout : ok (fs_view fs)) by by rewrite Hvw.
  destruct (fs_faults fs) as [|[] ff] eqn:Hff; unfold vshape; cbn [fst snd].
  - destruct (Heff fs Hvw Ht) as (H1 & H2 & H3). simpl.
    split_and!; [by rewrite fs_view_record|done|]. intros _. by rewrite H3.
  - split; [|exact Hout]. destruct c; [|done]. by specialize (Hc eq_refl).
  - destruct (Heff (mkFS (fs_durable fs) (fs_pending fs) (fs_tmp fs) ff (fs_trace fs)) Hvw Ht) as (H1 & H2 & H3).
    split_and!; [by rewrite fs_view_record|done|]. intros Hc'. by specialize (Hc Hc').
Qed.

Lemma quiet_v name v tmp :
  ok v → spec (vshape v tmp) (sys_quiet name) (λ _, vshape v tmp) verr.
Proof. intros. by apply syscall_v. Qed.

Lemma syncDir_v v tmp : ok v →
  spec (vshape v tmp) syncDir (λ _ fs, vshape v tmp fs ∧ fs_pending fs = [] ∧ fs_durable fs = v) verr.
Proof.
  intros Hv fs Hfs. unfold syncDir, syscall.
  destruct Hfs as (Hvw & Ht & Hc). destruct (fs_faults fs) as [|[] ff] eqn:Hff; unfold vshape; simpl.
  - split_and!; [exact Hvw|done|done|done|exact Hvw].
  - split; [by destruct c; [specialize (Hc eq_refl)|]|].
    assert (Hout : ok (fs_view fs)) by by rewrite Hvw. exact Hout.
  - split_and!; [exact Hvw|done|intros Hc'; by specialize (Hc Hc')|done|exact Hvw].
Qed.

Lemma readAndValidate_v path v tmp :
  ok v →
  spec (vshape v tmp) (readAndValidate path)
    (λ r fs, ((∀ st, r = inr st → file_state path v = Some st) ∧
              (c = true → ∀ st, file_state path v = Some st → r = inr st)) ∧ vshape v tmp fs) verr.
Proof.
  intros Hv fs Hfs. pose proof (quiet_v "open" v tmp Hv fs Hfs) as Hq.
  unfold readAndValidate, mbind, GoM_bind, read_file.
  destruct (sys_quiet "open" fs) as [fs' [e|[]]] eqn:Heq; cbn -[fs_view file_state].
  - destruct Hq as [Hc0 _]. split; [split; [done|by rewrite Hc0]|]. revert Heq.
    destruct Hfs as (Hvw & Ht & Hc). unfold sys_quiet, syscall.
    destruct (fs_faults fs) as [|[] ?]; intros Heq; inversion Heq; subst fs'.
    split_and!; [exact Hvw|exact Ht|by rewrite Hc0].
  - split; [|done]. destruct Hfs as (Hvw & Ht & Hc). rewrite Hvw. unfold file_state.
    destruct (path v) as [b|]; simpl; [|done].
    destruct (validate_bytes b); split; naive_solver.
Qed.

Lemma Load_v v tmp :
  ok v →
  spec (vshape v tmp) (attempt Load)
    (λ r fs, (c = true → match load_dir v with Some x => r = inr x | None => ∃ e, r = inl e end) ∧
             vshape v tmp fs) verr.
Proof.
  intros Hv fs Hfs. unfold attempt, Load. unfold mbind, GoM_bind.
  pose proof (readAndValidate_v d_current v tmp Hv fs Hfs) as H1. rewrite load_dir_files.
  destruct (readAndValidate d_current fs) as [fs1 [e|[e|st]]] eqn:E1.
  - exfalso. revert E1. unfold readAndValidate, mbind, GoM_bind, read_file.
    by destruct (sys_quiet "open" fs) as [? [?|?]].
  - destruct H1 as ((_ & Hcur) & H1). pose proof (readAndValidate_v d_previous v tmp Hv fs1 H1) as H2.
    destruct (readAndValidate d_previous fs1) as [fs2 [e'|[e'|st]]] eqn:E2; simpl.
    + exfalso. revert E2. unfold readAndValidate, mbind, GoM_bind, read_file.
      by destruct (sys_quiet "open" fs1) as [? [?|?]].
    + destruct H2 as ((_ & Hprev) & H2). split; [|done]. intros Hc.
      destruct (file_state d_current v) as [st|]; [by specialize (Hcur Hc st eq_refl)|].
      destruct (file_state d_previous v) as [st|]; [by specialize (Hprev Hc st eq_refl)|]. eauto.
    + destruct H2 as ((Hst & _) & H2). split; [|done]. intros Hc.
      destruct (file_state d_current v) as [st'|]; [by specialize (Hcur Hc st' eq_refl)|].
      by rewrite (Hst st eq_refl).
  - destruct H1 as ((Hst & _) & H1). split; [|done]. intros _. by rewrite (Hst st eq_refl).
Qed.

Lemma lift_result_v {A} (r : result A) v tmp :
  (c = true → ∃ a, r = inr a) → ok v →
  spec (vshape v tmp) (lift_result r) (λ a fs, r = inr a ∧ vshape v tmp fs) verr.
Proof.
  intros Hc Hv fs Hfs. destruct r as [e|a]; simpl; [|done]. split.
  - destruct c; [|done]. by destruct (Hc eq_refl).
  - by destruct Hfs as (-> & _ & _).
Qed.

End calls.

(** ** Installing a new generation *)

Section functional.
Context (c : bool) (d : Dir) (next : State).
Hypothesis Hnext : encodable next.

Definition outcome (d' : Dir) : Prop :=
  load_state d' = load_state d ∨ ∃ p, load_state d' = Some p ∧ persisted_as next p.

Lemma outcome_same : outcome d.
Proof. by left. Qed.

(** From the closed temporary file on. *)
Lemma activate_v v b p :
  outcome v → persisted_as next p → validate_bytes b = inr p →
  spec (vshape c v (Some (b, true)))
    (_ ← wrap_err "activate current state: " sys_activate;
     _ ← wrap_err "fsync state dir: " syncDir; mret p)
    (λ r fs, r = p ∧ vshape c (mkDir (Some b) (d_previous v)) None fs ∧
             fs_pending fs = [] ∧ fs_durable fs = mkDir (Some b) (d_previous v)) (verr c outcome).
Proof.
  intros Hv Hp Hb.
  assert (Hout : outcome (mkDir (Some b) (d_previous v))).
  { right. exists p. split; [|done]. unfold load_state. rewrite load_dir_files. unfold file_state. simpl.
    by rewrite Hb. }
  eapply spec_bind.
  { apply wrap_err_spec, (syscall_v c outcome _ _ v (Some (b, true)) (mkDir (Some b) (d_previous v)) None); [|done].
    intros fs Hvw Ht. rewrite Ht. split_and!; [|done|done].
    unfold fs_view in *. simpl. rewrite fold_left_app. simpl. by rewrite Hvw. }
  intros []. eapply spec_bind; [by apply wrap_err_spec, syncDir_v|]. intros []. apply spec_ret.
Qed.

Definition rotated (v v' : Dir) : Prop :=
  v' = v ∨ v' = apply_op v RotateCurrent ∧ ∃ st, file_state d_current v = Some st.

Lemma install_v b p :
  persisted_as next p → validate_bytes b = inr p →
  spec (vshape c d (Some (b, true))) (install p)
    (λ r fs, r = p ∧ fs_pending fs = [] ∧ (c = true → fs_faults fs = []) ∧
             ∃ v', rotated d v' ∧ (c = true → ∀ st, file_state d_current d = Some st → v' ≠ d) ∧
                   fs_durable fs = mkDir (Some b) (d_previous v')) (verr c outcome).
Proof.
  intros Hp Hb. unfold install.
  eapply spec_bind; [apply readAndValidate_v, outcome_same|].
  intros [e|st]; apply spec_pure; intros [Hst Hno].
  - eapply spec_bind; [apply (spec_ret ())|]. intros []. apply spec_pure. intros _.
    eapply spec_conseq; [by apply (activate_v d b p outcome_same)|done| |done].
    intros ? fs (-> & (_ & _ & Hf) & Hpend & Hdur). split_and!; [done..|].
    exists d. split_and!; [by left| |done]. intros Hc st Hst'. by specialize (Hno Hc st Hst').
  - specialize (Hst st eq_refl). set (v' := apply_op d RotateCurrent).
    assert (Hv' : outcome v') by (left; by eapply load_state_rotate).
    eapply (spec_bind _ _ _ (λ _, vshape c v' (Some (b, true)))).
    { eapply spec_bind.
      - apply wrap_err_spec, (syscall_v c outcome _ _ d (Some (b, true)) v' (Some (b, true))); [|apply outcome_same].
        intros fs0 Hvw Ht. split_and!; [|done|done].
        unfold fs_view in *. simpl. rewrite fold_left_app. simpl. by rewrite Hvw.
      - intros []. eapply spec_conseq; [by apply wrap_err_spec, syncDir_v|done|by intros ?? (?&?&?)|done]. }
    intros []. eapply spec_conseq; [by apply (activate_v v' b p Hv')|done| |done].
    intros ? fs (-> & (_ & _ & Hf) & Hpend & Hdur). split_and!; [done..|].
    exists v'. split_and!; [right; eauto| |done].
    intros _ st' Hst' Heq. unfold v' in Heq. unfold file_state in Hst'.
    destruct d as [[cur|] prev]; simpl in *; simplify_eq.
Qed.

Definition base_sequence (v : Dir) : Z :=
  match load_state v with Some st => st_Sequence st | None => 0%Z end.

Definition written (p : State) (fs : FS) : Prop :=
  fs_pending fs = [] ∧ (c = true → fs_faults fs = []) ∧
  persisted_as next p ∧ validateSemantic p = None ∧
  (c = true → st_Sequence p = wrapu64 (base_sequence d + 1)) ∧
  ∃ b v', rotated d v' ∧ (c = true → ∀ st, file_state d_current d = Some st → v' ≠ d) ∧
          fs_durable fs = mkDir (Some b) (d_previous v') ∧ validate_bytes b = inr p.

Lemma Write_v tmp :
  (c = true → validateSemantic (stamp 0 next) = None) →
  spec (vshape c d tmp) (Write next) written (verr c outcome).
Proof.
  intros Hval. pose proof outcome_same as Hd. unfold Write.
  assert (Hq : ∀ pre name tmp, spec (vshape c d tmp) (wrap_err pre (sys_quiet name)) (λ _, vshape c d tmp) (verr c outcome)).
  { intros. by apply wrap_err_spec, quiet_v. }
  do 3 (eapply spec_bind; [apply Hq|intros []]).
  eapply spec_bind; [by apply Load_v|]. intros loaded. apply spec_pure. intros Hload.
  set (seq := match loaded with inr (c, _) => st_Sequence c | inl _ => 0%Z end). simpl.
  assert (Hseq : c = true → seq = base_sequence d).
  { intros Hc. specialize (Hload Hc). unfold base_sequence, load_state, seq.
    destruct (load_dir d) as [[st src]|]; [by subst|]. by destruct Hload as [e ->]. }
  rewrite (validateSemantic_stamp 0 seq) in Hval.
  destruct (validateSemantic (stamp seq next)) eqn:Hv.
  { intros fs (Hvw & _). split; [by destruct c; [specialize (Hval eq_refl)|]|]. simpl. by rewrite Hvw. }
  eapply spec_bind; [apply (spec_ret ())|]. intros []. apply spec_pure. intros _.
  eapply spec_bind; [apply lift_result_v; [|done]|].
  { intros _. destruct (withChecksum_total seq next Hnext) as [p Hp]. eauto. }
  intros p. apply spec_pure. intros Hp.
  pose proof Hp as (ck & Hpe & _)%withChecksum_inv.
  eapply spec_bind; [by apply wrap_err_spec, (syscall_v c outcome _ _ d tmp d (Some (EmptyString, false)))|].
  intros []. eapply spec_bind; [apply Hq|]. intros [].
  eapply spec_bind; [apply wrap_err_spec, lift_result_v; [|done]|].
  { intros _. subst p. by apply codec_encode, encodable_stamp. }
  intros b. apply spec_pure. intros Hb.
  eapply spec_bind; [by apply wrap_err_spec, (syscall_v c outcome _ _ d _ d (Some (b, false)))|].
  intros []. eapply spec_bind; [apply wrap_err_spec, (syscall_v c outcome _ _ d _ d (Some (b, true))); [|done]|].
  { intros fs Hvw Ht. simpl. by rewrite Ht. }
  intros []. eapply spec_bind; [apply Hq|]. intros [].
  assert (Hpa : persisted_as next p) by (exists seq, ck; done).
  assert (Hvb : validate_bytes b = inr p) by by eapply validate_bytes_payload.
  eapply spec_conseq; [by apply (install_v b p)|done| |done].
  intros ? fs (-> & Hpend & Hf & v' & Hrot & Hne & Hdur). split_and!; [done..| | |].
  - subst p. done.
  - intros Hc. rewrite <-Hseq by done. subst p. unfold stamp. by destruct (_ =? _)%Z.
  - by exists b, v'.
Qed.
End functional.

(** An inconsistent generation never reaches a file. *)
Lemma Write_invalid d next tmp e :
  validateSemantic (stamp 0 next) = Some e →
  spec (vshape false d tmp) (Write next) (λ _ _, False) (verr false (eq d)).
Proof.
  intros Hval. unfold Write.
  assert (Hq : ∀ pre name tmp, spec (vshape false d tmp) (wrap_err pre (sys_quiet name))
    (λ _, vshape false d tmp) (verr false (eq d))).
  { intros. by apply wrap_err_spec, quiet_v. }
  do 3 (eapply spec_bind; [apply Hq|intros []]).
  eapply spec_bind; [by apply Load_v|]. intros loaded. apply spec_pure. intros _. simpl.
  rewrite (validateSemantic_stamp _ 0), Hval. intros fs (Hvw & _). by split.
Qed.

(** ** The guarantees *)

(** C6: A power loss never costs the transaction: if a generation [s0]
    loads from a quiescent directory, then after a power loss at any point of
    a [Write next] (between any two system calls, failing ones included,
    with any subset of the unsynced renames and torn unsynced data), what
    loads is [s0] or the complete new generation. *)
Theorem Write_crash_safe s0 src next fs d ops d' :
  encodable next → fs_pending fs = [] → load_dir (fs_durable fs) = Some (s0, src) →
  fs_trace fs = [] → In (d, ops) (fs_trace (Write next fs).1) → crash ops d d' →
  ∃ s src', load_dir d' = Some (s, src') ∧ (s = s0 ∨ persisted_as next s).
Proof.
  intros Henc Hpend Hload Htr Hin Hcrash.
  assert (Hsafe : safe s0 next (Write next fs).1).
  { pose proof (Write_shape s0 next Henc (fs_durable fs)) as Hw. unfold spec in Hw.
    assert (Hfs : shape s0 next (fs_durable fs) [] (fs_tmp fs) fs).
    { split_and!; try done. unfold safe. by rewrite Htr. }
    specialize (Hw ltac:(destruct src; auto) fs Hfs).
    destruct (Write next fs) as [fs' [e|p]]; [done|]. by destruct Hw. }
  unfold safe in Hsafe. rewrite Forall_forall in Hsafe.
  apply (Hsafe (d, ops)); [by apply list_elem_of_In|done].
Qed.

(** When no call fails, [Write] of a consistent state returns its
    stamped form, which is durable and loads as the current generation, with
    the next sequence number; the generation it replaces stays loadable as
    the previous one. *)
Theorem Write_installs next fs :
  encodable next → valid_state (stamp 0 next) → fs_pending fs = [] → fs_faults fs = [] →
  ∃ p fs', Write next fs = (fs', inr p) ∧ persisted_as next p ∧
    fs_pending fs' = [] ∧ load_dir (fs_durable fs') = Some (p, SourceCurrent) ∧
    st_Sequence p = wrapu64 (base_sequence (fs_durable fs) + 1) ∧
    (∀ s0 src, load_dir (fs_durable fs) = Some (s0, src) →
               load_dir (mkDir None (d_previous (fs_durable fs'))) = Some (s0, SourcePrevious)).
Proof.
  intros Henc Hval%validateSemantic_spec Hpend Hf.
  assert (Hfs : vshape true (fs_durable fs) (fs_tmp fs) fs) by (unfold vshape, fs_view; by rewrite Hpend).
  pose proof (Write_v true (fs_durable fs) next Henc (fs_tmp fs) (λ _, Hval) fs Hfs) as Hw.
  destruct (Write next fs) as [fs' [e|p]]; [by destruct Hw|].
  destruct Hw as (Hp' & _ & Hpa & _ & Hseq & b & v' & Hrot & Hne & Hdur & Hb).
  exists p, fs'. split_and!; try done; [|by apply Hseq|].
  { rewrite load_dir_files, Hdur. unfold file_state. simpl. by rewrite Hb. }
  intros s0 src. rewrite Hdur, !load_dir_files. simpl. unfold file_state at 3. simpl.
  specialize (Hne eq_refl). destruct Hrot as [->|[-> [st Hst]]].
  - destruct (file_state d_current (fs_durable fs)) as [st|]; [by specialize (Hne st eq_refl)|].
    unfold file_state. simpl. intros H1.
    destruct (d_previous (fs_durable fs)) as [b'|]; simpl in *; [|done].
    destruct (validate_bytes b'); by simplify_eq.
  - rewrite Hst. intros ?; simplify_eq. revert Hst. unfold file_state. simpl.
    destruct (fs_durable fs) as [[cur|] prev]; simpl; [|done]. by intros ->.
Qed.

(** A generation that breaks a consistency rule is refused with an
    error, whatever else happens, and neither file changes. *)
Theorem Write_refuses_inconsistent next fs :
  ¬ valid_state (stamp 0 next) →
  (∃ e, (Write next fs).2 = inl e) ∧ fs_view (Write next fs).1 = fs_view fs.
Proof.
  rewrite <-validateSemantic_spec. destruct (validateSemantic (stamp 0 next)) as [e|] eqn:Hval; [|done].
  intros _. assert (Hfs : vshape false (fs_view fs) (fs_tmp fs) fs) by done.
  pose proof (Write_invalid _ next _ e Hval fs Hfs) as Hw.
  destruct (Write next fs) as [fs' [e'|p]]; [|done]. destruct Hw as [_ Heq]. split; [by eexists|done].
Qed.
End facts.
