(* ===== verification/StoreExample.v ===== *)
(** * A concrete codec for the state store

    The store's theorems hold for any codec that obeys [StateCodecLaws].  This
    file has a small one, over a table of known states, with which the
    theorems are exercised on concrete directories. *)

From Stdlib Require Import Ascii.
From S2P Require Import Prelude PowerStateModel Store StoreFacts.

(** ** Positive numbers as strings of bits *)

Fixpoint bits (p : positive) : string :=
  match p with
  | xH => ""
  | xO p => String "0"%char (bits p)
  | xI p => String "1"%char (bits p)
  end.

Fixpoint of_bits (s : string) : positive :=
  match s with
  | EmptyString => xH
  | String a s => if Ascii.eqb a "1"%char then xI (of_bits s) else xO (of_bits s)
  end.

Lemma of_bits_bits p : of_bits (bits p) = p.
Proof. induction p; simpl; congruence. Qed.

(** ** The codec *)

Section table_codec.
Context (tbl : list State).

Definition strip (s : State) : State :=
  s |> st_set_Sequence 0%Z |> st_set_StateVersion 0%Z |> st_set_Checksum "".

Definition known (s : State) : Prop := strip s ∈ (strip <$> tbl).

Definition table_encode (s : State) : result string :=
  match list_find (λ t, strip t = strip s) tbl with
  | Some (i, _) => inr (bits (encode (i, st_Sequence s, st_StateVersion s, st_Checksum s)))
  | None => inl (Errorf "unknown state")
  end.

Definition table_decode (b : string) : result State :=
  match decode (A := nat * Z * Z * string) (of_bits b) with
  | Some (i, seq, v, ck) =>
      match tbl !! i with
      | Some t => inr (t |> st_set_Sequence seq |> st_set_StateVersion v |> st_set_Checksum ck)
      | None => inl (Errorf "unexpected token")
      end
  | None => inl (Errorf "unexpected token")
  end.

Definition table_codec : StateCodec := {|
  json_Marshal := table_encode;
  json_Encode := table_encode;
  json_Unmarshal := table_decode;
  sha256_hex := λ b, String "#"%char b;
|}.

Lemma table_encode_known s : known s → ∃ b, table_encode s = inr b.
Proof.
  intros (t & Ht & Hin)%list_elem_of_fmap. unfold table_encode.
  destruct (list_find _ tbl) as [[i t']|] eqn:Hf; [by eexists|].
  apply list_find_None in Hf. rewrite Forall_forall in Hf. by destruct (Hf t Hin).
Qed.

Lemma table_codec_laws : @StateCodecLaws table_codec known.
Proof.
  split; simpl.
  - apply table_encode_known.
  - apply table_encode_known.
  - intros s b _. unfold table_encode, table_decode.
    destruct (list_find _ tbl) as [[i t]|] eqn:Hf; [|done]. intros [= <-].
    rewrite of_bits_bits, decode_encode. apply list_find_Some in Hf as (Hi & Hs & _). rewrite Hi.
    f_equal. destruct s, t. unfold strip in Hs. simpl in *. by simplify_eq.
  - done.
  - done.
Qed.
End table_codec.

(** ** A directory with one generation *)

Module Example_store.
Definition s0 : State :=
  New "tx-1" "rev-1" |> st_set_PowerState OnBattery.
Definition s1 : State := s0 |> st_set_PowerState ShutdownCommitted |> st_set_ShutdownCommitted true.
Definition bad : State := s0 |> st_set_RecoveryStarted true.

#[local] Existing Instance table_codec_laws.
#[local] Instance codec : StateCodec := table_codec [s0; s1].

(** An empty directory and the result of writing [s0] to it. *)
Definition empty : FS := mkFS (mkDir None None) [] None [] [].
Definition written0 : FS := let fs := (Write s0 empty).1 in mkFS (fs_durable fs) [] None [] [].
Definition p0 : State := default s0 (load_state (fs_durable written0)).

(** The second write fails when it activates the new generation. *)
Definition failing : FS := mkFS (fs_durable written0) [] None (replicate 12 false ++ [true]) [].

Lemma known_s1 : known [s0; s1] s1.
Proof. right. left. Qed.

(** The power is lost after that failure, before the directory is synced. *)
Lemma Write_crash_safe_witness :
  ∃ s src, load_dir (mkDir None (d_current (fs_durable written0))) = Some (s, src) ∧
           (s = p0 ∨ persisted_as s1 s).
Proof.
  eapply (Write_crash_safe p0 SourceCurrent s1 failing
            (mkDir None (d_current (fs_durable written0))) []).
  - exact known_s1.
  - reflexivity.
  - vm_compute. reflexivity.
  - reflexivity.
  - vm_compute. left. reflexivity.
  - vm_compute. constructor.
Defined.

Lemma Write_installs_witness :
  ∃ p fs', Write s1 written0 = (fs', inr p) ∧ persisted_as s1 p ∧
    fs_pending fs' = [] ∧ load_dir (fs_durable fs') = Some (p, SourceCurrent) ∧
    st_Sequence p = wrapu64 (base_sequence (fs_durable written0) + 1) ∧
    (∀ st src, load_dir (fs_durable written0) = Some (st, src) →
               load_dir (mkDir None (d_previous (fs_durable fs'))) = Some (st, SourcePrevious)).
Proof.
  apply Write_installs.
  - exact known_s1.
  - split; try done; by eexists.
  - reflexivity.
  - reflexivity.
Defined.

Lemma Write_refuses_inconsistent_witness :
  (∃ e, (Write bad written0).2 = inl e) ∧ fs_view (Write bad written0).1 = fs_view written0.
Proof. apply Write_refuses_inconsistent. intros [? ? ? ? H ?]. by specialize (H eq_refl). Defined.
End Example_store.
