(* ===== verification/Coordinator.v ===== *)
(** * The policy coordinator ([agent/internal/policy/coordinator.go])

    The coordinator couples the deterministic engine to durable writes: a
    changed decision reaches the caller only after the generation that carries
    it was written.  It is written against the [StateWriter] interface; the
    theorems use only the interface's laws, which the crash-safe store is shown
    to satisfy at the end of the file. *)

From S2P Require Import Prelude PowerStateModel Nut Store StoreFacts Policy PolicyFacts PolicyRuns.

(** ** The [StateWriter] interface *)

(** [p] carries the same transaction data as [next]: a writer may only set
    the sequence number, a missing version and the checksum. *)
Definition restamped (next p : State) : Prop :=
  ∃ seq v ck, p = next |> st_set_Sequence seq |> st_set_StateVersion v |> st_set_Checksum ck.

Class StateWriter (W : Type) : Type := sw_Write : State → GoM W State.

(** [stored w] is the generation a restart would load from [w]. *)
Class StateWriterLaws (W : Type) `{StateWriter W}
    (writable : State → Prop) (stored : W → option State) : Prop := {
  write_restamps next w w' p : sw_Write next w = (w', inr p) → restamped next p;
  write_success next w w' p :
    writable next → sw_Write next w = (w', inr p) →
    stored w' = Some p ∧ valid_state p;
  write_failure next w w' e :
    writable next → sw_Write next w = (w', inl e) →
    stored w' = stored w ∨ ∃ p, stored w' = Some p ∧ restamped next p;
}.

Lemma restamped_flags next p :
  restamped next p →
  st_PowerState p = st_PowerState next ∧ st_ShutdownCommitted p = st_ShutdownCommitted next ∧
  st_RecoveryStarted p = st_RecoveryStarted next ∧ st_Hosts p = st_Hosts next ∧
  st_OutageElapsedSeconds p = st_OutageElapsedSeconds next ∧
  st_TransactionID p = st_TransactionID next.
Proof. by intros (?&?&?&->). Qed.

Lemma restamped_wf next p : restamped next p → wf_state next → wf_state p.
Proof. by intros (?&?&?&->). Qed.

(** ** The coordinator *)

Record Coordinator (W : Type) : Type := mkCoordinator { c_engine : Engine; c_store : W }.
Arguments mkCoordinator {W}.
Arguments c_engine {W}.
Arguments c_store {W}.

Section coordinator.
Context {W : Type} `{StateWriter W}.
Implicit Types c : Coordinator W.

(** [NewCoordinator] *)
Definition NewCoordinator (engine : Engine) (store : W) : Coordinator W := mkCoordinator engine store.

(** [c.State()] *)
Definition c_State c : State := e_st (c_engine c).

Definition c_set_engine (e : Engine) c : Coordinator W := mkCoordinator e (c_store c).

Definition ObserveUPS (observation : UPSObservation) c : Coordinator W :=
  c_set_engine (e_set_st (st_set_LastUPS (Some observation) (e_st (c_engine c))) (c_engine c)) c.

(** [c.store.Write(next)] followed by [c.engine.st = persisted]; when the
    write fails the engine's state becomes [onError]. *)
Definition write_through (next onError : State) (e : Engine) : GoM (Coordinator W) State := λ c,
  match sw_Write next (c_store c) with
  | (w, inl err) => (mkCoordinator (e_set_st onError e) w, inl err)
  | (w, inr persisted) => (mkCoordinator (e_set_st persisted e) w, inr persisted)
  end.

(** [Coordinator.Write] *)
Definition c_Write (next : State) : GoM (Coordinator W) State := λ c,
  write_through next (e_st (c_engine c)) (c_engine c) c.

(** The tail [Step] and the two [Mark] methods share: persist a changed
    decision before it is returned, undo the state when that fails. *)
Definition persist_decision (before : State) (e : Engine) (d : Decision) : GoM (Coordinator W) Decision :=
  if negb (dec_Changed d) then λ c, (c_set_engine e c, inr d)
  else λ c,
    match write_through (e_st e) before e c with
    | (c', inl err) => (c', inl err)
    | (c', inr _) => (c', inr d)
    end.

(** [Coordinator.Step] *)
Definition c_Step (now : Time) (i : Inputs) : GoM (Coordinator W) Decision := λ c,
  let before := e_st (c_engine c) in
  match Step now i (c_engine c) with
  | (e, inl err) => (c_set_engine e c, inl err)
  | (e, inr d) => persist_decision before e d c
  end.

Definition c_MarkShutdownPhaseComplete : GoM (Coordinator W) Decision := λ c,
  let before := e_st (c_engine c) in
  let '(e, d) := MarkShutdownPhaseComplete (c_engine c) in persist_decision before e d c.

Definition c_MarkRecoveryComplete : GoM (Coordinator W) Decision := λ c,
  let before := e_st (c_engine c) in
  let '(e, d) := MarkRecoveryComplete (c_engine c) in persist_decision before e d c.

(** ** Runs of a coordinator

    The calls its clients make: observations, engine steps, completed
    phases, and writes of states derived from the one they read. *)
Inductive call : Type :=
  | CallObserve (observation : UPSObservation)
  | CallStep (now : Time) (i : Inputs)
  | CallShutdownComplete
  | CallRecoveryComplete
  | CallWrite (next : State).

Definition do_call (k : call) (c : Coordinator W) : Coordinator W :=
  match k with
  | CallObserve observation => ObserveUPS observation c
  | CallStep now i => (c_Step now i c).1
  | CallShutdownComplete => (c_MarkShutdownPhaseComplete c).1
  | CallRecoveryComplete => (c_MarkRecoveryComplete c).1
  | CallWrite next => (c_Write next c).1
  end.
End coordinator.

(** ** What the interface gives its client *)

Section guarantees.
Context {W : Type} `{StateWriterLaws W writable stored}.
Implicit Types c : Coordinator W.

Lemma write_through_success next s0 e c c' p :
  writable next → write_through next s0 e c = (c', inr p) →
  c_engine c' = e_set_st p e ∧ stored (c_store c') = Some p ∧ restamped next p ∧ valid_state p.
Proof.
  intros Hw. unfold write_through. destruct (sw_Write next (c_store c)) as [w [err|p']] eqn:Hs; [done|].
  intros [= <- <-]. split; [done|]. pose proof (write_restamps _ _ _ _ Hs).
  destruct (write_success _ _ _ _ Hw Hs). done.
Qed.

Lemma write_through_failure next s0 e c c' err :
  writable next → write_through next s0 e c = (c', inl err) →
  c_engine c' = e_set_st s0 e ∧
  (stored (c_store c') = stored (c_store c) ∨ ∃ p, stored (c_store c') = Some p ∧ restamped next p).
Proof.
  intros Hw. unfold write_through. destruct (sw_Write next (c_store c)) as [w [err'|p']] eqn:Hs; [|done].
  intros [= <- <-]. split; [done|]. by eapply write_failure.
Qed.

(** What a persisted decision leaves behind, on each of its branches. *)
Definition decision_outcome (before : State) (e : Engine) (d : Decision) c
    (r : Coordinator W * result Decision) : Prop :=
  match r with
  | (c', inr d') =>
      d' = d ∧
      if dec_Changed d
      then ∃ p, c_engine c' = e_set_st p e ∧ stored (c_store c') = Some p ∧
                restamped (e_st e) p ∧ valid_state p
      else c' = c_set_engine e c
  | (c', inl _) =>
      dec_Changed d = true ∧ c_engine c' = e_set_st before e ∧
      (stored (c_store c') = stored (c_store c) ∨
       ∃ p, stored (c_store c') = Some p ∧ restamped (e_st e) p)
  end.

Lemma persist_decision_outcome before e d c :
  writable (e_st e) → decision_outcome before e d c (persist_decision before e d c).
Proof.
  intros Hw. unfold persist_decision, decision_outcome. destruct (dec_Changed d) eqn:Hd; simpl; [|done].
  destruct (write_through (e_st e) before e c) as [c' [err|p]] eqn:Hwt.
  - split; [done|]. by apply write_through_failure in Hwt.
  - split; [done|]. exists p. by apply write_through_success in Hwt.
Qed.

(** C20: No caller sees a changed decision that is not durable: when [Step]
    returns one, the generation a restart would load is exactly the state in
    memory, it passes the store's validation, and it carries the power state
    and commit flags the engine decided on. *)
Theorem changed_decision_is_durable now i c c' d :
  writable (e_st (Step now i (c_engine c)).1) →
  c_Step now i c = (c', inr d) → dec_Changed d = true →
  stored (c_store c') = Some (c_State c') ∧ valid_state (c_State c') ∧
  restamped (e_st (Step now i (c_engine c)).1) (c_State c') ∧
  (Step now i (c_engine c)).2 = inr d.
Proof.
  unfold c_Step. destruct (Step now i (c_engine c)) as [e [err|d']]; simpl; [done|]. intros Hw Hc Hd.
  pose proof (persist_decision_outcome (e_st (c_engine c)) e d' c Hw) as Ho. rewrite Hc in Ho. simpl in Ho.
  destruct Ho as [-> Ho]. rewrite Hd in Ho. destruct Ho as (p & He & Hst & Hr & Hv).
  unfold c_State. rewrite He. simpl. by split_and!.
Qed.

(** When the write behind a decision fails, the caller gets the error
    and no decision, the coordinator goes back to the state it held before,
    and the disk holds the old generation or the complete new one. *)
Theorem failed_write_returns_no_decision now i c c' err d :
  writable (e_st (Step now i (c_engine c)).1) →
  c_Step now i c = (c', inl err) → (Step now i (c_engine c)).2 = inr d →
  c_State c' = c_State c ∧
  (stored (c_store c') = stored (c_store c) ∨
   ∃ p, stored (c_store c') = Some p ∧ restamped (e_st (Step now i (c_engine c)).1) p).
Proof.
  unfold c_Step. destruct (Step now i (c_engine c)) as [e [err'|d']]; simpl; [done|]. intros Hw Hc _.
  pose proof (persist_decision_outcome (e_st (c_engine c)) e d' c Hw) as Ho. rewrite Hc in Ho. simpl in Ho.
  destruct Ho as (_ & He & Ho). unfold c_State. by rewrite He.
Qed.

(** ** Every run of the coordinator is a run of the engine *)

(** The clients' discipline, and the codec's domain, along a run. *)
Fixpoint well_behaved (ks : list call) c : Prop :=
  match ks with
  | [] => True
  | k :: ks' =>
      match k with
      | CallObserve _ => True
      | CallStep now i => writable (e_st (Step now i (c_engine c)).1)
      | CallShutdownComplete => writable (e_st (MarkShutdownPhaseComplete (c_engine c)).1)
      | CallRecoveryComplete => writable (e_st (MarkRecoveryComplete (c_engine c)).1)
      | CallWrite next =>
          writable next ∧ wf_state next ∧
          write_keeps_power (st_PowerState (c_State c)) (st_PowerState next)
      end ∧ well_behaved ks' (do_call k c)
  end.

Definition observations (ks : list call) : list observation :=
  omap (λ k, match k with CallStep now i => Some (now, i) | _ => None end) ks.

Lemma e_set_st_same (e : Engine) : e_set_st (e_st e) e = e.
Proof. by destruct e. Qed.
Lemma e_set_st_twice s s' (e : Engine) : e_set_st s (e_set_st s' e) = e_set_st s e.
Proof. done. Qed.

Lemma history_restamped cfg s0 obs e p :
  history cfg s0 obs e → wf_state (e_st e) → restamped (e_st e) p → history cfg s0 obs (e_set_st p e).
Proof.
  intros Hh Hwf Hr. apply hist_write; [done|by eapply restamped_wf|].
  left. by apply restamped_flags in Hr as [-> _].
Qed.

(** The engine after a persisted decision is one [history] knows. *)
Lemma history_persisted cfg s0 obs before e d c :
  writable (e_st e) → history cfg s0 obs e → wf_state (e_st e) →
  history cfg s0 obs (e_set_st before e) →
  history cfg s0 obs (c_engine (persist_decision before e d c).1).
Proof.
  intros Hw Hh Hwf Hb. pose proof (persist_decision_outcome before e d c Hw) as Ho.
  destruct (persist_decision before e d c) as [c' [err|d']]; simpl in *.
  - destruct Ho as (_ & -> & _). done.
  - destruct Ho as [-> Ho]. destruct (dec_Changed d); [|by subst c'].
    destruct Ho as (p & -> & _ & Hr & _). by apply history_restamped.
Qed.

Lemma history_call cfg s0 obs k c :
  (st_RecoveryStarted s0 = true → st_ShutdownCommitted s0 = true) →
  history cfg s0 obs (c_engine c) → well_behaved [k] c →
  history cfg s0 (observations [k] ++ obs) (c_engine (do_call k c)).
Proof.
  intros Hs0 Hh [Hk _]. pose proof (history_wf _ _ Hs0 _ _ Hh) as Hwf. destruct k as [o|now i| | |next]; simpl.
  - apply hist_write; [done|exact Hwf|by left].
  - unfold c_Step. destruct (Step now i (c_engine c)) as [e r] eqn:Hst.
    assert (Hh' : history cfg s0 ((now, i) :: obs) e) by (pose proof (hist_step _ _ _ _ now i Hh) as Hx; by rewrite Hst in Hx).
    assert (Hb : history cfg s0 ((now, i) :: obs) (e_set_st (e_st (c_engine c)) e)).
    { pose proof (hist_step_not_written _ _ _ _ now i Hh) as Hx. by rewrite Hst in Hx. }
    destruct r as [err|d]; [done|]. apply history_persisted; try done. by eapply history_wf.
  - unfold c_MarkShutdownPhaseComplete.
    destruct (MarkShutdownPhaseComplete (c_engine c)) as [e d] eqn:Hm. simpl in Hk.
    assert (Hh' : history cfg s0 obs e) by (pose proof (hist_shutdown_complete _ _ _ _ Hh) as Hx; by rewrite Hm in Hx).
    apply history_persisted; try done; [by eapply history_wf|].
    assert (Heq : e_set_st (e_st (c_engine c)) e = c_engine c).
    { clear -Hm. unfold MarkShutdownPhaseComplete in Hm. destruct (c_engine c).
      repeat case_bool_decide; simpl in *; by simplify_eq. }
    by rewrite Heq.
  - unfold c_MarkRecoveryComplete. destruct (MarkRecoveryComplete (c_engine c)) as [e d] eqn:Hm. simpl in Hk.
    assert (Hh' : history cfg s0 obs e) by (pose proof (hist_recovery_complete _ _ _ _ Hh) as Hx; by rewrite Hm in Hx).
    apply history_persisted; try done; [by eapply history_wf|].
    pose proof (hist_recovery_not_written _ _ _ _ Hh) as Hx. by rewrite Hm in Hx.
  - destruct Hk as (Hw & Hn & Hp). unfold c_Write.
    destruct (write_through next (e_st (c_engine c)) (c_engine c) c) as [c' [err|p]] eqn:Hwt; simpl.
    + apply write_through_failure in Hwt as [-> _]; [|done]. by rewrite e_set_st_same.
    + apply write_through_success in Hwt as (-> & _ & Hr & _); [|done].
      apply hist_write; [done|by eapply restamped_wf|]. by apply restamped_flags in Hr as [-> _].
Qed.

Lemma history_calls cfg s0 ks : ∀ obs c,
  (st_RecoveryStarted s0 = true → st_ShutdownCommitted s0 = true) →
  history cfg s0 obs (c_engine c) → well_behaved ks c →
  history cfg s0 (reverse (observations ks) ++ obs) (c_engine (fold_left (λ c k, do_call k c) ks c)).
Proof.
  induction ks as [|k ks IH]; intros obs c Hs0 Hh Hk; simpl; [done|]. destruct Hk as [Hk1 Hks].
  pose proof (history_call cfg s0 obs k c Hs0 Hh (conj Hk1 I)) as Hh'.
  specialize (IH _ _ Hs0 Hh' Hks). simpl in *.
  destruct k; simpl in *; rewrite ?reverse_cons, <-?app_assoc; done.
Qed.

End guarantees.

(** ** The crash-safe store is such a writer *)

#[export] Instance FS_StateWriter `{StateCodec} : StateWriter FS := Write.

Lemma persisted_as_restamped next p : persisted_as next p → restamped next p.
Proof.
  intros (seq & ck & ->). unfold restamped, stamp. exists (wrapu64 (seq + 1)). simpl.
  destruct (st_StateVersion next =? 0)%Z; [exists Version, ck | exists (st_StateVersion next), ck]; by destruct next.
Qed.

(** What [Write] returns is the stamped payload, whatever calls fail. *)
Lemma Write_restamps `{StateCodecLaws encodable} next w w' p :
  Write next w = (w', inr p) → restamped next p.
Proof.
  intros Hw. apply persisted_as_restamped.
  assert (Hq : ∀ A (m : GoM FS A), spec (λ _, True) m (λ _ _, True) (λ _, True)).
  { intros A m fs _. by destruct (m fs) as [? [?|?]]. }
  assert (Hs : spec (λ _, True) (Write next) (λ p _, persisted_as next p) (λ _, True)).
  { unfold Write. do 3 (eapply spec_bind; [apply Hq|intros []]).
    eapply spec_bind; [apply Hq|]. intros loaded. cbv zeta.
    eapply spec_bind; [apply Hq|]. intros [].
    eapply (spec_bind _ _ _ (λ p _, persisted_as next p)).
    { intros fs _. destruct (withChecksum _) as [e|p'] eqn:Hp; simpl; [done|].
      apply withChecksum_inv in Hp as (ck & -> & _). by eexists _, ck. }
    intros p'.
    repeat (eapply (spec_bind _ _ _ (λ _ _, persisted_as next p'));
      [intros fs Hfs; match goal with |- match ?m with _ => _ end => by destruct m as [? [?|?]] end|intros ?]).
    intros fs Hfs. done. }
  specialize (Hs w I). by rewrite Hw in Hs.
Qed.

#[export] Instance FS_StateWriterLaws `{StateCodecLaws encodable} :
  StateWriterLaws FS encodable (λ fs, load_state (fs_view fs)).
Proof.
  split; [by apply Write_restamps| |]; intros next w w' r Henc Hwr;
    pose proof (Write_v false (fs_view w) next Henc (fs_tmp w) ltac:(done) w ltac:(done)) as Hw;
    unfold sw_Write, FS_StateWriter in Hwr; rewrite Hwr in Hw.
  - destruct Hw as (Hpend & _ & Hpa & Hval & _ & b & v' & _ & _ & Hdur & Hb). split_and!.
    + unfold fs_view. rewrite Hpend, Hdur. unfold load_state. rewrite load_dir_files. unfold file_state. simpl.
      by rewrite Hb.
    + by apply validateSemantic_spec.
  - destruct Hw as (_ & [Hl|(p & Hl & Hpa)]); [by left|right].
    exists p. split; [done|]. by apply persisted_as_restamped.
Qed.

(** The crash-safe store implements the writer interface: an accepted
    generation is the one a restart loads, consistent and with the caller's
    data; a failed write leaves the old generation or the complete new one. *)
Theorem store_implements_writer `{StateCodecLaws encodable} :
  StateWriterLaws FS encodable (λ fs, load_state (fs_view fs)).
Proof. exact FS_StateWriterLaws. Qed.
