(* ===== verification/HostPlan.v ===== *)
(** * Shutdown and recovery plans ([agent/internal/host/plan.go])

    Which hosts are stopped before the NUT forced shutdown and in which order,
    which hosts are restored, and the dependency order of the restore.  The
    recovery plan ranges over Go maps, whose iteration order is arbitrary: the
    order is an argument here, and [HostPlanFacts] proves that it is
    irrelevant. *)

From S2P Require Import Prelude StableSort PowerStateModel.

(** [RestorePolicy] is a string type; its declared constants are *)
Definition RestorePrevious : string := "previous-state".
Definition RestoreAlways : string := "always".
Definition RestoreNever : string := "never".

Record Config : Type := mkConfig {
  hc_ID : string;
  hc_ShutdownMethod : string;
  hc_ShutdownPriority : Z;
  hc_WakeEnabled : bool;
  hc_WakePriority : Z;
  hc_WakeMaxAttempts : Z;
  hc_WakeDelayAfterPreviousSeconds : Z;
  hc_WakeMAC : string;
  hc_WakeInterface : string;
  hc_WakeBroadcast : string;
  hc_WakePort : Z;
  hc_RestorePolicy : string;
  hc_DependsOn : list string;
}.

#[export] Instance Config_eq_dec : EqDecision Config.
Proof. solve_decision. Defined.

(** [Config{}] *)
Definition zeroConfig : Config := mkConfig "" "" 0 false 0 0 0 "" "" "" 0 "" [].

(** ** Shutdown *)

Record ShutdownPlan : Type := mkShutdownPlan {
  PreFSD : list string;
  NUTGroup : list string;
}.

Inductive shutdown_class : Type := ClassNUT | ClassNone | ClassDirect.

#[export] Instance shutdown_class_eq_dec : EqDecision shutdown_class.
Proof. solve_decision. Defined.

(** [switch h.ShutdownMethod] *)
Definition classify (method : string) : shutdown_class :=
  if bool_decide (method = "nut") then ClassNUT
  else if bool_decide (method = "none") || bool_decide (method = "") then ClassNone
  else ClassDirect.

(** One iteration of the loop that splits the hosts. *)
Definition split_host (acc : list Config * list Config) (h : Config) : list Config * list Config :=
  let '(pre, nutGroup) := acc in
  match classify (hc_ShutdownMethod h) with
  | ClassNUT => (pre, nutGroup ++ [h])
  | ClassNone => (pre, nutGroup)
  | ClassDirect => (pre ++ [h], nutGroup)
  end.

Definition BuildShutdownPlan (hosts : list Config) : ShutdownPlan :=
  let '(pre, nutGroup) := fold_left split_host hosts ([], []) in
  let pre := SliceStable (less_by hc_ShutdownPriority hc_ID) pre in
  let nutGroup := SliceStable (less_id hc_ID) nutGroup in
  mkShutdownPlan (hc_ID <$> pre) (hc_ID <$> nutGroup).

(** ** Restore *)

Definition EligibleForRestore (cfg : Config) (st : HostState) : bool :=
  if negb (hc_WakeEnabled cfg) then false
  else if bool_decide (hc_RestorePolicy cfg = RestoreAlways) then true
  else if bool_decide (hc_RestorePolicy cfg = RestoreNever) then false
  else if bool_decide (hc_RestorePolicy cfg = RestorePrevious) || bool_decide (hc_RestorePolicy cfg = "")
  then match hs_WasOnline st with Some b => b | None => false end
  else false.

(** The map [eligible] the function starts by filling. *)
Definition eligible_step (states : gmap string HostState) (m : gmap string Config) (h : Config)
  : gmap string Config :=
  match states !! hc_ID h with
  | Some st => if EligibleForRestore h st then <[hc_ID h := h]> m else m
  | None => m
  end.
Definition eligible_map (hosts : list Config) (states : gmap string HostState) : gmap string Config :=
  fold_left (eligible_step states) hosts ∅.

(** Reading a counter of a [map[string]int]. *)
Definition counter (m : gmap string Z) (id : string) : Z := default 0%Z (m !! id).
Definition succs (m : gmap string (list string)) (id : string) : list string := default [] (m !! id).

Section kahn.
Context (eligible : gmap string Config).

(** The map [eligible], read with its zero value. *)
Definition eligible_at (id : string) : Config := default zeroConfig (eligible !! id).

Definition add_edge (id : string) (acc : gmap string Z * gmap string (list string)) (dep : string)
  : gmap string Z * gmap string (list string) :=
  let '(indegree, children) := acc in
  match eligible !! dep with
  | None => acc   (* checked by the readiness layer *)
  | Some _ =>
      (<[id := (counter indegree id + 1)%Z]> indegree,
       <[dep := succs children dep ++ [id]]> children)
  end.

(** [for id, h := range eligible { for _, dep := range h.DependsOn ... } }] *)
Definition add_edges (range_eligible : list string) : gmap string Z * gmap string (list string) :=
  fold_left (λ acc id, fold_left (add_edge id) (hc_DependsOn (eligible_at id)) acc)
    range_eligible ((λ _, 0%Z) <$> eligible, ∅).

(** [for id, n := range indegree { if n == 0 ... } }] *)
Definition initial_ready (range_indegree : list string) (indegree : gmap string Z) : list Config :=
  eligible_at <$> filter (λ id, counter indegree id = 0%Z) range_indegree.

(** The body of the loop over [children[next.ID]]. *)
Definition release (acc : gmap string Z * list Config) (child : string)
  : gmap string Z * list Config :=
  let '(indegree, ready) := acc in
  let n := (counter indegree child - 1)%Z in
  (<[child := n]> indegree, if (n =? 0)%Z then ready ++ [eligible_at child] else ready).

Definition wake_less : Config → Config → bool := less_by hc_WakePriority hc_ID.

(** [for len(ready) > 0 { ... }]; [None] when the fuel runs out. *)
Fixpoint plan_loop (fuel : nat) (children : gmap string (list string))
    (indegree : gmap string Z) (ready : list Config) (result : list string)
  : option (list string) :=
  match fuel with
  | O => None
  | S fuel =>
      match SliceStable wake_less ready with
      | [] => Some result
      | next :: ready =>
          let '(indegree, ready) := fold_left release (succs children (hc_ID next)) (indegree, ready) in
          plan_loop fuel children indegree ready (result ++ [hc_ID next])
      end
  end.

Definition errCycle : error := Errorf "recovery dependency cycle detected".

Definition plan_eligible (range_eligible range_indegree : list string) : result (list string) :=
  let '(indegree, children) := add_edges range_eligible in
  match plan_loop (S (size eligible)) children indegree (initial_ready range_indegree indegree) [] with
  | Some result =>
      if negb (Z.of_nat (length result) =? Z.of_nat (size eligible))%Z then inl errCycle else inr result
  | None => inl (Errorf "out of fuel")
  end.
End kahn.

(** [BuildRecoveryPlan] under given iteration orders of its two maps. *)
Definition BuildRecoveryPlan_ranging (range_eligible range_indegree : list string)
    (hosts : list Config) (states : gmap string HostState) : result (list string) :=
  plan_eligible (eligible_map hosts states) range_eligible range_indegree.

Definition BuildRecoveryPlan (hosts : list Config) (states : gmap string HostState) : result (list string) :=
  let keys := map_keys (eligible_map hosts states) in
  BuildRecoveryPlan_ranging keys keys hosts states.
