(* ===== verification/HostPlanFacts.v ===== *)
(** * Correctness of the shutdown and recovery plans

    The shutdown plan partitions the managed hosts and orders each part.  The
    recovery plan is related to a reference that knows no counters and no map
    order: repeatedly take the first host, by wake priority, all of whose
    eligible dependencies were taken.  From it: the plan is a dependency order
    of exactly the eligible hosts, it exists precisely when the dependencies
    are acyclic, and it does not depend on Go's map iteration. *)

From S2P Require Import Prelude StableSort PowerStateModel HostPlan.

(** ** The shutdown plan *)

Definition of_class (k : shutdown_class) (hosts : list Config) : list Config :=
  filter (λ h, classify (hc_ShutdownMethod h) = k) hosts.

Lemma split_hosts hosts pre nut :
  fold_left split_host hosts (pre, nut) = (pre ++ of_class ClassDirect hosts, nut ++ of_class ClassNUT hosts).
Proof.
  revert pre nut. unfold of_class. induction hosts as [|h hosts IH]; intros pre nut; simpl; [by rewrite !app_nil_r|].
  rewrite !filter_cons. unfold split_host. destruct (classify (hc_ShutdownMethod h)); simpl; rewrite IH, <-?app_assoc; done.
Qed.

Lemma BuildShutdownPlan_parts hosts :
  BuildShutdownPlan hosts =
  mkShutdownPlan (hc_ID <$> SliceStable (less_by hc_ShutdownPriority hc_ID) (of_class ClassDirect hosts))
                 (hc_ID <$> SliceStable (less_id hc_ID) (of_class ClassNUT hosts)).
Proof. unfold BuildShutdownPlan. by rewrite split_hosts. Qed.

(** ** The recovery plan: reference definition *)

Section reference.
Context (eligible : gmap string Config).

(** The map is keyed by the hosts' identifiers. *)
Definition keyed : Prop := ∀ id c, eligible !! id = Some c → hc_ID c = id.

Definition is_eligible (id : string) : Prop := is_Some (eligible !! id).

Definition eligible_deps (c : Config) : list string := filter is_eligible (hc_DependsOn c).

(** Dependencies not taken yet, with multiplicity. *)
Definition pending (P : list string) (c : Config) : nat :=
  length (filter (λ d, d ∉ P) (eligible_deps c)).

Definition hosts_list : list Config := snd <$> map_to_list eligible.

Definition candidates (P : list string) : list Config :=
  filter (λ c, (hc_ID c ∉ P) ∧ pending P c = 0) hosts_list.

Definition next_of (P : list string) : option Config := head (SliceStable wake_less (candidates P)).

Fixpoint ref_plan (fuel : nat) (P : list string) : option (list string) :=
  match fuel with
  | O => None
  | S fuel =>
      match next_of P with
      | None => Some P
      | Some c => ref_plan fuel (P ++ [hc_ID c])
      end
  end.

Hypothesis Hkeyed : keyed.

Lemma elem_hosts_list c : c ∈ hosts_list ↔ eligible !! hc_ID c = Some c.
Proof.
  unfold hosts_list. rewrite list_elem_of_fmap. split.
  - intros ([id c'] & -> & Hin). apply elem_of_map_to_list in Hin. simpl. by rewrite (Hkeyed _ _ Hin).
  - intros Hc. exists (hc_ID c, c). split; [done|]. by apply elem_of_map_to_list.
Qed.

Lemma NoDup_hosts_list : NoDup (hc_ID <$> hosts_list).
Proof.
  unfold hosts_list. rewrite <-list_fmap_compose.
  rewrite (list_fmap_ext _ fst).
  - apply NoDup_fst_map_to_list.
  - intros i [id c] Hi. simpl. apply Hkeyed. apply elem_of_map_to_list. by eapply list_elem_of_lookup_2.
Qed.

Lemma elem_candidates P c :
  c ∈ candidates P ↔ eligible !! hc_ID c = Some c ∧ (hc_ID c ∉ P) ∧ pending P c = 0.
Proof. unfold candidates. rewrite list_elem_of_filter, elem_hosts_list. tauto. Qed.

Lemma NoDup_candidates P : NoDup (candidates P).
Proof.
  apply NoDup_filter. apply (NoDup_fmap_1 hc_ID). apply NoDup_hosts_list.
Qed.

(** Distinct candidates differ in their identifier, so the order is total. *)
Lemma candidates_total P x y :
  x ∈ candidates P → y ∈ candidates P →
  wake_less x y = false → wake_less y x = false → x = y.
Proof.
  intros Hx%elem_candidates Hy%elem_candidates H1 H2.
  pose proof (less_by_total _ _ _ _ H1 H2) as Heq. destruct Hx as [Hx _], Hy as [Hy _].
  rewrite Heq in Hx. congruence.
Qed.

Lemma sort_candidates P ready : ready ≡ₚ candidates P → SliceStable wake_less ready = SliceStable wake_less (candidates P).
Proof.
  intros Hp. symmetry. apply SliceStable_unique; [typeclasses eauto| |done].
  intros x y Hx Hy. by apply (candidates_total P).
Qed.

(** [next_of] is the least candidate. *)
Lemma next_of_Some P c :
  next_of P = Some c →
  c ∈ candidates P ∧ ∀ c', c' ∈ candidates P → c' ≠ c → wake_less c c' = true.
Proof.
  unfold next_of. intros Hn. pose proof (SliceStable_perm wake_less (candidates P)) as Hperm.
  pose proof (SliceStable_sorted wake_less (candidates P)) as Hs.
  destruct (SliceStable wake_less (candidates P)) as [|x l] eqn:Hl; simplify_eq/=.
  assert (Hc : c ∈ candidates P) by (rewrite <-Hperm; left). split; [done|].
  intros c' Hc' Hne. destruct (wake_less c c') eqn:Hlt; [done|]. destruct Hne.
  apply (candidates_total P); [done..| |done]. rewrite <-Hperm in Hc'.
  apply elem_of_cons in Hc' as [->|Hin]; [apply swo_irrefl|].
  inversion_clear Hs as [|?? _ Hall]. rewrite Forall_forall in Hall. by apply Hall.
Qed.

Lemma next_of_None P : next_of P = None ↔ candidates P = [].
Proof.
  unfold next_of. pose proof (SliceStable_perm wake_less (candidates P)) as Hperm.
  destruct (SliceStable wake_less (candidates P)) as [|x l] eqn:Hl.
  - apply Permutation_nil in Hperm. by rewrite Hperm.
  - split; [done|]. intros Hc. rewrite Hc in Hperm. symmetry in Hperm. by apply Permutation_nil in Hperm.
Qed.

(** *** The plan so far *)

(** Every element was taken after its eligible dependencies and was the
    least that could be taken. *)
Definition well_ordered (P : list string) : Prop :=
  ∀ P1 id P2, P = P1 ++ id :: P2 → ∃ c, c ∈ candidates P1 ∧ hc_ID c = id ∧
    ∀ c', c' ∈ candidates P1 → c' ≠ c → wake_less c c' = true.

Lemma well_ordered_nil : well_ordered [].
Proof. intros [|??] ? ?; discriminate. Qed.

Lemma well_ordered_snoc P c : well_ordered P → next_of P = Some c → well_ordered (P ++ [hc_ID c]).
Proof.
  intros Hw Hn P1 id P2. destruct P2 as [|z P2 _] using rev_ind.
  - intros [-> [= <-]]%app_inj_tail. exists c. by apply next_of_Some in Hn as [? ?].
  - rewrite app_comm_cons, app_assoc. intros [-> [= <-]]%app_inj_tail. by apply (Hw P1 id P2).
Qed.

Lemma well_ordered_NoDup P : well_ordered P → NoDup P ∧ ∀ id, id ∈ P → is_eligible id.
Proof.
  induction P as [|x P IH] using rev_ind; intros Hw; [split; [constructor|by intros ? ?%not_elem_of_nil]|].
  destruct IH as [Hnd Hel].
  { intros P1 id P2 Heq. apply (Hw P1 id (P2 ++ [x])). by rewrite Heq, <-app_assoc. }
  destruct (Hw P x [] eq_refl) as (c & (Hc & Hnin & _)%elem_candidates & <- & _). split.
  - apply NoDup_app. split_and!; [done| |apply NoDup_singleton]. intros y Hy Hy2. apply list_elem_of_singleton in Hy2 as ->. done.
  - intros id [Hid|Hid]%elem_of_app; [by apply Hel|]. apply list_elem_of_singleton in Hid as ->. by eexists.
Qed.

Lemma ref_plan_well_ordered fuel P plan :
  well_ordered P → ref_plan fuel P = Some plan → well_ordered plan ∧ candidates plan = [].
Proof.
  revert P. induction fuel as [|fuel IH]; intros P Hw; simpl; [done|].
  destruct (next_of P) as [c|] eqn:Hn.
  - by apply IH, well_ordered_snoc.
  - intros [= <-]. by rewrite <-next_of_None.
Qed.

Lemma well_ordered_length P : well_ordered P → length P ≤ size eligible.
Proof.
  intros [Hnd Hel]%well_ordered_NoDup. rewrite <-length_map_keys. apply submseteq_length, NoDup_submseteq; [done|].
  intros id Hid. by apply elem_map_keys, Hel.
Qed.

(** Enough fuel: one round per eligible host and one to stop. *)
Lemma ref_plan_total fuel P :
  well_ordered P → size eligible < fuel + length P → is_Some (ref_plan fuel P).
Proof.
  revert P. induction fuel as [|fuel IH]; intros P Hw Hf; simpl.
  { pose proof (well_ordered_length P Hw). lia. }
  destruct (next_of P) as [c|] eqn:Hn; [|by eexists].
  apply IH; [by apply well_ordered_snoc|]. rewrite length_app. simpl. lia.
Qed.
End reference.

(** ** The counters *)

(** How often [x] occurs in [l]. *)
Definition occ (x : string) (l : list string) : nat := length (filter (λ y, y = x) l).

Lemma occ_app x l k : occ x (l ++ k) = occ x l + occ x k.
Proof. unfold occ. by rewrite filter_app, length_app. Qed.

Lemma occ_cons x y l : occ x (y :: l) = (if decide (y = x) then 1 else 0) + occ x l.
Proof. unfold occ. rewrite filter_cons. by case_decide. Qed.

Lemma occ_pos x l : x ∈ l ↔ 0 < occ x l.
Proof.
  induction l as [|y l IH]; [split; [by intros ?%not_elem_of_nil|unfold occ; simpl; lia]|].
  rewrite elem_of_cons, occ_cons, IH. case_decide; [subst; intuition lia|]. intuition (try congruence; try lia).
Qed.

Lemma counter_insert m i j n : counter (<[i := n]> m) j = if decide (i = j) then n else counter m j.
Proof. unfold counter. rewrite lookup_insert. by case_decide. Qed.

Lemma succs_insert m i j l : succs (<[i := l]> m) j = if decide (i = j) then l else succs m j.
Proof. unfold succs. rewrite lookup_insert. by case_decide. Qed.

Section counters.
Context (eligible : gmap string Config).

(** *** Filling [indegree] and [children] *)

Lemma add_deps id deps indeg ch :
  let r := fold_left (add_edge eligible id) deps (indeg, ch) in
  let deps' := filter (is_eligible eligible) deps in
  (∀ i, counter r.1 i = counter indeg i + if decide (i = id) then Z.of_nat (length deps') else 0)%Z ∧
  (∀ d i, occ i (succs r.2 d) = occ i (succs ch d) + if decide (i = id) then occ d deps' else 0).
Proof.
  revert indeg ch. induction deps as [|d deps IH]; intros indeg ch; cbv zeta; simpl.
  { split; intros; case_decide; unfold occ; simpl; lia. }
  rewrite filter_cons. destruct (decide (is_eligible eligible d)) as [[cd Hd]|Hd].
  - rewrite Hd. cbv zeta in IH.
    destruct (IH (<[id := (counter indeg id + 1)%Z]> indeg) (<[d := succs ch d ++ [id]]> ch)) as [H1 H2]. split.
    + intros i. rewrite H1, counter_insert. simpl. repeat case_decide; subst; try done; lia.
    + intros d' i. rewrite H2, succs_insert. destruct (decide (d = d')) as [->|Hne].
      * rewrite occ_app, !occ_cons. unfold occ at 2. simpl.
        repeat case_decide; subst; try done; lia.
      * case_decide; [|lia]. rewrite occ_cons, decide_False by done. lia.
  - apply eq_None_not_Some in Hd. rewrite Hd. apply IH.
Qed.

Lemma add_edges_spec range indeg ch :
  NoDup range →
  let r := fold_left (λ acc id, fold_left (add_edge eligible id) (hc_DependsOn (eligible_at eligible id)) acc)
             range (indeg, ch) in
  let deps i := eligible_deps eligible (eligible_at eligible i) in
  (∀ i, counter r.1 i = counter indeg i + if decide (i ∈ range) then Z.of_nat (length (deps i)) else 0)%Z ∧
  (∀ d i, occ i (succs r.2 d) = occ i (succs ch d) + if decide (i ∈ range) then occ d (deps i) else 0).
Proof.
  intros Hnd. revert indeg ch. induction Hnd as [|id range Hnin _ IH]; intros indeg ch; cbv zeta; simpl.
  { split; intros; lia. }
  pose proof (add_deps id (hc_DependsOn (eligible_at eligible id)) indeg ch) as [H1 H2]. cbv zeta in H1, H2.
  destruct (fold_left (add_edge eligible id) _ (indeg, ch)) as [indeg' ch'].
  destruct (IH indeg' ch') as [H3 H4]. cbv zeta in H3, H4. simpl in H1, H2. split.
  - intros i. rewrite H3, H1. unfold eligible_deps.
    destruct (decide (i = id)) as [->|Hne].
    + rewrite (decide_False (P := id ∈ range)), decide_True by (done || left). lia.
    + destruct (decide (i ∈ range)); [rewrite decide_True by by right | rewrite decide_False by set_solver]; lia.
  - intros d i. rewrite H4, H2. unfold eligible_deps.
    destruct (decide (i = id)) as [->|Hne].
    + rewrite (decide_False (P := id ∈ range)), decide_True by (done || left). lia.
    + destruct (decide (i ∈ range)); [rewrite decide_True by by right | rewrite decide_False by set_solver]; lia.
Qed.

(** *** Releasing the children of a host *)

Lemma release_all ch indeg ready :
  let r := fold_left (release eligible) ch (indeg, ready) in
  (∀ i, counter r.1 i = counter indeg i - Z.of_nat (occ i ch))%Z ∧
  ∃ added, r.2 = ready ++ (eligible_at eligible <$> added) ∧ NoDup added ∧
    ∀ i, i ∈ added ↔ (1 ≤ counter indeg i ≤ Z.of_nat (occ i ch))%Z.
Proof.
  revert indeg ready. induction ch as [|c ch IH]; intros indeg ready; cbv zeta; simpl.
  { split; [intros i; unfold occ; simpl; lia|]. exists []. split_and!; [by rewrite app_nil_r|constructor|].
    intros i. unfold occ. simpl. rewrite elem_of_nil. lia. }
  set (n := (counter indeg c - 1)%Z).
  destruct (IH (<[c := n]> indeg) (if (n =? 0)%Z then ready ++ [eligible_at eligible c] else ready))
    as (H1 & added & H2 & H3 & H4). split.
  { intros i. rewrite H1, counter_insert, occ_cons. unfold n. repeat case_decide; subst; try done; lia. }
  assert (H4' : ∀ i, i ∈ added ↔ (1 ≤ (if decide (c = i) then n else counter indeg i) ≤ Z.of_nat (occ i ch))%Z).
  { intros i. by rewrite H4, counter_insert. }
  destruct (Z.eqb_spec n 0) as [Hz|Hz].
  - exists (c :: added). rewrite H2, <-app_assoc. split_and!; [done| |].
    + constructor; [|done]. rewrite H4', decide_True by done. lia.
    + intros i. rewrite elem_of_cons, H4', occ_cons. unfold n in *.
      destruct (decide (c = i)) as [->|Hne]; [|rewrite ?(decide_False (P := c = i)) by done; intuition (try congruence; lia)].
      intuition lia.
  - exists added. split_and!; [done..|]. intros i. rewrite H4', occ_cons. unfold n in *.
    destruct (decide (c = i)) as [->|Hne]; lia.
Qed.
End counters.

(** ** The loop computes the reference plan *)

Section refinement.
Context (eligible : gmap string Config) (children : gmap string (list string)).
Hypothesis Hkeyed : keyed eligible.
Hypothesis Hchildren : ∀ d i, is_eligible eligible i →
  occ i (succs children d) = occ d (eligible_deps eligible (eligible_at eligible i)).
Hypothesis Hchildren_eligible : ∀ d i, i ∈ succs children d → is_eligible eligible i.

(** [P] is the plan so far. *)
Definition loop_inv (P : list string) (indeg : gmap string Z) (ready : list Config) : Prop :=
  (∀ i, is_eligible eligible i → counter indeg i = Z.of_nat (pending eligible P (eligible_at eligible i))) ∧
  (∀ i, i ∈ P → pending eligible P (eligible_at eligible i) = 0) ∧
  ready ≡ₚ candidates eligible P.

Lemma eligible_at_Some i c : eligible !! i = Some c → eligible_at eligible i = c.
Proof. intros Hc. unfold eligible_at. by rewrite Hc. Qed.

Lemma pending_snoc P n c :
  n ∉ P → pending eligible (P ++ [n]) c + occ n (eligible_deps eligible c) = pending eligible P c.
Proof.
  intros Hn. unfold pending, occ. induction (eligible_deps eligible c) as [|d l IH]; [done|].
  rewrite !filter_cons.
  destruct (decide (d = n)) as [->|Hne].
  - rewrite decide_False, decide_True by set_solver. simpl in *. lia.
  - destruct (decide (d ∉ P)) as [Hd|Hd]; [rewrite decide_True by set_solver | rewrite decide_False by set_solver];
      simpl in *; lia.
Qed.

(** The hosts whose counter reaches zero are those that become available. *)
Lemma released_iff P indeg ready n i :
  loop_inv P indeg ready → n ∉ P →
  (1 ≤ counter indeg i ≤ Z.of_nat (occ i (succs children n)))%Z ↔
  ∃ c, eligible !! i = Some c ∧ pending eligible P c ≠ 0 ∧ pending eligible (P ++ [n]) c = 0.
Proof.
  intros (Hcnt & _ & _) Hn. split.
  - intros Hi. assert (Hie : is_eligible eligible i) by (apply (Hchildren_eligible n), occ_pos; lia).
    pose proof Hie as [c Hc]. exists c.
    rewrite Hcnt, Hchildren, (eligible_at_Some _ _ Hc) in Hi by done.
    pose proof (pending_snoc P n c Hn). split_and!; [done|lia|lia].
  - intros (c & Hc & Hp & Hp'). pose proof (pending_snoc P n c Hn).
    rewrite Hcnt, Hchildren, (eligible_at_Some _ _ Hc) by (by eexists). lia.
Qed.

Lemma candidates_snoc P c x :
  c ∈ candidates eligible P → (∀ i, i ∈ P → pending eligible P (eligible_at eligible i) = 0) →
  x ∈ candidates eligible (P ++ [hc_ID c]) ↔
  (x ≠ c ∧ x ∈ candidates eligible P) ∨
  (eligible !! hc_ID x = Some x ∧ pending eligible P x ≠ 0 ∧ pending eligible (P ++ [hc_ID c]) x = 0).
Proof.
  intros Hc HP. apply elem_candidates in Hc as (Hce & Hcn & Hcp); [|done].
  rewrite !elem_candidates, not_elem_of_app, list_elem_of_singleton by done.
  pose proof (pending_snoc P (hc_ID c) x Hcn) as Hps. split.
  - intros (Hxe & [HxP Hxc] & Hxp). destruct (decide (pending eligible P x = 0)) as [Hz|Hz]; [left|by right].
    split_and!; try done. by intros ->.
  - intros [(Hne & Hxe & HxP & Hxp)|(Hxe & Hxp & Hxp')]; split_and!; try done; try lia.
    + intros Heq. rewrite Heq in Hxe. congruence.
    + intros Hin. apply Hxp. rewrite <-(HP _ Hin). by rewrite (eligible_at_Some _ _ Hxe).
    + intros Heq. rewrite Heq in Hxe. congruence.
Qed.

Lemma loop_step P indeg ready c ready' :
  loop_inv P indeg ready → SliceStable wake_less ready = c :: ready' →
  let r := fold_left (release eligible) (succs children (hc_ID c)) (indeg, ready') in
  loop_inv (P ++ [hc_ID c]) r.1 r.2.
Proof.
  intros Hinv Hsort. cbv zeta. pose proof Hinv as (Hcnt & HP & Hready).
  destruct (release_all eligible (succs children (hc_ID c)) indeg ready') as (H1 & added & H2 & H3 & H4).
  pose proof (SliceStable_perm wake_less ready) as Hperm. rewrite Hsort, Hready in Hperm.
  assert (Hc : c ∈ candidates eligible P) by (rewrite <-Hperm; left).
  pose proof Hc as (Hce & Hcn & Hcp)%elem_candidates; [|done].
  pose proof (NoDup_candidates eligible Hkeyed P) as Hnd. rewrite <-Hperm in Hnd.
  apply NoDup_cons in Hnd as [Hcr Hnd].
  assert (Hadd : ∀ i, i ∈ added ↔ ∃ c', eligible !! i = Some c' ∧ pending eligible P c' ≠ 0 ∧
                                        pending eligible (P ++ [hc_ID c]) c' = 0).
  { intros i. rewrite H4. by eapply released_iff. }
  assert (Hr : ∀ x, x ∈ ready' ↔ x ≠ c ∧ x ∈ candidates eligible P).
  { intros x. rewrite <-Hperm, elem_of_cons. split; [|tauto]. intros Hx. split; [|by right]. by intros ->. }
  split_and!.
  - intros i Hi. rewrite H1, Hcnt, Hchildren by done. rewrite <-(pending_snoc P (hc_ID c)) by done. lia.
  - intros i Hi. pose proof (pending_snoc P (hc_ID c) (eligible_at eligible i) Hcn).
    apply elem_of_app in Hi as [Hi|Hi]; [specialize (HP i Hi); lia|].
    apply list_elem_of_singleton in Hi as ->. rewrite (eligible_at_Some _ _ Hce) in *. lia.
  - rewrite H2. apply NoDup_Permutation; [|by apply NoDup_candidates|].
    + apply NoDup_app. split_and!; [done| |].
      * intros x [_ Hx]%Hr (i & -> & (c' & Hc' & Hp & _)%Hadd)%list_elem_of_fmap.
        apply elem_candidates in Hx as (_ & _ & Hxp); [|done]. by rewrite (eligible_at_Some _ _ Hc') in Hxp.
      * apply (NoDup_fmap_2_strong (eligible_at eligible)); [|done].
        intros i j (ci & Hi & _)%Hadd (cj & Hj & _)%Hadd.
        rewrite (eligible_at_Some _ _ Hi), (eligible_at_Some _ _ Hj). intros ->.
        by rewrite <-(Hkeyed _ _ Hi), <-(Hkeyed _ _ Hj).
    + intros x. rewrite candidates_snoc, elem_of_app, Hr, list_elem_of_fmap by done.
      apply or_iff_compat_l. split.
      * intros (i & -> & (c' & Hc' & Hp)%Hadd). rewrite (eligible_at_Some _ _ Hc').
        by rewrite (Hkeyed _ _ Hc').
      * intros (Hx & Hp). exists (hc_ID x). rewrite (eligible_at_Some _ _ Hx). split; [done|].
        apply Hadd. by exists x.
Qed.

Lemma plan_loop_ref fuel P indeg ready :
  loop_inv P indeg ready → plan_loop eligible fuel children indeg ready P = ref_plan eligible fuel P.
Proof.
  revert P indeg ready. induction fuel as [|fuel IH]; intros P indeg ready Hinv; simpl; [done|].
  pose proof Hinv as (_ & _ & Hready). unfold next_of. rewrite <-(sort_candidates eligible Hkeyed P ready Hready).
  destruct (SliceStable wake_less ready) as [|c ready'] eqn:Hs; simpl; [done|].
  pose proof (loop_step P indeg ready c ready' Hinv Hs) as Hinv'. cbv zeta in Hinv'.
  destruct (fold_left _ _ _) as [indeg' ready'']. by apply IH.
Qed.
End refinement.

Lemma pending_nil eligible c : pending eligible [] c = length (eligible_deps eligible c).
Proof.
  unfold pending. induction (eligible_deps eligible c) as [|d l IH]; [done|].
  rewrite filter_cons, decide_True by apply not_elem_of_nil. by apply (f_equal S).
Qed.

Lemma eligible_map_keyed hosts states : keyed (eligible_map hosts states).
Proof.
  unfold eligible_map. assert (H0 : keyed ∅) by by intros id c; rewrite lookup_empty.
  revert H0. generalize (∅ : gmap string Config). induction hosts as [|h hosts IH]; intros m Hm; simpl; [done|].
  apply IH. unfold eligible_step. destruct (states !! hc_ID h); [|done]. case_match; [|done].
  intros id c. rewrite lookup_insert. case_decide; [|by apply Hm]. intros [= <-]. done.
Qed.

Lemma plan_eligible_ref eligible o1 o2 :
  keyed eligible → range_of eligible o1 → range_of eligible o2 →
  ∃ plan, ref_plan eligible (S (size eligible)) [] = Some plan ∧
          plan_eligible eligible o1 o2 =
          if negb (Z.of_nat (length plan) =? Z.of_nat (size eligible))%Z then inl errCycle else inr plan.
Proof.
  intros Hk Ho1 Ho2. unfold plan_eligible, add_edges.
  assert (Hnd1 : NoDup o1) by (rewrite Ho1; apply NoDup_map_keys).
  assert (Hin1 : ∀ i, i ∈ o1 ↔ is_eligible eligible i) by (intros i; by rewrite Ho1, elem_map_keys).
  pose proof (add_edges_spec eligible o1 ((λ _, 0%Z) <$> eligible) ∅ Hnd1) as [H1 H2]. cbv zeta in H1, H2.
  destruct (fold_left _ o1 _) as [indeg ch]. simpl in H1, H2.
  assert (H0 : ∀ i, counter ((λ _, 0%Z) <$> eligible) i = 0%Z).
  { intros i. unfold counter. rewrite lookup_fmap. by destruct (eligible !! i). }
  assert (Hs0 : ∀ d i, occ i (succs ∅ d) = 0) by (intros; unfold succs; by rewrite lookup_empty).
  destruct (ref_plan_total eligible Hk (S (size eligible)) []) as [plan Hplan].
  { apply well_ordered_nil. }
  { simpl. lia. }
  exists plan. split; [done|]. rewrite (plan_loop_ref eligible ch Hk), Hplan; [done| | |].
  - intros d i Hi. rewrite H2, Hs0, decide_True by by apply Hin1. done.
  - intros d i Hi%occ_pos. rewrite H2, Hs0 in Hi. apply Hin1. by destruct (decide (i ∈ o1)); [|lia].
  - assert (Hcnt : ∀ i, is_eligible eligible i →
      counter indeg i = Z.of_nat (pending eligible [] (eligible_at eligible i))).
    { intros i Hi. rewrite H1, H0, decide_True by by apply Hin1. by rewrite pending_nil. }
    split_and!; [done|by intros i ?%not_elem_of_nil|].
    apply NoDup_Permutation; [|by apply NoDup_candidates|].
    + unfold initial_ready. apply (NoDup_fmap_2_strong (eligible_at eligible)).
      * intros i j [_ Hi]%list_elem_of_filter [_ Hj]%list_elem_of_filter.
        rewrite Ho2, elem_map_keys in Hi, Hj. destruct Hi as [ci Hi], Hj as [cj Hj].
        rewrite (eligible_at_Some _ _ _ Hi), (eligible_at_Some _ _ _ Hj). intros ->.
        by rewrite <-(Hk _ _ Hi), <-(Hk _ _ Hj).
      * apply NoDup_filter. rewrite Ho2. apply NoDup_map_keys.
    + intros x. unfold initial_ready. rewrite list_elem_of_fmap, elem_candidates by done. split.
      * intros (i & -> & [Hi Hin]%list_elem_of_filter). rewrite Ho2, elem_map_keys in Hin.
        rewrite Hcnt in Hi by done. destruct Hin as [c Hc]. rewrite (eligible_at_Some _ _ _ Hc) in *.
        rewrite (Hk _ _ Hc). split_and!; [done|apply not_elem_of_nil|lia].
      * intros (Hx & _ & Hp). exists (hc_ID x). rewrite (eligible_at_Some _ _ _ Hx). split; [done|].
        apply list_elem_of_filter. split; [|rewrite Ho2, elem_map_keys; by eexists].
        rewrite Hcnt, (eligible_at_Some _ _ _ Hx) by by eexists. lia.
Qed.

(** ** Guarantees *)

(** [h] is restored in the generation [states]. *)
Definition restorable (states : gmap string HostState) (h : Config) : Prop :=
  ∃ st, states !! hc_ID h = Some st ∧ EligibleForRestore h st = true.

Lemma eligible_map_fold hosts states m id h :
  NoDup (hc_ID <$> hosts) → (∀ h', h' ∈ hosts → m !! hc_ID h' = None) →
  fold_left (eligible_step states) hosts m !! id = Some h ↔
  m !! id = Some h ∨ (h ∈ hosts ∧ hc_ID h = id ∧ restorable states h).
Proof.
  revert m. induction hosts as [|x hosts IH]; intros m Hnd Hm; simpl.
  { rewrite elem_of_nil. tauto. }
  apply NoDup_cons in Hnd as [Hx Hnd].
  assert (Hxh : ∀ h', h' ∈ hosts → hc_ID h' ≠ hc_ID x) by (intros h' Hin Heq; apply Hx; rewrite <-Heq; by apply list_elem_of_fmap_2).
  assert (Hmx : m !! hc_ID x = None) by (apply Hm; left).
  unfold eligible_step at 2.
  destruct (states !! hc_ID x) as [st|] eqn:Hst; [destruct (EligibleForRestore x st) eqn:Hel|].
  - rewrite IH, lookup_insert; [|done|].
    + case_decide as Hid; [subst id|].
      * rewrite Hmx, elem_of_cons. split.
        -- intros [[= <-]|(Hin & Heq & _)]; [|by destruct (Hxh h Hin)].
           right. split_and!; [by left|done|]. by exists st.
        -- intros [?|([->|Hin] & Heq & _)]; [done|by left|by destruct (Hxh h Hin)].
      * rewrite elem_of_cons. split; [intuition auto|]. intros [?|([->|Hin] & Heq & Hr)]; [by left|done|by right].
    + intros h' Hin. rewrite lookup_insert_ne by (by apply not_eq_sym, Hxh). apply Hm. by right.
  - rewrite IH; [|done|intros h' Hin; apply Hm; by right]. rewrite elem_of_cons. split; [intuition auto|].
    intros [?|([->|Hin] & Heq & (st' & Hst' & He))]; [by left|congruence|right; split_and!; try done; by exists st'].
  - rewrite IH; [|done|intros h' Hin; apply Hm; by right]. rewrite elem_of_cons. split; [intuition auto|].
    intros [?|([->|Hin] & Heq & (st' & Hst' & He))]; [by left|congruence|right; split_and!; try done; by exists st'].
Qed.

Lemma eligible_map_lookup hosts states id h :
  NoDup (hc_ID <$> hosts) →
  eligible_map hosts states !! id = Some h ↔ h ∈ hosts ∧ hc_ID h = id ∧ restorable states h.
Proof.
  intros Hnd. unfold eligible_map. rewrite eligible_map_fold; [|done|intros; apply lookup_empty].
  rewrite lookup_empty. intuition congruence.
Qed.

Lemma candidates_empty_all eligible P :
  keyed eligible → well_ordered eligible P → length P = size eligible →
  ∀ id, is_eligible eligible id → id ∈ P.
Proof.
  intros Hk Hw Hlen id Hid. destruct (well_ordered_NoDup eligible Hk P Hw) as [Hnd Hel].
  assert (Hperm : P ≡ₚ map_keys eligible).
  { apply submseteq_length_Permutation; [|rewrite length_map_keys; lia].
    apply NoDup_submseteq; [done|]. intros x Hx. by apply elem_map_keys, Hel. }
  rewrite Hperm. by apply elem_map_keys.
Qed.

(** A rank that grows along dependencies: there is no cycle. *)
Definition ranked (eligible : gmap string Config) (rank : string → nat) : Prop :=
  ∀ id c d, eligible !! id = Some c → d ∈ hc_DependsOn c → is_eligible eligible d → rank d < rank id.

(** Without a cycle, some host is always available. *)
Lemma ranked_candidate eligible rank P :
  keyed eligible → ranked eligible rank → well_ordered eligible P → candidates eligible P = [] →
  ∀ id, is_eligible eligible id → id ∈ P.
Proof.
  intros Hk Hr Hw Hc id. remember (rank id) as n eqn:Hn. revert id Hn.
  induction (lt_wf n) as [n _ IH]. intros id -> [c Hid].
  destruct (decide (id ∈ P)) as [|Hnin]; [done|exfalso].
  assert (Hin : c ∉ candidates eligible P) by (rewrite Hc; apply not_elem_of_nil).
  apply Hin, elem_candidates; [done|]. rewrite (Hk _ _ Hid). split_and!; [done..|].
  unfold pending. apply length_zero_iff_nil. apply elem_of_nil_inv. intros d [Hd Hel]%list_elem_of_filter.
  apply list_elem_of_filter in Hel as [Hel Hdep]. apply Hd. by eapply IH; [eapply Hr|..].
Qed.

(** A well-ordered plan has every dependency earlier. *)
Lemma well_ordered_deps eligible P P1 id P2 c d :
  keyed eligible → well_ordered eligible P → P = P1 ++ id :: P2 → eligible !! id = Some c →
  d ∈ hc_DependsOn c → is_eligible eligible d → d ∈ P1.
Proof.
  intros Hk Hw HP Hid Hd Hel. destruct (Hw _ _ _ HP) as (c' & (Hc' & _ & Hp)%elem_candidates & <- & _); [|done].
  assert (c' = c) as -> by congruence. destruct (decide (d ∈ P1)) as [|Hnin]; [done|].
  unfold pending in Hp. apply length_zero_iff_nil in Hp.
  assert (Hin : d ∈ filter (λ d, d ∉ P1) (eligible_deps eligible c)) by (unfold eligible_deps; rewrite !list_elem_of_filter; tauto).
  rewrite Hp in Hin. by apply not_elem_of_nil in Hin.
Qed.

(** The cases of [BuildRecoveryPlan_ranging]. *)
Lemma recovery_plan_cases o1 o2 hosts states :
  let eligible := eligible_map hosts states in
  range_of eligible o1 → range_of eligible o2 →
  ∃ plan, ref_plan eligible (S (size eligible)) [] = Some plan ∧
    well_ordered eligible plan ∧ candidates eligible plan = [] ∧
    BuildRecoveryPlan_ranging o1 o2 hosts states =
      if decide (length plan = size eligible) then inr plan else inl errCycle.
Proof.
  intros eligible Ho1 Ho2. pose proof (eligible_map_keyed hosts states) as Hk. fold eligible in Hk.
  destruct (plan_eligible_ref eligible o1 o2 Hk Ho1 Ho2) as (plan & Hplan & Heq).
  destruct (ref_plan_well_ordered eligible Hk _ _ _ (well_ordered_nil eligible) Hplan) as [Hw Hc].
  exists plan. split_and!; try done. unfold BuildRecoveryPlan_ranging. fold eligible. rewrite Heq.
  case_decide as Hl; [by rewrite Hl, Z.eqb_refl|]. by rewrite (proj2 (Z.eqb_neq _ _)) by lia.
Qed.

(** A plan that stops in a ranked map has taken every host. *)
Lemma ranked_plan_complete eligible rank plan :
  keyed eligible → ranked eligible rank → well_ordered eligible plan → candidates eligible plan = [] →
  length plan = size eligible.
Proof.
  intros Hk Hr Hw Hc. pose proof (well_ordered_length eligible Hk plan Hw) as Hle.
  assert (Hge : map_keys eligible ⊆+ plan).
  { apply NoDup_submseteq; [apply NoDup_map_keys|]. intros id Hid%elem_map_keys.
    by apply (ranked_candidate eligible rank). }
  apply submseteq_length in Hge. rewrite length_map_keys in Hge. lia.
Qed.

Lemma ranked_plan_exists o1 o2 hosts states rank :
  let eligible := eligible_map hosts states in
  range_of eligible o1 → range_of eligible o2 → ranked eligible rank →
  ∃ plan, BuildRecoveryPlan_ranging o1 o2 hosts states = inr plan.
Proof.
  intros eligible Ho1 Ho2 Hr. pose proof (eligible_map_keyed hosts states) as Hk.
  destruct (recovery_plan_cases o1 o2 hosts states Ho1 Ho2) as (plan & _ & Hw & Hc & ->).
  exists plan. rewrite decide_True; [done|]. by apply (ranked_plan_complete _ rank).
Qed.

(** The members of a plan, and that they are listed once. *)
Lemma plan_members_ranging o1 o2 hosts states plan id :
  let eligible := eligible_map hosts states in
  range_of eligible o1 → range_of eligible o2 → NoDup (hc_ID <$> hosts) →
  BuildRecoveryPlan_ranging o1 o2 hosts states = inr plan →
  id ∈ plan ↔ ∃ h, h ∈ hosts ∧ hc_ID h = id ∧ restorable states h.
Proof.
  intros eligible Ho1 Ho2 Hnd Hplan. pose proof (eligible_map_keyed hosts states) as Hk. fold eligible in Hk.
  destruct (recovery_plan_cases o1 o2 hosts states Ho1 Ho2) as (plan' & _ & Hw & Hc & Heq).
  fold eligible in Hw, Hc, Heq. rewrite Heq in Hplan. case_decide as Hlen; [|done].
  injection Hplan as ->. destruct (well_ordered_NoDup eligible Hk plan Hw) as [Hndp Hel].
  setoid_rewrite <-(eligible_map_lookup hosts states id _ Hnd). fold eligible.
  split; [apply Hel|by apply candidates_empty_all].
Qed.

Lemma plan_members hosts states plan id :
  NoDup (hc_ID <$> hosts) → BuildRecoveryPlan hosts states = inr plan →
  id ∈ plan ↔ ∃ h, h ∈ hosts ∧ hc_ID h = id ∧ restorable states h.
Proof. intros Hnd Hp. by apply (plan_members_ranging _ _ hosts states plan id (reflexivity _) (reflexivity _) Hnd). Qed.

(** The shutdown plan stops every direct host before the NUT group's
    forced shutdown and nothing else: the two lists are the identifiers of the
    hosts with a direct method, by priority and then identifier, and of the
    NUT-managed hosts by identifier; hosts without a method are in neither. *)
Theorem BuildShutdownPlan_correct hosts :
  ∃ pre nut,
    BuildShutdownPlan hosts = mkShutdownPlan (hc_ID <$> pre) (hc_ID <$> nut) ∧
    pre ≡ₚ filter (λ h, hc_ShutdownMethod h ≠ "nut" ∧ hc_ShutdownMethod h ≠ "none" ∧ hc_ShutdownMethod h ≠ "") hosts ∧
    nut ≡ₚ filter (λ h, hc_ShutdownMethod h = "nut") hosts ∧
    StronglySorted (not_after (less_by hc_ShutdownPriority hc_ID)) pre ∧
    StronglySorted (not_after (less_id hc_ID)) nut.
Proof.
  rewrite BuildShutdownPlan_parts.
  exists (SliceStable (less_by hc_ShutdownPriority hc_ID) (of_class ClassDirect hosts)),
         (SliceStable (less_id hc_ID) (of_class ClassNUT hosts)).
  split_and!; [done|rewrite SliceStable_perm|rewrite SliceStable_perm|apply SliceStable_sorted, _..];
    unfold of_class, classify; apply reflexive_eq, list_filter_iff; intros h;
    repeat case_bool_decide; simpl; intuition congruence.
Qed.

Lemma plan_NoDup o1 o2 hosts states plan :
  let eligible := eligible_map hosts states in
  range_of eligible o1 → range_of eligible o2 → BuildRecoveryPlan_ranging o1 o2 hosts states = inr plan → NoDup plan.
Proof.
  intros eligible Ho1 Ho2 Hplan. pose proof (eligible_map_keyed hosts states) as Hk.
  destruct (recovery_plan_cases o1 o2 hosts states Ho1 Ho2) as (plan' & _ & Hw & Hc & Heq).
  rewrite Heq in Hplan. case_decide; [|done]. injection Hplan as ->.
  by destruct (well_ordered_NoDup _ Hk plan Hw).
Qed.

(** What stands before a host of a plan, and what may stand after it. *)
Lemma plan_position o1 o2 hosts states plan before id after h :
  let eligible := eligible_map hosts states in
  range_of eligible o1 → range_of eligible o2 → NoDup (hc_ID <$> hosts) →
  BuildRecoveryPlan_ranging o1 o2 hosts states = inr plan →
  plan = before ++ id :: after → h ∈ hosts → hc_ID h = id →
  (∀ d h', d ∈ hc_DependsOn h → h' ∈ hosts → hc_ID h' = d → restorable states h' → d ∈ before) ∧
  (∀ h', h' ∈ hosts → restorable states h' → hc_ID h' ∈ after →
     (∀ d, d ∈ hc_DependsOn h' → is_eligible eligible d → d ∈ before) → wake_less h h' = true).
Proof.
  intros eligible Ho1 Ho2 Hnd Hplan. pose proof (eligible_map_keyed hosts states) as Hk. fold eligible in Hk.
  pose proof (eligible_map_lookup hosts states) as Hlook. fold eligible in Hlook.
  destruct (recovery_plan_cases o1 o2 hosts states Ho1 Ho2) as (plan' & _ & Hw & Hc & Heq).
  fold eligible in Hw, Hc, Heq. pose proof Hplan as Hplan'. rewrite Heq in Hplan. case_decide as Hlen; [|done].
  injection Hplan as ->. destruct (well_ordered_NoDup eligible Hk plan Hw) as [Hndp Hel].
  intros HP Hh Hid.
  assert (Hin : id ∈ plan) by (rewrite HP; set_solver). destruct (Hel _ Hin) as [c Hce].
  assert (Hhe : eligible !! id = Some h).
  { pose proof Hce as (Hch & Hcid & Hr)%Hlook; [|done]. assert (c = h) as ->; [|done].
    apply (NoDup_key_inj hc_ID hosts); congruence. }
  split.
  - intros d h' Hd Hh' Hid' Hr'. eapply (well_ordered_deps eligible plan); try done.
    exists h'. by apply Hlook.
  - intros h' Hh' Hr' Hafter Hdeps. destruct (Hw _ _ _ HP) as (c' & Hc' & Hcid & Hleast).
    pose proof Hc' as (Hce' & _)%elem_candidates; [|done].
    assert (c' = h) as -> by congruence. apply Hleast.
    + apply elem_candidates; [done|]. split_and!.
      * by apply Hlook.
      * intros Hb. rewrite HP, NoDup_app in Hndp. destruct Hndp as (_ & Hdis & _).
        apply (Hdis _ Hb). by right.
      * unfold pending. apply length_zero_iff_nil, elem_of_nil_inv.
        intros d [Hd1 [Hd2 Hd3]%list_elem_of_filter]%list_elem_of_filter. by apply Hd1, Hdeps.
    + intros ->. rewrite HP, NoDup_app in Hndp. destruct Hndp as (_ & _ & [Hni _]%NoDup_cons). congruence.
Qed.

#[export] Instance restorable_dec states h : Decision (restorable states h).
Proof.
  unfold restorable. destruct (states !! hc_ID h) as [st|]; [|by right; intros (? & ? & _)].
  destruct (EligibleForRestore h st) eqn:He; [by left; exists st|right; intros (? & [= <-] & ?); congruence].
Defined.

(** *** Plans whose dependencies wake first by priority *)

Section wake_order.
Context (o1 o2 : list string) (hosts : list Config) (states : gmap string HostState) (plan : list string).
Hypothesis Ho1 : range_of (eligible_map hosts states) o1.
Hypothesis Ho2 : range_of (eligible_map hosts states) o2.
Hypothesis Hnd : NoDup (hc_ID <$> hosts).
Hypothesis Hplan : BuildRecoveryPlan_ranging o1 o2 hosts states = inr plan.
Hypothesis Hdeps : ∀ h d, h ∈ hosts → d ∈ hosts → hc_ID d ∈ hc_DependsOn h → restorable states h → restorable states d →
  (hc_WakePriority d < hc_WakePriority h)%Z.

Lemma planned_restorable h : h ∈ hosts → hc_ID h ∈ plan → restorable states h.
Proof.
  intros Hh Hin. apply (plan_members_ranging o1 o2 hosts states plan) in Hin as (y & Hy & Heq & Hr); [|done..].
  by rewrite <- (NoDup_key_inj hc_ID hosts y h Hnd Hy Hh Heq).
Qed.

Lemma wake_less_priority x y : (hc_WakePriority x < hc_WakePriority y)%Z → wake_less x y = true.
Proof. intros Hlt. unfold wake_less, less_by. rewrite (proj2 (Z.eqb_neq _ _)) by lia. lia. Qed.

Lemma priority_wake_less x y : wake_less x y = true → (hc_WakePriority x ≤ hc_WakePriority y)%Z.
Proof. unfold wake_less, less_by. case_match; lia. Qed.

Lemma planned_later n : ∀ a1 before h h' a2, length a1 < n → plan = before ++ hc_ID h :: a1 ++ hc_ID h' :: a2 →
  h ∈ hosts → h' ∈ hosts → wake_less h h' = true.
Proof.
  induction n as [|n IH]; intros a1 before h h' a2 Hlen HP Hh Hh'; [lia|].
  assert (Hr' : restorable states h') by (apply planned_restorable; [done|rewrite HP; set_solver]).
  destruct (plan_position o1 o2 hosts states plan _ _ _ h Ho1 Ho2 Hnd Hplan HP Hh eq_refl) as [_ Hleast].
  assert (HP' : plan = (before ++ hc_ID h :: a1) ++ hc_ID h' :: a2) by by rewrite <- app_assoc.
  destruct (plan_position o1 o2 hosts states plan _ _ _ h' Ho1 Ho2 Hnd Hplan HP' Hh' eq_refl) as [Hbefore _].
  destruct (decide (Exists (λ d, hc_ID d ∈ hc_DependsOn h' ∧ restorable states d ∧ hc_ID d ∉ before) hosts)) as [Hex|Hno].
  - apply Exists_exists in Hex as (d & Hd & Hdd & Hrd & Hnb). pose proof (Hdeps h' d Hh' Hd Hdd Hr' Hrd) as Hlt.
    specialize (Hbefore _ d Hdd Hd eq_refl Hrd). apply elem_of_app in Hbefore as [?|Hin]; [done|].
    apply wake_less_priority. enough (hc_WakePriority h ≤ hc_WakePriority d)%Z by lia.
    apply elem_of_cons in Hin as [Heq|Hin]; [by rewrite (NoDup_key_inj hc_ID hosts d h Hnd Hd Hh Heq)|].
    apply list_elem_of_split in Hin as (b1 & b2 & ->). rewrite length_app in Hlen. simpl in Hlen.
    apply priority_wake_less, (IH b1 before h d (b2 ++ hc_ID h' :: a2)); [lia| |done|done].
    by rewrite HP, <- app_assoc.
  - apply Hleast; [done..|set_solver|]. intros id Hid [d Hd]. apply eligible_map_lookup in Hd as (Hd & <- & Hrd); [|done].
    destruct (decide (hc_ID d ∈ before)); [done|]. exfalso. apply Hno, Exists_exists. by exists d.
Qed.

Lemma planned_sorted cfgs : plan = hc_ID <$> cfgs → (∀ h, h ∈ cfgs → h ∈ hosts) → StronglySorted (not_after wake_less) cfgs.
Proof.
  intros HP Hin. enough (Hall : ∀ l1 l2, cfgs = l1 ++ l2 → StronglySorted (not_after wake_less) l2) by by apply (Hall []).
  intros l1 l2. revert l1. induction l2 as [|h l2 IH]; intros l1 Heq; constructor.
  - apply (IH (l1 ++ [h])). by rewrite <- app_assoc.
  - apply Forall_forall. intros h' Hh'. apply list_elem_of_split in Hh' as (b1 & b2 & ->).
    apply less_asym; [apply _|]. apply (planned_later (S (length (hc_ID <$> b1))) (hc_ID <$> b1) (hc_ID <$> l1) h h' (hc_ID <$> b2)).
    + lia.
    + by rewrite HP, Heq, !fmap_app, !fmap_cons, fmap_app, fmap_cons.
    + apply Hin. rewrite Heq. set_solver.
    + apply Hin. rewrite Heq. set_solver.
Qed.

(** The plan is the restorable hosts in the order of [wake_less]. *)
Lemma plan_in_wake_order : plan = hc_ID <$> SliceStable wake_less (filter (restorable states) hosts).
Proof.
  assert (Hp : plan ≡ₚ hc_ID <$> filter (restorable states) hosts).
  { apply NoDup_Permutation; [by apply (plan_NoDup o1 o2 hosts states)| |].
    - apply NoDup_fmap_2_strong; [|by apply NoDup_filter, (NoDup_fmap_1 hc_ID)].
      intros x y [_ Hx]%list_elem_of_filter [_ Hy]%list_elem_of_filter. by apply (NoDup_key_inj hc_ID hosts).
    - intros id. rewrite (plan_members_ranging o1 o2 hosts states plan id Ho1 Ho2 Hnd Hplan), list_elem_of_fmap.
      setoid_rewrite list_elem_of_filter. naive_solver. }
  apply Permutation_map_inv in Hp as (cfgs & HP & Hp). rewrite HP. f_equal.
  rewrite <- (SliceStable_sorted_id wake_less cfgs).
  - apply SliceStable_unique; [apply _| |done]. intros x y Hx Hy H1 H2.
    apply (NoDup_key_inj hc_ID hosts); [done|..|by apply (less_by_total hc_WakePriority)].
    + rewrite <- Hp in Hx. by apply list_elem_of_filter in Hx as [_ ?].
    + rewrite <- Hp in Hy. by apply list_elem_of_filter in Hy as [_ ?].
  - apply planned_sorted; [done|]. intros h Hh. rewrite <- Hp in Hh. by apply list_elem_of_filter in Hh as [_ ?].
Qed.
End wake_order.

(** C21: A recovery plan is a dependency order: it lists each restorable host
    exactly once, after every restorable host it depends on, and at each point
    takes the least host by wake priority and identifier among those whose
    dependencies were taken. *)
Theorem recovery_plan_is_dependency_order o1 o2 hosts states plan :
  let eligible := eligible_map hosts states in
  range_of eligible o1 → range_of eligible o2 → NoDup (hc_ID <$> hosts) →
  BuildRecoveryPlan_ranging o1 o2 hosts states = inr plan →
  NoDup plan ∧
  (∀ id, id ∈ plan ↔ ∃ h, h ∈ hosts ∧ hc_ID h = id ∧ restorable states h) ∧
  (∀ before id after h, plan = before ++ id :: after → h ∈ hosts → hc_ID h = id →
     (∀ d h', d ∈ hc_DependsOn h → h' ∈ hosts → hc_ID h' = d → restorable states h' → d ∈ before) ∧
     (∀ h', h' ∈ hosts → restorable states h' → hc_ID h' ∈ after →
        (∀ d, d ∈ hc_DependsOn h' → is_eligible eligible d → d ∈ before) → wake_less h h' = true)).
Proof.
  intros eligible Ho1 Ho2 Hnd Hplan. split_and!; [by apply (plan_NoDup o1 o2 hosts states)| |].
  - intros id. by apply (plan_members_ranging o1 o2 hosts states).
  - intros before id after h. by apply (plan_position o1 o2 hosts states plan).
Qed.

(** [BuildRecoveryPlan] always terminates, and it returns a plan exactly
    when the dependencies among the restorable hosts are acyclic; otherwise it
    returns the cycle error. *)
Theorem recovery_plan_exists_iff_acyclic o1 o2 hosts states :
  let eligible := eligible_map hosts states in
  range_of eligible o1 → range_of eligible o2 →
  ((∃ plan, BuildRecoveryPlan_ranging o1 o2 hosts states = inr plan) ↔ ∃ rank, ranked eligible rank) ∧
  ((∃ plan, BuildRecoveryPlan_ranging o1 o2 hosts states = inr plan) ∨
   BuildRecoveryPlan_ranging o1 o2 hosts states = inl errCycle).
Proof.
  intros eligible Ho1 Ho2. pose proof (eligible_map_keyed hosts states) as Hk. fold eligible in Hk.
  destruct (recovery_plan_cases o1 o2 hosts states Ho1 Ho2) as (plan & _ & Hw & Hc & Heq).
  fold eligible in Hw, Hc, Heq. rewrite Heq. split; [|case_decide; eauto].
  split.
  - intros [plan' Hp]. case_decide as Hlen; [|done]. clear Hp plan'.
    exists (λ id, default 0 (fst <$> list_find (eq id) plan)).
    intros id c d Hid Hd Hel. assert (Hin : id ∈ plan) by (apply (candidates_empty_all eligible); try done; by eexists).
    apply list_elem_of_split in Hin as (P1 & P2 & HP).
    pose proof (well_ordered_deps eligible plan P1 id P2 c d Hk Hw HP Hid Hd Hel) as HdP.
    destruct (well_ordered_NoDup eligible Hk plan Hw) as [Hnd _]. subst plan.
    apply list_elem_of_split in HdP as (Q1 & Q2 & ->).
    assert (Hfind : ∀ (x : string) (l1 l2 : list string), NoDup (l1 ++ x :: l2) → list_find (eq x) (l1 ++ x :: l2) = Some (length l1, x)).
    { intros x l1 l2 Hn. apply list_find_Some. split_and!; [by apply list_lookup_middle|done|].
      intros j y Hj Hlt <-. rewrite lookup_app_l in Hj by done. apply NoDup_app in Hn as (_ & Hn & _).
      apply (Hn x); [by eapply list_elem_of_lookup_2|left]. }
    rewrite (Hfind id) by done. rewrite <-app_assoc in *. simpl in *. rewrite Hfind by done.
    simpl. rewrite length_app. simpl. lia.
  - intros [rank Hr]. exists plan. rewrite decide_True; [done|]. by apply (ranked_plan_complete eligible rank).
Qed.

(** The recovery plan does not depend on the order in which Go iterates
    over its maps. *)
Theorem recovery_plan_ignores_map_order o1 o2 o1' o2' hosts states :
  let eligible := eligible_map hosts states in
  range_of eligible o1 → range_of eligible o2 → range_of eligible o1' → range_of eligible o2' →
  BuildRecoveryPlan_ranging o1 o2 hosts states = BuildRecoveryPlan_ranging o1' o2' hosts states.
Proof.
  intros eligible H1 H2 H3 H4.
  destruct (recovery_plan_cases o1 o2 hosts states H1 H2) as (plan & Hp & _ & _ & ->).
  destruct (recovery_plan_cases o1' o2' hosts states H3 H4) as (plan' & Hp' & _ & _ & ->).
  fold eligible in Hp, Hp'. rewrite Hp in Hp'. by injection Hp' as ->.
Qed.
