(* ===== verification/HostPlanExample.v ===== *)
(** * Recovery plans on a small fleet

    Three hosts, one of which depends on the other two, planned under two
    different map iteration orders; and a cyclic fleet. *)

From S2P Require Import Prelude StableSort PowerStateModel HostPlan HostPlanFacts.

Definition a_host (id : string) (priority : Z) (deps : list string) : Config :=
  mkConfig id "ssh" 10 true priority 5 30 "" "" "" 9 RestoreAlways deps.

Definition switch : Config := a_host "switch" 30 [].
Definition nas : Config := a_host "nas" 20 ["switch"; "gateway"].
Definition desktop : Config := a_host "desktop" 5 ["nas"; "switch"].

Definition fleet : list Config := [desktop; nas; switch].
Definition states : gmap string HostState :=
  list_to_map ((λ id, (id, zeroHostState)) <$> ["desktop"; "nas"; "switch"]).

Example fleet_plan : BuildRecoveryPlan fleet states = inr ["switch"; "nas"; "desktop"].
Proof. vm_compute. reflexivity. Qed.

Definition order1 : list string := map_keys (eligible_map fleet states).
Definition order2 : list string := reverse order1.

Lemma order1_ok : range_of (eligible_map fleet states) order1.
Proof. unfold range_of, order1. reflexivity. Qed.
Lemma order2_ok : range_of (eligible_map fleet states) order2.
Proof. unfold range_of, order2, order1. by rewrite reverse_Permutation. Qed.

Lemma plan_fleet_NoDup : NoDup (hc_ID <$> fleet).
Proof. refine (bool_decide_unpack (NoDup (hc_ID <$> fleet)) _). vm_compute. exact I. Qed.

Lemma recovery_plan_is_dependency_order_witness :
  let plan := ["switch"; "nas"; "desktop"] in
  NoDup plan ∧
  (∀ id, id ∈ plan ↔ ∃ h, h ∈ fleet ∧ hc_ID h = id ∧ restorable states h) ∧
  (∀ before id after h, plan = before ++ id :: after → h ∈ fleet → hc_ID h = id →
     (∀ d h', d ∈ hc_DependsOn h → h' ∈ fleet → hc_ID h' = d → restorable states h' → d ∈ before) ∧
     (∀ h', h' ∈ fleet → restorable states h' → hc_ID h' ∈ after →
        (∀ d, d ∈ hc_DependsOn h' → is_eligible (eligible_map fleet states) d → d ∈ before) →
        wake_less h h' = true)).
Proof.
  apply (recovery_plan_is_dependency_order order1 order2 fleet states).
  - exact order1_ok.
  - exact order2_ok.
  - exact plan_fleet_NoDup.
  - vm_compute. reflexivity.
Defined.

Lemma recovery_plan_exists_iff_acyclic_witness :
  ((∃ plan, BuildRecoveryPlan_ranging order1 order2 fleet states = inr plan) ↔
     ∃ rank, ranked (eligible_map fleet states) rank) ∧
  ((∃ plan, BuildRecoveryPlan_ranging order1 order2 fleet states = inr plan) ∨
   BuildRecoveryPlan_ranging order1 order2 fleet states = inl errCycle).
Proof. exact (recovery_plan_exists_iff_acyclic order1 order2 fleet states order1_ok order2_ok). Defined.

Example cyclic_fleet :
  let fleet := [a_host "a" 1 ["b"]; a_host "b" 2 ["a"]; switch] in
  BuildRecoveryPlan fleet (list_to_map ((λ id, (id, zeroHostState)) <$> ["a"; "b"; "switch"])) = inl errCycle.
Proof. vm_compute. reflexivity. Qed.

Lemma recovery_plan_ignores_map_order_witness :
  BuildRecoveryPlan_ranging order1 order2 fleet states = BuildRecoveryPlan_ranging order2 order1 fleet states.
Proof.
  exact (recovery_plan_ignores_map_order order1 order2 order2 order1 fleet states
           order1_ok order2_ok order2_ok order1_ok).
Defined.
