(* ===== verification/ConfigModel.v ===== *)
(** * The configuration ([agent/internal/config/config.go])

    The data of a decoded configuration, the defaults [Parse] fills in, and
    the conversion to the planner's view of a host
    ([toHostConfigs], agent/internal/orchestrator/controller.go).  Go's
    pointers to optional values are [option]s. *)

From S2P Require Import Prelude HostPlan.

(** ** Data *)

Record NUTNetworkConfig : Type := mkNUTNetworkConfig {
  nn_Mode : string;
  nn_ListenIPv4 : bool;
  nn_ListenIPv6 : bool;
  nn_AllowedClients : list string;
}.

Record SynologyCompatibility : Type := mkSynologyCompatibility {
  sy_Enabled : bool;
  sy_Username : string;
  sy_Password : string;
}.

Record NUTConfig : Type := mkNUTConfig {
  nc_Profile : string;
  nc_UPSName : string;
  nc_Host : string;
  nc_Port : Z;
  nc_Driver : option string;
  nc_DriverPort : option string;
  nc_PowerCycleCapability : string;
  nc_Network : NUTNetworkConfig;
  nc_Synology : SynologyCompatibility;
  nc_HostSyncSeconds : Z;
  nc_FinalDelaySeconds : Z;
}.

Record OutageConfig : Type := mkOutageConfig {
  oc_GracePeriodSeconds : Z;
  oc_MaxOnBatterySeconds : option Z;
  oc_CriticalBatteryPercent : option Z;
  oc_CriticalRuntimeSeconds : option Z;
  oc_CommunicationLossGraceSeconds : Z;
}.

Record ControllerConfig : Type := mkControllerConfig {
  cc_RequireUPSBackedPower : bool;
  cc_RequireAutoPowerOn : bool;
}.

Record RecoveryConfig : Type := mkRecoveryConfig {
  rc_Enabled : bool;
  rc_UtilityStableSeconds : Z;
  rc_BatteryChargeMin : option Z;
  rc_RuntimeMinSeconds : option Z;
  rc_RechargeTimeSeconds : option Z;
  rc_NetworkWaitSeconds : Z;
}.

Record HealthConfig : Type := mkHealthConfig {
  he_Enabled : bool;
  he_IntervalSeconds : Z;
  he_ProbationSeconds : Z;
  he_Autofix : bool;
  he_MaxRepairAttempts : Z;
}.

Record StatusConfig : Type := mkStatusConfig {
  sc_Method : string;
  sc_Port : option Z;
  sc_TimeoutMS : Z;
  sc_SuccessConsecutive : Z;
  sc_ProbeIntervalSeconds : Z;
}.

Record ShutdownConfig : Type := mkShutdownConfig {
  sd_Method : string;
  sd_Priority : Z;
  sd_TimeoutSeconds : Z;
  sd_SSHUser : option string;
  sd_SSHKeyFile : option string;
  sd_CommandID : option string;
}.

Record WakeConfig : Type := mkWakeConfig {
  wk_Enabled : bool;
  wk_MAC : option string;
  wk_Interface : option string;
  wk_Broadcast : option string;
  wk_Port : Z;
  wk_Priority : Z;
  wk_DelayAfterPreviousSeconds : Z;
  wk_MaxAttempts : Z;
}.

Record DependencyConfig : Type := mkDependencyConfig {
  dp_ID : string;
  dp_Name : string;
  dp_Address : option string;
  dp_Status : StatusConfig;
  dp_Priority : Z;
  dp_Startup : string;
  dp_Wake : WakeConfig;
}.

Record HostConfig : Type := mkHostConfig {
  h_ID : string;
  h_Name : string;
  h_Address : option string;
  h_DependsOn : list string;
  h_Status : StatusConfig;
  h_Shutdown : ShutdownConfig;
  h_Wake : WakeConfig;
  h_RestorePolicy : string;
}.

Record Config : Type := mkConfig {
  cf_ConfigVersion : Z;
  cf_Mode : string;
  cf_NUT : NUTConfig;
  cf_Outage : OutageConfig;
  cf_Controller : ControllerConfig;
  cf_Recovery : RecoveryConfig;
  cf_Health : HealthConfig;
  cf_Dependencies : list DependencyConfig;
  cf_Hosts : list HostConfig;
}.

(** [HostConfig{}], what reading a missing key of [byID] yields *)
Definition zeroStatus : StatusConfig := mkStatusConfig "" None 0 0 0.
Definition zeroShutdown : ShutdownConfig := mkShutdownConfig "" 0 0 None None None.
Definition zeroWake : WakeConfig := mkWakeConfig false None None None 0 0 0 0.
Definition zeroHost : HostConfig := mkHostConfig "" "" None [] zeroStatus zeroShutdown zeroWake "".

(** ** Defaults *)

(** [if x == 0 { x = d }] *)
Definition default_int (d x : Z) : Z := if (x =? 0)%Z then d else x.
Definition default_string (d x : string) : string := if bool_decide (x = "") then d else x.

Definition applyStatusDefaults (s : StatusConfig) : StatusConfig :=
  mkStatusConfig (sc_Method s) (sc_Port s) (default_int 1000 (sc_TimeoutMS s))
    (default_int 3 (sc_SuccessConsecutive s)) (default_int 5 (sc_ProbeIntervalSeconds s)).

Definition applyWakeDefaults (w : WakeConfig) : WakeConfig :=
  if negb (wk_Enabled w) then w
  else mkWakeConfig (wk_Enabled w) (wk_MAC w) (wk_Interface w) (wk_Broadcast w)
         (default_int 9 (wk_Port w)) (wk_Priority w)
         (default_int 30 (wk_DelayAfterPreviousSeconds w)) (default_int 5 (wk_MaxAttempts w)).

Definition applyNUTDefaults (n : NUTConfig) : NUTConfig :=
  mkNUTConfig (nc_Profile n) (nc_UPSName n) (default_string "localhost" (nc_Host n))
    (default_int 3493 (nc_Port n)) (nc_Driver n) (nc_DriverPort n)
    (default_string "POWER_CYCLE_UNVERIFIED" (nc_PowerCycleCapability n))
    (mkNUTNetworkConfig (default_string "trusted-lan" (nn_Mode (nc_Network n)))
       (nn_ListenIPv4 (nc_Network n)) (nn_ListenIPv6 (nc_Network n)) (nn_AllowedClients (nc_Network n)))
    (if sy_Enabled (nc_Synology n)
     then mkSynologyCompatibility true (default_string "monuser" (sy_Username (nc_Synology n)))
            (default_string "secret" (sy_Password (nc_Synology n)))
     else nc_Synology n)
    (default_int 60 (nc_HostSyncSeconds n)) (default_int 15 (nc_FinalDelaySeconds n)).

Definition applyHealthDefaults (h : HealthConfig) : HealthConfig :=
  mkHealthConfig (he_Enabled h) (default_int 60 (he_IntervalSeconds h))
    (default_int 60 (he_ProbationSeconds h)) (he_Autofix h) (default_int 5 (he_MaxRepairAttempts h)).

Definition applyDependencyDefaults (d : DependencyConfig) : DependencyConfig :=
  mkDependencyConfig (dp_ID d) (dp_Name d) (dp_Address d) (applyStatusDefaults (dp_Status d))
    (dp_Priority d) (dp_Startup d) (applyWakeDefaults (dp_Wake d)).

Definition applyHostDefaults (h : HostConfig) : HostConfig :=
  mkHostConfig (h_ID h) (h_Name h) (h_Address h) (h_DependsOn h) (applyStatusDefaults (h_Status h))
    (mkShutdownConfig (sd_Method (h_Shutdown h)) (sd_Priority (h_Shutdown h))
       (default_int 120 (sd_TimeoutSeconds (h_Shutdown h))) (sd_SSHUser (h_Shutdown h))
       (sd_SSHKeyFile (h_Shutdown h)) (sd_CommandID (h_Shutdown h)))
    (applyWakeDefaults (h_Wake h)) (h_RestorePolicy h).

Definition applyDefaults (c : Config) : Config :=
  mkConfig (cf_ConfigVersion c) (cf_Mode c) (applyNUTDefaults (cf_NUT c)) (cf_Outage c)
    (cf_Controller c) (cf_Recovery c) (applyHealthDefaults (cf_Health c))
    (applyDependencyDefaults <$> cf_Dependencies c) (applyHostDefaults <$> cf_Hosts c).

(** ** The planner's view of a host *)

Definition toHostConfig (h : HostConfig) : HostPlan.Config :=
  {| hc_ID := h_ID h;
     hc_ShutdownMethod := sd_Method (h_Shutdown h);
     hc_ShutdownPriority := sd_Priority (h_Shutdown h);
     hc_WakeEnabled := wk_Enabled (h_Wake h);
     hc_WakePriority := wk_Priority (h_Wake h);
     hc_WakeMaxAttempts := wk_MaxAttempts (h_Wake h);
     hc_WakeDelayAfterPreviousSeconds := wk_DelayAfterPreviousSeconds (h_Wake h);
     hc_WakeMAC := default "" (wk_MAC (h_Wake h));
     hc_WakeInterface := default "" (wk_Interface (h_Wake h));
     hc_WakeBroadcast := default "" (wk_Broadcast (h_Wake h));
     hc_WakePort := wk_Port (h_Wake h);
     hc_RestorePolicy := h_RestorePolicy h;
     hc_DependsOn := h_DependsOn h |}.

Definition toHostConfigs (hosts : list HostConfig) : list HostPlan.Config := toHostConfig <$> hosts.
