(* ===== verification/ConfigValidate.v ===== *)
(** * Configuration validation

    [Validate] (agent/internal/config/config.go) and the address rules of
    agent/internal/config/address_validation.go.  The Go code appends messages
    to one slice of problems; here each check yields the messages it appends,
    in the order of the code.  The depth-first search for dependency cycles
    keeps its marks and its stack; it recurses on fuel, one unit per unvisited
    host, and takes the order in which Go ranges over its map as an argument. *)

From Stdlib Require Import Ascii.
From S2P Require Import Prelude GoStrings GoNet HostPlan ConfigModel.

(** ** Helpers *)

(** [if bad { problems = append(problems, msg) }] *)
Definition problem (bad : bool) (msg : string) : list string := if bad then [msg] else [].

Definition oneOf (v : string) (allowed : list string) : bool := bool_decide (v ∈ allowed).

Definition nilOrEmpty (v : option string) : bool :=
  match v with None => true | Some v => bool_decide (TrimSpace v = "") end.

Definition validateOptionalPercent (path : string) (v : option Z) : list string :=
  match v with
  | Some n => problem ((n <? 1)%Z || (100 <? n)%Z) (path +:+ " must be 1..100")
  | None => []
  end.

Definition validateOptionalPositive (path : string) (v : option Z) : list string :=
  match v with
  | Some n => problem (n <? 1)%Z (path +:+ " must be > 0")
  | None => []
  end.

Definition port_invalid (p : Z) : bool := (p <? 1)%Z || (65535 <? p)%Z.

(** ** Addresses *)

Definition is_alnum (c : ascii) : bool :=
  is_digit c || is_upper c || is_upper (byte_of (nat_of_ascii c - 32)) && (97 <=? nat_of_ascii c).

(** [^[A-Za-z0-9](?:[A-Za-z0-9-]{0,61}[A-Za-z0-9])?$] *)
Definition hostnameLabelPattern (l : list ascii) : bool :=
  match l with
  | [] => false
  | c :: rest =>
      is_alnum c && (length l <=? 63) && forallb (λ c, is_alnum c || bool_decide (c = dash)) rest
      && match last rest with None => true | Some c => is_alnum c end
  end.

Definition isAllDigits (l : list ascii) : bool := negb (bool_decide (l = [])) && forallb is_digit l.

(** [strings.Split(v, ".")] *)
Fixpoint split_dots (cur : list ascii) (l : list ascii) : list (list ascii) :=
  match l with
  | [] => [cur]
  | c :: l => if bool_decide (c = dot) then cur :: split_dots [] l else split_dots (cur ++ [c]) l
  end.

(** [strings.TrimSuffix(v, ".")] *)
Definition trim_dot (l : list ascii) : list ascii :=
  if bool_decide (last l = Some dot) then take (length l - 1) l else l.

Definition validHostname (v : string) : bool :=
  let l := trim_dot (String.list_ascii_of_string v) in
  if bool_decide (l = []) || (253 <? length l) then false
  else
    let labels := split_dots [] l in
    if isAllDigits (default [] (last labels)) then false else forallb hostnameLabelPattern labels.

Definition validateAddress (path : string) (addr : option string) : list string :=
  match addr with
  | Some a =>
      if nilOrEmpty addr then []
      else let v := TrimSpace a in
           problem (bool_decide (ParseIP v = None) && negb (validHostname v))
             (path +:+ " must be an IP address or DNS hostname")
  | None => []
  end.

Definition validateIPv4 (path : string) (value : option string) : list string :=
  if nilOrEmpty value then [path +:+ " required when wake is enabled"]
  else problem (bool_decide (ParseIP (TrimSpace (default "" value)) ≫= To4 = None))
         (path +:+ " must be an IPv4 address").

(** ** Status and wake settings *)

Definition validateStatus (path : string) (s : StatusConfig) : list string :=
  problem (negb (oneOf (sc_Method s) ["auto"; "ping"; "tcp"; "arp"; "none"])) (path +:+ ".method invalid") ++
  problem (bool_decide (sc_Method s = "tcp") && match sc_Port s with None => true | Some p => port_invalid p end)
    (path +:+ " TCP method requires valid port") ++
  problem (sc_TimeoutMS s <? 100)%Z (path +:+ ".timeout_ms must be >= 100") ++
  problem (sc_SuccessConsecutive s <? 1)%Z (path +:+ ".success_consecutive must be >= 1") ++
  problem (sc_ProbeIntervalSeconds s <? 1)%Z (path +:+ ".probe_interval_seconds must be >= 1").

Definition validateWake (path : string) (w : WakeConfig) : list string :=
  problem (wk_DelayAfterPreviousSeconds w <? 0)%Z (path +:+ ".delay_after_previous_seconds must be >= 0") ++
  (if wk_Enabled w then
     problem (port_invalid (wk_Port w)) (path +:+ ".port must be 1..65535") ++
     problem (wk_MaxAttempts w <? 1)%Z (path +:+ ".max_attempts must be >= 1") ++
     (if nilOrEmpty (wk_MAC w) then [path +:+ ".mac required when enabled"]
      else problem (match ParseMAC (default "" (wk_MAC w)) with Some mac => negb (length mac =? 6) | None => true end)
             (path +:+ ".mac invalid")) ++
     validateIPv4 (path +:+ ".broadcast") (wk_Broadcast w)
   else []).

(** ** Identifiers *)

(** [strconv.Quote] on ASCII text; other bytes are kept (Go escapes those
    that are not printable). *)
Definition hex_digit (n : nat) : ascii := byte_of (if n <? 10 then 48 + n else 87 + n).
Definition quote_byte (c : ascii) : list ascii :=
  let n := nat_of_ascii c in
  let esc k := [byte_of 92; byte_of k] in
  if (n =? 34) || (n =? 92) then [byte_of 92; c]
  else if (7 <=? n) && (n <=? 13) then esc (default 0 ([97; 98; 116; 110; 118; 102; 114] !! (n - 7)))
  else if (n <? 32) || (n =? 127) then esc 120 ++ [hex_digit (n / 16); hex_digit (n mod 16)]
  else [c].
Definition Quote (s : string) : string :=
  String.string_of_list_ascii
    (byte_of 34 :: (String.list_ascii_of_string s ≫= quote_byte) ++ [byte_of 34]).

(** The map [ids] from identifiers to where they were declared. *)
Definition validateID (ids : gmap string string) (id path : string) : gmap string string * list string :=
  if bool_decide (TrimSpace id = "") then (ids, [path +:+ ".id is required"])
  else match ids !! id with
       | Some prev => (ids, ["duplicate id " +:+ Quote id +:+ " at " +:+ prev +:+ " and " +:+ path])
       | None => (<[id := path]> ids, [])
       end.

Definition validateDependency (i : nat) (ids : gmap string string) (d : DependencyConfig)
  : gmap string string * list string :=
  let path := "network_dependencies[" +:+ pretty (Z.of_nat i) +:+ "]" in
  let '(ids, ps) := validateID ids (dp_ID d) path in
  (ids,
   ps ++
   problem (negb (oneOf (dp_Startup d) ["auto-power"; "wait-only"; "wol"])) (path +:+ ".startup invalid") ++
   validateStatus (path +:+ ".status") (dp_Status d) ++
   validateWake (path +:+ ".wake") (dp_Wake d) ++
   problem (negb (bool_decide (sc_Method (dp_Status d) = "none")) && nilOrEmpty (dp_Address d))
     (path +:+ ".address is required when status checks are enabled") ++
   validateAddress (path +:+ ".address") (dp_Address d) ++
   problem (bool_decide (dp_Startup d = "wol") && negb (wk_Enabled (dp_Wake d)))
     (path +:+ " startup=wol requires wake.enabled")).

Definition validateHost (i : nat) (ids : gmap string string) (h : HostConfig)
  : gmap string string * list string :=
  let path := "hosts[" +:+ pretty (Z.of_nat i) +:+ "]" in
  let sd := h_Shutdown h in
  let '(ids, ps) := validateID ids (h_ID h) path in
  (ids,
   ps ++
   problem (bool_decide (TrimSpace (h_Name h) = "")) (path +:+ ".name is required") ++
   problem (negb (oneOf (h_RestorePolicy h) ["previous-state"; "always"; "never"])) (path +:+ ".restore_policy invalid") ++
   validateStatus (path +:+ ".status") (h_Status h) ++
   validateWake (path +:+ ".wake") (h_Wake h) ++
   problem (negb (bool_decide (sc_Method (h_Status h) = "none")) && nilOrEmpty (h_Address h))
     (path +:+ ".address is required when status checks are enabled") ++
   validateAddress (path +:+ ".address") (h_Address h) ++
   problem (negb (oneOf (sd_Method sd) ["nut"; "ssh"; "command"; "none"])) (path +:+ ".shutdown.method invalid") ++
   problem (sd_TimeoutSeconds sd <? 1)%Z (path +:+ ".shutdown.timeout_seconds must be > 0") ++
   problem (bool_decide (sd_Method sd = "ssh") && (nilOrEmpty (sd_SSHUser sd) || nilOrEmpty (sd_SSHKeyFile sd)))
     (path +:+ " ssh shutdown requires ssh_user and ssh_key_file") ++
   problem (bool_decide (sd_Method sd = "command") && nilOrEmpty (sd_CommandID sd))
     (path +:+ " command shutdown requires command_id")).

(** [for i, x := range xs]: the map [ids] goes through, the problems add up. *)
Fixpoint validate_each {A} (f : nat → gmap string string → A → gmap string string * list string)
    (i : nat) (ids : gmap string string) (xs : list A) : gmap string string * list string :=
  match xs with
  | [] => (ids, [])
  | x :: xs =>
      let '(ids, ps) := f i ids x in
      let '(ids, qs) := validate_each f (S i) ids xs in (ids, ps ++ qs)
  end.

(** [depends_on] of one host *)
Definition validateDependsOn (ids : gmap string string) (i : nat) (h : HostConfig) : list string :=
  h_DependsOn h ≫= (λ dep,
    problem (bool_decide (ids !! dep = None))
      ("hosts[" +:+ pretty (Z.of_nat i) +:+ "].depends_on references unknown id " +:+ Quote dep) ++
    problem (bool_decide (dep = h_ID h)) ("hosts[" +:+ pretty (Z.of_nat i) +:+ "] cannot depend on itself")).

(** ** Dependency cycles *)

Inductive mark : Type := Unvisited | Visiting | Visited.

#[export] Instance mark_eq_dec : EqDecision mark.
Proof. solve_decision. Defined.

(** The variables the closure [visit] captures. *)
Record dfs : Type := mkDfs { d_problems : list string; d_marks : gmap string mark; d_stack : list string }.

(** [for _, h := range hosts { graph[h.ID] = ... }] *)
Definition dependency_graph (hosts : list HostConfig) : gmap string (list string) :=
  fold_left (λ g h, <[h_ID h := h_DependsOn h]> g) hosts ∅.

Section cycles.
Context (graph : gmap string (list string)).

Definition mark_of (st : dfs) (id : string) : mark := default Unvisited (d_marks st !! id).
Definition deps_of (id : string) : list string := default [] (graph !! id).

(** [start]: the position of [id] in the stack, or 0. *)
Definition cycle_start (id : string) (stack : list string) : nat :=
  default 0 (fst <$> list_find (eq id) stack).

Definition report_cycle (id : string) (st : dfs) : dfs :=
  let cycle := drop (cycle_start id (d_stack st)) (d_stack st) ++ [id] in
  mkDfs (d_problems st ++ ["recovery dependency cycle detected: " +:+ String.concat " -> " cycle])
    (d_marks st) (d_stack st).

Definition enter (id : string) (st : dfs) : dfs :=
  mkDfs (d_problems st) (<[id := Visiting]> (d_marks st)) (d_stack st ++ [id]).

Definition leave (id : string) (st : dfs) : dfs :=
  mkDfs (d_problems st) (<[id := Visited]> (d_marks st)) (take (length (d_stack st) - 1) (d_stack st)).

(** The loop over the dependencies of a node, given how one is visited. *)
Fixpoint visit_deps (visit : string → dfs → option dfs) (deps : list string) (st : dfs) : option dfs :=
  match deps with
  | [] => Some st
  | dep :: deps =>
      match graph !! dep with
      | Some _ => st ← visit dep st; visit_deps visit deps st
      | None => visit_deps visit deps st
      end
  end.

(** The closure [visit]; [None] when the fuel runs out. *)
Fixpoint visit (fuel : nat) (id : string) (st : dfs) : option dfs :=
  match fuel with
  | O => None
  | S fuel =>
      match mark_of st id with
      | Visiting => Some (report_cycle id st)
      | Visited => Some st
      | Unvisited => leave id <$> visit_deps (visit fuel) (deps_of id) (enter id st)
      end
  end.

(** [for id := range graph { if marks[id] == unvisited { visit(id) } }] *)
Fixpoint visit_all (range_graph : list string) (st : dfs) : option dfs :=
  match range_graph with
  | [] => Some st
  | id :: ids =>
      match mark_of st id with
      | Unvisited => st ← visit (S (size graph)) id st; visit_all ids st
      | _ => visit_all ids st
      end
  end.

Definition find_cycles (range_graph : list string) : option (list string) :=
  d_problems <$> visit_all range_graph (mkDfs [] ∅ []).
End cycles.

Definition validateHostDependencyCycles (range_graph : list string) (hosts : list HostConfig) : list string :=
  default ["out of fuel"] (find_cycles (dependency_graph hosts) range_graph).

(** ** The whole configuration *)

Definition validateNUT (n : NUTConfig) : list string :=
  problem (negb (oneOf (nc_Profile n) ["local-server"; "remote-client"; "existing"])) "invalid nut.profile" ++
  problem (bool_decide (TrimSpace (nc_UPSName n) = "")) "nut.ups_name is required" ++
  problem (bool_decide (TrimSpace (nc_Host n) = "")) "nut.host is required" ++
  problem (port_invalid (nc_Port n)) "nut.port must be 1..65535" ++
  problem (negb (oneOf (nc_PowerCycleCapability n) ["POWER_CYCLE_VERIFIED"; "POWER_CYCLE_UNVERIFIED"; "MONITOR_ONLY"]))
    "invalid nut.power_cycle_capability" ++
  problem (negb (oneOf (nn_Mode (nc_Network n)) ["trusted-lan"; "restricted"])) "invalid nut.network.mode" ++
  problem (bool_decide (nn_Mode (nc_Network n) = "restricted") && bool_decide (nn_AllowedClients (nc_Network n) = []))
    "restricted NUT mode requires allowed_clients" ++
  problem (nc_HostSyncSeconds n <? 1)%Z "nut.hosts_sync_seconds must be > 0" ++
  problem (nc_FinalDelaySeconds n <? 1)%Z "nut.final_delay_seconds must be > 0".

Definition validateOutage (o : OutageConfig) : list string :=
  problem (oc_GracePeriodSeconds o <? 0)%Z "outage.grace_period_seconds must be >= 0" ++
  problem (oc_CommunicationLossGraceSeconds o <? 0)%Z "outage.communication_loss_grace_seconds must be >= 0" ++
  validateOptionalPercent "outage.critical_battery_percent" (oc_CriticalBatteryPercent o) ++
  validateOptionalPositive "outage.critical_runtime_seconds" (oc_CriticalRuntimeSeconds o) ++
  validateOptionalPositive "outage.max_on_battery_seconds" (oc_MaxOnBatterySeconds o).

Definition validateRecovery (r : RecoveryConfig) : list string :=
  if negb (rc_Enabled r) then []
  else
    problem (rc_UtilityStableSeconds r <? 1)%Z "recovery.utility_stable_seconds must be > 0" ++
    problem (rc_NetworkWaitSeconds r <? 0)%Z "recovery.network_wait_seconds must be >= 0" ++
    validateOptionalPercent "recovery.battery_charge_min" (rc_BatteryChargeMin r) ++
    validateOptionalPositive "recovery.runtime_min_seconds" (rc_RuntimeMinSeconds r) ++
    validateOptionalPositive "recovery.recharge_time_seconds" (rc_RechargeTimeSeconds r) ++
    problem (bool_decide (rc_BatteryChargeMin r = None) && bool_decide (rc_RuntimeMinSeconds r = None)
             && bool_decide (rc_RechargeTimeSeconds r = None))
      "recovery requires charge, runtime, recharge-time, or manual policy".

Definition validateHealth (h : HealthConfig) : list string :=
  problem (negb (he_Enabled h)) "health.enabled must remain true in v0.1" ++
  problem (he_IntervalSeconds h <? 10)%Z "health.interval_seconds must be >= 10" ++
  problem (he_ProbationSeconds h <? 10)%Z "health.probation_seconds must be >= 10" ++
  problem (he_MaxRepairAttempts h <? 1)%Z "health.max_repair_attempts must be >= 1".

Definition problems_ranging (range_graph : list string) (cfg : Config) : list string :=
  let '(ids1, deps) := validate_each validateDependency 0 ∅ (cf_Dependencies cfg) in
  let '(ids, hosts) := validate_each validateHost 0 ids1 (cf_Hosts cfg) in
  problem (negb (cf_ConfigVersion cfg =? 1)%Z) "config_version must be 1" ++
  problem (negb (oneOf (cf_Mode cfg) ["monitor"; "dry-run"; "armed"; "maintenance"])) "invalid mode" ++
  validateNUT (cf_NUT cfg) ++
  problem (negb (cc_RequireUPSBackedPower (cf_Controller cfg))) "controller.require_ups_backed_power must remain true" ++
  problem (negb (cc_RequireAutoPowerOn (cf_Controller cfg))) "controller.require_auto_power_on must remain true" ++
  validateOutage (cf_Outage cfg) ++
  validateRecovery (cf_Recovery cfg) ++
  validateHealth (cf_Health cfg) ++
  deps ++ hosts ++
  concat (imap (validateDependsOn ids) (cf_Hosts cfg)) ++
  validateHostDependencyCycles range_graph (cf_Hosts cfg).

(** [Validate] when Go ranges over the dependency graph in a given order;
    [None] is a nil error. *)
Definition Validate_ranging (range_graph : list string) (cfg : Config) : option error :=
  match problems_ranging range_graph cfg with
  | [] => None
  | ps => Some (Errorf (String.concat "; " ps))
  end.

Definition Validate (cfg : Config) : option error :=
  Validate_ranging (map_keys (dependency_graph (cf_Hosts cfg))) cfg.

(** [Parse], after the YAML decoding: defaults, then validation. *)
Definition Parse_decoded (cfg : Config) : result Config :=
  let cfg := applyDefaults cfg in
  match Validate cfg with Some e => inl e | None => inr cfg end.

(** What follows the first document of a YAML stream. *)
Inductive Trailing : Type := TrailingEOF | TrailingDocument | TrailingError (e : error).

(** [Parse], given what the two calls of [Decode] yield. *)
Definition Parse_stream (decoded : result Config * Trailing) : result Config :=
  match decoded with
  | (inl e, _) => inl (Wrapf "decode config: " e "")
  | (inr _, TrailingDocument) => inl (Errorf "multiple YAML documents are not allowed")
  | (inr _, TrailingError e) => inl (Wrapf "decode trailing config: " e "")
  | (inr cfg, TrailingEOF) => Parse_decoded cfg
  end.
