(* ===== verification/ConfigFacts.v ===== *)
(** * What a validated configuration promises

    The depth-first search of [validateHostDependencyCycles] terminates,
    reports a problem exactly when the dependency graph has a cycle, and so
    agrees with the planner: a configuration that passes [Validate] never runs
    into the cycle error, whatever subset of its hosts is to be restored.  It
    also has the distinct identifiers the orchestrator's guarantees rest on. *)

From Stdlib Require Import Ascii.
From S2P Require Import Prelude StableSort GoStrings GoNet PowerStateModel.
From S2P Require Import HostPlan HostPlanFacts ConfigModel ConfigValidate.

(** ** Depth-first search *)

Section search.
Context (graph : gmap string (list string)).

Abbreviation mark_of := (mark_of).
Abbreviation deps := (deps_of graph).

Definition in_graph (id : string) : Prop := is_Some (graph !! id).

(** [d] is a dependency of [id] inside the graph. *)
Definition edge (id d : string) : Prop := d ∈ deps id ∧ in_graph d.

(** A rank witnesses that the graph has no cycle. *)
Definition acyclic_by (rank : string → nat) : Prop := ∀ id d, edge id d → rank d < rank id.

(** The nodes on the stack are those being visited. *)
Definition stacked (st : dfs) : Prop := ∀ id, mark_of st id = Visiting ↔ id ∈ d_stack st.

(** The visited nodes are ranked, and closed under dependencies. *)
Definition ranked_visited (st : dfs) : Prop :=
  ∃ (rank : string → nat) (N : nat), ∀ id, mark_of st id = Visited →
    rank id < N ∧ ∀ d, edge id d → mark_of st d = Visited ∧ rank d < rank id.

Definition unvisited (st : dfs) : list string := filter (λ id, mark_of st id = Unvisited) (map_keys graph).

Lemma mark_of_enter id st x : mark_of (enter id st) x = if decide (x = id) then Visiting else mark_of st x.
Proof.
  unfold ConfigValidate.mark_of, enter. simpl. case_decide as Hx; [subst; by rewrite lookup_insert_eq|].
  by rewrite lookup_insert_ne.
Qed.

Lemma mark_of_leave id st x : mark_of (leave id st) x = if decide (x = id) then Visited else mark_of st x.
Proof.
  unfold ConfigValidate.mark_of, leave. simpl. case_decide as Hx; [subst; by rewrite lookup_insert_eq|].
  by rewrite lookup_insert_ne.
Qed.

(** What a visit leaves as it was, and what it may add. *)
Record extends (st st' : dfs) : Prop := {
  ex_stack : d_stack st' = d_stack st;
  ex_problems : ∃ new, d_problems st' = d_problems st ++ new;
  ex_visiting : ∀ x, mark_of st' x = Visiting ↔ mark_of st x = Visiting;
  ex_visited : ∀ x, mark_of st x = Visited → mark_of st' x = Visited;
}.

#[export] Instance extends_preorder : PreOrder extends.
Proof.
  split.
  - intros st. split; [done|exists []; by rewrite app_nil_r|done|done].
  - intros st1 st2 st3 [H1 [n1 H2] H3 H4] [H1' [n2 H2'] H3' H4']. split.
    + congruence.
    + exists (n1 ++ n2). by rewrite H2', H2, app_assoc.
    + intros x. by rewrite H3', H3.
    + auto.
Qed.

Lemma extends_unvisited st st' : extends st st' → length (unvisited st') ≤ length (unvisited st).
Proof.
  intros [_ _ Hvi Hvd]. unfold unvisited. induction (map_keys graph) as [|x l IH]; [done|].
  rewrite !filter_cons. specialize (Hvi x). specialize (Hvd x).
  repeat case_decide; simpl; try lia. exfalso.
  destruct (mark_of st x); [done|by rewrite (proj2 Hvi eq_refl) in *|by rewrite Hvd in *].
Qed.

(** No problem was added on the way. *)
Lemma extends_quiet st1 st2 st3 :
  extends st1 st2 → extends st2 st3 → d_problems st3 = d_problems st1 →
  d_problems st2 = d_problems st1 ∧ d_problems st3 = d_problems st2.
Proof.
  intros [_ [n1 H1] _ _] [_ [n2 H2] _ _] H. rewrite H2, H1, <-app_assoc in H.
  assert (n1 ++ n2 = []) as [-> ->]%app_eq_nil; [|by rewrite H2, H1, !app_nil_r].
  apply (app_inv_head (d_problems st1)). by rewrite H, app_nil_r.
Qed.

Lemma filter_fewer (P Q : string → Prop) `{!∀ x, Decision (P x), !∀ x, Decision (Q x)} (l : list string) id :
  (∀ x, Q x → P x) → id ∈ l → P id → ¬ Q id → S (length (filter Q l)) ≤ length (filter P l).
Proof.
  intros HQP. induction l as [|x l IH]; intros Hin HP HQ; [by apply not_elem_of_nil in Hin|].
  assert (Hle : length (filter Q l) ≤ length (filter P l)).
  { clear -HQP. induction l as [|y l IH]; [done|]. rewrite !filter_cons.
    specialize (HQP y). repeat case_decide; simpl; try lia. exfalso. auto. }
  rewrite !filter_cons. apply elem_of_cons in Hin as [<-|Hin].
  - destruct (decide (P id)), (decide (Q id)); try done. simpl. lia.
  - specialize (IH Hin HP HQ). specialize (HQP x). repeat case_decide; simpl; try lia. exfalso. auto.
Qed.

(** Entering an unvisited node of the graph uses one unit of fuel. *)
Lemma enter_unvisited id st :
  in_graph id → mark_of st id = Unvisited → S (length (unvisited (enter id st))) ≤ length (unvisited st).
Proof.
  intros [ds Hds] Hm. apply (filter_fewer (λ x, mark_of st x = Unvisited) (λ x, mark_of (enter id st) x = Unvisited) _ id).
  - intros x. rewrite mark_of_enter. by case_decide.
  - unfold map_keys. apply list_elem_of_fmap. exists (id, ds). split; [done|]. by apply elem_of_map_to_list.
  - done.
  - rewrite mark_of_enter. by case_decide.
Qed.

Lemma enter_stacked id st : mark_of st id = Unvisited → stacked st → stacked (enter id st).
Proof.
  intros Hm Hst x. rewrite mark_of_enter. simpl. rewrite elem_of_app, list_elem_of_singleton, <-(Hst x).
  case_decide; naive_solver.
Qed.

(** From entering to leaving a node. *)
Lemma enter_leave id st st' :
  mark_of st id = Unvisited → extends (enter id st) st' → extends st (leave id st').
Proof.
  intros Hm [Hs [new Hp] Hvi Hvd]. split.
  - unfold leave. simpl. rewrite Hs. simpl. rewrite length_app. simpl.
    replace (length (d_stack st) + 1 - 1) with (length (d_stack st)) by lia. apply take_app_length.
  - by exists new.
  - intros x. rewrite mark_of_leave. specialize (Hvi x). rewrite mark_of_enter in Hvi.
    case_decide; [subst; rewrite Hm; done|done].
  - intros x Hx. rewrite mark_of_leave. case_decide; [done|]. apply Hvd. rewrite mark_of_enter. by case_decide.
Qed.

(** ** One visit *)

(** [structured id st st']: visiting [id] leaves the stack and the nodes on it,
    and, when it reports nothing, visits [id] and extends the ranking; it
    reports nothing in a ranked graph. *)
Definition quiet (st st' : dfs) : Prop := d_problems st' = d_problems st.

Definition below (rank : string → nat) (st : dfs) (id : string) : Prop := ∀ x, x ∈ d_stack st → rank id < rank x.

Record structured (targets : list string) (st st' : dfs) : Prop := {
  sv_extends : extends st st';
  sv_visited : quiet st st' → ∀ id, id ∈ targets → in_graph id → mark_of st' id = Visited;
  sv_ranked : quiet st st' → ranked_visited st → ranked_visited st';
  sv_quiet : ∀ rank, acyclic_by rank → stacked st →
    (∀ id, id ∈ targets → in_graph id → below rank st id) → quiet st st';
}.

Lemma extends_stacked st st' : extends st st' → stacked st → stacked st'.
Proof. intros [Hs _ Hv _] Hst x. by rewrite Hv, Hs. Qed.

Lemma structured_nil st : structured [] st st.
Proof. split; try done. by intros _ id ?%not_elem_of_nil. Qed.

Lemma structured_cons id ids st1 st2 st3 :
  structured [id] st1 st2 → structured ids st2 st3 → structured (id :: ids) st1 st3.
Proof.
  intros [He1 Hv1 Hr1 Hq1] [He2 Hv2 Hr2 Hq2].
  pose proof (extends_quiet _ _ _ He1 He2) as Hsplit. split; [by etrans|..].
  - intros [H1 H2]%Hsplit x [->|Hin]%elem_of_cons Hg; [|by apply Hv2].
    apply (ex_visited _ _ He2). apply Hv1; [done|left|done].
  - intros [H1 H2]%Hsplit Hr. by apply Hr2, Hr1.
  - intros rank Ha Hs Hb. unfold quiet. rewrite Hq2 with (rank := rank), Hq1 with (rank := rank); try done.
    + intros x ->%list_elem_of_singleton. apply Hb. left.
    + by eapply extends_stacked.
    + intros x Hin Hg y. rewrite (ex_stack _ _ He1). apply Hb; [by right|done].
Qed.

Lemma structured_skip id ids st st' : ¬ in_graph id → structured ids st st' → structured (id :: ids) st st'.
Proof.
  intros Hng [He Hv Hr Hq]. split; [done|..|done|].
  - intros Hqq x [->|Hin]%elem_of_cons Hg; [done|by apply Hv].
  - intros rank Ha Hs Hb. apply (Hq rank); [done..|]. intros x Hin. apply Hb. by right.
Qed.

Lemma visit_deps_structured visit ds st :
  (∀ dep st', in_graph dep → length (unvisited st') ≤ length (unvisited st) →
     ∃ st'', visit dep st' = Some st'' ∧ structured [dep] st' st'') →
  ∃ st', visit_deps graph visit ds st = Some st' ∧ structured ds st st'.
Proof.
  revert st. induction ds as [|d ds IH]; intros st Hvisit; simpl; [by eauto using structured_nil|].
  destruct (graph !! d) as [x|] eqn:Hd.
  - destruct (Hvisit d st) as (st1 & -> & H1); [by eexists|done|]. simpl.
    destruct (IH st1) as (st2 & -> & H2).
    { intros dep st' Hg Hle. apply Hvisit; [done|]. pose proof (extends_unvisited _ _ (sv_extends _ _ _ H1)). lia. }
    exists st2. split; [done|]. by eapply structured_cons.
  - destruct (IH st Hvisit) as (st2 & -> & H2). exists st2. split; [done|].
    apply structured_skip; [|done]. intros [? ?]. congruence.
Qed.

(** A node whose dependencies are all ranked gets the next rank. *)
Lemma leave_ranked id st :
  mark_of st id ≠ Visited → (∀ d, edge id d → mark_of st d = Visited) → ranked_visited st → ranked_visited (leave id st).
Proof.
  intros Hm Hdeps (rank & N & Hr). exists (λ x, if decide (x = id) then N else rank x), (S N).
  intros x. rewrite mark_of_leave. case_decide as Hx.
  - subst x. intros _. split; [lia|]. intros d Hd. pose proof (Hdeps d Hd) as Hdv. rewrite mark_of_leave.
    destruct (decide (d = id)) as [->|Hne]; [done|]. split; [done|]. by apply Hr.
  - intros Hv. destruct (Hr x Hv) as [Hlt Hd]. split; [lia|]. intros d Hxd. destruct (Hd d Hxd) as [Hdv Hdlt].
    rewrite mark_of_leave. destruct (decide (d = id)) as [->|Hne]; done.
Qed.

Lemma enter_ranked id st : mark_of st id = Unvisited → ranked_visited st → ranked_visited (enter id st).
Proof.
  intros Hm (rank & N & Hr). exists rank, N. intros x. rewrite mark_of_enter. case_decide; [done|].
  intros Hv. destruct (Hr x Hv) as [Hlt Hd]. split; [done|]. intros d Hxd. destruct (Hd d Hxd) as [Hdv Hdlt].
  rewrite mark_of_enter. split; [|done]. case_decide; [congruence|done].
Qed.

Lemma enter_below rank id d st :
  acyclic_by rank → below rank st id → edge id d → below rank (enter id st) d.
Proof.
  intros Ha Hb Hd x. unfold enter. simpl. pose proof (Ha _ _ Hd).
  intros [Hx| ->%list_elem_of_singleton]%elem_of_app; [|done]. specialize (Hb x Hx). lia.
Qed.

(** The recursive case of [visit]. *)
Lemma structured_node id st st' :
  in_graph id → mark_of st id = Unvisited → structured (deps id) (enter id st) st' →
  structured [id] st (leave id st').
Proof.
  intros Hg Hm [He Hv Hr Hq]. split.
  - by apply enter_leave.
  - intros _ x ->%list_elem_of_singleton _. rewrite mark_of_leave. by case_decide.
  - intros Hqq Hrk. apply leave_ranked.
    + intros Hvd. pose proof (proj2 (ex_visiting _ _ He id)) as Hvi. rewrite mark_of_enter, decide_True in Hvi by done.
      by rewrite Hvi in Hvd.
    + intros d [Hd Hgd]. by apply Hv.
    + apply Hr; [done|]. by apply enter_ranked.
  - intros rank Ha Hs Hb. apply (Hq rank); [done|by apply enter_stacked|].
    intros d Hd Hgd. apply (enter_below rank id); [done| |done]. apply Hb; [left|done].
Qed.

Lemma visit_structured fuel id st :
  in_graph id → length (unvisited st) < fuel →
  ∃ st', visit graph fuel id st = Some st' ∧ structured [id] st st'.
Proof.
  revert id st. induction fuel as [|fuel IH]; intros id st Hg Hfuel; [lia|]. simpl.
  destruct (mark_of st id) eqn:Hm.
  - pose proof (enter_unvisited id st Hg Hm) as Hlt.
    destruct (visit_deps_structured (visit graph fuel) (deps id) (enter id st)) as (st' & -> & H').
    { intros dep st' Hgd Hle. apply IH; [done|lia]. }
    exists (leave id st'). split; [done|]. by apply structured_node.
  - exists (report_cycle id st). split; [done|].
    assert (Hnq : ¬ quiet st (report_cycle id st)).
    { unfold quiet, report_cycle. simpl. intros Hq%(f_equal length). rewrite length_app in Hq. simpl in Hq. lia. }
    split; [split; [done|by eexists|done|done]|done|done|].
    intros rank Ha Hs Hb. apply Hs in Hm. exfalso. apply (Hb id) in Hm; [lia|left|done].
  - exists st. split; [done|]. split; [done| |done|done]. by intros _ x ->%list_elem_of_singleton _.
Qed.

(** ** The whole search *)

Lemma visit_all_structured ids st :
  (∀ id, id ∈ ids → in_graph id) → stacked st → d_stack st = [] →
  ∃ st', visit_all graph ids st = Some st' ∧ structured ids st st'.
Proof.
  revert st. induction ids as [|id ids IH]; intros st Hg Hs Hst; cbn [visit_all]; [by eauto using structured_nil|].
  assert (Hstep : ∀ st1, structured [id] st st1 →
    ∃ st', visit_all graph ids st1 = Some st' ∧ structured (id :: ids) st st').
  { intros st1 H1. pose proof (sv_extends _ _ _ H1) as He. destruct (IH st1) as (st' & Hrun & H').
    - intros; apply Hg; by right.
    - by eapply extends_stacked.
    - by rewrite (ex_stack _ _ He).
    - exists st'. split; [done|]. by eapply structured_cons. }
  destruct (mark_of st id) eqn:Hm.
  - destruct (visit_structured (S (size graph)) id st) as (st1 & -> & H1); [apply Hg; left| |by apply Hstep].
    unfold unvisited. pose proof (length_filter (λ x, mark_of st x = Unvisited) (map_keys graph)).
    pose proof (length_map_keys graph). lia.
  - apply Hs in Hm. rewrite Hst in Hm. by apply not_elem_of_nil in Hm.
  - apply Hstep. split; [done| |done|done]. by intros _ x ->%list_elem_of_singleton _.
Qed.

Lemma find_cycles_iff ids :
  (∀ id, id ∈ ids ↔ in_graph id) →
  ∃ ps, find_cycles graph ids = Some ps ∧ (ps = [] ↔ ∃ rank, acyclic_by rank).
Proof.
  intros Hids. unfold find_cycles.
  destruct (visit_all_structured ids (mkDfs [] ∅ [])) as (st & -> & [He Hv Hr Hq]).
  - intros id. apply Hids.
  - intros id. unfold ConfigValidate.mark_of. simpl. rewrite lookup_empty. simpl.
    split; [done|by intros ?%not_elem_of_nil].
  - done.
  - simpl. exists (d_problems st). split; [done|]. split.
    + intros Hquiet. destruct (Hr Hquiet) as (rank & N & Hrank).
      { exists (λ _, 0), 0. intros id. unfold ConfigValidate.mark_of. simpl. by rewrite lookup_empty. }
      exists rank. intros id d [Hd Hg]. apply (Hrank id); [|done]. apply Hv; [done| |].
      * apply Hids. unfold ConfigValidate.deps_of, in_graph in *. destruct (graph !! id); [by eexists|by apply not_elem_of_nil in Hd].
      * unfold ConfigValidate.deps_of, in_graph in *. destruct (graph !! id); [by eexists|by apply not_elem_of_nil in Hd].
    + intros [rank Ha]. apply (Hq rank); [done| |].
      * intros id. unfold ConfigValidate.mark_of. simpl. rewrite lookup_empty. split; [done|by intros ?%not_elem_of_nil].
      * by intros id _ _ x ?%not_elem_of_nil.
Qed.
End search.

(** C34: The search for dependency cycles terminates within its fuel and
    reports a problem exactly when the hosts' dependency graph has a cycle,
    in whatever order Go ranges over the graph. *)
Theorem cycle_search_correct order hosts :
  let graph := dependency_graph hosts in
  range_of graph order →
  find_cycles graph order = Some (validateHostDependencyCycles order hosts) ∧
  (validateHostDependencyCycles order hosts = [] ↔ ∃ rank, acyclic_by graph rank).
Proof.
  intros graph Ho. destruct (find_cycles_iff graph order) as (ps & Hps & Hiff).
  - intros id. by apply elem_range_of.
  - unfold validateHostDependencyCycles. fold graph. by rewrite Hps.
Qed.

(** ** What the checks mean *)

Lemma problem_nil b msg : problem b msg = [] ↔ b = false.
Proof. unfold problem. by destruct b. Qed.

Lemma app_nil_iff {A} (l k : list A) : l ++ k = [] ↔ l = [] ∧ k = [].
Proof. split; [apply app_eq_nil|by intros [-> ->]]. Qed.

Lemma oneOf_false v l : negb (oneOf v l) = false ↔ v ∈ l.
Proof. unfold oneOf. rewrite negb_false_iff. apply bool_decide_eq_true. Qed.

Lemma port_invalid_false p : port_invalid p = false ↔ (1 ≤ p ≤ 65535)%Z.
Proof. unfold port_invalid. rewrite orb_false_iff. lia. Qed.

Lemma ltb_false x y : (x <? y)%Z = false ↔ (y ≤ x)%Z.
Proof. lia. Qed.

Lemma bool_decide_false (P : Prop) `{Decision P} : bool_decide P = false ↔ ¬ P.
Proof. apply bool_decide_eq_false. Qed.

(** The text is present and not blank. *)
Definition present (v : option string) : Prop := ∃ s, v = Some s ∧ TrimSpace s ≠ "".

Lemma nilOrEmpty_false v : nilOrEmpty v = false ↔ present v.
Proof.
  unfold nilOrEmpty, present. destruct v as [s|]; [rewrite bool_decide_false|]; naive_solver.
Qed.

Definition percent_ok (v : option Z) : Prop := ∀ n, v = Some n → (1 ≤ n ≤ 100)%Z.
Definition positive_ok (v : option Z) : Prop := ∀ n, v = Some n → (1 ≤ n)%Z.

Lemma validateOptionalPercent_nil path v : validateOptionalPercent path v = [] ↔ percent_ok v.
Proof.
  unfold validateOptionalPercent, percent_ok. destruct v as [n|]; [|naive_solver].
  rewrite problem_nil, orb_false_iff. split; [intros ? ? [= <-]; lia|intros H; specialize (H n eq_refl); lia].
Qed.

Lemma validateOptionalPositive_nil path v : validateOptionalPositive path v = [] ↔ positive_ok v.
Proof.
  unfold validateOptionalPositive, positive_ok. destruct v as [n|]; [|naive_solver].
  rewrite problem_nil. split; [intros ? ? [= <-]; lia|intros H; specialize (H n eq_refl); lia].
Qed.

Definition address_ok (addr : option string) : Prop :=
  ∀ s, addr = Some s → TrimSpace s ≠ "" → is_Some (ParseIP (TrimSpace s)) ∨ validHostname (TrimSpace s) = true.

Lemma validateAddress_nil path addr : validateAddress path addr = [] ↔ address_ok addr.
Proof.
  unfold validateAddress, address_ok, nilOrEmpty. destruct addr as [s|]; [|naive_solver].
  case_bool_decide as Hs; [naive_solver|]. rewrite problem_nil, andb_false_iff, negb_false_iff, bool_decide_false.
  split.
  - intros [H|H] ? [= <-] _; [left; by apply not_eq_None_Some|by right].
  - intros H. destruct (H s eq_refl Hs) as [Hp|Hp]; [left; by apply not_eq_None_Some|by right].
Qed.

(** A broadcast address to which a magic packet can be sent. *)
Definition broadcast_ok (v : option string) : Prop :=
  ∃ s ip o, v = Some s ∧ TrimSpace s ≠ "" ∧ ParseIP (TrimSpace s) = Some ip ∧ To4 ip = Some o.

Lemma validateIPv4_nil path v : validateIPv4 path v = [] ↔ broadcast_ok v.
Proof.
  unfold validateIPv4, broadcast_ok. destruct (nilOrEmpty v) eqn:Hv.
  - split; [done|]. intros (s & ip & o & -> & Hs & _). simpl in Hv. by apply bool_decide_eq_true in Hv.
  - apply nilOrEmpty_false in Hv as (s & -> & Hs). simpl. rewrite problem_nil.
    destruct (ParseIP (TrimSpace s)) as [ip|] eqn:Hip; simpl.
    + destruct (To4 ip) as [o|] eqn:H4; simpl; split; try done.
      * by exists s, ip, o.
      * intros (s' & ip' & o' & ? & ? & ? & ?). congruence.
    + split; [done|]. intros (s' & ip' & o' & ? & ? & ? & ?). congruence.
Qed.

Record status_ok (s : StatusConfig) : Prop := {
  so_method : sc_Method s ∈ ["auto"; "ping"; "tcp"; "arp"; "none"];
  so_port : sc_Method s = "tcp" → ∃ p, sc_Port s = Some p ∧ (1 ≤ p ≤ 65535)%Z;
  so_timeout : (100 ≤ sc_TimeoutMS s)%Z;
  so_consecutive : (1 ≤ sc_SuccessConsecutive s)%Z;
  so_interval : (1 ≤ sc_ProbeIntervalSeconds s)%Z;
}.

Lemma validateStatus_nil path s : validateStatus path s = [] ↔ status_ok s.
Proof.
  unfold validateStatus. rewrite !app_nil_iff, !problem_nil, oneOf_false, andb_false_iff, !ltb_false, bool_decide_false.
  assert (Hp : (match sc_Port s with None => true | Some p => port_invalid p end = false) ↔
               ∃ p, sc_Port s = Some p ∧ (1 ≤ p ≤ 65535)%Z).
  { destruct (sc_Port s) as [p|]; [rewrite port_invalid_false|]; naive_solver. }
  rewrite Hp. split.
  - intros (? & Hor & ? & ? & ?). split; try done. intros Ht. by destruct Hor.
  - intros [? Ht ? ? ?]. split_and!; try done; try lia. destruct (decide (sc_Method s = "tcp")); auto.
Qed.

Record wake_ok (w : WakeConfig) : Prop := {
  wo_delay : (0 ≤ wk_DelayAfterPreviousSeconds w)%Z;
  wo_port : wk_Enabled w = true → (1 ≤ wk_Port w ≤ 65535)%Z;
  wo_attempts : wk_Enabled w = true → (1 ≤ wk_MaxAttempts w)%Z;
  wo_mac : wk_Enabled w = true → ∃ s mac, wk_MAC w = Some s ∧ TrimSpace s ≠ "" ∧ ParseMAC s = Some mac ∧ length mac = 6;
  wo_broadcast : wk_Enabled w = true → broadcast_ok (wk_Broadcast w);
}.

Lemma mac_nil path v :
  (if nilOrEmpty v then [path +:+ ".mac required when enabled"]
   else problem (match ParseMAC (default "" v) with Some mac => negb (length mac =? 6) | None => true end)
          (path +:+ ".mac invalid")) = [] ↔
  ∃ s mac, v = Some s ∧ TrimSpace s ≠ "" ∧ ParseMAC s = Some mac ∧ length mac = 6.
Proof.
  destruct (nilOrEmpty v) eqn:Hv.
  - split; [done|]. intros (s & mac & -> & Hs & _). simpl in Hv. by apply bool_decide_eq_true in Hv.
  - apply nilOrEmpty_false in Hv as (s & -> & Hs). simpl. rewrite problem_nil.
    destruct (ParseMAC s) as [mac|] eqn:Hm; [rewrite negb_false_iff, Nat.eqb_eq|]; split; try done.
    + intros Hl. by exists s, mac.
    + intros (s' & mac' & ? & ? & ? & ?). congruence.
    + intros (s' & mac' & ? & ? & ? & ?). congruence.
Qed.

Lemma validateWake_nil path w : validateWake path w = [] ↔ wake_ok w.
Proof.
  unfold validateWake. rewrite app_nil_iff, problem_nil, ltb_false. destruct (wk_Enabled w) eqn:He.
  - rewrite !app_nil_iff, !problem_nil, port_invalid_false, ltb_false, mac_nil, validateIPv4_nil. split.
    + intros (? & ? & ? & ? & ?). by split.
    + intros [? ? ? ? ?]. naive_solver.
  - split; [intros [? _]; split; [done|congruence..]|by intros []].
Qed.

(** ** The configuration as a whole *)

Record nut_ok (n : NUTConfig) : Prop := {
  no_profile : nc_Profile n ∈ ["local-server"; "remote-client"; "existing"];
  no_ups : TrimSpace (nc_UPSName n) ≠ "";
  no_host : TrimSpace (nc_Host n) ≠ "";
  no_port : (1 ≤ nc_Port n ≤ 65535)%Z;
  no_capability : nc_PowerCycleCapability n ∈ ["POWER_CYCLE_VERIFIED"; "POWER_CYCLE_UNVERIFIED"; "MONITOR_ONLY"];
  no_mode : nn_Mode (nc_Network n) ∈ ["trusted-lan"; "restricted"];
  no_clients : nn_Mode (nc_Network n) = "restricted" → nn_AllowedClients (nc_Network n) ≠ [];
  no_sync : (1 ≤ nc_HostSyncSeconds n)%Z;
  no_delay : (1 ≤ nc_FinalDelaySeconds n)%Z;
}.

Lemma validateNUT_nil n : validateNUT n = [] ↔ nut_ok n.
Proof.
  unfold validateNUT.
  rewrite !app_nil_iff, !problem_nil, !oneOf_false, !bool_decide_false, port_invalid_false, !ltb_false.
  rewrite andb_false_iff, !bool_decide_false. split.
  - intros (? & ? & ? & ? & ? & ? & Hc & ? & ?). split; try done. intros Hm. by destruct Hc.
  - intros [? ? ? ? ? ? Hc ? ?]. split_and!; try done; try lia.
    destruct (decide (nn_Mode (nc_Network n) = "restricted")); [right; by apply Hc|by left].
Qed.

Record outage_ok (o : OutageConfig) : Prop := {
  oo_grace : (0 ≤ oc_GracePeriodSeconds o)%Z;
  oo_loss : (0 ≤ oc_CommunicationLossGraceSeconds o)%Z;
  oo_battery : percent_ok (oc_CriticalBatteryPercent o);
  oo_runtime : positive_ok (oc_CriticalRuntimeSeconds o);
  oo_limit : positive_ok (oc_MaxOnBatterySeconds o);
}.

Lemma validateOutage_nil o : validateOutage o = [] ↔ outage_ok o.
Proof.
  unfold validateOutage.
  rewrite !app_nil_iff, !problem_nil, !ltb_false, validateOptionalPercent_nil, !validateOptionalPositive_nil.
  split; [intros (? & ? & ? & ? & ?); by split|by intros []].
Qed.

Record recovery_ok (r : RecoveryConfig) : Prop := {
  ro_stable : (1 ≤ rc_UtilityStableSeconds r)%Z;
  ro_wait : (0 ≤ rc_NetworkWaitSeconds r)%Z;
  ro_charge : percent_ok (rc_BatteryChargeMin r);
  ro_runtime : positive_ok (rc_RuntimeMinSeconds r);
  ro_time : positive_ok (rc_RechargeTimeSeconds r);
  ro_gate : is_Some (rc_BatteryChargeMin r) ∨ is_Some (rc_RuntimeMinSeconds r) ∨ is_Some (rc_RechargeTimeSeconds r);
}.

Lemma validateRecovery_nil r : validateRecovery r = [] ↔ (rc_Enabled r = true → recovery_ok r).
Proof.
  unfold validateRecovery. destruct (rc_Enabled r); simpl; [|naive_solver].
  rewrite !app_nil_iff, !problem_nil, !ltb_false, validateOptionalPercent_nil, !validateOptionalPositive_nil.
  rewrite !andb_false_iff, !bool_decide_false, !not_eq_None_Some. split.
  - intros (? & ? & ? & ? & ? & Hg) _. split; try done. destruct Hg as [[?|?]|?]; auto.
  - intros Hr. destruct (Hr eq_refl) as [? ? ? ? ? Hg]. split_and!; try done; try lia. destruct Hg as [?|[?|?]]; auto.
Qed.

Record health_ok (h : HealthConfig) : Prop := {
  ho_enabled : he_Enabled h = true;
  ho_interval : (10 ≤ he_IntervalSeconds h)%Z;
  ho_probation : (10 ≤ he_ProbationSeconds h)%Z;
  ho_attempts : (1 ≤ he_MaxRepairAttempts h)%Z;
}.

Lemma validateHealth_nil h : validateHealth h = [] ↔ health_ok h.
Proof.
  unfold validateHealth. rewrite !app_nil_iff, !problem_nil, negb_false_iff, !ltb_false.
  split; [intros (? & ? & ? & ?); by split|by intros []].
Qed.

Record dependency_ok (d : DependencyConfig) : Prop := {
  do_id : TrimSpace (dp_ID d) ≠ "";
  do_startup : dp_Startup d ∈ ["auto-power"; "wait-only"; "wol"];
  do_status : status_ok (dp_Status d);
  do_wake : wake_ok (dp_Wake d);
  do_address : sc_Method (dp_Status d) ≠ "none" → present (dp_Address d);
  do_address_ok : address_ok (dp_Address d);
  do_wol : dp_Startup d = "wol" → wk_Enabled (dp_Wake d) = true;
}.

Record host_ok (h : HostConfig) : Prop := {
  hk_id : TrimSpace (h_ID h) ≠ "";
  hk_name : TrimSpace (h_Name h) ≠ "";
  hk_policy : h_RestorePolicy h ∈ ["previous-state"; "always"; "never"];
  hk_status : status_ok (h_Status h);
  hk_wake : wake_ok (h_Wake h);
  hk_address : sc_Method (h_Status h) ≠ "none" → present (h_Address h);
  hk_address_ok : address_ok (h_Address h);
  hk_method : sd_Method (h_Shutdown h) ∈ ["nut"; "ssh"; "command"; "none"];
  hk_timeout : (1 ≤ sd_TimeoutSeconds (h_Shutdown h))%Z;
  hk_ssh : sd_Method (h_Shutdown h) = "ssh" → present (sd_SSHUser (h_Shutdown h)) ∧ present (sd_SSHKeyFile (h_Shutdown h));
  hk_command : sd_Method (h_Shutdown h) = "command" → present (sd_CommandID (h_Shutdown h));
}.

(** [b] and not [c] is what a problem reports: the rule is "if b then c". *)
Lemma rule_nil b c : b && c = false ↔ (b = true → c = false).
Proof. destruct b, c; naive_solver. Qed.

Lemma method_rule s addr :
  negb (bool_decide (s = "none")) && nilOrEmpty addr = false ↔ (s ≠ "none" → present addr).
Proof. rewrite rule_nil, negb_true_iff, bool_decide_false, nilOrEmpty_false. done. Qed.

(** What one declaration does to the map of identifiers. *)
Definition declares (ids : gmap string string) (id : string) (ids' : gmap string string) : Prop :=
  TrimSpace id ≠ "" ∧ ids !! id = None ∧ ∃ path, ids' = <[id := path]> ids.

Lemma validateID_nil ids id path ids' ps :
  validateID ids id path = (ids', ps) →
  (ps = [] → declares ids id ids') ∧ (TrimSpace id ≠ "" → ids !! id = None → ps = []).
Proof.
  unfold validateID, declares. case_bool_decide; [intros [= <- <-]; naive_solver|].
  destruct (ids !! id) eqn:Hid; intros [= <- <-]; naive_solver.
Qed.

Lemma validateDependency_nil i ids d ids' ps :
  validateDependency i ids d = (ids', ps) →
  (ps = [] → declares ids (dp_ID d) ids' ∧ dependency_ok d) ∧ (dependency_ok d → ids !! dp_ID d = None → ps = []).
Proof.
  unfold validateDependency. destruct (validateID _ _ _) as [ids1 ps1] eqn:Hid. intros [= -> <-].
  destruct (validateID_nil _ _ _ _ _ Hid) as [H1 H2].
  rewrite !app_nil_iff, !problem_nil, oneOf_false, validateStatus_nil, validateWake_nil, validateAddress_nil, method_rule.
  rewrite rule_nil, bool_decide_eq_true, negb_false_iff. split.
  - intros (Hp & ? & ? & ? & ? & ? & ?). pose proof (H1 Hp) as Hd. split; [done|]. split; try done. apply Hd.
  - intros [? ? ? ? ? ? ?] Hn. split_and!; auto.
Qed.

Lemma validateHost_nil i ids h ids' ps :
  validateHost i ids h = (ids', ps) →
  (ps = [] → declares ids (h_ID h) ids' ∧ host_ok h) ∧ (host_ok h → ids !! h_ID h = None → ps = []).
Proof.
  unfold validateHost. destruct (validateID _ _ _) as [ids1 ps1] eqn:Hid. intros [= -> <-].
  destruct (validateID_nil _ _ _ _ _ Hid) as [H1 H2].
  rewrite !app_nil_iff, !problem_nil, !oneOf_false, validateStatus_nil, validateWake_nil, validateAddress_nil, method_rule.
  rewrite !rule_nil, !bool_decide_eq_true, orb_false_iff, !nilOrEmpty_false, bool_decide_false, ltb_false. split.
  - intros (Hp & ? & ? & ? & ? & ? & ? & ? & ? & ? & ?). pose proof (H1 Hp) as Hd. split; [done|]. split; try done. apply Hd.
  - intros [] Hn. split_and!; auto.
Qed.

(** ** Identifiers across the whole configuration *)

Section declarations.
Context {A : Type} (f : nat → gmap string string → A → gmap string string * list string).
Context (key : A → string) (good : A → Prop).
Hypothesis Hf : ∀ i ids x ids' ps, f i ids x = (ids', ps) →
  (ps = [] → declares ids (key x) ids' ∧ good x) ∧ (good x → ids !! key x = None → ps = []).

(** [ids] has exactly the declared identifiers [l]. *)
Definition declared (ids : gmap string string) (l : list string) : Prop := ∀ id, is_Some (ids !! id) ↔ id ∈ l.

Lemma declared_insert ids l id path : declared ids l → declared (<[id := path]> ids) (l ++ [id]).
Proof.
  intros Hd x. rewrite elem_of_app, list_elem_of_singleton, <-(Hd x).
  destruct (decide (x = id)) as [->|Hne]; [rewrite lookup_insert_eq|rewrite lookup_insert_ne by done]; naive_solver.
Qed.

Lemma declares_declared ids l id ids' : declared ids l → declares ids id ids' → declared ids' (l ++ [id]).
Proof. intros Hd (_ & _ & path & ->). by apply declared_insert. Qed.

Lemma validate_each_nil i ids xs ids' ps l :
  NoDup l → declared ids l → validate_each f i ids xs = (ids', ps) →
  (ps = [] → Forall good xs ∧ NoDup (l ++ (key <$> xs)) ∧ declared ids' (l ++ (key <$> xs))) ∧
  (Forall good xs → NoDup (l ++ (key <$> xs)) → ps = []).
Proof.
  revert i ids ids' ps l. induction xs as [|x xs IH]; intros i ids ids' ps l Hnd Hd; cbn [validate_each].
  { intros [= <- <-]. rewrite fmap_nil, app_nil_r. by split. }
  destruct (f i ids x) as [ids1 p1] eqn:Hx. destruct (validate_each f (S i) ids1 xs) as [ids2 p2] eqn:Hxs.
  intros [= <- <-]. destruct (Hf _ _ _ _ _ Hx) as [H1 H2]. rewrite app_nil_iff.
  assert (Hl : l ++ key x :: (key <$> xs) = (l ++ [key x]) ++ (key <$> xs)) by by rewrite <-app_assoc.
  assert (Hfresh : ids !! key x = None ↔ key x ∉ l).
  { rewrite <-(Hd (key x)). by rewrite <-eq_None_not_Some. }
  rewrite Forall_cons, fmap_cons, Hl. split.
  - intros [Hp1 Hp2]. destruct (H1 Hp1) as [Hdx Hgx]. destruct (IH (S i) ids1 ids2 p2 (l ++ [key x])) as [IH1 _]; try done.
    + rewrite NoDup_app. split_and!; [done| |apply NoDup_singleton].
      intros y Hy ->%list_elem_of_singleton. by apply Hfresh in Hy; [|apply Hdx].
    + by eapply declares_declared.
    + destruct (IH1 Hp2) as (? & ? & ?). split; [by split|by split].
  - intros [Hgx Hgxs] Hall. pose proof Hall as [Hnd1 _]%NoDup_app.
    assert (Hp1 : p1 = []).
    { apply H2; [done|]. apply Hfresh. intros Hin. apply NoDup_app in Hnd1 as (_ & Hdis & _). apply (Hdis _ Hin). left. }
    split; [done|]. destruct (H1 Hp1) as [Hdx _]. destruct (IH (S i) ids1 ids2 p2 (l ++ [key x])) as [_ IH2]; try done.
    + by eapply declares_declared.
    + by apply IH2.
Qed.
End declarations.

(** [depends_on] names a declared identifier other than the host's own. *)
Definition depends_ok (l : list string) (h : HostConfig) : Prop := ∀ d, d ∈ h_DependsOn h → d ∈ l ∧ d ≠ h_ID h.

Lemma validateDependsOn_nil ids l i h :
  declared ids l → validateDependsOn ids i h = [] ↔ depends_ok l h.
Proof.
  intros Hd. unfold validateDependsOn, depends_ok. rewrite <-Forall_forall.
  induction (h_DependsOn h) as [|d ds IH]; simpl.
  - split; [constructor|done].
  - rewrite Forall_cons, <-IH, !app_nil_iff, !problem_nil, !bool_decide_false.
    rewrite not_eq_None_Some, (Hd d). tauto.
Qed.

Lemma all_depend_nil ids l i hs :
  declared ids l → concat (imap (λ j, validateDependsOn ids (i + j)) hs) = [] ↔ Forall (depends_ok l) hs.
Proof.
  intros Hd. revert i. induction hs as [|h hs IH]; intros i; simpl; [split; [constructor|done]|].
  rewrite Forall_cons, app_nil_iff, (validateDependsOn_nil ids l) by done.
  rewrite <-(IH (S i)). apply and_iff_compat_l.
  replace (imap (λ j, validateDependsOn ids (S i + j)) hs)
    with (imap ((λ j, validateDependsOn ids (i + j)) ∘ S) hs); [done|].
  apply imap_ext. intros j h' _. simpl. by rewrite Nat.add_succ_r.
Qed.

(** ** Acyclic fleets *)

(** No host depends on itself through other hosts. *)
Definition acyclic_hosts (hosts : list HostConfig) (rank : string → nat) : Prop :=
  ∀ h h', h ∈ hosts → h' ∈ hosts → h_ID h' ∈ h_DependsOn h → rank (h_ID h') < rank (h_ID h).

Lemma dependency_graph_by_id hosts : dependency_graph hosts = h_DependsOn <$> by_id h_ID hosts.
Proof.
  unfold dependency_graph, by_id. rewrite <-(fmap_empty h_DependsOn). generalize (∅ : gmap string HostConfig).
  induction hosts as [|h hosts IH]; intros m; simpl; [done|]. by rewrite <-fmap_insert, IH.
Qed.

Lemma dependency_graph_lookup hosts id deps :
  NoDup (h_ID <$> hosts) →
  dependency_graph hosts !! id = Some deps ↔ ∃ h, h ∈ hosts ∧ h_ID h = id ∧ h_DependsOn h = deps.
Proof.
  intros Hnd. rewrite dependency_graph_by_id, lookup_fmap, fmap_Some. split.
  - intros (h & Hh & ->). exists h. split_and!; [|..|done].
    + destruct (decide (Exists (λ h', h_ID h' = id) hosts)) as [He|Hn].
      * apply Exists_exists in He as (h' & Hin & <-). rewrite by_id_lookup in Hh by done. by simplify_eq.
      * rewrite by_id_None in Hh; [done..|]. intros h' Hin Hid. apply Hn, Exists_exists. by exists h'.
    + destruct (decide (Exists (λ h', h_ID h' = id) hosts)) as [He|Hn].
      * apply Exists_exists in He as (h' & Hin & <-). rewrite by_id_lookup in Hh by done. by simplify_eq.
      * rewrite by_id_None in Hh; [done..|]. intros h' Hin Hid. apply Hn, Exists_exists. by exists h'.
  - intros (h & Hin & <- & <-). exists h. split; [|done]. by apply by_id_lookup.
Qed.

Lemma acyclic_graph_hosts hosts rank :
  NoDup (h_ID <$> hosts) → acyclic_by (dependency_graph hosts) rank ↔ acyclic_hosts hosts rank.
Proof.
  intros Hnd. unfold acyclic_by, acyclic_hosts, edge, deps_of, in_graph. split.
  - intros Ha h h' Hin Hin' Hd. apply Ha.
    rewrite (proj2 (dependency_graph_lookup hosts (h_ID h) _ Hnd)) by eauto. split; [done|].
    rewrite (proj2 (dependency_graph_lookup hosts (h_ID h') _ Hnd)) by eauto. by eexists.
  - intros Ha id d [Hd [ds Hg]]. destruct (dependency_graph hosts !! id) as [ds'|] eqn:Hid; [|by apply not_elem_of_nil in Hd].
    apply dependency_graph_lookup in Hid as (h & Hin & <- & <-); [|done].
    apply dependency_graph_lookup in Hg as (h' & Hin' & <- & _); [|done]. by apply Ha.
Qed.

(** ** A valid configuration *)

Definition all_ids (cfg : ConfigModel.Config) : list string :=
  (dp_ID <$> cf_Dependencies cfg) ++ (h_ID <$> cf_Hosts cfg).

Record config_ok (cfg : ConfigModel.Config) : Prop := {
  ok_version : cf_ConfigVersion cfg = 1%Z;
  ok_mode : cf_Mode cfg ∈ ["monitor"; "dry-run"; "armed"; "maintenance"];
  ok_nut : nut_ok (cf_NUT cfg);
  ok_backed : cc_RequireUPSBackedPower (cf_Controller cfg) = true;
  ok_power_on : cc_RequireAutoPowerOn (cf_Controller cfg) = true;
  ok_outage : outage_ok (cf_Outage cfg);
  ok_recovery : rc_Enabled (cf_Recovery cfg) = true → recovery_ok (cf_Recovery cfg);
  ok_health : health_ok (cf_Health cfg);
  ok_dependencies : Forall dependency_ok (cf_Dependencies cfg);
  ok_hosts : Forall host_ok (cf_Hosts cfg);
  ok_ids : NoDup (all_ids cfg);
  ok_depends : Forall (depends_ok (all_ids cfg)) (cf_Hosts cfg);
  ok_acyclic : ∃ rank, acyclic_hosts (cf_Hosts cfg) rank;
}.

Lemma ids_hosts_NoDup cfg : NoDup (all_ids cfg) → NoDup (h_ID <$> cf_Hosts cfg).
Proof. by intros (_ & _ & H)%NoDup_app. Qed.

Lemma cycles_nil order hosts :
  range_of (dependency_graph hosts) order → NoDup (h_ID <$> hosts) →
  validateHostDependencyCycles order hosts = [] ↔ ∃ rank, acyclic_hosts hosts rank.
Proof.
  intros Ho Hnd. destruct (find_cycles_iff (dependency_graph hosts) order) as (ps & Hps & Hiff).
  { intros id. by apply elem_range_of. }
  unfold validateHostDependencyCycles. rewrite Hps. simpl. rewrite Hiff.
  apply exist_proper. intros rank. by apply acyclic_graph_hosts.
Qed.

Lemma declarations_nil cfg ids1 deps ids hosts :
  validate_each validateDependency 0 ∅ (cf_Dependencies cfg) = (ids1, deps) →
  validate_each validateHost 0 ids1 (cf_Hosts cfg) = (ids, hosts) →
  (deps = [] ∧ hosts = [] ↔
     Forall dependency_ok (cf_Dependencies cfg) ∧ Forall host_ok (cf_Hosts cfg) ∧ NoDup (all_ids cfg)) ∧
  (deps = [] → hosts = [] → declared ids (all_ids cfg)).
Proof.
  intros Hdeps Hhosts.
  destruct (validate_each_nil _ dp_ID dependency_ok validateDependency_nil 0 ∅ (cf_Dependencies cfg) ids1 deps [] (NoDup_nil_2)) as [D1 D2];
    [|done|].
  { intros id. rewrite lookup_empty. split; [by intros []|by intros ?%not_elem_of_nil]. }
  simpl in D1, D2.
  assert (Hh : deps = [] → (hosts = [] → Forall host_ok (cf_Hosts cfg) ∧ NoDup (all_ids cfg) ∧ declared ids (all_ids cfg)) ∧
                           (Forall host_ok (cf_Hosts cfg) → NoDup (all_ids cfg) → hosts = [])).
  { intros Hd. destruct (D1 Hd) as (_ & Hnd & Hdec). by eapply (validate_each_nil _ h_ID host_ok validateHost_nil). }
  split.
  - split.
    + intros [Hd Hn]. destruct (D1 Hd) as (? & _ & _). destruct (Hh Hd) as [H1 _]. by destruct (H1 Hn) as (? & ? & _).
    + intros (Hd & Hk & Hnd). assert (deps = []) as Hdn by (apply D2; [done|]; by apply NoDup_app in Hnd as [? _]).
      split; [done|]. by apply Hh.
  - intros Hd Hn. by apply Hh.
Qed.

Lemma problems_nil order cfg :
  range_of (dependency_graph (cf_Hosts cfg)) order → problems_ranging order cfg = [] ↔ config_ok cfg.
Proof.
  intros Ho. unfold problems_ranging.
  destruct (validate_each validateDependency 0 ∅ (cf_Dependencies cfg)) as [ids1 deps] eqn:Hdeps.
  destruct (validate_each validateHost 0 ids1 (cf_Hosts cfg)) as [ids hosts] eqn:Hhosts.
  destruct (declarations_nil cfg ids1 deps ids hosts Hdeps Hhosts) as [Hdecl Hids].
  rewrite !app_nil_iff, !problem_nil, oneOf_false, validateNUT_nil, validateOutage_nil, validateRecovery_nil,
    validateHealth_nil, !negb_false_iff, Z.eqb_eq. split.
  - intros (? & ? & ? & ? & ? & ? & ? & ? & Hd & Hh & Hdep & Hc).
    destruct (proj1 Hdecl (conj Hd Hh)) as (? & ? & Hnd).
    split; try done.
    + by apply (all_depend_nil ids _ 0); [apply Hids|].
    + by apply (cycles_nil order); [|apply ids_hosts_NoDup|].
  - intros []. destruct (proj2 Hdecl) as [Hd Hh]; [done|]. split_and!; try done.
    + by apply (all_depend_nil ids (all_ids cfg) 0); [apply Hids|].
    + by apply (cycles_nil order); [|apply ids_hosts_NoDup|].
Qed.

(** C23: [Validate] accepts exactly the well-formed configurations: every
    section within its bounds, every host and dependency well-formed
    (addresses, hardware and broadcast addresses that parse, credentials for
    the chosen shutdown method), identifiers distinct across the whole file,
    every [depends_on] naming a declared identifier other than its own host,
    and no dependency cycle. *)
Theorem Validate_accepts_iff order cfg :
  range_of (dependency_graph (cf_Hosts cfg)) order → Validate_ranging order cfg = None ↔ config_ok cfg.
Proof.
  intros Ho. rewrite <-(problems_nil order) by done. unfold Validate_ranging.
  by destruct (problems_ranging order cfg).
Qed.

(** ** What the rest of the agent relies on *)

Lemma toHostConfigs_ids hosts : hc_ID <$> toHostConfigs hosts = h_ID <$> hosts.
Proof. unfold toHostConfigs. rewrite <-list_fmap_compose. by apply list_fmap_ext. Qed.

(** A rank of the configured hosts ranks whatever is eligible. *)
Lemma acyclic_hosts_ranked hosts states rank :
  NoDup (h_ID <$> hosts) → acyclic_hosts hosts rank → ranked (eligible_map (toHostConfigs hosts) states) rank.
Proof.
  intros Hnd Ha id c d Hc Hd [c' Hc'].
  rewrite <-toHostConfigs_ids in Hnd.
  apply eligible_map_lookup in Hc as (Hin & <- & _); [|done]. apply eligible_map_lookup in Hc' as (Hin' & <- & _); [|done].
  unfold toHostConfigs in *. apply list_elem_of_fmap in Hin as (h & -> & Hin). apply list_elem_of_fmap in Hin' as (h' & -> & Hin').
  by apply Ha.
Qed.

(** A configuration that passes [Validate] never runs into the cycle
    error: for every recorded state of its hosts, and whatever the order Go
    ranges over its maps, the recovery plan exists.  The planner and the
    validator were written separately; this is their agreement. *)
Theorem validated_fleet_has_recovery_plan order cfg states o1 o2 :
  let hosts := toHostConfigs (cf_Hosts cfg) in
  range_of (dependency_graph (cf_Hosts cfg)) order → Validate_ranging order cfg = None →
  range_of (eligible_map hosts states) o1 → range_of (eligible_map hosts states) o2 →
  ∃ plan, BuildRecoveryPlan_ranging o1 o2 hosts states = inr plan.
Proof.
  intros hosts Ho Hv H1 H2.
  assert (Hok : config_ok cfg).
  { apply (problems_nil order); [done|]. unfold Validate_ranging in Hv. by destruct (problems_ranging order cfg). }
  destruct (ok_acyclic _ Hok) as [rank Hr]. apply (ranked_plan_exists o1 o2 _ _ rank); [done..|].
  apply acyclic_hosts_ranked; [|done]. by apply ids_hosts_NoDup, ok_ids.
Qed.

(** ** Defaults *)

Lemma default_int_idem d x : default_int d (default_int d x) = default_int d x.
Proof. unfold default_int. destruct (x =? 0)%Z eqn:Hx; [by destruct (d =? 0)%Z|by rewrite Hx]. Qed.

Lemma default_string_idem d x : default_string d (default_string d x) = default_string d x.
Proof. unfold default_string. repeat case_bool_decide; congruence. Qed.

Lemma applyStatusDefaults_idem s : applyStatusDefaults (applyStatusDefaults s) = applyStatusDefaults s.
Proof. unfold applyStatusDefaults. simpl. by rewrite !default_int_idem. Qed.

Lemma applyWakeDefaults_idem w : applyWakeDefaults (applyWakeDefaults w) = applyWakeDefaults w.
Proof.
  unfold applyWakeDefaults. destruct (wk_Enabled w) eqn:He; simpl; rewrite ?He; simpl; [|done].
  by rewrite !default_int_idem.
Qed.

Lemma applyDefaults_idem c : applyDefaults (applyDefaults c) = applyDefaults c.
Proof.
  unfold applyDefaults. simpl. f_equal.
  - unfold applyNUTDefaults. simpl. rewrite !default_int_idem, !default_string_idem.
    destruct (sy_Enabled (nc_Synology (cf_NUT c))) eqn:Hs; simpl; rewrite ?Hs, ?default_string_idem; done.
  - unfold applyHealthDefaults. simpl. by rewrite !default_int_idem.
  - rewrite <-list_fmap_compose. apply list_fmap_ext. intros _ d _. simpl. unfold applyDependencyDefaults. simpl.
    by rewrite applyStatusDefaults_idem, applyWakeDefaults_idem.
  - rewrite <-list_fmap_compose. apply list_fmap_ext. intros _ h _. simpl. unfold applyHostDefaults. simpl.
    by rewrite applyStatusDefaults_idem, applyWakeDefaults_idem, default_int_idem.
Qed.

(** What [Parse] returns is well-formed and stable: it satisfies every
    rule of [Validate], filling in defaults again changes nothing, and so the
    configuration written back and parsed again is the same one; what it
    refuses it refuses for a rule its defaulted form breaks. *)
Theorem Parse_returns_stable cfg :
  match Parse_decoded cfg with
  | inr c => config_ok c ∧ applyDefaults c = c ∧ Parse_decoded c = inr c
  | inl _ => ¬ config_ok (applyDefaults cfg)
  end.
Proof.
  unfold Parse_decoded, Validate, Validate_ranging.
  pose proof (problems_nil (map_keys (dependency_graph (cf_Hosts (applyDefaults cfg)))) (applyDefaults cfg) (reflexivity _)) as Hok.
  destruct (problems_ranging _ (applyDefaults cfg)) as [|p ps] eqn:Hp.
  - rewrite applyDefaults_idem, Hp. by split; [apply Hok|].
  - intros H. by apply Hok in H.
Qed.
