(* ===== verification/ConfigExample.v ===== *)
(** * A configuration file

    Two hosts behind a switch: a NUT-managed NAS and a workstation that is
    shut down over SSH, restored after the NAS. *)

From S2P Require Import Prelude GoStrings GoNet PowerStateModel HostPlan HostPlanFacts.
From S2P Require Import ConfigModel ConfigValidate ConfigFacts.

Definition no_wake : WakeConfig := zeroWake.
Definition wake (mac : string) (priority : Z) : WakeConfig :=
  mkWakeConfig true (Some mac) (Some "eth0") (Some "192.168.1.255") 0 priority 0 0.
Definition ping : StatusConfig := mkStatusConfig "ping" None 0 0 0.

Definition switch : DependencyConfig :=
  mkDependencyConfig "switch" "Core switch" (Some "192.168.1.2") ping 1 "auto-power" no_wake.

Definition nas : HostConfig :=
  mkHostConfig "nas" "NAS" (Some "nas.lan") ["switch"] ping
    (mkShutdownConfig "nut" 10 0 None None None) (wake "00:11:32:aa:bb:cc" 10) "previous-state".

Definition desktop : HostConfig :=
  mkHostConfig "desktop" "Workstation" (Some "192.168.1.20") ["nas"; "switch"] ping
    (mkShutdownConfig "ssh" 5 60 (Some "ups") (Some "/etc/cockpit-ups-wol/id") None)
    (wake "00-1b-21-0a-0b-0c" 20) "always".

Definition home : ConfigModel.Config :=
  mkConfig 1 "armed"
    (mkNUTConfig "local-server" "ups" "" 0 None None "" (mkNUTNetworkConfig "" true false [])
       (mkSynologyCompatibility false "" "") 0 0)
    (mkOutageConfig 60 (Some 600%Z) (Some 30%Z) (Some 300%Z) 30)
    (mkControllerConfig true true)
    (mkRecoveryConfig true 120 (Some 50%Z) None None 300)
    (mkHealthConfig true 0 0 true 0)
    [switch] [nas; desktop].

Definition parsed : ConfigModel.Config := applyDefaults home.

Example home_is_valid : Parse_decoded home = inr parsed.
Proof. vm_compute. reflexivity. Qed.

Definition cyclic_hosts : list HostConfig :=
  [mkHostConfig "a" "A" None ["b"] zeroStatus zeroShutdown zeroWake "always";
   mkHostConfig "b" "B" None ["c"; "x"] zeroStatus zeroShutdown zeroWake "always";
   mkHostConfig "c" "C" None ["b"] zeroStatus zeroShutdown zeroWake "always"].

Example cyclic_hosts_reported :
  validateHostDependencyCycles ["a"; "b"; "c"] cyclic_hosts = ["recovery dependency cycle detected: b -> c -> b"].
Proof. vm_compute. reflexivity. Qed.

Example duplicate_reported :
  (validateID {["nas" := "hosts[0]"]} "nas" "hosts[1]").2 =
  ["duplicate id " +:+ String.String (byte_of 34) "nas" +:+ String.String (byte_of 34) " at hosts[0] and hosts[1]"].
Proof. vm_compute. reflexivity. Qed.

Definition order : list string := reverse (map_keys (dependency_graph (cf_Hosts parsed))).

Lemma order_ok : range_of (dependency_graph (cf_Hosts parsed)) order.
Proof. unfold range_of, order. by rewrite reverse_Permutation. Qed.

Lemma cycle_search_correct_witness :
  find_cycles (dependency_graph (cf_Hosts parsed)) order = Some (validateHostDependencyCycles order (cf_Hosts parsed)) ∧
  (validateHostDependencyCycles order (cf_Hosts parsed) = [] ↔
     ∃ rank, acyclic_by (dependency_graph (cf_Hosts parsed)) rank).
Proof. exact (cycle_search_correct order (cf_Hosts parsed) order_ok). Defined.

Lemma Validate_accepts_iff_witness : Validate_ranging order parsed = None ↔ config_ok parsed.
Proof. exact (Validate_accepts_iff order parsed order_ok). Defined.

Definition recorded : gmap string HostState :=
  {["nas" := hs_set_WasOnline (Some true) zeroHostState; "desktop" := zeroHostState]}.

Lemma validated_fleet_has_recovery_plan_witness :
  let hosts := toHostConfigs (cf_Hosts parsed) in
  let keys := map_keys (eligible_map hosts recorded) in
  ∃ plan, BuildRecoveryPlan_ranging keys (reverse keys) hosts recorded = inr plan.
Proof.
  apply (validated_fleet_has_recovery_plan order parsed recorded).
  - exact order_ok.
  - vm_compute. reflexivity.
  - unfold range_of. reflexivity.
  - unfold range_of. by rewrite reverse_Permutation.
Defined.
