(* ===== verification/Wol.v ===== *)
(** * Wake-on-LAN ([agent/internal/wol])

    The magic packet and the checks before it is sent (magic.go, sender.go).
    The kernel's part (interfaces, the UDP socket) is a record of answers, one
    per call that may fail; sending appends to a list of datagrams. *)

From Stdlib Require Import Ascii.
From S2P Require Import Prelude GoStrings GoNet ConfigModel ConfigValidate ConfigFacts.

(** ** The packet *)

Definition MagicPacketSize : nat := 102.

Definition ParseMAC6 (s : string) : result (list Z) :=
  match ParseMAC s with
  | None => inl (Errorf ("address " +:+ s +:+ ": invalid MAC address"))
  | Some mac => if negb (length mac =? 6) then inl (Errorf "Wake-on-LAN requires a 6-byte MAC address") else inr mac
  end.

(** [copy(packet[off:off+6], mac)] *)
Definition put (packet : list Z) (off : nat) (bs : list Z) : list Z :=
  take off packet ++ bs ++ drop (off + length bs) packet.

(** [for i := 0; i < n; i++ { copy(packet[off:off+6], mac); off += 6 }] *)
Fixpoint put_repeated (n off : nat) (mac packet : list Z) : list Z :=
  match n with
  | O => packet
  | S n => put_repeated n (off + 6) mac (put packet off mac)
  end.

Definition MagicPacket (mac : list Z) : result (list Z) :=
  if negb (length mac =? 6) then inl (Errorf "Wake-on-LAN requires a 6-byte MAC address")
  else inr (put_repeated 16 6 mac (put (repeat 0%Z MagicPacketSize) 0 (repeat 255%Z 6))).

(** ** Sending it *)

Record Request : Type := mkRequest {
  rq_MAC : string;
  rq_Interface : string;
  rq_Broadcast : string;
  rq_Port : Z;
}.

(** A datagram: source address, destination address and port, payload. *)
Record Datagram : Type := mkDatagram { dg_src : list Z; dg_dst : list Z; dg_port : Z; dg_payload : list Z }.

(** What the system answers to [Wake]'s calls. *)
Record Network : Type := mkNetwork {
  nw_ctxErr : option error;
  nw_interface : string → option error;
  nw_addrs : string → result (list (list Z));
  nw_listen : list Z → option error;
  nw_rawConn : option error;
  nw_control : option error;
  nw_setBroadcast : option error;
  nw_setDeadline : option error;
  nw_write : Datagram → option error;
}.

(** [IP.To4] of an address of 4 or 16 octets *)
Definition to4 (ip : list Z) : option (list Z) :=
  if length ip =? 4 then Some ip else if length ip =? 16 then To4 ip else None.

Definition IsLoopback (ip4 : list Z) : bool := bool_decide (head ip4 = Some 127%Z).

Fixpoint first_ipv4 (addrs : list (list Z)) : option (list Z) :=
  match addrs with
  | [] => None
  | ip :: addrs =>
      match to4 ip with
      | Some ip4 => if IsLoopback ip4 then first_ipv4 addrs else Some ip4
      | None => first_ipv4 addrs
      end
  end.

Definition interfaceIPv4 (net : Network) (name : string) : result (list Z) :=
  match nw_interface net name with
  | Some e => inl (Wrapf ("interface " +:+ Quote name +:+ ": ") e "")
  | None =>
  match nw_addrs net name with
  | inl e => inl (Wrapf ("interface " +:+ Quote name +:+ " addresses: ") e "")
  | inr addrs =>
      match first_ipv4 addrs with
      | Some ip => inr ip
      | None => inl (Errorf ("interface " +:+ Quote name +:+ " has no non-loopback IPv4 address"))
      end
  end end.

Definition IPv4zero : list Z := [0; 0; 0; 0]%Z.

(** [Sender.Wake]: the datagram sent, if any, and the error. *)
Definition send_packet (net : Network) (dg : Datagram) : list Datagram * option error :=
  match nw_listen net (dg_src dg) with
  | Some e => ([], Some (Wrapf "open UDP socket: " e ""))
  | None =>
  match nw_rawConn net with
  | Some e => ([], Some (Wrapf "get UDP raw connection: " e ""))
  | None =>
  match nw_control net with
  | Some e => ([], Some (Wrapf "set UDP broadcast: " e ""))
  | None =>
  match nw_setBroadcast net with
  | Some e => ([], Some (Wrapf "set UDP broadcast: " e ""))
  | None =>
  match nw_setDeadline net with
  | Some e => ([], Some e)
  | None =>
  match nw_write net dg with
  | Some e => ([], Some (Wrapf "send magic packet: " e ""))
  | None => ([dg], None)
  end end end end end end.

Definition Wake (net : Network) (req : Request) : list Datagram * option error :=
  match nw_ctxErr net with
  | Some e => ([], Some e)
  | None =>
  match ParseMAC6 (rq_MAC req) with
  | inl e => ([], Some (Wrapf "parse MAC: " e ""))
  | inr mac =>
  match MagicPacket mac with
  | inl e => ([], Some e)
  | inr packet =>
      let port := if (rq_Port req =? 0)%Z then 9%Z else rq_Port req in
      if port_invalid port then ([], Some (Errorf "invalid UDP port"))
      else match ParseIP (rq_Broadcast req) ≫= To4 with
      | None => ([], Some (Errorf "broadcast must be an IPv4 address"))
      | Some dst =>
          match (if bool_decide (rq_Interface req = "") then inr IPv4zero else interfaceIPv4 net (rq_Interface req)) with
          | inl e => ([], Some e)
          | inr src => send_packet net (mkDatagram src dst port packet)
          end
      end
  end end end.

(** ** The packet's format *)

Lemma put_length packet off bs : off + length bs ≤ length packet → length (put packet off bs) = length packet.
Proof. intros H. unfold put. rewrite !length_app, length_take, length_drop. lia. Qed.

(** Bytes outside the window stay, inside it they are the ones copied. *)
Lemma put_lookup packet off bs i :
  off + length bs ≤ length packet →
  put packet off bs !! i =
  if decide (off ≤ i < off + length bs) then bs !! (i - off) else packet !! i.
Proof.
  intros H. unfold put. assert (Hlen : length (take off packet) = off) by (rewrite length_take; lia).
  case_decide as Hi.
  - rewrite lookup_app_r by lia. rewrite Hlen. apply lookup_app_l. lia.
  - destruct (decide (i < off)) as [Hlt|Hge].
    + rewrite lookup_app_l by lia. by apply lookup_take_lt.
    + rewrite lookup_app_r by lia. rewrite lookup_app_r by lia. rewrite lookup_drop. f_equal. lia.
Qed.

Lemma put_repeated_lookup n off mac packet i :
  length mac = 6 → off + 6 * n ≤ length packet →
  put_repeated n off mac packet !! i =
  if decide (off ≤ i < off + 6 * n) then mac !! ((i - off) mod 6) else packet !! i.
Proof.
  intros Hm. revert off packet. induction n as [|n IH]; intros off packet Hlen; cbn [put_repeated].
  { rewrite decide_False by lia. done. }
  rewrite IH by (rewrite put_length; lia). rewrite put_lookup by lia. rewrite Hm.
  destruct (decide (off + 6 ≤ i < off + 6 + 6 * n)) as [H1|H1].
  - rewrite decide_True by lia. replace (i - off) with ((i - (off + 6)) + 1 * 6) by lia.
    by rewrite Nat.Div0.mod_add.
  - destruct (decide (off ≤ i < off + 6)) as [H2|H2].
    + rewrite decide_True by lia. by rewrite Nat.mod_small by lia.
    + by rewrite decide_False by lia.
Qed.

Lemma put_repeated_length n off mac packet :
  length mac = 6 → off + 6 * n ≤ length packet → length (put_repeated n off mac packet) = length packet.
Proof.
  intros Hm. revert off packet. induction n as [|n IH]; intros off packet Hlen; simpl; [done|].
  rewrite IH; rewrite ?put_length; lia.
Qed.

(** The magic packet is 102 bytes: six of [0xff], then the hardware
    address sixteen times.  So different addresses give different packets:
    the address can be read back from the packet. *)
Theorem MagicPacket_format mac packet :
  MagicPacket mac = inr packet →
  length packet = MagicPacketSize ∧
  (∀ i, i < 6 → packet !! i = Some 255%Z) ∧
  (∀ i, 6 ≤ i < 102 → packet !! i = mac !! ((i - 6) mod 6)) ∧
  take 6 (drop 6 packet) = mac.
Proof.
  unfold MagicPacket. destruct (length mac =? 6) eqn:Hm; [|done]. cbn [negb]. apply Nat.eqb_eq in Hm.
  set (base := put (repeat 0%Z MagicPacketSize) 0 (repeat 255%Z 6)).
  intros Heq. assert (packet = put_repeated 16 6 mac base) as -> by congruence. clear Heq.
  assert (Hlen : length (put_repeated 16 6 mac base) = MagicPacketSize) by (by rewrite put_repeated_length).
  assert (Hmac : ∀ i, 6 ≤ i < 102 → put_repeated 16 6 mac base !! i = mac !! ((i - 6) mod 6)).
  { intros i Hi. rewrite put_repeated_lookup by done. by rewrite decide_True by lia. }
  split_and!; [done| |done|].
  - intros i Hi. rewrite put_repeated_lookup by done. rewrite decide_False by lia.
    do 6 (destruct i as [|i]; [reflexivity|]). lia.
  - apply list_eq_same_length with 6; [done| |].
    { rewrite length_take, length_drop, Hlen. unfold MagicPacketSize. lia. }
    intros i x y Hi. rewrite lookup_take_lt by lia. rewrite lookup_drop, Hmac by lia.
    replace (6 + i - 6) with i by lia. rewrite Nat.mod_small by lia. intros Hx Hy. congruence.
Qed.

(** ** What validation promises the sender *)

(** The request [armedWaker] builds from a host's settings. *)
Definition wake_request (w : WakeConfig) : Request :=
  mkRequest (default "" (wk_MAC w)) (default "" (wk_Interface w)) (default "" (wk_Broadcast w)) (wk_Port w).

(** The calls that reach the system once the request is well formed. *)
Definition send_to (net : Network) (iface : string) (dst : list Z) (port : Z) (mac : list Z) : list Datagram * option error :=
  match (if bool_decide (iface = "") then inr IPv4zero else interfaceIPv4 net iface) with
  | inl e => ([], Some e)
  | inr src => send_packet net (mkDatagram src dst port (put_repeated 16 6 mac (put (repeat 0%Z MagicPacketSize) 0 (repeat 255%Z 6))))
  end.

Lemma ParseMAC6_ok s mac : ParseMAC s = Some mac → length mac = 6 → ParseMAC6 s = inr mac.
Proof. intros Hm Hlen. unfold ParseMAC6. by rewrite Hm, Hlen. Qed.

Lemma MagicPacket_ok mac :
  length mac = 6 → MagicPacket mac = inr (put_repeated 16 6 mac (put (repeat 0%Z MagicPacketSize) 0 (repeat 255%Z 6))).
Proof. intros Hlen. unfold MagicPacket. by rewrite Hlen. Qed.

(** For a host that passed validation, with a broadcast address written
    without surrounding blanks, [Wake] fails only when the system does (the
    context, the interface, the socket): the hardware address, the port and
    the broadcast address are accepted, and what is sent is one magic packet
    for exactly the configured address. *)
Theorem validated_wake_is_sent net w ip :
  wake_ok w → wk_Enabled w = true → nw_ctxErr net = None →
  wk_Broadcast w = Some ip → TrimSpace ip = ip →
  ∃ mac dst, ParseMAC (default "" (wk_MAC w)) = Some mac ∧ (ParseIP ip ≫= To4) = Some dst ∧
    Wake net (wake_request w) = send_to net (default "" (wk_Interface w)) dst (wk_Port w) mac.
Proof.
  intros [_ Hport _ Hmac Hbr] He Hctx Hip Htrim. destruct (Hmac He) as (s & mac & Hs & _ & Hm & Hlen).
  destruct (Hbr He) as (b & ip6 & o & Hb & _ & Hp & Ho). rewrite Hip in Hb. injection Hb as <-. rewrite Htrim in Hp.
  exists mac, o. rewrite Hs. simpl. rewrite Hp. simpl. split_and!; [done|done|].
  unfold Wake, wake_request. rewrite Hctx. cbn [rq_MAC rq_Port rq_Broadcast rq_Interface]. rewrite Hs, Hip.
  change (default "" (Some s)) with s. change (default "" (Some ip)) with ip.
  rewrite (ParseMAC6_ok s mac), (MagicPacket_ok mac), Hp by done.
  specialize (Hport He). destruct (wk_Port w =? 0)%Z eqn:Hz; [lia|].
  rewrite (proj2 (port_invalid_false (wk_Port w)) Hport). cbn [mbind option_bind]. by rewrite Ho.
Qed.

(** Settings whose broadcast address has blanks around it. *)
Definition padded : WakeConfig :=
  mkWakeConfig true (Some "00:11:32:aa:bb:cc") None (Some " 192.168.1.255 ") 9 10 30 5.

(** Validation and sending disagree on blanks: settings whose broadcast
    address is padded pass [validateWake], which trims, but [Wake], which does
    not, refuses them on every attempt, whatever the network answers. *)
Theorem padded_broadcast_never_wakes net path :
  validateWake path padded = [] ∧ ∃ e, Wake net (wake_request padded) = ([], Some e).
Proof.
  split; [vm_compute; reflexivity|]. unfold Wake. destruct (nw_ctxErr net) as [e|]; [by exists e|].
  eexists. vm_compute. reflexivity.
Qed.
