(* ===== verification/WolExample.v ===== *)
(** * Waking a host, concretely

    The NAS of the example configuration and a network that accepts
    everything. *)

From Stdlib Require Import Ascii.
From S2P Require Import Prelude GoStrings GoNet ConfigModel ConfigValidate ConfigFacts.
From S2P Require Import ConfigExample Wol.

Definition nas_mac : list Z := [0; 17; 50; 170; 187; 204]%Z.

Definition working : Network :=
  mkNetwork None (λ _, None) (λ _, inr [[127; 0; 0; 1]; [192; 168; 1; 5]]%Z) (λ _, None) None None None None (λ _, None).

Definition nas_wake : WakeConfig := h_Wake (default nas (cf_Hosts parsed !! 0)).

Example nas_is_woken :
  Wake working (wake_request nas_wake) =
  ([mkDatagram [192; 168; 1; 5]%Z [192; 168; 1; 255]%Z 9%Z
      (repeat 255%Z 6 ++ concat (repeat nas_mac 16))], None).
Proof. vm_compute. reflexivity. Qed.

Lemma MagicPacket_format_witness :
  let packet := repeat 255%Z 6 ++ concat (repeat nas_mac 16) in
  length packet = MagicPacketSize ∧ (∀ i, i < 6 → packet !! i = Some 255%Z) ∧
  (∀ i, 6 ≤ i < 102 → packet !! i = nas_mac !! ((i - 6) mod 6)) ∧ take 6 (drop 6 packet) = nas_mac.
Proof. apply MagicPacket_format. vm_compute. reflexivity. Defined.

Lemma nas_wake_ok : wake_ok nas_wake.
Proof. apply (proj1 (validateWake_nil "hosts[0].wake" nas_wake)). vm_compute. reflexivity. Qed.

Lemma validated_wake_is_sent_witness :
  ∃ mac dst, ParseMAC (default "" (wk_MAC nas_wake)) = Some mac ∧ (ParseIP "192.168.1.255" ≫= To4) = Some dst ∧
    Wake working (wake_request nas_wake) = send_to working (default "" (wk_Interface nas_wake)) dst (wk_Port nas_wake) mac.
Proof.
  apply validated_wake_is_sent.
  - exact nas_wake_ok.
  - vm_compute. reflexivity.
  - reflexivity.
  - vm_compute. reflexivity.
  - vm_compute. reflexivity.
Defined.
