(* ===== verification/Recovery.v ===== *)
(** * Restoring one host at a time ([agent/internal/host/recovery.go])

    [NextRecoveryHost] picks the next host of the recovery plan; [RunNext]
    reconciles it and, if it is still offline, wakes it after persisting the
    attempt.  The waker, the checker and the state writer are an interface. *)

From S2P Require Import Prelude StableSort PowerStateModel HostPlan HostPlanFacts.

(** ** The next host *)

(** The state of a host is terminal for the plan. *)
Definition recovery_done (r : RecoveryState) : bool :=
  bool_decide (r = RecoveryOnline) || bool_decide (r = RecoveryNotRequired) || bool_decide (r = RecoveryFailed).

(** [for _, dep := range cfg.DependsOn]: no managed dependency blocks the host. *)
Definition dependency_ready (byID : gmap string Config) (states : gmap string HostState) (dep : string) : bool :=
  match byID !! dep, states !! dep with
  | Some dcfg, Some depState =>
      negb (EligibleForRestore dcfg depState && negb (bool_decide (hs_RecoveryState depState = RecoveryOnline)))
  | _, _ => true
  end.

Definition dependencies_ready (byID : gmap string Config) (states : gmap string HostState) (cfg : Config) : bool :=
  forallb (dependency_ready byID states) (hc_DependsOn cfg).

Fixpoint first_ready (byID : gmap string Config) (states : gmap string HostState) (plan : list string)
  : option Config :=
  match plan with
  | [] => None
  | id :: plan =>
      let hs := default zeroHostState (states !! id) in
      if recovery_done (hs_RecoveryState hs) then first_ready byID states plan
      else let cfg := default zeroConfig (byID !! id) in
           if dependencies_ready byID states cfg then Some cfg else first_ready byID states plan
  end.

Definition NextRecoveryHost (hosts : list Config) (states : gmap string HostState) : result (option Config) :=
  match BuildRecoveryPlan hosts states with
  | inl e => inl e
  | inr plan => inr (first_ready (by_id hc_ID hosts) states plan)
  end.

(** ** One recovery step *)

(** What [RecoveryExecutor] calls.  [rio_share] is the effect of assigning to
    the [Hosts] map of a generation the writer has kept: a Go map is shared. *)
Class RecoveryIO (S : Type) : Type := {
  rio_Online : string → GoM S bool;
  rio_Wake : string → GoM S unit;
  rio_Write : State → GoM S State;
  rio_share : string → HostState → S → S;
}.

Record RecoveryExecutor : Type := mkRecoveryExecutor {
  re_Waker : bool;      (* the dependencies are present *)
  re_Checker : bool;
  re_Store : bool;
}.

Section run_next.
Context {S : Type} `{RecoveryIO S}.

Definition max_wake_attempts (cfg : Config) : Z :=
  if (hc_WakeMaxAttempts cfg <=? 0)%Z then 5%Z else hc_WakeMaxAttempts cfg.

Definition wake_action_id (tx id : string) (n : Z) : string :=
  "wake:" +:+ tx +:+ ":" +:+ id +:+ ":" +:+ pretty n.

(** The host state written before the wake packet is sent. *)
Definition wake_requested (st : State) (cfg : Config) (probe : option error) : HostState :=
  let hs := host_at st (hc_ID cfg) in
  let n := (hs_WakeAttempts hs + 1)%Z in
  hs |> hs_set_WakeAttempts n
     |> hs_set_RecoveryState RecoveryWOLSent
     |> hs_set_LastActionID (wake_action_id (st_TransactionID st) (hc_ID cfg) n)
     |> hs_set_LastVerification "offline"
     |> hs_set_LastError (match probe with Some e => err_msg e | None => "" end).

(** [persisted, err := r.Store.Write(st)]: an error comes with the zero state. *)
Definition write_result (st : State) : GoM S (State * option error) :=
  r ← attempt (rio_Write st);
  mret match r with inl e => (zeroState, Some e) | inr p => (p, None) end.

(** Persist the attempt, then send the packet, then record a failed wake. *)
Definition wake_host (st : State) (cfg : Config) (probe : option error) : GoM S (State * string * option error) :=
  let id := hc_ID cfg in
  let st := st_put_host id (wake_requested st cfg probe) st in
  w ← attempt (rio_Write st);
  match w with
  | inl err => mret (st, id, Some err)
  | inr persisted =>
      woken ← attempt (rio_Wake id);
      match woken with
      | inr _ => mret (persisted, id, None)
      | inl err =>
          let hs := hs_set_LastError (err_msg err) (host_at persisted id) in
          let persisted := st_put_host id hs persisted in
          _ ← modify (rio_share id hs);
          u ← attempt (rio_Write persisted);
          mret match u with
               | inl writeErr =>
                   (persisted, id,
                    Some (Wrapf ("wake failed: " +:+ err_msg err +:+ "; persist error: ") writeErr ""))
               | inr updated => (updated, id, Some err)
               end
      end
  end.

(** The host is not known to be online: give up or wake it. *)
Definition wake_or_fail (st : State) (cfg : Config) (probe : option error) : GoM S (State * string * option error) :=
  let id := hc_ID cfg in
  let hs := host_at st id in
  if (max_wake_attempts cfg <=? hs_WakeAttempts hs)%Z then
    let hs := hs |> hs_set_RecoveryState RecoveryFailed
                 |> hs_set_LastError "maximum wake attempts reached" in
    let st := st_put_host id hs st in
    w ← write_result st;
    mret match w with
         | (_, Some writeErr) => (st, id, Some writeErr)
         | (persisted, None) =>
             (persisted, id, Some (Errorf ("host " +:+ id +:+ ": maximum wake attempts reached")))
         end
  else wake_host st cfg probe.

(** The results are the returned state, the host acted on and the error. *)
Definition RunNext (r : RecoveryExecutor) (st : State) (hosts : list Config)
  : GoM S (State * string * option error) :=
  if negb (re_Store r) || negb (re_Checker r) || negb (re_Waker r)
  then mret (st, "", Some (Errorf "recovery executor dependencies are required"))
  else match NextRecoveryHost hosts (hosts_of st) with
  | inl e => mret (st, "", Some e)
  | inr None => mret (st, "", None)
  | inr (Some cfg) =>
      let id := hc_ID cfg in
      online ← attempt (rio_Online id);
      match online with
      | inr true =>
          let hs := host_at st id |> hs_set_RecoveryState RecoveryOnline |> hs_set_LastVerification "online" in
          w ← write_result (st_put_host id hs st);
          mret (w.1, id, w.2)
      | inr false => wake_or_fail st cfg None
      | inl e => wake_or_fail st cfg (Some e)
      end
  end.
End run_next.

(** ** What [NextRecoveryHost] promises *)

(** [cfg] may be acted on: it is restorable and not settled, and every managed
    restorable dependency of it is confirmed online. *)
Definition next_ok (hosts : list Config) (states : gmap string HostState) (cfg : Config) : Prop :=
  cfg ∈ hosts ∧ restorable states cfg ∧
  recovery_done (hs_RecoveryState (default zeroHostState (states !! hc_ID cfg))) = false ∧
  ∀ dep dcfg ds, dep ∈ hc_DependsOn cfg → dcfg ∈ hosts → hc_ID dcfg = dep → states !! dep = Some ds →
    EligibleForRestore dcfg ds = true → hs_RecoveryState ds = RecoveryOnline.

Lemma first_ready_Some byID states plan cfg :
  first_ready byID states plan = Some cfg →
  ∃ id, id ∈ plan ∧ cfg = default zeroConfig (byID !! id) ∧
        recovery_done (hs_RecoveryState (default zeroHostState (states !! id))) = false ∧
        dependencies_ready byID states cfg = true.
Proof.
  induction plan as [|id plan IH]; simpl; [done|].
  case_match eqn:Hd; [|case_match eqn:Hr].
  - intros Hf. destruct (IH Hf) as (id' & ? & ?). exists id'. split; [by right|done].
  - intros Hf; injection Hf as <-. exists id. split_and!; [left|done..].
  - intros Hf. destruct (IH Hf) as (id' & ? & ?). exists id'. split; [by right|done].
Qed.

Lemma first_ready_None byID states plan id :
  first_ready byID states plan = None → id ∈ plan →
  recovery_done (hs_RecoveryState (default zeroHostState (states !! id))) = true ∨
  dependencies_ready byID states (default zeroConfig (byID !! id)) = false.
Proof.
  induction plan as [|id' plan IH]; simpl; [by intros ? ?%not_elem_of_nil|].
  case_match eqn:Hd; [|case_match eqn:Hr; [done|]]; intros Hf [->|Hin]%elem_of_cons; auto.
Qed.

(** The reader's view of the plan that [NextRecoveryHost] walks. *)
Lemma NextRecoveryHost_ok hosts states cfg :
  NoDup (hc_ID <$> hosts) → NextRecoveryHost hosts states = inr (Some cfg) → next_ok hosts states cfg.
Proof.
  intros Hnd. unfold NextRecoveryHost.
  destruct (BuildRecoveryPlan hosts states) as [e|plan] eqn:Hplan; [done|]. intros Hn.
  assert (Hf : first_ready (by_id hc_ID hosts) states plan = Some cfg) by congruence. clear Hn.
  apply first_ready_Some in Hf as (id & Hin & Hcfg & Hdone & Hready).
  destruct (plan_members hosts states plan id Hnd Hplan) as [Hmem _].
  destruct (Hmem Hin) as (h & Hh & Hid & Hr).
  assert (Hlast : by_id hc_ID hosts !! id = Some h) by (rewrite <-Hid; by apply by_id_lookup).
  rewrite Hlast in Hcfg. simpl in Hcfg. subst cfg id. split_and!; [done|done|done|].
  intros dep dcfg ds Hdep Hd Hdid Hds Hel. unfold dependencies_ready in Hready.
  rewrite forallb_forall in Hready. specialize (Hready dep (proj1 (list_elem_of_In _ _) Hdep)).
  unfold dependency_ready in Hready. rewrite <-Hdid in Hready.
  assert (Hl : by_id hc_ID hosts !! hc_ID dcfg = Some dcfg) by by apply by_id_lookup.
  rewrite Hl, Hdid, Hds, Hel in Hready. simpl in Hready.
  rewrite negb_involutive in Hready. by apply bool_decide_eq_true in Hready.
Qed.
