(* ===== verification/Orchestrator.v ===== *)
(** * The orchestrator ([agent/internal/orchestrator/controller.go])

    [Tick] feeds one observation to the policy and performs the side effects
    of the phase it is in: the outage snapshot, direct and NUT shutdowns,
    Wake-on-LAN.  A [World] is the controller with its coordinator and a log
    of everything it did, newest first.  What the outside world answers is an
    arbitrary function of that log ([Env]), so a host may answer differently
    each time it is asked. *)

From S2P Require Import Prelude StableSort PowerStateModel Nut HostPlan ConfigModel Policy Coordinator Recovery.

Definition maxDirectShutdownAttempts : Z := 3.
Definition maxNUTFSDShutdownAttempts : Z := 6.

(** ** The outside world *)

Record ProbeResult : Type := mkProbeResult { pb_Known : bool; pb_Online : bool }.

Inductive ShutdownDisposition : Type :=
  | DispDirectRequested
  | DispManagedByNUT
  | DispNotRequired
  | DispOther (raw : string).

Inductive Event : Type :=
  | EvPersisted (p : State)                     (* written durably, or loaded at start *)
  | EvPolicyError (tried : option State)        (* a policy call failed, writing [tried] or nothing *)
  | EvCheck (h : HostConfig)
  | EvWait (h : HostConfig) (wantOnline : bool)
  | EvShutdown (h : HostConfig)                 (* a direct shutdown is requested *)
  | EvFSD (upsName path : string)               (* the forced shutdown is requested *)
  | EvOnline (id : string)
  | EvWake (id : string)                        (* a magic packet is sent *)
  | EvNewTransactionID
  | EvFreshOutage.                              (* a new outage transaction begins *)

Abbreviation Log := (list Event) (only parsing).

Record Prober : Type := mkProber {
  pr_Check : Log → HostConfig → result ProbeResult;
  pr_Wait : Log → HostConfig → bool → option error;
}.

(** The controller's collaborators; the optional ones may be nil. *)
Record Env : Type := mkEnv {
  env_Probe : option Prober;
  env_Shutdown : option (Log → HostConfig → result ShutdownDisposition);
  env_FSD : option (Log → string → string → option error);
  env_Recovery : option RecoveryExecutor;
  env_Online : Log → string → result bool;
  env_Wake : Log → string → option error;
  env_NewTransactionID : option (Log → string);
}.

Record World (W : Type) : Type := mkWorld {
  w_coord : Coordinator W;
  w_lastRecoveryWakeAt : Time;
  w_lastRecoveryWakeHostID : string;
  w_resumeWakeDelayEvaluated : bool;
  w_nutFSDTransactionID : string;
  w_nutFSDNextAttempt : Time;
  w_log : Log;
}.
Arguments mkWorld {W}.
Arguments w_coord {W}.
Arguments w_lastRecoveryWakeAt {W}.
Arguments w_lastRecoveryWakeHostID {W}.
Arguments w_resumeWakeDelayEvaluated {W}.
Arguments w_nutFSDTransactionID {W}.
Arguments w_nutFSDNextAttempt {W}.
Arguments w_log {W}.

(** ** Pure helpers *)

(** The retry delay after [attempt] failed requests:
    [for i := 1; i < attempt && delay < time.Minute; i++ { delay *= 2 }]. *)
Fixpoint double_until (fuel : nat) (i attempt : Z) (delay : Duration) : Duration :=
  match fuel with
  | O => delay
  | S fuel =>
      if (i <? attempt)%Z && (delay <? Minute)%Z
      then double_until fuel (i + 1) attempt (wrap64 (delay * 2))%Z
      else delay
  end.

(** Five doublings reach the minute, so that six rounds are enough. *)
Definition retry_delay (attempt : Z) : Duration :=
  let delay := double_until 6 1 attempt (5 * Second)%Z in
  if (Minute <? delay)%Z then Minute else delay.

Definition recoveryHasPriorWake (states : gmap string HostState) : bool :=
  existsb (λ kv, (0 <? hs_WakeAttempts kv.2)%Z
                 || bool_decide (hs_RecoveryState kv.2 = RecoveryWOLSent)
                 || bool_decide (hs_RecoveryState kv.2 = RecoveryOnline)) (map_to_list states).

(** Every restore-eligible host is in a terminal recovery state. *)
Definition recoverySettled (hosts : list HostPlan.Config) (states : gmap string HostState) : bool :=
  forallb (λ h, match states !! hc_ID h with
                | Some hs => negb (EligibleForRestore h hs) || recovery_done (hs_RecoveryState hs)
                | None => true
                end) hosts.

(** A dependency whose recovery failed. *)
Definition dependency_failed (byID : gmap string HostPlan.Config) (states : gmap string HostState) (dep : string) : bool :=
  match byID !! dep with
  | None => false
  | Some dcfg =>
      let ds := default zeroHostState (states !! dep) in
      EligibleForRestore dcfg ds && bool_decide (hs_RecoveryState ds = RecoveryFailed)
  end.

(** One iteration of [markBlockedRecovery]. *)
Definition block_host (byID : gmap string HostPlan.Config)
    (acc : gmap string HostState * bool) (h : HostPlan.Config) : gmap string HostState * bool :=
  let '(states, changed) := acc in
  let hs := default zeroHostState (states !! hc_ID h) in
  if negb (EligibleForRestore h hs) || bool_decide (hs_RecoveryState hs = RecoveryOnline)
     || bool_decide (hs_RecoveryState hs = RecoveryFailed)
  then (states, changed)
  else match find (dependency_failed byID states) (hc_DependsOn h) with
  | None => (states, changed)
  | Some dep =>
      (<[hc_ID h := hs |> hs_set_RecoveryState RecoveryFailed
                       |> hs_set_LastError ("managed recovery dependency failed: " +:+ dep)]> states, true)
  end.

Definition markBlockedRecovery (hosts : list HostPlan.Config) (states : gmap string HostState)
  : gmap string HostState * bool :=
  fold_left (block_host (by_id hc_ID hosts)) hosts (states, false).

Definition errDirectShutdownRetryPending : error :=
  Sentinel "errDirectShutdownRetryPending" "direct shutdown retry pending".
Definition errDirectShutdownFailedSafe : error :=
  Sentinel "errDirectShutdownFailedSafe" "direct shutdown entered failed-safe".

(** [h.Address == nil || h.Status.Method == "none"] *)
Definition unverifiable (h : HostConfig) : bool :=
  bool_decide (h_Address h = None) || bool_decide (sc_Method (h_Status h) = "none").

(** [fmt.Sprintf("kind:%s:%s:%d", ...)] *)
Definition action_id (kind tx id : string) (n : Z) : string :=
  kind +:+ ":" +:+ tx +:+ ":" +:+ id +:+ ":" +:+ pretty n.

Definition shutdown_is (s : ShutdownState) (hs : HostState) : bool := bool_decide (hs_ShutdownState hs = s).

(** ** The controller *)

Section controller.
Context {W : Type} `{StateWriter W}.
Context (env : Env) (cfg : ConfigModel.Config) (UPSMonConfPath : string).

Abbreviation GoC := (GoM (World W)).

(** *** Field assignments *)

Definition w_set_coord c (w : World W) : World W :=
  mkWorld c (w_lastRecoveryWakeAt w) (w_lastRecoveryWakeHostID w) (w_resumeWakeDelayEvaluated w)
    (w_nutFSDTransactionID w) (w_nutFSDNextAttempt w) (w_log w).
Definition w_set_wake (at_ : Time) (id : string) (w : World W) : World W :=
  mkWorld (w_coord w) at_ id (w_resumeWakeDelayEvaluated w)
    (w_nutFSDTransactionID w) (w_nutFSDNextAttempt w) (w_log w).
Definition w_set_evaluated b (w : World W) : World W :=
  mkWorld (w_coord w) (w_lastRecoveryWakeAt w) (w_lastRecoveryWakeHostID w) b
    (w_nutFSDTransactionID w) (w_nutFSDNextAttempt w) (w_log w).
Definition w_set_fsd (tx : string) (next : Time) (w : World W) : World W :=
  mkWorld (w_coord w) (w_lastRecoveryWakeAt w) (w_lastRecoveryWakeHostID w) (w_resumeWakeDelayEvaluated w)
    tx next (w_log w).
Definition log (ev : Event) (w : World W) : World W :=
  mkWorld (w_coord w) (w_lastRecoveryWakeAt w) (w_lastRecoveryWakeHostID w) (w_resumeWakeDelayEvaluated w)
    (w_nutFSDTransactionID w) (w_nutFSDNextAttempt w) (ev :: w_log w).

(** *** The policy coordinator *)

(** [c.Policy.State()]: its [Hosts] map is the engine's own. *)
Definition w_State (w : World W) : State := c_State (w_coord w).
Definition Policy_State : GoC State := gets w_State.

(** A coordinator call that may write: [wrote a] says whether it did, [tried]
    what it writes (for the log: a failed write may have reached the disk). *)
Definition lift_coord {A} (wrote : A → bool) (tried : Coordinator W → option State)
    (m : GoM (Coordinator W) A) : GoC A := λ w,
  match m (w_coord w) with
  | (c, inl e) => (log (EvPolicyError (tried (w_coord w))) (w_set_coord c w), inl e)
  | (c, inr a) =>
      let w := w_set_coord c w in
      (if wrote a then log (EvPersisted (c_State c)) w else w, inr a)
  end.

Definition tried_by (step : Engine → Engine * result Decision) (c : Coordinator W) : option State :=
  match step (c_engine c) with
  | (e, inr d) => if dec_Changed d then Some (e_st e) else None
  | (_, inl _) => None
  end.

Definition Policy_Step (now : Time) (i : Inputs) : GoC Decision :=
  lift_coord dec_Changed (tried_by (Step now i)) (c_Step now i).
Definition Policy_Write (next : State) : GoC State := lift_coord (λ _, true) (λ _, Some next) (c_Write next).
Definition Policy_MarkShutdownPhaseComplete : GoC Decision :=
  lift_coord dec_Changed (tried_by (λ e, ok (MarkShutdownPhaseComplete e))) c_MarkShutdownPhaseComplete.
Definition Policy_MarkRecoveryComplete : GoC Decision :=
  lift_coord dec_Changed (tried_by (λ e, ok (MarkRecoveryComplete e))) c_MarkRecoveryComplete.

(** An assignment to the [Hosts] map the engine holds. *)
Definition share_hosts (hosts : gmap string HostState) (w : World W) : World W :=
  let c := w_coord w in
  let e := c_engine c in
  w_set_coord (c_set_engine (e_set_st (st_set_Hosts (Some hosts) (e_st e)) e) c) w.

(** *** Outside calls *)

Definition ask {A} (ev : Event) (answer : Log → result A) : GoC A := λ w,
  (log ev w, answer (w_log w)).
Definition ask_error (ev : Event) (answer : Log → option error) : GoC unit :=
  ask ev (λ l, match answer l with Some e => inl e | None => inr () end).

Definition persistHost (id : string) (hs : HostState) : GoC unit :=
  st ← Policy_State;
  _ ← Policy_Write (st_put_host id hs (cloneState st));
  mret ().

Definition byID : gmap string HostConfig := by_id h_ID (cf_Hosts cfg).
Definition host_config (id : string) : HostConfig := default zeroHost (byID !! id).

Definition upsmonPath : string :=
  if bool_decide (UPSMonConfPath = "") then "/etc/nut/upsmon.conf" else UPSMonConfPath.

(** *** Outages *)

Definition resetRecoveryWakeDelay (w : World W) : World W :=
  w |> w_set_wake zero_time "" |> w_set_evaluated false.

(** The state of one host in the snapshot. *)
Definition snapshot_host (pr : Prober) (offlineKnown : bool) (st : State) (h : HostConfig) : GoC State :=
  let present := hosts_of st !! h_ID h in
  let hs := default zeroHostState present in
  if bool_decide (is_Some present) && negb (bool_decide (hs_WasOnline hs = None)) then mret st
  else
    let hs := hs |> hs_set_ShutdownState
      (if bool_decide (sd_Method (h_Shutdown h) = "none") then ShutdownNotRequired else ShutdownPlanned) in
    let hs := hs |> hs_set_RecoveryState
      (if negb (wk_Enabled (h_Wake h)) || bool_decide (h_RestorePolicy h = "never")
       then RecoveryNotRequired else RecoveryWaiting) in
    let unknown hs := hs |> hs_set_WasOnline None |> hs_set_LastVerification "unknown" in
    if unverifiable h then mret (st_put_host (h_ID h) (unknown hs) st)
    else
      r ← attempt (ask (EvCheck h) (λ l, pr_Check pr l h));
      let hs :=
        match r with
        | inl e => unknown hs |> hs_set_LastError (err_msg e)
        | inr res =>
            if pb_Known res && pb_Online res
            then hs |> hs_set_WasOnline (Some true) |> hs_set_LastVerification "online"
            else if pb_Known res && offlineKnown
            then hs |> hs_set_WasOnline (Some false) |> hs_set_LastVerification "offline"
            else unknown hs
        end in
      mret (st_put_host (h_ID h) hs st).

Fixpoint snapshot_loop (pr : Prober) (offlineKnown : bool) (st : State) (hosts : list HostConfig) : GoC State :=
  match hosts with
  | [] => mret st
  | h :: hosts => st ← snapshot_host pr offlineKnown st h; snapshot_loop pr offlineKnown st hosts
  end.

Definition snapshotHosts (offlineKnown : bool) : GoC unit :=
  match env_Probe env with
  | None => throw (Errorf "host prober is required")
  | Some pr =>
      st ← Policy_State;
      st ← snapshot_loop pr offlineKnown (cloneState st) (cf_Hosts cfg);
      _ ← wrap_err "persist outage snapshot: " (Policy_Write st);
      mret ()
  end.

Definition beginFreshOutage : GoC unit :=
  _ ← modify (log EvFreshOutage);
  _ ← modify resetRecoveryWakeDelay;
  st ← Policy_State;
  let st := cloneState st in
  st ← match env_NewTransactionID env with
       | None => mret st
       | Some newID =>
           id ← ask EvNewTransactionID (λ l, inr (newID l));
           if bool_decide (id = "") then throw (Errorf "new transaction id is empty")
           else mret (st |> st_set_ParentTransactionID (st_TransactionID st) |> st_set_TransactionID id)
       end;
  let st := st |> st_set_Hosts (Some ∅) |> st_set_ShutdownCommitted false
               |> st_set_RecoveryStarted false |> st_set_FailedSafeReason "" in
  _ ← wrap_err "persist new outage transaction: " (Policy_Write st);
  snapshotHosts true.

(** *** Direct shutdowns *)

Definition enterShutdownFailedSafe (id : string) (hs : HostState) (reason : string) : GoC unit :=
  let hs := hs |> hs_set_ShutdownState ShutdownFailed |> hs_set_LastError reason in
  st ← Policy_State;
  _ ← Policy_Write (cloneState st |> st_put_host id hs |> st_set_PowerState FailedSafe
                      |> st_set_FailedSafeReason ("host " +:+ id +:+ ": " +:+ reason));
  mret ().

(** [hs = c.Policy.State().Hosts[id]] *)
Definition current_host (id : string) : GoC HostState :=
  st ← Policy_State; mret (host_at st id).

(** Persist a host state that leaves the host unsettled. *)
Definition retry_pending (id : string) (hs : HostState) : GoC unit :=
  _ ← persistHost id hs; throw errDirectShutdownRetryPending.

Definition fail_safe (id : string) (hs : HostState) (reason : string) : GoC unit :=
  _ ← enterShutdownFailedSafe id hs reason; throw errDirectShutdownFailedSafe.

(** The wait for the host to go offline, and its result. *)
Definition await_offline (pr : Prober) (h : HostConfig) : GoC unit :=
  r ← attempt (ask_error (EvWait h false) (λ l, pr_Wait pr l h false));
  hs ← current_host (h_ID h);
  match r with
  | inl e => retry_pending (h_ID h)
               (hs |> hs_set_ShutdownState ShutdownUnknown |> hs_set_LastError (err_msg e)
                   |> hs_set_LastVerification "unknown")
  | inr _ => persistHost (h_ID h)
               (hs |> hs_set_ShutdownState ShutdownCompleted |> hs_set_LastError ""
                   |> hs_set_LastVerification "offline")
  end.

(** One shutdown request: persist the attempt, send it, record the answer. *)
Definition request_shutdown (pr : Prober) (shutdown : Log → HostConfig → result ShutdownDisposition)
    (tx : string) (h : HostConfig) (hs : HostState) : GoC unit :=
  let id := h_ID h in
  if (maxDirectShutdownAttempts <=? hs_ShutdownAttempts hs)%Z
  then fail_safe id hs ("direct shutdown exhausted " +:+ pretty maxDirectShutdownAttempts +:+
                        " attempts while host is still online")
  else
    let n := (hs_ShutdownAttempts hs + 1)%Z in
    _ ← persistHost id (hs |> hs_set_ShutdownAttempts n |> hs_set_ShutdownState ShutdownRequested
                           |> hs_set_LastActionID (action_id "shutdown" tx id n) |> hs_set_LastError "");
    r ← attempt (ask (EvShutdown h) (λ l, shutdown l h));
    hs ← current_host id;
    match r with
    | inl e =>
        let hs := hs_set_LastError (err_msg e) hs in
        if (maxDirectShutdownAttempts <=? hs_ShutdownAttempts hs)%Z
        then fail_safe id hs ("direct shutdown exhausted " +:+ pretty maxDirectShutdownAttempts +:+
                              " attempts: " +:+ err_msg e)
        else retry_pending id (hs_set_ShutdownState ShutdownUnknown hs)
    | inr DispNotRequired => persistHost id (hs_set_ShutdownState ShutdownNotRequired hs)
    | inr DispManagedByNUT =>
        throw (Errorf ("pre-FSD host " +:+ id +:+ " unexpectedly delegated to NUT"))
    | inr DispDirectRequested =>
        _ ← persistHost id (hs_set_ShutdownState ShutdownAcknowledged hs);
        if unverifiable h then mret () else await_offline pr h
    | inr (DispOther _) => if unverifiable h then mret () else await_offline pr h
    end.

Definition settleDirect (pr : Prober) (shutdown : Log → HostConfig → result ShutdownDisposition)
    (h : HostConfig) : GoC unit :=
  st ← Policy_State;
  let id := h_ID h in
  let hs := host_at st id in
  if shutdown_is ShutdownCompleted hs || shutdown_is ShutdownNotRequired hs then mret ()
  else if shutdown_is ShutdownFailed hs
  then fail_safe id hs "direct shutdown previously exhausted retries"
  else if shutdown_is ShutdownRequested hs || shutdown_is ShutdownAcknowledged hs || shutdown_is ShutdownUnknown hs
  then
    if unverifiable h
    then retry_pending id (hs |> hs_set_ShutdownState ShutdownUnknown
                              |> hs_set_LastError "cannot reconcile prior shutdown without status probe")
    else
      r ← attempt (ask (EvCheck h) (λ l, pr_Check pr l h));
      let unknown reason :=
        retry_pending id (hs |> hs_set_ShutdownState ShutdownUnknown |> hs_set_LastError reason) in
      match r with
      | inl e => unknown (err_msg e)
      | inr res =>
          if negb (pb_Known res) then unknown "shutdown state probe returned unknown"
          else if negb (pb_Online res)
          then persistHost id (hs |> hs_set_ShutdownState ShutdownCompleted
                                  |> hs_set_LastVerification "offline" |> hs_set_LastError "")
          else request_shutdown pr shutdown (st_TransactionID st) h hs
      end
  else request_shutdown pr shutdown (st_TransactionID st) h hs.

(** The loop over [plan.PreFSD]: [false] when a host is unresolved. *)
Fixpoint settle_hosts (pr : Prober) (shutdown : Log → HostConfig → result ShutdownDisposition)
    (ids : list string) : GoC bool :=
  match ids with
  | [] => mret true
  | id :: ids =>
      r ← attempt (settleDirect pr shutdown (host_config id));
      match r with
      | inr _ => settle_hosts pr shutdown ids
      | inl e =>
          if errors_is "errDirectShutdownRetryPending" e || errors_is "errDirectShutdownFailedSafe" e
          then mret false else throw e
      end
  end.

(** *** The NUT group *)

Fixpoint prepareNUTGroup (pr : Prober) (ids : list string) : GoC unit :=
  match ids with
  | [] => mret ()
  | id :: ids =>
      let h := host_config id in
      hs ← current_host id;
      _ ← (if shutdown_is ShutdownCompleted hs || unverifiable h then mret ()
           else
             r ← attempt (ask (EvCheck h) (λ l, pr_Check pr l h));
             match r with
             | inr res =>
                 when (pb_Known res && negb (pb_Online res))
                   (persistHost id (hs |> hs_set_ShutdownState ShutdownCompleted
                                       |> hs_set_LastVerification "offline"))
             | inl _ => mret ()
             end);
      prepareNUTGroup pr ids
  end.

(** A per-host write whose failure is collected. *)
Definition collect_persist (what id : string) (hs : HostState) : GoC (list error) :=
  r ← attempt (persistHost id hs);
  mret match r with
       | inl e => [Wrapf ("persist " +:+ id +:+ " " +:+ what +:+ ": ") e ""]
       | inr _ => []
       end.

(** [errors.Join] of what the loop collected. *)
Definition join_collected (m : GoC (list error)) : GoC unit :=
  errs ← m;
  match errors_join errs with Some e => throw e | None => mret () end.

Definition markNUTRequested (ids : list string) : GoC unit :=
  join_collected (for_collect (λ id,
    st ← Policy_State;
    let hs := host_at st id in
    if shutdown_is ShutdownCompleted hs then mret []
    else
      let n := (hs_ShutdownAttempts hs + 1)%Z in
      collect_persist "NUT request" id
        (hs |> hs_set_ShutdownAttempts n |> hs_set_ShutdownState ShutdownRequested
            |> hs_set_LastActionID (action_id "fsd" (st_TransactionID st) id n)
            |> hs_set_LastError "")) ids).

Definition maxNUTAttempts (st : State) (ids : list string) : Z :=
  fold_left (λ m id, if (m <? hs_ShutdownAttempts (host_at st id))%Z
                     then hs_ShutdownAttempts (host_at st id) else m) ids 0%Z.

Definition shouldAttemptNUTFSD (now : Time) (tx : string) : GoC bool := λ w,
  let w := if bool_decide (w_nutFSDTransactionID w = tx) then w else w_set_fsd tx zero_time w in
  (w, inr (IsZero (w_nutFSDNextAttempt w) || negb (Before now (w_nutFSDNextAttempt w)))).

Definition scheduleNUTFSDRetry (now : Time) (tx : string) (attempt : Z) (w : World W) : World W :=
  w_set_fsd tx (time_add now (retry_delay attempt)) w.

Definition clearNUTFSDRetry (tx : string) (w : World W) : World W := w_set_fsd tx zero_time w.

(** The states of the group when it is given up. *)
Definition fail_host (reason : string) (st : State) (id : string) : State :=
  let hs := host_at st id in
  if shutdown_is ShutdownCompleted hs then st
  else st_put_host id (hs |> hs_set_ShutdownState ShutdownFailed |> hs_set_LastError reason) st.

Definition enterNUTGroupFailedSafe (ids : list string) (reason : string) : GoC unit :=
  st ← Policy_State;
  let st := fold_left (fail_host reason) ids (cloneState st) in
  _ ← Policy_Write (st |> st_set_PowerState FailedSafe |> st_set_FailedSafeReason reason);
  mret ().

Definition markNUTAcknowledged (ids : list string) : GoC unit :=
  join_collected (for_collect (λ id,
    hs ← current_host id;
    if negb (shutdown_is ShutdownRequested hs) then mret []
    else collect_persist "acknowledgement" id
           (hs |> hs_set_ShutdownState ShutdownAcknowledged |> hs_set_LastError "")) ids).

Definition markNUTError (ids : list string) (cause : error) : GoC unit :=
  join_collected (for_collect (λ id,
    hs ← current_host id;
    if shutdown_is ShutdownCompleted hs then mret []
    else collect_persist "NUT error" id
           (hs |> hs_set_ShutdownState ShutdownUnknown |> hs_set_LastError (err_msg cause))) ids).

Definition verifyNUTGroup (pr : Prober) (ids : list string) : GoC unit :=
  join_collected (for_collect (λ id,
    let h := host_config id in
    hs ← current_host id;
    if shutdown_is ShutdownCompleted hs || unverifiable h then mret []
    else
      r ← attempt (ask_error (EvWait h false) (λ l, pr_Wait pr l h false));
      hs ← current_host id;
      collect_persist "verification" id
        match r with
        | inl e => hs |> hs_set_ShutdownState ShutdownUnknown |> hs_set_LastError (err_msg e)
                      |> hs_set_LastVerification "unknown"
        | inr _ => hs |> hs_set_ShutdownState ShutdownCompleted |> hs_set_LastError ""
                      |> hs_set_LastVerification "offline"
        end) ids).

(** *** The shutdown phase *)

Definition exhausted_reason : string :=
  "NUT FSD exhausted " +:+ pretty maxNUTFSDShutdownAttempts +:+
  " attempts; native upsmon low-battery shutdown remains the fallback".

Definition FinishShutdown : GoC unit := _ ← Policy_MarkShutdownPhaseComplete; mret ().

(** The request itself and the bookkeeping of its outcome. *)
Definition request_FSD (pr : Prober) (fsd : Log → string → string → option error)
    (now : Time) (tx : string) (attempt_no : Z) (group : list string) : GoC unit :=
  let ups := nc_UPSName (cf_NUT cfg) in
  r ← attempt (ask_error (EvFSD ups upsmonPath) (λ l, fsd l ups upsmonPath));
  match r with
  | inl e =>
      p ← attempt (markNUTError group e);
      match p with
      | inl persistErr =>
          throw (JoinErr [Wrapf "request FSD: " e ""; Wrapf "persist NUT FSD failure state: " persistErr ""])
      | inr _ => modify (scheduleNUTFSDRetry now tx attempt_no)
      end
  | inr _ =>
      _ ← modify (clearNUTFSDRetry tx);
      _ ← wrap_err "persist NUT FSD acknowledgement: " (markNUTAcknowledged group);
      _ ← wrap_err "persist NUT shutdown verification: " (verifyNUTGroup pr group);
      FinishShutdown
  end.

Definition shutdown_NUT_group (pr : Prober) (now : Time) (group : list string) : GoC unit :=
  match env_FSD env with
  | None => throw (Errorf "FSD requester is required for NUT-managed hosts")
  | Some fsd =>
      if bool_decide (nc_Profile (cf_NUT cfg) = "remote-client")
      then throw (Errorf "remote-client profile cannot request FSD")
      else
        _ ← prepareNUTGroup pr group;
        st ← Policy_State;
        let attempts := maxNUTAttempts st group in
        if (maxNUTFSDShutdownAttempts <=? attempts)%Z
        then enterNUTGroupFailedSafe group exhausted_reason
        else
          let tx := st_TransactionID st in
          go ← shouldAttemptNUTFSD now tx;
          if negb go then mret ()
          else
            _ ← wrap_err "persist NUT FSD request state: " (markNUTRequested group);
            request_FSD pr fsd now tx (attempts + 1)%Z group
  end.

Definition shutdown_plan : ShutdownPlan := BuildShutdownPlan (toHostConfigs (cf_Hosts cfg)).

Definition executeShutdown (now : Time) : GoC unit :=
  match env_Probe env, env_Shutdown env with
  | Some pr, Some shutdown =>
      settled ← settle_hosts pr shutdown (PreFSD shutdown_plan);
      if negb settled then mret ()
      else if bool_decide (NUTGroup shutdown_plan = []) then FinishShutdown
      else shutdown_NUT_group pr now (NUTGroup shutdown_plan)
  | _, _ => throw (Errorf "shutdown dependencies are required")
  end.

(** *** The recovery phase *)

#[local] Instance World_RecoveryIO : RecoveryIO (World W) := {
  rio_Online id := ask (EvOnline id) (λ l, env_Online env l id);
  rio_Wake id := ask_error (EvWake id) (λ l, env_Wake env l id);
  rio_Write := Policy_Write;
  rio_share id hs := λ w, share_hosts (<[id := hs]> (hosts_of (w_State w))) w;
}.

Definition FinishRecovery : GoC unit :=
  _ ← modify resetRecoveryWakeDelay;
  _ ← Policy_MarkRecoveryComplete;
  mret ().

(** Fail the hosts whose dependencies failed; the map is the engine's. *)
Definition block_recovery (hosts : list HostPlan.Config) : GoC unit :=
  st ← Policy_State;
  let '(states, changed) := markBlockedRecovery hosts (hosts_of st) in
  when changed
    (_ ← modify (share_hosts states);
     _ ← Policy_Write (st_set_Hosts (Some states) st);
     mret ()).

(** Whether the wake of [next] has to wait for the one before it. *)
Definition wake_delayed (now : Time) (next : HostPlan.Config) (states : gmap string HostState) : GoC bool := λ w,
  let delay := duration_of (hc_WakeDelayAfterPreviousSeconds next) Second in
  let waits (w : World W) :=
    (0 <? delay)%Z && negb (IsZero (w_lastRecoveryWakeAt w))
    && negb (bool_decide (hc_ID next = w_lastRecoveryWakeHostID w))
    && (time_sub now (w_lastRecoveryWakeAt w) <? delay)%Z in
  if negb (w_resumeWakeDelayEvaluated w) then
    let w := w_set_evaluated true w in
    if recoveryHasPriorWake states && (0 <? delay)%Z
    then (w_set_wake now "__resume__" w, inr true)
    else (w, inr (waits w))
  else (w, inr (waits w)).

(** One [RunNext] and what follows it. *)
Definition run_next (now : Time) (r : RecoveryExecutor) (hosts : list HostPlan.Config)
    (st : State) (beforeAttempts : Z) : GoC unit :=
  res ← RunNext r (cloneState st) hosts;
  let '(_, id, err) := res in
  after ← Policy_State;
  _ ← when (negb (bool_decide (id = "")) && (beforeAttempts <? hs_WakeAttempts (host_at after id))%Z)
        (modify (w_set_wake now id));
  match err with
  | Some e => if negb (bool_decide (id = "")) then mret () else throw e
  | None =>
      if bool_decide (id = "") && recoverySettled hosts (hosts_of after)
      then FinishRecovery else mret ()
  end.

Definition executeRecoveryStep (now : Time) : GoC unit :=
  match env_Recovery env with
  | None => throw (Errorf "recovery runner is required")
  | Some r =>
      let hosts := toHostConfigs (cf_Hosts cfg) in
      _ ← block_recovery hosts;
      st ← Policy_State;
      if recoverySettled hosts (hosts_of st) then FinishRecovery
      else match NextRecoveryHost hosts (hosts_of st) with
      | inl e => throw e
      | inr None => run_next now r hosts st 0%Z
      | inr (Some next) =>
          delayed ← wake_delayed now next (hosts_of st);
          if delayed : bool then mret ()
          else run_next now r hosts st (hs_WakeAttempts (host_at st (hc_ID next)))
      end
  end.

(** *** One tick *)

(** What follows a decision, by its action. *)
Definition act_on (now : Time) (i : Inputs) (d : Decision) : GoC unit :=
  let continue_phase :=
    st ← Policy_State;
    _ ← when (bool_decide (st_PowerState st = ShutdownInProgress) && bool_decide (dec_Action d = ActionNone))
          (executeShutdown now);
    st ← Policy_State;
    when (bool_decide (st_PowerState st = RestoreHosts) && bool_decide (dec_Action d = ActionNone))
      (executeRecoveryStep now) in
  match dec_Action d with
  | ActionCommitShutdown =>
      _ ← Policy_Step now i;
      _ ← executeShutdown now;
      continue_phase
  | ActionStartRestore => _ ← executeRecoveryStep now; continue_phase
  | ActionStopRecovery =>
      st ← Policy_State;
      when (bool_decide (st_PowerState st = OnBattery)) beginFreshOutage
  | _ => continue_phase
  end.

Definition Tick (now : Time) (i : Inputs) : GoC Decision :=
  before ← Policy_State;
  d ← Policy_Step now i;
  after ← Policy_State;
  _ ← (if bool_decide (st_PowerState before = Normal) && bool_decide (st_PowerState after = OnBattery)
       then beginFreshOutage
       else if bool_decide (st_PowerState before = BootReconcile) && bool_decide (st_PowerState after = OnBattery)
       then snapshotHosts false
       else mret ());
  _ ← act_on now i d;
  mret d.
End controller.
