(* ===== verification/HostAdapters.v ===== *)
(** * Probing and shutting down a host ([agent/internal/host])

    status.go: one probe of a host and the wait for consecutive confirmations.
    shutdown.go: the shutdown executor and its SSH command.
    armed_runtime_validation.go: which configurations may run armed, and which
    hosts a start leaves out.  orchestrator/adapters.go: the same as
    collaborators of a controller.  The network, the processes run and the files
    looked at are records of answers. *)

From Stdlib Require Import Ascii.
From S2P Require Import Prelude GoStrings PowerStateModel Nut HostPlan.
From S2P Require Import ConfigModel ConfigValidate Orchestrator.

(** ** Endpoints *)

Definition blanks : string := String.string_of_list_ascii (bytes [32; 9; 13; 10]).
Definition line_ends : string := String.string_of_list_ascii (bytes [13; 10]).

Definition validateEndpoint (v : string) : option error :=
  let v := TrimSpace v in
  if bool_decide (v = "") then Some (Errorf "host address is required")
  else if HasPrefix v "-" || ContainsAny v blanks then Some (Errorf "host address contains unsafe characters")
  else None.

(** ** One probe *)

(** How running a command ended: nil, an [*exec.ExitError], another error. *)
Inductive CommandErr : Type := CmdOk | CmdExit (e : error) | CmdOther (e : error).

(** What one probe meets: the dialer, the ping process, and the two contexts
    after the call. *)
Record ProbeNet : Type := mkProbeNet {
  pn_dial : string → option error;
  pn_ping : string → string → CommandErr;
  pn_ctxErr : option error;
  pn_probeDeadline : bool;
}.

(** [net.JoinHostPort] *)
Definition JoinHostPort (host : string) (port : Z) : string :=
  if bool_decide (":"%char ∈ String.list_ascii_of_string host)
  then "[" +:+ host +:+ "]:" +:+ pretty port else host +:+ ":" +:+ pretty port.

(** [method "auto"] is resolved by the port. *)
Definition probe_method (cfg : StatusConfig) : string :=
  if bool_decide (sc_Method cfg = "auto")
  then (if bool_decide (is_Some (sc_Port cfg)) then "tcp" else "ping") else sc_Method cfg.

Definition probe_timeout (cfg : StatusConfig) : Duration :=
  let timeout := duration_of (sc_TimeoutMS cfg) Millisecond in
  if (timeout <=? 0)%Z then Second else timeout.

(** [int(math.Ceil(timeout.Seconds()))], at least 1 *)
Definition ping_seconds (timeout : Duration) : Z :=
  let seconds := ((timeout + Second - 1) / Second)%Z in if (seconds <? 1)%Z then 1%Z else seconds.

Definition known (online : bool) : ProbeResult := mkProbeResult true online.
Definition unknown_probe : ProbeResult := mkProbeResult false false.

Definition check_tcp (net : ProbeNet) (address : string) (cfg : StatusConfig) : result ProbeResult :=
  match sc_Port cfg with
  | Some port =>
      if port_invalid port then inl (Errorf "TCP status requires a valid port")
      else match pn_dial net (JoinHostPort address port) with
           | Some _ => match pn_ctxErr net with Some e => inl e | None => inr (known false) end
           | None => inr (known true)
           end
  | None => inl (Errorf "TCP status requires a valid port")
  end.

Definition check_ping (net : ProbeNet) (address : string) (cfg : StatusConfig) : result ProbeResult :=
  match pn_ping net (pretty (ping_seconds (probe_timeout cfg))) address with
  | CmdOk => inr (known true)
  | err =>
      match pn_ctxErr net with
      | Some e => inl e
      | None =>
          match err with
          | CmdExit _ => inr (known false)
          | CmdOther e => if pn_probeDeadline net then inr (known false) else inl (Wrapf "ping probe: " e "")
          | CmdOk => inr (known true)
          end
      end
  end.

(** [StatusChecker.Check] *)
Definition Check (net : ProbeNet) (address : string) (cfg : StatusConfig) : result ProbeResult :=
  let method := probe_method cfg in
  if bool_decide (method = "none") then inr unknown_probe
  else match validateEndpoint address with
  | Some e => inl e
  | None =>
      if bool_decide (method = "tcp") then check_tcp net address cfg
      else if bool_decide (method = "ping") then check_ping net address cfg
      else if bool_decide (method = "arp") then inl (Errorf "ARP status is not implemented for armed mode")
      else inl (Errorf ("unsupported status method " +:+ Quote method))
  end.

(** ** Waiting for confirmations *)

Definition needed (cfg : StatusConfig) : Z := if (sc_SuccessConsecutive cfg <=? 0)%Z then 3%Z else sc_SuccessConsecutive cfg.

(** A round of the loop: what the probe meets, and whether the context or the
    timer ends the pause after it. *)
Record Round : Type := mkRound { rd_net : ProbeNet; rd_done : option error }.

(** [WaitForConsecutive] over the rounds that happen; [None] while it waits. *)
Fixpoint wait_rounds (address : string) (cfg : StatusConfig) (wantOnline : bool) (streak : Z) (rounds : list Round)
  : option (option error) :=
  match rounds with
  | [] => None
  | r :: rounds =>
      match Check (rd_net r) address cfg with
      | inl e => Some (Some e)
      | inr res =>
          let confirmed := pb_Known res && Bool.eqb (pb_Online res) wantOnline in
          let streak := if confirmed then (streak + 1)%Z else 0%Z in
          if confirmed && (needed cfg <=? streak)%Z then Some None
          else match rd_done r with
               | Some e => Some (Some e)
               | None => wait_rounds address cfg wantOnline streak rounds
               end
      end
  end.

Definition WaitForConsecutive (address : string) (cfg : StatusConfig) (wantOnline : bool) (rounds : list Round)
  : option (option error) := wait_rounds address cfg wantOnline 0 rounds.

(** ** The shutdown executor *)

Definition knownHostsPath : string := "/etc/cockpit-ups-wol/known_hosts".

(** The arguments of the [ssh] process, or why there is none. *)
Definition ssh_arguments (h : HostConfig) : result (list string) :=
  match h_Address h with
  | None => inl (Errorf "SSH shutdown requires host address")
  | Some address =>
  match validateEndpoint address with
  | Some e => inl e
  | None =>
  match sd_SSHUser (h_Shutdown h), sd_SSHKeyFile (h_Shutdown h) with
  | Some user, Some key =>
      let user := TrimSpace user in
      let key := TrimSpace key in
      if bool_decide (user = "") || HasPrefix user "-" || ContainsAny user ("@" +:+ blanks)
      then inl (Errorf "unsafe SSH user")
      else if bool_decide (key = "") || HasPrefix key "-" || ContainsAny key line_ends
      then inl (Errorf "unsafe SSH key path")
      else inr ["-o"; "BatchMode=yes"; "-o"; "StrictHostKeyChecking=yes";
                "-o"; "UserKnownHostsFile=" +:+ knownHostsPath; "-o"; "GlobalKnownHostsFile=/dev/null";
                "-o"; "IdentitiesOnly=yes"; "-o"; "ConnectTimeout=10"; "-i"; key; user +:+ "@" +:+ address;
                "sudo"; "-n"; "/sbin/shutdown"; "-h"; "now"]
  | _, _ => inl (Errorf "SSH shutdown requires ssh_user and ssh_key_file")
  end end end.

(** [run]: what running a command prints, and how it ends. *)
Definition shutdownSSH (run : string → list string → string * CommandErr) (h : HostConfig) : result ShutdownDisposition :=
  match ssh_arguments h with
  | inl e => inl e
  | inr args =>
      match run "ssh" args with
      | (_, CmdOk) => inr DispDirectRequested
      | (out, CmdExit e) => inl (Wrapf "SSH shutdown failed: " e (": " +:+ TrimSpace out))
      | (_, CmdOther e) => inl (Wrapf "SSH shutdown failed: " e "")
      end
  end.

(** [ShutdownExecutor.Shutdown] *)
Definition Shutdown (run : string → list string → string * CommandErr) (h : HostConfig) : result ShutdownDisposition :=
  let method := sd_Method (h_Shutdown h) in
  if bool_decide (method = "none") then inr DispNotRequired
  else if bool_decide (method = "nut") then inr DispManagedByNUT
  else if bool_decide (method = "command")
  then inl (Errorf "command shutdown is disabled until an explicit command registry is implemented")
  else if bool_decide (method = "ssh") then shutdownSSH run h
  else inl (Errorf ("unsupported shutdown method " +:+ Quote method)).

(** ** What may run armed *)

(** [for ... { if err := check(x); err != nil { return err } }] *)
Fixpoint first_error {A} (check : A → option error) (l : list A) : option error :=
  match l with
  | [] => None
  | x :: l => match check x with Some e => Some e | None => first_error check l end
  end.

Definition dependency_capable (dep : DependencyConfig) : option error :=
  let named msg := Some (Errorf ("network dependency " +:+ Quote (dp_ID dep) +:+ " " +:+ msg)) in
  if bool_decide (sc_Method (dp_Status dep) = "arp") then named "uses unsupported armed status method arp"
  else match dp_Address dep with
  | None => named "cannot be verified in armed mode"
  | Some address =>
      if bool_decide (sc_Method (dp_Status dep) = "none") || bool_decide (TrimSpace address = "")
      then named "cannot be verified in armed mode"
      else match validateEndpoint address with
      | Some e => Some (Wrapf ("network dependency " +:+ Quote (dp_ID dep) +:+ ": ") e "")
      | None =>
          if bool_decide (dp_Startup dep = "wol")
          then named "uses startup=wol, which is disabled until dependency wake state is durable" else None
      end
  end.

Definition host_named (h : HostConfig) (msg : string) : option error :=
  Some (Errorf ("host " +:+ Quote (h_ID h) +:+ " " +:+ msg)).

Definition shutdown_capable (h : HostConfig) : option error :=
  let method := sd_Method (h_Shutdown h) in
  if bool_decide (method = "none") || bool_decide (method = "nut") then None
  else if bool_decide (method = "ssh") then
    match h_Address h with
    | None => host_named h "SSH shutdown has no address"
    | Some address =>
        match validateEndpoint address with
        | Some e => Some (Wrapf ("host " +:+ Quote (h_ID h) +:+ ": ") e "")
        | None => match sd_SSHUser (h_Shutdown h), sd_SSHKeyFile (h_Shutdown h) with
                  | Some _, Some _ => None
                  | _, _ => host_named h "SSH shutdown is incomplete"
                  end
        end
    end
  else if bool_decide (method = "command")
  then host_named h "uses command shutdown, which is not available until the command registry is implemented"
  else host_named h ("uses unsupported shutdown method " +:+ Quote method).

Definition wake_capable (recovery : bool) (h : HostConfig) : option error :=
  if recovery && wk_Enabled (h_Wake h) then
    if bool_decide (h_Address h = None) || bool_decide (sc_Method (h_Status h) = "none")
    then host_named h "wake is enabled but online state cannot be verified"
    else if nilOrEmpty (wk_MAC (h_Wake h)) then host_named h "wake is enabled without a MAC address"
    else if nilOrEmpty (wk_Broadcast (h_Wake h)) then host_named h "wake is enabled without an IPv4 broadcast address"
    else None
  else None.

Definition host_capable (recovery : bool) (h : HostConfig) : option error :=
  if bool_decide (sc_Method (h_Status h) = "arp") then host_named h "uses unsupported armed status method arp"
  else match shutdown_capable h with
       | Some e => Some e
       | None => wake_capable recovery h
       end.

Definition validateStaticArmedCapabilities (cfg : ConfigModel.Config) : option error :=
  match first_error dependency_capable (cf_Dependencies cfg) with
  | Some e => Some e
  | None => first_error (host_capable (rc_Enabled (cf_Recovery cfg))) (cf_Hosts cfg)
  end.

(** ** Local prerequisites of SSH *)

(** [os.Stat] of the key, and [ssh-keygen -F]. *)
Record Local : Type := mkLocal {
  lc_stat : string → result (bool * Z);                    (* regular file, permission bits *)
  lc_keygen : string → string → string * CommandErr;
  lc_keygenMissing : bool;                                 (* the error is exec.ErrNotFound *)
}.

Definition validateKnownHost (lc : Local) (address path : string) : option error :=
  let '(out, err) := lc_keygen lc (TrimSpace address) path in
  let failed := match err with CmdOk => false | _ => true end in
  if failed || bool_decide (TrimSpace out = "") then
    if failed && lc_keygenMissing lc
    then Some (Errorf "ssh-keygen is unavailable; install the OpenSSH client tools")
    else Some (Errorf ("no pinned host key for " +:+ Quote address +:+ " in " +:+ path +:+
                       "; enroll and verify the host key before arming"))
  else None.

Definition validateSSHLocalPrerequisitesAt (lc : Local) (address keyPath hostsPath : string) : option error :=
  let keyPath := TrimSpace keyPath in
  match lc_stat lc keyPath with
  | inl e => Some (Wrapf ("SSH key " +:+ keyPath +:+ " is not readable: ") e "")
  | inr (regular, perm) =>
      if negb regular then Some (Errorf ("SSH key " +:+ keyPath +:+ " is not a regular file"))
      else if negb (Z.land perm 18 =? 0)%Z
      then Some (Errorf ("SSH key " +:+ keyPath +:+ " must not be group/world writable"))
      else validateKnownHost lc address hostsPath
  end.

Definition validateSSHLocalPrerequisites (lc : Local) (address keyPath : string) : option error :=
  validateSSHLocalPrerequisitesAt lc address keyPath knownHostsPath.

(** One turn of the loop in [RuntimeArmedExclusions]; [None] is the panic of
    dereferencing a nil [Address] or [SSHKeyFile]. *)
Definition exclude_host (lc : Local) (excluded : gmap string string) (h : HostConfig) : option (gmap string string) :=
  if negb (bool_decide (sd_Method (h_Shutdown h) = "ssh")) then Some excluded
  else match h_Address h, sd_SSHKeyFile (h_Shutdown h) with
       | Some address, Some key =>
           Some match validateSSHLocalPrerequisites lc address key with
                | Some e => <[h_ID h := err_msg e]> excluded
                | None => excluded
                end
       | _, _ => None
       end.

Fixpoint exclude_hosts (lc : Local) (excluded : gmap string string) (hosts : list HostConfig) : option (gmap string string) :=
  match hosts with
  | [] => Some excluded
  | h :: hosts => excluded ← exclude_host lc excluded h; exclude_hosts lc excluded hosts
  end.

Definition RuntimeArmedExclusions (lc : Local) (cfg : ConfigModel.Config) : option (result (gmap string string)) :=
  match validateStaticArmedCapabilities cfg with
  | Some e => Some (inl e)
  | None => inr <$> exclude_hosts lc ∅ (cf_Hosts cfg)
  end.

(** [ValidateArmedCapabilities] *)
Definition ValidateArmedCapabilities (lc : Local) (cfg : ConfigModel.Config) : option (option error) :=
  r ← RuntimeArmedExclusions lc cfg;
  match r with
  | inl e => Some (Some e)
  | inr excluded =>
      Some (errors_join (omap (λ h, (λ reason, Wrapf ("host " +:+ Quote (h_ID h) +:+ " SSH shutdown prerequisite: ")
                                                 (Errorf reason) "") <$> excluded !! h_ID h) (cf_Hosts cfg)))
  end.

(** ** The configuration of this process *)

Definition without_actions (h : HostConfig) : HostConfig :=
  let sd := h_Shutdown h in
  let wk := h_Wake h in
  mkHostConfig (h_ID h) (h_Name h) (h_Address h) (h_DependsOn h) (h_Status h)
    (mkShutdownConfig "none" (sd_Priority sd) (sd_TimeoutSeconds sd) (sd_SSHUser sd) (sd_SSHKeyFile sd) (sd_CommandID sd))
    (mkWakeConfig false (wk_MAC wk) (wk_Interface wk) (wk_Broadcast wk) (wk_Port wk) (wk_Priority wk)
       (wk_DelayAfterPreviousSeconds wk) (wk_MaxAttempts wk))
    (h_RestorePolicy h).

Definition runtime_host (excluded : gmap string string) (h : HostConfig) : HostConfig :=
  match excluded !! h_ID h with Some _ => without_actions h | None => h end.

Definition RuntimeConfigWithExclusions (cfg : ConfigModel.Config) (excluded : gmap string string) : ConfigModel.Config :=
  if bool_decide (excluded = ∅) then cfg
  else mkConfig (cf_ConfigVersion cfg) (cf_Mode cfg) (cf_NUT cfg) (cf_Outage cfg) (cf_Controller cfg)
         (cf_Recovery cfg) (cf_Health cfg) (cf_Dependencies cfg) (runtime_host excluded <$> cf_Hosts cfg).

(** ** Ready-made collaborators of the controller ([orchestrator/adapters.go])

    The armed agent has its own ones ([Armed]); these are for other programs. *)

Definition HostProbe_Check (net : ProbeNet) (h : HostConfig) : result ProbeResult :=
  match h_Address h with
  | None => inr unknown_probe
  | Some address => Check net address (h_Status h)
  end.

(** [None]: the wait goes on. *)
Definition HostProbe_Wait (rounds : list Round) (h : HostConfig) (want : bool) : option (option error) :=
  match h_Address h with
  | None => Some (Some (Errorf ("host " +:+ h_ID h +:+ " has no address for verification")))
  | Some address => WaitForConsecutive address (h_Status h) want rounds
  end.

Definition HostShutdown_Shutdown (run : string → list string → string * CommandErr) (h : HostConfig) : result ShutdownDisposition :=
  Shutdown run h.

(** With the commands that were run. *)
Definition NUTFSD_RequestFSD (client : option Client) (file : result string) (upsName : string)
  : option error * list (string * list string) :=
  match client with
  | None => (Some (Errorf "NUT client is nil"), [])
  | Some c => RequestFSD c file upsName
  end.
