(* ===== verification/HostAdapterFacts.v ===== *)
(** * Guarantees of the host adapters

    What a probe may claim, what a completed wait means, which commands the
    SSH shutdown can run, and that a host left out at start is neither shut
    down nor woken while the others are planned as before. *)

From Stdlib Require Import Ascii.
From S2P Require Import Prelude StableSort GoStrings PowerStateModel HostPlan HostPlanFacts.
From S2P Require Import ConfigModel ConfigValidate ConfigFacts Orchestrator HostAdapters.

(** ** Probes *)

(** The host answered the probe the configuration asks for. *)
Definition answered (net : ProbeNet) (address : string) (cfg : StatusConfig) : Prop :=
  (probe_method cfg = "tcp" ∧ ∃ port, sc_Port cfg = Some port ∧ pn_dial net (JoinHostPort address port) = None) ∨
  (probe_method cfg = "ping" ∧ pn_ping net (pretty (ping_seconds (probe_timeout cfg))) address = CmdOk).

(** A probe claims to know a host's state only after probing it: the
    address is safe to pass to a command, the host is reported online exactly
    when it answered, and offline only when it did not and the caller had not
    cancelled.  A method that cannot observe the host never claims anything. *)
Theorem Check_claims net address cfg res :
  Check net address cfg = inr res → pb_Known res = true →
  validateEndpoint address = None ∧
  (pb_Online res = true → answered net address cfg) ∧
  (pb_Online res = false → ¬ answered net address cfg ∧ pn_ctxErr net = None).
Proof.
  unfold Check, answered. case_bool_decide as Hn; [by intros [= <-]|].
  destruct (validateEndpoint address); [done|]. case_bool_decide as Ht; [|case_bool_decide as Hp].
  - unfold check_tcp. destruct (sc_Port cfg) as [port|]; [|done]. destruct (port_invalid port); [done|].
    destruct (pn_dial net (JoinHostPort address port)) as [e|] eqn:Hd.
    + destruct (pn_ctxErr net) eqn:Hc; [done|]. intros [= <-] _. split_and!; [done..|].
      intros _. split; [|done]. intros [(_ & port' & [= <-] & ?)|[? ?]]; congruence.
    + intros [= <-] _. split_and!; [done| |done]. intros _. left. by eauto.
  - unfold check_ping. destruct (pn_ping net _ address) as [|e|e] eqn:Hrun.
    + intros [= <-] _. split_and!; [done| |done]. intros _. right. done.
    + destruct (pn_ctxErr net) eqn:Hc; [done|]. intros [= <-] _. split_and!; [done..|].
      intros _. split; [|done]. intros [[? _]|[_ ?]]; congruence.
    + destruct (pn_ctxErr net) eqn:Hc; [done|]. destruct (pn_probeDeadline net); [|done].
      intros [= <-] _. split_and!; [done..|]. intros _. split; [|done]. intros [[? _]|[_ ?]]; congruence.
  - case_bool_decide; done.
Qed.

(** ** Waiting *)

Definition confirms (address : string) (cfg : StatusConfig) (want : bool) (r : Round) : Prop :=
  Check (rd_net r) address cfg = inr (known want).

Lemma needed_pos cfg : (1 ≤ needed cfg)%Z.
Proof. unfold needed. destruct (sc_SuccessConsecutive cfg <=? 0)%Z eqn:H; lia. Qed.

Lemma confirmed_iff address cfg want r res :
  Check (rd_net r) address cfg = inr res → pb_Known res && Bool.eqb (pb_Online res) want = true ↔ confirms address cfg want r.
Proof.
  intros Hc. unfold confirms, known. rewrite Hc, andb_true_iff, eqb_true_iff.
  destruct res as [k o]. simpl. split; [by intros [-> ->]|by intros [= -> ->]].
Qed.

(** The rounds so far end with [streak] confirmations. *)
Lemma wait_rounds_confirmed address cfg want streak before rounds :
  (0 ≤ streak)%Z → (∃ pre recent, before = pre ++ recent ∧ Z.of_nat (length recent) = streak ∧ Forall (confirms address cfg want) recent) →
  wait_rounds address cfg want streak rounds = Some None →
  ∃ pre recent post, before ++ rounds = pre ++ recent ++ post ∧
    Z.of_nat (length recent) = needed cfg ∧ Forall (confirms address cfg want) recent.
Proof.
  revert streak before. induction rounds as [|r rounds IH]; intros streak before Hs (pre & recent & -> & Hlen & Hall); simpl; [done|].
  destruct (Check (rd_net r) address cfg) as [e|res] eqn:Hc; [done|].
  pose proof (confirmed_iff address cfg want r res Hc) as Hiff.
  assert (Hassoc : (pre ++ recent) ++ r :: rounds = ((pre ++ recent) ++ [r]) ++ rounds) by by rewrite <-!app_assoc.
  destruct (pb_Known res && Bool.eqb (pb_Online res) want); simpl.
  - assert (Hr : Forall (confirms address cfg want) (recent ++ [r])).
    { apply Forall_app. split; [done|]. constructor; [by apply Hiff|constructor]. }
    assert (Hl : Z.of_nat (length (recent ++ [r])) = (streak + 1)%Z) by (rewrite length_app; simpl; lia).
    destruct (needed cfg <=? streak + 1)%Z eqn:Hn.
    + intros _. set (k := Z.to_nat (streak + 1 - needed cfg)). pose proof (needed_pos cfg).
      exists (pre ++ take k (recent ++ [r])), (drop k (recent ++ [r])), rounds. split_and!.
      * rewrite Hassoc, <-!app_assoc. f_equal. rewrite !app_assoc, take_drop. by rewrite <-!app_assoc.
      * rewrite length_drop. lia.
      * by apply Forall_drop.
    + destruct (rd_done r); [done|]. rewrite Hassoc. apply (IH (streak + 1)%Z); [lia|].
      exists pre, (recent ++ [r]). by rewrite <-app_assoc.
  - destruct (rd_done r); [done|]. rewrite Hassoc. apply (IH 0%Z); [lia|].
    exists ((pre ++ recent) ++ [r]), []. by rewrite app_nil_r.
Qed.

(** [WaitForConsecutive] returns without an error only after the
    configured number of consecutive probes (three when it is not set) all
    found the host in the wanted state; a single unknown, failed or contrary
    probe starts the count over. *)
Theorem wait_needs_consecutive_confirmations address cfg want rounds :
  WaitForConsecutive address cfg want rounds = Some None →
  ∃ pre recent post, rounds = pre ++ recent ++ post ∧
    Z.of_nat (length recent) = needed cfg ∧ Forall (confirms address cfg want) recent.
Proof.
  intros Hw. apply (wait_rounds_confirmed address cfg want 0 [] rounds); [lia| |done].
  exists [], []. split_and!; [done..|constructor].
Qed.

(** Enough confirmations in a row complete the wait. *)
Lemma wait_rounds_complete address cfg want streak rounds :
  (0 ≤ streak)%Z → Forall (confirms address cfg want) rounds → Forall (λ r, rd_done r = None) rounds →
  (needed cfg ≤ streak + Z.of_nat (length rounds))%Z → rounds ≠ [] →
  wait_rounds address cfg want streak rounds = Some None.
Proof.
  intros Hs Hall Hdone Hn Hne. revert streak Hs Hn. induction rounds as [|r rounds IH]; intros streak Hs Hn; [done|].
  apply Forall_cons in Hall as [Hr Hall]. apply Forall_cons in Hdone as [Hd Hdone]. simpl in *. unfold confirms in Hr.
  rewrite Hr. simpl. rewrite eqb_reflx. simpl. destruct (needed cfg <=? streak + 1)%Z eqn:Hle; [done|]. rewrite Hd.
  apply IH; [done..| |lia|lia]. intros ->. simpl in Hn. lia.
Qed.

(** ** SSH *)

Definition safe_word (forbidden s : string) : Prop :=
  s ≠ "" ∧ HasPrefix s "-" = false ∧ ContainsAny s forbidden = false.

(** The SSH shutdown runs one fixed command or none: when it has
    arguments they are the hardened options, the key, [user@address] and
    [sudo -n /sbin/shutdown -h now], where the user holds neither blanks nor
    an [@] and neither user, key nor address can be read as an option; and it
    reports the request as made only when that command succeeded. *)
Theorem ssh_command_is_fixed run h :
  match ssh_arguments h with
  | inl e => shutdownSSH run h = inl e
  | inr args =>
      ∃ user key address,
        safe_word ("@" +:+ blanks) user ∧ safe_word line_ends key ∧ h_Address h = Some address ∧
        safe_word blanks (TrimSpace address) ∧
        args = ["-o"; "BatchMode=yes"; "-o"; "StrictHostKeyChecking=yes";
                "-o"; "UserKnownHostsFile=/etc/cockpit-ups-wol/known_hosts"; "-o"; "GlobalKnownHostsFile=/dev/null";
                "-o"; "IdentitiesOnly=yes"; "-o"; "ConnectTimeout=10"; "-i"; key; user +:+ "@" +:+ address;
                "sudo"; "-n"; "/sbin/shutdown"; "-h"; "now"] ∧
        (shutdownSSH run h = inr DispDirectRequested ↔ (run "ssh" args).2 = CmdOk)
  end.
Proof.
  unfold shutdownSSH. destruct (ssh_arguments h) as [e|args] eqn:Ha; [done|]. revert Ha. unfold ssh_arguments.
  destruct (h_Address h) as [address|]; [|done]. destruct (validateEndpoint address) eqn:He; [done|].
  destruct (sd_SSHUser (h_Shutdown h)) as [user|]; [|done]. destruct (sd_SSHKeyFile (h_Shutdown h)) as [key|]; [|done].
  destruct (_ || _) eqn:Hu; [done|]. apply orb_false_iff in Hu as [Hu Hu3]. apply orb_false_iff in Hu as [Hu1 Hu2].
  destruct (_ || _) eqn:Hk; [done|]. apply orb_false_iff in Hk as [Hk Hk3]. apply orb_false_iff in Hk as [Hk1 Hk2].
  intros [= <-]. exists (TrimSpace user), (TrimSpace key), address. rewrite bool_decide_eq_false in Hu1, Hk1.
  revert He. unfold validateEndpoint. case_bool_decide as Hv; [done|]. destruct (_ || _) eqn:Hb; [done|].
  apply orb_false_iff in Hb as [Hb1 Hb2]. intros _. split_and!; try done.
  match goal with |- context [run "ssh" ?a] => destruct (run "ssh" a) as [out [|e|e]] end; done.
Qed.

(** ** Armed capabilities *)

Lemma first_error_None {A} (check : A → option error) l : first_error check l = None ↔ Forall (λ x, check x = None) l.
Proof.
  induction l as [|x l IH]; simpl; [split; [constructor|done]|]. rewrite Forall_cons, <-IH.
  destruct (check x); naive_solver.
Qed.

(** A direct host of an armed configuration is an SSH host with everything
    the executor needs. *)
Lemma shutdown_capable_ssh h :
  shutdown_capable h = None → classify (sd_Method (h_Shutdown h)) = ClassDirect →
  sd_Method (h_Shutdown h) = "ssh" ∧ (∃ a, h_Address h = Some a ∧ validateEndpoint a = None) ∧
  is_Some (sd_SSHUser (h_Shutdown h)) ∧ is_Some (sd_SSHKeyFile (h_Shutdown h)).
Proof.
  unfold shutdown_capable, classify, host_named. repeat case_bool_decide; simpl; try done; try congruence.
  destruct (h_Address h) as [a|]; [|done]. destruct (validateEndpoint a) eqn:He; [done|].
  destruct (sd_SSHUser (h_Shutdown h)), (sd_SSHKeyFile (h_Shutdown h)); try done. by eauto 10.
Qed.

Lemma armed_hosts_capable cfg :
  validateStaticArmedCapabilities cfg = None → Forall (λ h, shutdown_capable h = None) (cf_Hosts cfg).
Proof.
  unfold validateStaticArmedCapabilities. destruct (first_error dependency_capable _); [done|].
  rewrite first_error_None. intros H. eapply Forall_impl; [exact H|]. intros h. unfold host_capable, host_named.
  case_bool_decide; [done|]. by destruct (shutdown_capable h).
Qed.

Lemma exclude_hosts_total lc hosts excluded :
  Forall (λ h, shutdown_capable h = None) hosts → is_Some (exclude_hosts lc excluded hosts).
Proof.
  revert excluded. induction hosts as [|h hosts IH]; intros excluded; [by eexists|].
  rewrite Forall_cons. intros [Hc Hall]. simpl. unfold exclude_host.
  case_bool_decide as Hm; simpl; [|by apply IH].
  destruct (shutdown_capable_ssh h Hc) as (_ & (a & -> & _) & _ & [key ->]).
  { unfold classify. rewrite Hm. done. }
  simpl. by apply IH.
Qed.


(** ** Hosts left out *)

Lemma runtime_host_id excluded h : h_ID (runtime_host excluded h) = h_ID h.
Proof. unfold runtime_host. by destruct (excluded !! h_ID h). Qed.

Lemma runtime_hosts cfg excluded :
  cf_Hosts (RuntimeConfigWithExclusions cfg excluded) = runtime_host excluded <$> cf_Hosts cfg.
Proof.
  unfold RuntimeConfigWithExclusions. case_bool_decide as He; [|done]. subst excluded.
  symmetry. rewrite <-(list_fmap_id (cf_Hosts cfg)) at 2. apply list_fmap_ext. intros _ h _. unfold runtime_host.
  by rewrite lookup_empty.
Qed.

Lemma runtime_ids cfg excluded : h_ID <$> cf_Hosts (RuntimeConfigWithExclusions cfg excluded) = h_ID <$> cf_Hosts cfg.
Proof. rewrite runtime_hosts, <-list_fmap_compose. apply list_fmap_ext. intros. apply runtime_host_id. Qed.

Lemma runtime_kept excluded h : excluded !! h_ID h = None → runtime_host excluded h = h.
Proof. unfold runtime_host. by intros ->. Qed.

Lemma runtime_excluded excluded h r : excluded !! h_ID h = Some r → runtime_host excluded h = without_actions h.
Proof. unfold runtime_host. by intros ->. Qed.

(** The planner's classes after the exclusion. *)
Lemma runtime_class k excluded hosts :
  k ≠ ClassNone →
  filter (λ h, classify (hc_ShutdownMethod h) = k) (toHostConfigs (runtime_host excluded <$> hosts)) =
  filter (λ h, excluded !! hc_ID h = None)
    (filter (λ h, classify (hc_ShutdownMethod h) = k) (toHostConfigs hosts)).
Proof.
  intros Hk. unfold toHostConfigs. induction hosts as [|h hosts IH]; [done|]. rewrite !fmap_cons, !filter_cons, IH.
  destruct (excluded !! h_ID h) as [r|] eqn:He.
  - rewrite (runtime_excluded _ _ _ He). simpl. rewrite (decide_False (P := ClassNone = k)) by congruence.
    destruct (decide (classify _ = k)); [|done]. rewrite filter_cons. simpl. rewrite decide_False; [done|]. by rewrite He.
  - rewrite (runtime_kept _ _ He). destruct (decide (classify _ = k)); [|done].
    rewrite filter_cons. simpl. rewrite decide_True by done. done.
Qed.

Lemma plan_member k less hosts id :
  id ∈ (hc_ID <$> SliceStable less (of_class k hosts)) ↔ ∃ h, h ∈ of_class k hosts ∧ hc_ID h = id.
Proof.
  rewrite list_elem_of_fmap. setoid_rewrite (SliceStable_elem less). naive_solver.
Qed.

Lemma excluded_members k excluded hosts id :
  k ≠ ClassNone →
  (∃ h, h ∈ of_class k (toHostConfigs (runtime_host excluded <$> hosts)) ∧ hc_ID h = id) ↔
  (∃ h, h ∈ of_class k (toHostConfigs hosts) ∧ hc_ID h = id) ∧ excluded !! id = None.
Proof.
  intros Hk. unfold of_class. rewrite runtime_class by done. setoid_rewrite list_elem_of_filter at 1. naive_solver.
Qed.

(** A host left out at start is left alone, and only that host: the
    shutdown plan of the process has the same members as the configured one
    without the excluded hosts, in both groups; an excluded host is never
    eligible for a wake-up, and every other host's settings are unchanged. *)
Theorem excluded_hosts_are_left_alone cfg excluded :
  let plan := BuildShutdownPlan (toHostConfigs (cf_Hosts cfg)) in
  let runtime := cf_Hosts (RuntimeConfigWithExclusions cfg excluded) in
  let plan' := BuildShutdownPlan (toHostConfigs runtime) in
  (∀ id, id ∈ PreFSD plan' ↔ id ∈ PreFSD plan ∧ excluded !! id = None) ∧
  (∀ id, id ∈ NUTGroup plan' ↔ id ∈ NUTGroup plan ∧ excluded !! id = None) ∧
  (∀ h st, h ∈ runtime → is_Some (excluded !! h_ID h) → EligibleForRestore (toHostConfig h) st = false) ∧
  (∀ h, h ∈ cf_Hosts cfg → excluded !! h_ID h = None → h ∈ runtime).
Proof.
  intros plan runtime plan'. unfold plan', plan, runtime. rewrite !BuildShutdownPlan_parts, runtime_hosts. simpl.
  split_and!.
  - intros id. rewrite !plan_member. by apply excluded_members.
  - intros id. rewrite !plan_member. by apply excluded_members.
  - intros h st Hin [r Hr]. apply list_elem_of_fmap in Hin as (h' & -> & _). rewrite runtime_host_id in Hr.
    by rewrite (runtime_excluded _ _ _ Hr).
  - intros h Hin He. apply list_elem_of_fmap. exists h. by rewrite runtime_kept.
Qed.
