(* ===== verification/HostAdapterExample.v ===== *)
(** * Probing, waiting and arming, concretely

    The hosts of the example configuration on a network where everything
    answers, and on one where nothing does. *)

From Stdlib Require Import Ascii.
From S2P Require Import Prelude StableSort GoStrings PowerStateModel HostPlan HostPlanFacts.
From S2P Require Import ConfigModel ConfigValidate ConfigFacts Orchestrator HostAdapters HostAdapterFacts.
From S2P Require Import ConfigExample.

Definition up : ProbeNet := mkProbeNet (λ _, None) (λ _ _, CmdOk) None false.
Definition down : ProbeNet :=
  mkProbeNet (λ _, Some (Errorf "connection refused")) (λ _ _, CmdExit (Errorf "exit status 1")) None false.

Definition tcp_status : StatusConfig := mkStatusConfig "auto" (Some 22%Z) 500 2 0.

Example up_is_online : Check up "192.168.1.20" tcp_status = inr (known true).
Proof. vm_compute. reflexivity. Qed.

Example down_is_offline : Check down "192.168.1.20" ping = inr (known false).
Proof. vm_compute. reflexivity. Qed.

Lemma Check_claims_witness :
  validateEndpoint "192.168.1.20" = None ∧
  (pb_Online (known false) = true → answered down "192.168.1.20" ping) ∧
  (pb_Online (known false) = false → ¬ answered down "192.168.1.20" ping ∧ pn_ctxErr down = None).
Proof.
  apply Check_claims.
  - vm_compute. reflexivity.
  - reflexivity.
Defined.

(** Offline once, then online twice: the wait ends at the third round. *)
Definition rounds : list Round := [mkRound up None; mkRound down None; mkRound up None; mkRound up None].

Lemma wait_needs_consecutive_confirmations_witness :
  ∃ pre recent post, rounds = pre ++ recent ++ post ∧ Z.of_nat (length recent) = needed tcp_status ∧
    Forall (confirms "192.168.1.20" tcp_status true) recent.
Proof. apply wait_needs_consecutive_confirmations. vm_compute. reflexivity. Defined.

(** The key file is there, but no host key is pinned. *)
Definition unpinned : Local := mkLocal (λ _, inr (true, 384%Z)) (λ _ _, ("", CmdExit (Errorf "exit status 1"))) false.

Definition left_out : gmap string string :=
  match RuntimeArmedExclusions unpinned parsed with Some (inr excluded) => excluded | _ => ∅ end.

Example desktop_left_out : map_keys left_out = ["desktop"].
Proof. vm_compute. reflexivity. Qed.

Definition ssh_ok (cmd : string) (args : list string) : string * CommandErr := ("", CmdOk).

Definition ssh_desktop : HostConfig := default desktop (cf_Hosts parsed !! 1).


Lemma excluded_hosts_are_left_alone_witness :
  ¬ ("desktop" ∈ PreFSD (BuildShutdownPlan (toHostConfigs (cf_Hosts (RuntimeConfigWithExclusions parsed left_out))))) ∧
  ssh_desktop ∈ cf_Hosts parsed.
Proof.
  split.
  - intros H. apply (proj1 (excluded_hosts_are_left_alone parsed left_out)) in H as [_ H].
    vm_compute in H. discriminate H.
  - apply (list_elem_of_lookup_2 _ 1). vm_compute. reflexivity.
Defined.
