(* ===== verification/Health.v ===== *)
(** * The health supervisor ([agent/internal/health])

    model.go and supervisor.go: one [Run] loads the durable snapshot, runs the
    checks in order of their names, tries the registered repair of a failing
    one within the circuit's limits, and saves the snapshot.  Checks, repairs
    and the clock answer according to the events so far; the snapshot file
    lives on the file system of the state store, with its renames and faults.
    [MkdirAll], [Chmod], [Close] and opening the directory are calls that may
    fail and change nothing.  The JSON codec is an interface. *)

From S2P Require Import Prelude StableSort GoStrings PowerStateModel Store.

Module health.

(** ** Data *)

(** [Other]: a string that is none of the constants. *)
Inductive State : Type :=
  | Healthy | Degraded | Recovering | ConfigValidating | RollingBack | FailedSafe
  | Other (raw : string).

#[global] Instance State_eq_dec : EqDecision State.
Proof. solve_decision. Defined.

Definition State_string (s : State) : string :=
  match s with
  | Healthy => "HEALTHY"
  | Degraded => "DEGRADED"
  | Recovering => "RECOVERING"
  | ConfigValidating => "CONFIG_VALIDATING"
  | RollingBack => "ROLLING_BACK"
  | FailedSafe => "FAILED_SAFE"
  | Other raw => raw
  end.

Record Result : Type := mkResult {
  rs_Name : string;
  rs_OK : bool;
  rs_Critical : bool;
  rs_Repairable : bool;
  rs_Message : string;
}.

Record RepairRecord : Type := mkRepairRecord {
  rp_Check : string;
  rp_Attempt : Z;
  rp_Result : string;
  rp_Error : string;
}.

Record Circuit : Type := mkCircuit {
  ci_Attempts : gmap string Z;
  ci_NextAllowedUTC : gmap string Time;
  ci_FailedReason : string;
}.

Record Snapshot : Type := mkSnapshot {
  sn_Version : Z;
  sn_State : State;
  sn_CheckedAt : Time;
  sn_Results : list Result;
  sn_Repairs : list RepairRecord;
  sn_Circuit : Circuit;
  sn_Generation : Z;
}.

Definition zeroSnapshot : Snapshot := mkSnapshot 0 Healthy 0 [] [] (mkCircuit ∅ ∅ "") 0.
Definition NewSnapshot : Snapshot := mkSnapshot 1 Healthy 0 [] [] (mkCircuit ∅ ∅ "") 0.

(** Field assignments. *)
Definition sn_set_State v (s : Snapshot) : Snapshot :=
  mkSnapshot (sn_Version s) v (sn_CheckedAt s) (sn_Results s) (sn_Repairs s) (sn_Circuit s) (sn_Generation s).
Definition sn_add_Result r (s : Snapshot) : Snapshot :=
  mkSnapshot (sn_Version s) (sn_State s) (sn_CheckedAt s) (sn_Results s ++ [r]) (sn_Repairs s) (sn_Circuit s) (sn_Generation s).
Definition sn_add_Repair r (s : Snapshot) : Snapshot :=
  mkSnapshot (sn_Version s) (sn_State s) (sn_CheckedAt s) (sn_Results s) (sn_Repairs s ++ [r]) (sn_Circuit s) (sn_Generation s).
Definition sn_set_Circuit c (s : Snapshot) : Snapshot :=
  mkSnapshot (sn_Version s) (sn_State s) (sn_CheckedAt s) (sn_Results s) (sn_Repairs s) c (sn_Generation s).
Definition set_Attempts m (c : Circuit) : Circuit := mkCircuit m (ci_NextAllowedUTC c) (ci_FailedReason c).
Definition set_NextAllowed m (c : Circuit) : Circuit := mkCircuit (ci_Attempts c) m (ci_FailedReason c).
Definition set_FailedReason r (c : Circuit) : Circuit := mkCircuit (ci_Attempts c) (ci_NextAllowedUTC c) r.

(** Reading a missing key yields the zero value. *)
Definition attempts_of (s : Snapshot) (name : string) : Z := default 0%Z (ci_Attempts (sn_Circuit s) !! name).
Definition next_of (s : Snapshot) (name : string) : Time := default zero_time (ci_NextAllowedUTC (sn_Circuit s) !! name).

(** ** The world of a supervisor *)

Inductive Event : Type :=
  | EvNow
  | EvCheck (name : string) (ok : bool)
  | EvRepair (name : string).

Abbreviation Log := (list Event).

Record World : Type := mkWorld { hw_fs : FS; hw_log : Log }.

Definition log (ev : Event) (w : World) : World := mkWorld (hw_fs w) (ev :: hw_log w).

(** A call on the file system. *)
Definition on_fs {A} (m : GoM FS A) : GoM World A := λ w,
  let '(fs, r) := m (hw_fs w) in (mkWorld fs (hw_log w), r).

Record Check : Type := mkCheck { ck_Name : string; ck_Run : Log → Result }.

Record Supervisor : Type := mkSupervisor {
  sp_Checks : list Check;
  sp_Repairers : gmap string (Log → option error);
  sp_StatePath : string;
  sp_MaxRepairAttempts : Z;
  sp_BaseBackoff : Duration;
  sp_MaxBackoff : Duration;
  sp_Now : Log → Time;
}.

(** [defaults], apart from the nil clock and the nil map. *)
Definition defaults (s : Supervisor) : Supervisor :=
  mkSupervisor (sp_Checks s) (sp_Repairers s) (sp_StatePath s)
    (if (sp_MaxRepairAttempts s <=? 0)%Z then 5%Z else sp_MaxRepairAttempts s)
    (if (sp_BaseBackoff s <=? 0)%Z then (30 * Second)%Z else sp_BaseBackoff s)
    (if (sp_MaxBackoff s <=? 0)%Z then (15 * Minute)%Z else sp_MaxBackoff s)
    (sp_Now s).

Class SnapshotCodec : Type := {
  hj_MarshalIndent : Snapshot → result string;
  hj_Unmarshal : string → result Snapshot;
}.

(** Snapshots that survive encoding: valid UTF-8 and representable times. *)
Class SnapshotCodecLaws `{SnapshotCodec} (encodable : Snapshot → Prop) : Prop := {
  hj_total s : encodable s → ∃ b, hj_MarshalIndent s = inr b;
  hj_roundtrip s b : encodable s → hj_MarshalIndent s = inr b →
    hj_Unmarshal (b +:+ String.String newline "") = inr s;
}.

(** [for i := 1; i < attempt; i++]; the fuel is the number of turns left. *)
Fixpoint backoff_loop (turns : nat) (maxBackoff d : Duration) : Duration :=
  match turns with
  | O => if (maxBackoff <? d)%Z then maxBackoff else d
  | S turns => if (Z.quot maxBackoff 2 <=? d)%Z then maxBackoff else backoff_loop turns maxBackoff (wrap64 (d * 2))
  end.

Definition backoff (s : Supervisor) (attempt : Z) : Duration :=
  backoff_loop (Z.to_nat (attempt - 1)) (sp_MaxBackoff s) (sp_BaseBackoff s).

Section supervisor.
Context `{SnapshotCodec}.

(** ** The snapshot file *)

Definition Load (s : Supervisor) : GoM FS Snapshot :=
  if bool_decide (sp_StatePath s = "") then mret NewSnapshot
  else
    r ← read_file d_current;
    match r with
    | inl e => if errors_is "os.ErrNotExist" e then mret NewSnapshot else throw e
    | inr b =>
        match hj_Unmarshal b with
        | inl e => throw (Wrapf "decode health state: " e "")
        | inr snap =>
            if negb (sn_Version snap =? 1)%Z
            then throw (Errorf ("unsupported health state version " +:+ pretty (sn_Version snap)))
            else mret snap
        end
    end.

Definition newline_text : string := String.String newline "".

Definition Save (s : Supervisor) (snap : Snapshot) : GoM FS unit :=
  if bool_decide (sp_StatePath s = "") then mret ()
  else
    b ← lift_result (hj_MarshalIndent snap);
    _ ← sys_quiet "mkdir";
    _ ← sys_create_temp;
    _ ← sys_quiet "chmod";
    _ ← sys_write_temp (b +:+ newline_text);
    _ ← sys_sync_temp;
    _ ← sys_quiet "close";
    _ ← sys_activate;
    _ ← sys_quiet "open dir";
    syncDir.

(** ** One run *)

Definition Now (s : Supervisor) : GoM World Time := λ w, (log EvNow w, inr (sp_Now s (hw_log w))).

(** [check.Run(ctx)], with its name filled in. *)
Definition run_check (c : Check) : GoM World Result := λ w,
  let r := ck_Run c (hw_log w) in
  let r := if bool_decide (rs_Name r = "")
           then mkResult (ck_Name c) (rs_OK r) (rs_Critical r) (rs_Repairable r) (rs_Message r) else r in
  (log (EvCheck (rs_Name r) (rs_OK r)) w, inr r).

Definition run_repair (name : string) (repair : Log → option error) : GoM World (option error) := λ w,
  (log (EvRepair name) w, inr (repair (hw_log w))).

Definition exhausted (name : string) (snap : Snapshot) : Snapshot :=
  snap |> sn_set_State FailedSafe
       |> sn_set_Circuit (set_FailedReason ("repair attempts exhausted for " +:+ name) (sn_Circuit snap)).

Definition recovering (snap : Snapshot) : Snapshot :=
  if bool_decide (sn_State snap = FailedSafe) then snap else sn_set_State Recovering snap.

(** The repair of a failing check, after its gates. *)
Definition attempt_repair (s : Supervisor) (r : Result) (repair : Log → option error) (snap : Snapshot) : GoM World Snapshot :=
  let name := rs_Name r in
  let n := (attempts_of snap name + 1)%Z in
  let snap := sn_set_Circuit (set_Attempts (<[name := n]> (ci_Attempts (sn_Circuit snap))) (sn_Circuit snap)) snap in
  err ← run_repair name repair;
  now ← Now s;
  let delay (snap : Snapshot) := sn_set_Circuit
    (set_NextAllowed (<[name := time_add now (backoff s n)]> (ci_NextAllowedUTC (sn_Circuit snap))) (sn_Circuit snap)) snap in
  mret match err with
       | Some e =>
           let snap := snap |> sn_add_Repair (mkRepairRecord name n "failed" (err_msg e)) |> delay in
           if (sp_MaxRepairAttempts s <=? n)%Z && rs_Critical r then exhausted name snap else recovering snap
       | None => snap |> sn_add_Repair (mkRepairRecord name n "attempted" "") |> delay |> recovering
       end.

(** The state after a failed check, before any repair. *)
Definition degrade (r : Result) (snap : Snapshot) : Snapshot :=
  if rs_Critical r then sn_set_State Degraded snap
  else if bool_decide (sn_State snap = Healthy) then sn_set_State Degraded snap else snap.

Definition forget (name : string) (snap : Snapshot) : Snapshot :=
  sn_set_Circuit (sn_Circuit snap |> set_Attempts (delete name (ci_Attempts (sn_Circuit snap)))
                                  |> set_NextAllowed (delete name (ci_NextAllowedUTC (sn_Circuit snap)))) snap.

(** Whether the pause after the last repair is still on. *)
Definition must_wait (s : Supervisor) (next : Time) : GoM World bool :=
  if IsZero next then mret false else now ← Now s; mret (Before now next).

(** The body of the loop over the checks. *)
Definition check_one (s : Supervisor) (autofix : bool) (snap : Snapshot) (c : Check) : GoM World Snapshot :=
  r ← run_check c;
  let name := rs_Name r in
  let snap := sn_add_Result r snap in
  if rs_OK r then mret (forget name snap)
  else
    let snap := degrade r snap in
    if negb autofix || negb (rs_Repairable r) then mret snap
    else match sp_Repairers s !! name with
    | None => mret snap
    | Some repair =>
        if (sp_MaxRepairAttempts s <=? attempts_of snap name)%Z
        then mret (if rs_Critical r then exhausted name snap else snap)
        else
          wait ← must_wait s (next_of snap name);
          if wait : bool then mret (recovering snap) else attempt_repair s r repair snap
    end.

Fixpoint check_all (s : Supervisor) (autofix : bool) (snap : Snapshot) (checks : list Check) : GoM World Snapshot :=
  match checks with
  | [] => mret snap
  | c :: checks => snap ← check_one s autofix snap c; check_all s autofix snap checks
  end.

Definition Run (s : Supervisor) (autofix : bool) : GoM World Snapshot :=
  let s := defaults s in
  loaded ← attempt (on_fs (Load s));
  let snap := match loaded with inr snap => snap | inl _ => zeroSnapshot end in
  let snap := if (sn_Version snap =? 0)%Z then NewSnapshot else snap in
  now ← Now s;
  let snap := mkSnapshot (sn_Version snap) Healthy now [] [] (sn_Circuit snap) (wrapu64 (sn_Generation snap + 1)) in
  snap ← check_all s autofix snap (SliceStable (less_id ck_Name) (sp_Checks s));
  _ ← on_fs (Save s snap);
  mret snap.
End supervisor.
End health.
