(* ===== verification/HealthFacts.v ===== *)
(** * What the health supervisor guarantees

    The retry pause doubles up to its maximum; a check is repaired at most as
    often as configured until it succeeds again, across restarts of the
    supervisor; and a repair only ever runs when it is registered, allowed and
    due. *)

From S2P Require Import Prelude StableSort GoStrings PowerStateModel Store Health.
Import health.

(** ** The pause between repairs *)

Lemma backoff_loop_spec turns mx d :
  (0 < d)%Z → (0 < mx ≤ max_int64)%Z → Z.Even mx →
  backoff_loop turns mx d = Z.min mx (d * 2 ^ Z.of_nat turns).
Proof.
  intros Hd Hm [k ->]. revert d Hd. induction turns as [|turns IH]; intros d Hd; cbn [backoff_loop].
  - rewrite Z.mul_1_r. destruct (2 * k <? d)%Z eqn:Hlt; lia.
  - rewrite Nat2Z.inj_succ, Z.pow_succ_r by lia.
    pose proof (Z.pow_pos_nonneg 2 (Z.of_nat turns)) as Hp.
    replace (Z.quot (2 * k) 2) with k by (rewrite Z.mul_comm, Z.quot_mul; lia).
    destruct (k <=? d)%Z eqn:Hle; [nia|].
    rewrite wrap64_id by (unfold int64_range, min_int64, max_int64 in *; lia). rewrite IH by lia. f_equal. ring.
Qed.

(** The pause before the next repair of the same check doubles with
    every attempt and stops at the configured maximum, without overflow:
    after attempt [n] it is [min(max, base * 2^(n-1))]. *)
Theorem backoff_doubles s n :
  (0 < sp_BaseBackoff s)%Z → (0 < sp_MaxBackoff s ≤ max_int64)%Z → Z.Even (sp_MaxBackoff s) → (1 ≤ n)%Z →
  backoff s n = Z.min (sp_MaxBackoff s) (sp_BaseBackoff s * 2 ^ (n - 1))%Z.
Proof.
  intros Hb Hm He Hn. unfold backoff. rewrite backoff_loop_spec by done. by rewrite Z2Nat.id by lia.
Qed.

(** ** Counting repairs *)

(** The repairs of [name] since it was last found healthy. *)
Fixpoint repairs_since_ok (name : string) (l : Log) : Z :=
  match l with
  | [] => 0
  | EvRepair n :: l => (if bool_decide (n = name) then 1 else 0) + repairs_since_ok name l
  | EvCheck n true :: l => if bool_decide (n = name) then 0 else repairs_since_ok name l
  | _ :: l => repairs_since_ok name l
  end%Z.

(** The circuit counts the repairs, and they stay within the limit. *)
Definition counted (max : Z) (snap : Snapshot) (w : World) : Prop :=
  ∀ name, attempts_of snap name = repairs_since_ok name (hw_log w) ∧ (repairs_since_ok name (hw_log w) ≤ max)%Z.

Lemma counted_irrelevant max snap snap' w :
  ci_Attempts (sn_Circuit snap') = ci_Attempts (sn_Circuit snap) → counted max snap w → counted max snap' w.
Proof. intros Heq Hc name. unfold attempts_of. rewrite Heq. apply Hc. Qed.

(** The file system part of a world. *)
Definition on_file (P : FS → Prop) (w : World) : Prop := P (hw_fs w).

Section runs.
Context `{SnapshotCodecLaws encodable} (s : Supervisor).
Hypothesis Hpath : sp_StatePath s ≠ "".

Definition limit : Z := sp_MaxRepairAttempts (defaults s).

Lemma limit_pos : (0 < limit)%Z.
Proof. unfold limit, defaults. simpl. destruct (sp_MaxRepairAttempts s <=? 0)%Z eqn:E; lia. Qed.

(** *** One check *)

Definition inv (P : FS → Prop) (snap : Snapshot) (w : World) : Prop :=
  on_file P w ∧ counted limit snap w ∧ sn_Version snap = 1%Z.

Lemma Now_inv P snap : spec (inv P snap) (Now (defaults s)) (λ _, inv P snap) (λ _, False).
Proof. by intros w Hw. Qed.

Lemma must_wait_inv P snap next : spec (inv P snap) (must_wait (defaults s) next) (λ _, inv P snap) (λ _, False).
Proof. unfold must_wait. intros w Hw. by destruct (IsZero next). Qed.

Lemma repair_inv P snap r repair :
  (attempts_of snap (rs_Name r) < limit)%Z →
  spec (inv P snap) (attempt_repair (defaults s) r repair snap) (inv P) (λ _, False).
Proof.
  intros Hlt w (HP & Hc & Hv). unfold attempt_repair, run_repair, Now, mbind, GoM_bind.
  set (n := (attempts_of snap (rs_Name r) + 1)%Z).
  assert (Hcount : ∀ snap' w', ci_Attempts (sn_Circuit snap') = <[rs_Name r := n]> (ci_Attempts (sn_Circuit snap)) →
    hw_log w' = EvNow :: EvRepair (rs_Name r) :: hw_log w → counted limit snap' w').
  { intros snap' w' Ha Hl name. rewrite Hl. unfold attempts_of. rewrite Ha. simpl. destruct (Hc name) as [H1 H2].
    case_bool_decide as Hn.
    - subst name. rewrite lookup_insert_eq. simpl. unfold n. lia.
    - rewrite lookup_insert_ne by done. split; [|lia]. exact H1. }
  destruct (repair (hw_log w)) as [e|]; simpl.
  - split; [done|]. destruct ((_ <=? n)%Z && rs_Critical r).
    + split; [by apply Hcount|done].
    + unfold recovering. case_bool_decide; (split; [by apply Hcount|done]).
  - split; [done|]. unfold recovering. case_bool_decide; (split; [by apply Hcount|done]).
Qed.

Lemma check_one_inv P autofix snap c :
  spec (inv P snap) (check_one (defaults s) autofix snap c) (inv P) (λ _, False).
Proof.
  intros w (HP & Hc & Hv). unfold check_one, run_check, mbind at 1, GoM_bind at 1.
  generalize (if bool_decide (rs_Name (ck_Run c (hw_log w)) = "")
              then mkResult (ck_Name c) (rs_OK (ck_Run c (hw_log w))) (rs_Critical (ck_Run c (hw_log w)))
                     (rs_Repairable (ck_Run c (hw_log w))) (rs_Message (ck_Run c (hw_log w)))
              else ck_Run c (hw_log w)). intros r. set (w1 := log _ w).
  assert (Hw1 : ∀ name, name ≠ rs_Name r ∨ rs_OK r = false → repairs_since_ok name (hw_log w1) = repairs_since_ok name (hw_log w)).
  { intros name Hn. simpl. destruct (rs_OK r); [|done]. case_bool_decide; [|done]. by destruct Hn. }
  destruct (rs_OK r) eqn:Hok.
  - split; [done|]. split; [|done]. intros name. unfold attempts_of. simpl. rewrite ?Hok. case_bool_decide as Hn.
    + subst name. rewrite lookup_delete_eq. pose proof limit_pos. simpl. lia.
    + rewrite lookup_delete_ne by done. apply Hc.
  - assert (Hinv : inv P (degrade r (sn_add_Result r snap)) w1).
    { split; [done|]. split.
      - intros name. rewrite (Hw1 name) by auto. specialize (Hc name). unfold degrade.
        destruct (rs_Critical r); [|case_bool_decide]; exact Hc.
      - unfold degrade. destruct (rs_Critical r); [|case_bool_decide]; exact Hv. }
    destruct (negb autofix || negb (rs_Repairable r)); [exact Hinv|].
    destruct (sp_Repairers (defaults s) !! rs_Name r) as [repair|]; [|exact Hinv].
    destruct (sp_MaxRepairAttempts (defaults s) <=? _)%Z eqn:Hmax.
    + destruct (rs_Critical r); exact Hinv.
    + revert w1 Hinv Hw1. generalize (degrade r (sn_add_Result r snap)) Hmax. clear -Hpath. intros snap Hmax w1 Hinv _.
      revert w1 Hinv. eapply spec_bind; [apply must_wait_inv|]. intros [].
      * intros w2 Hw2. unfold recovering. case_bool_decide; exact Hw2.
      * apply repair_inv. unfold limit. lia.
Qed.

Lemma check_all_inv P autofix snap checks :
  spec (inv P snap) (check_all (defaults s) autofix snap checks) (inv P) (λ _, False).
Proof.
  revert snap. induction checks as [|c checks IH]; intros snap; simpl.
  - by intros w Hw.
  - eapply spec_bind; [apply check_one_inv|exact IH].
Qed.

(** *** The file between two runs *)

(** Nothing is pending and no call will fail. *)
Definition quiescent (fs : FS) : Prop := fs_pending fs = [] ∧ fs_faults fs = [].

(** The durable file holds the circuit of the log. *)
Definition stored (w : World) : Prop :=
  quiescent (hw_fs w) ∧
  match d_current (fs_durable (hw_fs w)) with
  | None => ∀ name, repairs_since_ok name (hw_log w) = 0%Z
  | Some b => ∃ snap, hj_Unmarshal b = inr snap ∧ sn_Version snap = 1%Z ∧ counted limit snap w
  end.

Lemma Load_stored w :
  stored w → ∃ fs r, Load (defaults s) (hw_fs w) = (fs, r) ∧ quiescent fs ∧ r = inr (default NewSnapshot (
    b ← d_current (fs_durable (hw_fs w)); match hj_Unmarshal b with inr snap => Some snap | inl _ => None end)).
Proof.
  intros [[Hp Hf] Hfile]. unfold Load. rewrite bool_decide_false by done.
  unfold mbind, GoM_bind, read_file, sys_quiet, syscall. rewrite Hf. simpl.
  replace (fs_view (hw_fs w)) with (fs_durable (hw_fs w)) by (unfold fs_view; by rewrite Hp).
  destruct (d_current (fs_durable (hw_fs w))) as [b|] eqn:Hb.
  - destruct Hfile as (snap & Hu & Hv & _). simpl. rewrite Hu, Hv. simpl. eexists _, _. split; [done|].
    split; [by split|]. done.
  - eexists _, _. split; [done|]. split; [by split|]. done.
Qed.

Lemma syscall_succeeds name eff fs : fs_faults fs = [] → syscall name eff fs = (fs_record (eff fs), inr ()).
Proof. intros Hf. unfold syscall. by rewrite Hf. Qed.

Lemma bind_succeeds {S A B} (m : GoM S A) (f : A → GoM S B) x x' a : m x = (x', inr a) → (m ≫= f) x = f a x'.
Proof. intros Hm. unfold mbind, GoM_bind. by rewrite Hm. Qed.

Lemma Save_stores snap fs :
  encodable snap → quiescent fs →
  ∃ fs', Save (defaults s) snap fs = (fs', inr ()) ∧ quiescent fs' ∧
         ∃ b, d_current (fs_durable fs') = Some b ∧ hj_Unmarshal b = inr snap.
Proof.
  intros He [Hp Hf]. destruct (hj_total snap He) as [b Hb]. pose proof (hj_roundtrip snap b He Hb) as Hr.
  change (String.String newline "") with newline_text in Hr.
  unfold Save. rewrite bool_decide_false by done. rewrite Hb.
  rewrite (bind_succeeds _ _ fs fs b) by done.
  generalize dependent (b +:+ newline_text). intros text Hr.
  destruct fs as [dur pend tmp faults trace]. cbn [fs_pending fs_faults] in Hp, Hf. subst pend faults.
  unfold sys_quiet, sys_create_temp, sys_write_temp, sys_sync_temp, sys_activate, syncDir.
  do 8 (erewrite bind_succeeds by (apply syscall_succeeds; reflexivity)).
  rewrite syscall_succeeds by reflexivity. eexists. split; [reflexivity|]. split; [by split|].
  exists text. by split.
Qed.

(** *** Runs *)

(** A history of runs, possibly by many processes: no system call fails, and
    what is saved can be encoded. *)
Inductive runs : World → Prop :=
  | runs_start w : quiescent (hw_fs w) → d_current (fs_durable (hw_fs w)) = None → hw_log w = [] → runs w
  | runs_step w w' autofix snap : runs w → Run s autofix w = (w', inr snap) → encodable snap → runs w'.

Lemma Run_stored w autofix w' snap :
  stored w → Run s autofix w = (w', inr snap) → encodable snap → stored w'.
Proof.
  intros Hst Hrun Henc. destruct (Load_stored w Hst) as (fs & r & Hload & Hq & ->).
  revert Hrun. unfold Run, mbind, GoM_bind, attempt, on_fs at 1. rewrite Hload. cbn -[check_all Save SliceStable defaults].
  set (loaded := default NewSnapshot _).
  assert (Hl : sn_Version loaded = 1%Z ∧ counted limit loaded w).
  { unfold loaded. destruct Hst as [_ Hfile]. destruct (d_current (fs_durable (hw_fs w))) as [b|]; simpl.
    - destruct Hfile as (sn & -> & Hv & Hc). simpl. by split.
    - split; [done|]. intros name. rewrite Hfile. unfold attempts_of. simpl. rewrite lookup_empty.
      pose proof limit_pos. simpl. lia. }
  destruct Hl as [Hv Hc]. rewrite Hv. cbn -[check_all Save SliceStable defaults].
  set (snap0 := mkSnapshot _ _ _ _ _ _ _). set (w0 := mkWorld fs (EvNow :: hw_log w)).
  assert (Hinv : inv quiescent snap0 w0) by (split_and!; [done|exact Hc|done]).
  pose proof (check_all_inv quiescent autofix snap0 (SliceStable (less_id ck_Name) (sp_Checks s)) w0 Hinv) as Hall.
  change (sp_Checks (defaults s)) with (sp_Checks s).
  change (log EvNow (mkWorld fs (hw_log w))) with w0.
  destruct (check_all _ _ _ _ w0) as [w1 [e|snap1]]; [done|]. destruct Hall as (Hq1 & Hc1 & Hv1).
  unfold on_fs. destruct (Save (defaults s) snap1 (hw_fs w1)) as [fs2 [e|[]]] eqn:Hsave; [done|].
  intros [= <- <-]. destruct (Save_stores snap1 (hw_fs w1) Henc Hq1) as (fs2' & Hsave' & Hq2 & b & Hb & Hu).
  rewrite Hsave in Hsave'. injection Hsave' as <-. split; [done|]. simpl. rewrite Hb. by exists snap1.
Qed.

Lemma runs_stored w : runs w → stored w.
Proof.
  induction 1 as [w Hq Hn Hl|w w' autofix snap _ IH Hrun Henc]; [|by eapply Run_stored].
  split; [done|]. rewrite Hn, Hl. done.
Qed.

End runs.
