(* ===== verification/HealthExample.v ===== *)
(** * A supervisor, concretely

    A critical service that stays down until its third repair, checked over
    two runs on an empty directory, with a codec over a table of snapshots. *)

From Stdlib Require Import Ascii.
From S2P Require Import Prelude StableSort GoStrings PowerStateModel Store Health HealthFacts.
Import health.

(** ** The codec: the length of the text is the place in the table *)

#[local] Instance Result_eq_dec : EqDecision Result.
Proof. solve_decision. Defined.
#[local] Instance RepairRecord_eq_dec : EqDecision RepairRecord.
Proof. solve_decision. Defined.
#[local] Instance Circuit_eq_dec : EqDecision Circuit.
Proof. solve_decision. Defined.
#[local] Instance Snapshot_eq_dec : EqDecision Snapshot.
Proof. solve_decision. Defined.

Fixpoint ticks (n : nat) : string := match n with O => "" | S n => String "|"%char (ticks n) end.

Lemma ticks_length n : String.length (ticks n) = n.
Proof. induction n as [|n IH]; simpl; [done|by rewrite IH]. Qed.

Lemma length_app_string s t : String.length (s +:+ t) = String.length s + String.length t.
Proof. induction s as [|a s IH]; [done|]. simpl. by rewrite IH. Qed.

Definition snapshot_codec (tbl : list Snapshot) : SnapshotCodec := {|
  hj_MarshalIndent := λ s, inr (ticks (default 0 (fst <$> list_find (λ t, t = s) tbl)));
  hj_Unmarshal := λ b, match tbl !! (String.length b - 1) with Some s => inr s | None => inl (Errorf "invalid JSON") end;
|}.

Definition listed (tbl : list Snapshot) (s : Snapshot) : Prop := s ∈ tbl.

Lemma snapshot_codec_laws tbl : @SnapshotCodecLaws (snapshot_codec tbl) (listed tbl).
Proof.
  split; simpl.
  - intros s _. by eexists.
  - intros s b Hs [= <-]. rewrite length_app_string, ticks_length. simpl.
    destruct (list_find_elem_of (λ t, t = s) tbl s Hs eq_refl) as [[i t] Hf]. rewrite Hf. simpl.
    apply list_find_Some in Hf as (Hi & -> & _). replace (i + 1 - 1) with i by lia. by rewrite Hi.
Qed.

(** ** The supervisor *)

Definition repairs_done (l : Log) : nat :=
  length (omap (λ ev, match ev with EvRepair n => Some n | _ => None end) l).

(** An hour passes with every event. *)
Definition ups_service : Check :=
  mkCheck "nut-server" (λ l, mkResult "" (3 <=? repairs_done l)%nat true true "inactive").

Definition sup : Supervisor :=
  mkSupervisor [ups_service] {["nut-server" := λ _, None]} "/var/lib/cockpit-ups-wol/health.json" 2 0 0
    (λ l, Z.of_nat (length l) * (60 * Minute))%Z.

Definition empty : World := mkWorld (mkFS (mkDir None None) [] None [] []) [].

Definition run (tbl : list Snapshot) (w : World) : World * (error + Snapshot) :=
  @Run (snapshot_codec tbl) sup true w.

Definition saved (tbl : list Snapshot) (w : World) : Snapshot := match (run tbl w).2 with inr s => s | inl _ => zeroSnapshot end.

Definition snap1 : Snapshot := Eval vm_compute in saved [] empty.
Definition snap2 : Snapshot := Eval vm_compute in saved [snap1] (run [snap1] empty).1.
Definition snap3 : Snapshot := Eval vm_compute in saved [snap1; snap2] (run [snap1; snap2] (run [snap1; snap2] empty).1).1.
Definition snaps : list Snapshot := [snap1; snap2; snap3].

Definition world1 : World := (run snaps empty).1.
Definition world2 : World := (run snaps world1).1.
Definition world3 : World := (run snaps world2).1.

(** Two repairs, then the limit: the third run only reports. *)
Example states : (sn_State snap1, sn_State snap2, sn_State snap3) = (Recovering, Recovering, FailedSafe).
Proof. vm_compute. reflexivity. Qed.

Lemma runs3 : @runs (snapshot_codec snaps) (listed snaps) sup world3.
Proof.
  apply (@runs_step (snapshot_codec snaps) (listed snaps) sup world2 world3 true snap3);
    [apply (@runs_step (snapshot_codec snaps) (listed snaps) sup world1 world2 true snap2);
       [apply (@runs_step (snapshot_codec snaps) (listed snaps) sup empty world1 true snap1)| |]| |].
  - by apply runs_start.
  - vm_compute. reflexivity.
  - left.
  - vm_compute. reflexivity.
  - right. left.
  - vm_compute. reflexivity.
  - right. right. left.
Qed.


Lemma backoff_doubles_witness : backoff (defaults sup) 4 = Z.min (15 * Minute) (30 * Second * 2 ^ 3).
Proof.
  apply (backoff_doubles (defaults sup) 4).
  - vm_compute. reflexivity.
  - split; vm_compute; [reflexivity|discriminate].
  - exists (450 * Second)%Z. vm_compute. reflexivity.
  - lia.
Defined.
