(* ===== verification/Armed.v ===== *)
(** * The armed runtime ([agent/internal/app])

    armed.go, system_health_gate.go, runtime_prerequisite_health.go and the
    health parts of runtime.go: how the controller is given its collaborators,
    what one power tick feeds it, the gates on recovery, the shutdown of the
    controller itself, and how a process starts from the durable state.  Here
    a process is its start followed by any number of power ticks, each with
    what the outside answers during it; the loop that makes the ticks is in
    [Agent], the process around it in [Programs]. *)

From Stdlib Require Import Ascii.
From S2P Require Import Prelude GoStrings GoTime PowerStateModel Nut HostPlan ConfigModel ConfigValidate Policy Store.
From S2P Require Import Coordinator Wol Recovery Orchestrator HostAdapters Health.

(** ** Options *)

Record Options : Type := mkOptions {
  op_SocketPath : string;
  op_HealthStatePath : string;
  op_SystemHealthStatePath : string;
  op_SystemHealthMaxAge : Duration;
  op_HealthInterval : Duration;
  op_PowerInterval : Duration;
  op_StateDir : string;
  op_ConfigHistoryDir : string;
  op_UPSMonConfPath : string;
}.

Definition string_or (v dflt : string) : string := if bool_decide (v = "") then dflt else v.
Definition duration_or (v dflt : Duration) : Duration := if (v <=? 0)%Z then dflt else v.

(** [Options.defaults], apart from the nil hooks. *)
Definition options_defaults (o : Options) : Options :=
  mkOptions (string_or (op_SocketPath o) "/run/cockpit-ups-wol/agent.sock")
    (string_or (op_HealthStatePath o) "/var/lib/cockpit-ups-wol/health.json")
    (string_or (op_SystemHealthStatePath o) "/var/lib/cockpit-ups-wol/system-health.json")
    (duration_or (op_SystemHealthMaxAge o) (3 * Minute)%Z)
    (op_HealthInterval o)
    (duration_or (op_PowerInterval o) (5 * Second)%Z)
    (string_or (op_StateDir o) "/var/lib/cockpit-ups-wol/state")
    (string_or (op_ConfigHistoryDir o) "/var/lib/cockpit-ups-wol/config-history")
    (string_or (op_UPSMonConfPath o) "/etc/nut/upsmon.conf").

(** ** Health checks and gates *)

(** [nutHealthCheck.Run], given the answer of the query. *)
Definition nutHealthCheck_Run (queried : result Status) : health.Result :=
  match queried with
  | inl e => health.mkResult "nut.query" false true false (err_msg e)
  | inr st =>
      if bool_decide (us_Utility st = UtilityUnknown)
      then health.mkResult "nut.query" false true false "UPS utility state is UNKNOWN"
      else health.mkResult "nut.query" true true false ("UPS status available: " +:+ UtilityState_string (us_Utility st))
  end.

Definition runtimePrerequisiteCheck_Run (hostID reason : string) : health.Result :=
  health.mkResult ("host-prerequisite:" +:+ hostID) false false false reason.

(** The checks of the armed supervisor. *)
Definition armed_checks (query : health.Log → result Status) (cfg : ConfigModel.Config) (excluded : gmap string string)
  : list health.Check :=
  health.mkCheck "nut.query" (λ l, nutHealthCheck_Run (query l)) ::
  omap (λ h, (λ reason, health.mkCheck ("host-prerequisite:" +:+ h_ID h)
                          (λ _, runtimePrerequisiteCheck_Run (h_ID h) reason)) <$> excluded !! h_ID h) (cf_Hosts cfg).

(** [runAgentHealth]: a failed run yields a critical degraded snapshot. *)
Definition runAgentHealth `{health.SnapshotCodec} (s : health.Supervisor) (autofix : bool) (clock : health.Log → Time)
  : GoM health.World health.Snapshot := λ w,
  match health.Run s autofix w with
  | (w, inr snap) => (w, inr snap)
  | (w, inl e) =>
      (health.log health.EvNow w,
       inr (health.mkSnapshot 1 health.Degraded (clock (health.hw_log w))
              [health.mkResult "health.supervisor" false true false (err_msg e)] [] (health.mkCircuit ∅ ∅ "") 0))
  end.

(** [result.Critical && !result.OK] *)
Definition critical_failure (r : health.Result) : bool := health.rs_Critical r && negb (health.rs_OK r).

Definition criticalAgentHealthSafe (snap : health.Snapshot) : bool :=
  if bool_decide (health.sn_State snap = health.FailedSafe) then false
  else negb (existsb critical_failure (health.sn_Results snap)).

(** [systemHealthSafe], given the contents of the file. *)
Definition systemHealthSafe `{health.SnapshotCodec} (file : result string) (maxAge : Duration) (now : Time) : bool * string :=
  match file with
  | inl e => (false, "system health snapshot unavailable: " +:+ err_msg e)
  | inr b =>
  match health.hj_Unmarshal b with
  | inl e => (false, "system health snapshot unreadable: " +:+ err_msg e)
  | inr snap =>
      let age := time_sub now (health.sn_CheckedAt snap) in
      if negb (health.sn_Version snap =? 1)%Z
      then (false, "unsupported system health snapshot version " +:+ pretty (health.sn_Version snap))
      else if IsZero (health.sn_CheckedAt snap)
      then (false, "system health snapshot has no checked_at timestamp")
      else if (0 <? maxAge)%Z && (age <? 0)%Z
      then (false, "system health snapshot timestamp is in the future")
      else if (0 <? maxAge)%Z && (maxAge <? age)%Z
      then (false, "system health snapshot stale (" +:+ RoundedSeconds age +:+ " old)")
      else if bool_decide (health.sn_State snap = health.FailedSafe)
      then let reason := health.State_string (health.sn_State snap) in
           let failed := health.ci_FailedReason (health.sn_Circuit snap) in
           (false, "system health " +:+ (if bool_decide (failed = "") then reason else reason +:+ ": " +:+ failed))
      else match find critical_failure (health.sn_Results snap) with
           | Some r =>
               (false, "critical control-stack check unhealthy: " +:+
                       (if bool_decide (health.rs_Message r = "") then health.rs_Name r
                        else health.rs_Name r +:+ ": " +:+ health.rs_Message r))
           | None => (true, "critical control-stack checks healthy")
           end
  end end.

(** ** The dependency tracker *)

(** The loop of [dependencyTracker.Ready] from its [i]-th dependency on;
    [probe] is what each probe meets. *)
Fixpoint ready_loop (probe : nat → ProbeNet) (i : nat) (deps : list DependencyConfig) (streaks : gmap string Z)
    (allReady : bool) : gmap string Z * bool :=
  match deps with
  | [] => (streaks, allReady)
  | dep :: deps =>
      match dp_Address dep with
      | None => (streaks, false)
      | Some address =>
          match Check (probe i) address (dp_Status dep) with
          | inr (mkProbeResult true true) =>
              let n := (default 0 (streaks !! dp_ID dep) + 1)%Z in
              ready_loop probe (S i) deps (<[dp_ID dep := n]> streaks)
                (if (n <? needed (dp_Status dep))%Z then false else allReady)
          | _ => ready_loop probe (S i) deps (<[dp_ID dep := 0%Z]> streaks) false
          end
      end
  end.

Definition Ready (probe : nat → ProbeNet) (deps : list DependencyConfig) (streaks : gmap string Z) : gmap string Z * bool :=
  match deps with [] => (streaks, true) | _ => ready_loop probe 0 deps streaks true end.

(** ** The shutdown of the controller *)

Record controllerFSDTracker : Type := mkTracker {
  tk_transactionID : string;
  tk_completed : bool;
  tk_attempts : Z;
  tk_nextAttempt : Time;
}.

Definition zeroTracker : controllerFSDTracker := mkTracker "" false 0 zero_time.

Definition resetFor (tx : string) (t : controllerFSDTracker) : controllerFSDTracker :=
  if bool_decide (tk_transactionID t = tx) then t else mkTracker tx false 0 zero_time.

(** The receiver after the call, and the result. *)
Definition shouldAttempt (now : Time) (tx : string) (t : controllerFSDTracker) : controllerFSDTracker * bool :=
  let t := resetFor tx t in
  (t, negb (tk_completed t) && (IsZero (tk_nextAttempt t) || negb (Before now (tk_nextAttempt t)))).

Definition markSuccess (tx : string) (t : controllerFSDTracker) : controllerFSDTracker :=
  let t := resetFor tx t in mkTracker (tk_transactionID t) true (tk_attempts t) zero_time.

(** [markFailure] doubles its delay exactly as the orchestrator does. *)
Definition markFailure (now : Time) (tx : string) (t : controllerFSDTracker) : controllerFSDTracker :=
  let t := resetFor tx t in
  let attempts := (tk_attempts t + 1)%Z in
  mkTracker (tk_transactionID t) (tk_completed t) attempts (time_add now (retry_delay attempts)).

Definition hasNUTManagedHosts (hosts : list HostConfig) : bool :=
  existsb (λ h, bool_decide (sd_Method (h_Shutdown h) = "nut")) hosts.

(** ** The collaborators of the controller *)

(** What the outside answers to the adapters, after the events so far.  The
    rounds of a wait go on until it decides; if they end before, the process
    was told to stop. *)
Record Outside : Type := mkOutside {
  os_probe : Log → HostConfig → ProbeNet;
  os_wait : Log → HostConfig → bool → list Round;
  os_online : Log → HostConfig → list Round;
  os_onlineCtxErr : Log → option error;
  os_run : Log → string → list string → string * CommandErr;
  os_FSD : Log → string → string → option error;
  os_network : Log → Network;
  os_newTransactionID : Log → string;
}.

Definition context_Canceled : error := Sentinel "context.Canceled" "context canceled".

(** A wait whose rounds end is cancelled. *)
Definition waited (outcome : option (option error)) : option error := default (Some context_Canceled) outcome.

Definition armedProber_Check (net : ProbeNet) (h : HostConfig) : result ProbeResult :=
  match h_Address h with
  | None => inr unknown_probe
  | Some address => Check net address (h_Status h)
  end.

Definition armedProber_Wait (rounds : list Round) (h : HostConfig) (wantOnline : bool) : option error :=
  match h_Address h with
  | None => Some (Errorf "host address is required for verified state transition")
  | Some address => waited (WaitForConsecutive address (h_Status h) wantOnline rounds)
  end.

Definition armedWaker_Wake (hosts : gmap string HostConfig) (net : Network) (hostID : string) : option error :=
  match hosts !! hostID with
  | None => Some (Errorf ("unknown wake host " +:+ Quote hostID))
  | Some h =>
      if bool_decide (wk_MAC (h_Wake h) = None) || bool_decide (wk_Broadcast (h_Wake h) = None)
      then Some (Errorf ("host " +:+ Quote hostID +:+ " has incomplete wake configuration"))
      else (Wake net (wake_request (h_Wake h))).2
  end.

(** [armedRecoveryChecker.Online]; [ctxErr] is that of the caller's context. *)
Definition armedRecoveryChecker_Online (hosts : gmap string HostConfig) (rounds : HostConfig → list Round)
    (ctxErr : option error) (hostID : string) : result bool :=
  match (h ← hosts !! hostID; a ← h_Address h; Some (h, a)) with
  | None => inl (Errorf ("host " +:+ Quote hostID +:+ " has no verifiable address"))
  | Some (h, address) =>
      match waited (WaitForConsecutive address (h_Status h) true (rounds h)) with
      | None => inr true
      | Some e =>
          if errors_is "context.DeadlineExceeded" e && bool_decide (ctxErr = None) then inr false else inl e
      end
  end.

Definition armed_env (os : Outside) (runtimeCfg : ConfigModel.Config) : Env :=
  let byID := by_id h_ID (cf_Hosts runtimeCfg) in
  mkEnv (Some (mkProber (λ l h, armedProber_Check (os_probe os l h) h)
                        (λ l h want, armedProber_Wait (os_wait os l h want) h want)))
    (Some (λ l h, Shutdown (os_run os l) h))
    (Some (os_FSD os))
    (Some (mkRecoveryExecutor true true true))
    (λ l id, armedRecoveryChecker_Online byID (os_online os l) (os_onlineCtxErr os l) id)
    (λ l id, armedWaker_Wake byID (os_network os l) id)
    (Some (os_newTransactionID os)).

(** ** The policy's settings *)

Definition seconds_or_zero (v : option Z) : Duration :=
  match v with Some n => duration_of n Second | None => 0%Z end.

Definition policyFromConfig (cfg : ConfigModel.Config) : Policy.Config :=
  let oc := cf_Outage cfg in
  let rc := cf_Recovery cfg in
  Policy.mkConfig (duration_of (oc_GracePeriodSeconds oc) Second)
    (seconds_or_zero (oc_MaxOnBatterySeconds oc))
    (float64_of_int <$> oc_CriticalBatteryPercent oc)
    (seconds_or_zero (oc_CriticalRuntimeSeconds oc))
    (duration_of (oc_CommunicationLossGraceSeconds oc) Second)
    (Some (rc_Enabled rc))
    (duration_of (rc_UtilityStableSeconds rc) Second)
    (float64_of_int <$> rc_BatteryChargeMin rc)
    (seconds_or_zero (rc_RuntimeMinSeconds rc))
    (seconds_or_zero (rc_RechargeTimeSeconds rc))
    (duration_of (rc_NetworkWaitSeconds rc) Second).

(** [configRevision]: [marshal] encodes the configuration and the digest. *)
Definition configRevision (marshal : ConfigModel.Config → string → result string) (sha256_hex : string → string)
    (cfg : ConfigModel.Config) : result string :=
  let sy := nc_Synology (cf_NUT cfg) in
  let digest := if sy_Enabled sy then sha256_hex (sy_Password sy) else "" in
  match marshal cfg digest with
  | inl e => inl (Wrapf "encode config revision: " e "")
  | inr b => inr ("sha256:" +:+ sha256_hex b)
  end.

(** ** Start *)

(** [hex.EncodeToString] *)
Definition hex_Encode (b : list ascii) : string :=
  String.string_of_list_ascii (b ≫= λ c, [hex_digit (nat_of_ascii c / 16)%nat; hex_digit (nat_of_ascii c mod 16)%nat]).

(** [Time.UnixNano] *)
Definition UnixNano (t : Time) : Z := wrap64 (t - 62135596800 * Second).

(** [random]: what [rand.Read] returns for 16 bytes. *)
Definition newTransactionID (random : result (list ascii)) (now : Time) : string :=
  match random with
  | inl _ => "tx-" +:+ pretty (UnixNano now)
  | inr b => hex_Encode b
  end.

Definition active_transaction (p : State) : bool :=
  st_ShutdownCommitted p || st_RecoveryStarted p ||
  (negb (bool_decide (st_PowerState p = Normal)) && negb (bool_decide (st_PowerState p = BootReconcile))).

(** The durable state a process starts from; [newID] is the answer of the one
    call of [newTransactionID]. *)
Definition load_persisted `{StateCodec} (revision newID : string) : GoM FS State :=
  loaded ← attempt Load;
  match loaded with
  | inl e =>
      if negb (errors_is "state.ErrNoValidState" e) then throw (Wrapf "load durable power state: " e "")
      else wrap_err "initialize durable power state: " (Write (PowerStateModel.New newID revision))
  | inr (persisted, _) =>
      if bool_decide (st_ActiveConfigRevision persisted = revision) then mret persisted
      else if active_transaction persisted
      then throw (Errorf ("active power transaction belongs to config revision " +:+ Quote (st_ActiveConfigRevision persisted)
                          +:+ ", current revision is " +:+ Quote revision))
      else wrap_err "reconcile config revision into power state: "
             (Write (persisted |> st_set_ParentTransactionID (st_TransactionID persisted)
                               |> st_set_TransactionID newID
                               |> st_set_ActiveConfigRevision revision
                               |> st_set_Hosts (Some ∅)
                               |> st_set_PowerState BootReconcile))
  end.

(** A controller over a coordinator that has loaded [p]. *)
Definition new_controller {W} (pcfg : Policy.Config) (p : State) (store : W) : World W :=
  mkWorld (NewCoordinator (Policy.New pcfg p) store) zero_time "" false "" zero_time [EvPersisted p].

Definition resumes (p : State) : bool :=
  st_ShutdownCommitted p &&
  (bool_decide (st_PowerState p = ShutdownCommitted) || bool_decide (st_PowerState p = ShutdownInProgress)).

Definition resume_shutdown {W} `{StateWriter W} (p : State) : GoM (World W) unit :=
  when (resumes p)
    (_ ← wrap_err "resume committed shutdown: " (Policy_Write (st_set_PowerState ShutdownInProgress p)); mret ()).

(** [runArmed] up to the first tick: the configuration of this process and
    its controller; [None] is a panic. *)
Definition runArmed_start `{StateCodec} (lc : Local) (cfg : ConfigModel.Config) (revision : result string) (newID : string)
    (fs : FS) : option (FS * result (ConfigModel.Config * World FS)) :=
  exclusions ← RuntimeArmedExclusions lc cfg;
  Some
    match exclusions, revision with
    | inl e, _ => (fs, inl (Wrapf "armed capability validation: " e ""))
    | inr _, inl e => (fs, inl e)
    | inr excluded, inr revision =>
        match load_persisted revision newID fs with
        | (fs, inl e) => (fs, inl e)
        | (fs, inr p) =>
            match resume_shutdown p (new_controller (policyFromConfig cfg) p fs) with
            | (w, inl e) => (c_store (w_coord w), inl e)
            | (w, inr _) => (c_store (w_coord w), inr (RuntimeConfigWithExclusions cfg excluded, w))
            end
        end
    end.

(** ** One power tick *)

(** What a tick meets: the answer of the UPS query, the time, the latest
    health snapshot, the system health file, the dependency probes, and the
    answer to a shutdown request for the controller. *)
Record Sample : Type := mkSample {
  sm_query : result Status;
  sm_now : Time;
  sm_health : health.Snapshot;
  sm_file : result string;
  sm_dependency : nat → ProbeNet;
  sm_FSD : option error;
}.

(** A request to shut the controller down, and its answer. *)
Record FSDRequest : Type := mkFSDRequest { rq_tx : string; rq_now : Time; rq_answer : option error }.

(** The state of a process: the controller, the trackers, the transitions it
    logged and the requests it made, newest first. *)
Record Armed (W : Type) : Type := mkArmed {
  ar_controller : World W;
  ar_streaks : gmap string Z;
  ar_tracker : controllerFSDTracker;
  ar_transitions : list (PowerState * PowerState * Decision);
  ar_requests : list FSDRequest;
}.
Arguments mkArmed {W}.
Arguments ar_controller {W}.
Arguments ar_streaks {W}.
Arguments ar_tracker {W}.
Arguments ar_transitions {W}.
Arguments ar_requests {W}.

(** [upsStatus]: a failed query counts as UNKNOWN. *)
Definition ups_of (s : Sample) : Status :=
  match sm_query s with inr st => st | inl _ => unknown_status end.

Definition observation_of (st : Status) (now : Time) : UPSObservation :=
  mkUPSObservation (UtilityState_string (us_Utility st)) (Some (us_LowBattery st)) (Some (us_FSD st))
    (us_ChargePercent st) (us_RuntimeSeconds st) (us_RawStatus st) (FormatRFC3339 now).

Section tick.
Context {W : Type} `{StateWriter W, health.SnapshotCodec}.
Context (os : Outside) (opts : Options) (cfg runtimeCfg : ConfigModel.Config).

Definition inputs_of (s : Sample) (networkReady : bool) : Inputs :=
  mkInputs (ups_of s) networkReady
    (criticalAgentHealthSafe (sm_health s) && (systemHealthSafe (sm_file s) (op_SystemHealthMaxAge opts) (sm_now s)).1).

(** [before != after || decision.Changed || decision.Action != none] *)
Definition logged (before after : PowerState) (d : Decision) : list (PowerState * PowerState * Decision) :=
  if dec_Changed d || negb (bool_decide (dec_Action d = ActionNone)) || negb (bool_decide (before = after))
  then [(before, after, d)] else [].

(** The controller's own shutdown is due, the tracker apart. *)
Definition controller_may_shut_down (ups : Status) (st : State) : bool :=
  st_ShutdownCommitted st && bool_decide (st_PowerState st = WaitingForAC)
  && bool_decide (us_Utility ups = UtilityOnBattery)
  && negb (bool_decide (nc_Profile (cf_NUT cfg) = "remote-client"))
  && negb (hasNUTManagedHosts (cf_Hosts cfg)).

(** The end of [armedPowerTick]. *)
Definition shut_controller_down (s : Sample) (st : State) (t : controllerFSDTracker)
  : controllerFSDTracker * list FSDRequest :=
  if controller_may_shut_down (ups_of s) st then
    let tx := st_TransactionID st in
    let '(t, go) := shouldAttempt (sm_now s) tx t in
    if go : bool then
      let req := mkFSDRequest tx (sm_now s) (sm_FSD s) in
      match sm_FSD s with
      | Some _ => (markFailure (sm_now s) tx t, [req])
      | None => (markSuccess tx t, [req])
      end
    else (t, [])
  else (t, []).

Definition armedPowerTick (s : Sample) : GoM (Armed W) unit := λ a,
  let w := ar_controller a in
  let w := w_set_coord (ObserveUPS (observation_of (ups_of s) (sm_now s)) (w_coord w)) w in
  let '(streaks, networkReady) := Ready (sm_dependency s) (cf_Dependencies cfg) (ar_streaks a) in
  let before := st_PowerState (w_State w) in
  match Tick (armed_env os runtimeCfg) runtimeCfg (op_UPSMonConfPath opts) (sm_now s) (inputs_of s networkReady) w with
  | (w, inl e) =>
      (mkArmed w streaks (ar_tracker a) (ar_transitions a) (ar_requests a), inl (Wrapf "armed orchestration: " e ""))
  | (w, inr d) =>
      let st := w_State w in
      let '(tracker, reqs) := shut_controller_down s st (ar_tracker a) in
      (mkArmed w streaks tracker (logged before (st_PowerState st) d ++ ar_transitions a) (reqs ++ ar_requests a), inr ())
  end.
End tick.
