(* ===== verification/OrchestratorFacts.v ===== *)
(** * What the orchestrator guarantees

    The theorems are about the log of what a [Tick] did: every side effect
    was written ahead, attempts are bounded, the forced shutdown waits for the
    direct hosts, nothing happens outside its phase.  They are proved with the
    Hoare triples of the prelude over one invariant of the world. *)

From S2P Require Import Prelude StableSort PowerStateModel Nut.
From S2P Require Import HostPlan HostPlanFacts ConfigModel Policy.
From S2P Require Import PolicyFacts Coordinator Recovery Orchestrator.

(** ** Reading the log *)

(** The newest durable generation. *)
Fixpoint last_persisted (l : Log) : option State :=
  match l with
  | [] => None
  | EvPersisted p :: _ => Some p
  | _ :: l => last_persisted l
  end.

(** What a restart may find on disk: the newest generation written, or one
    whose write was reported as failed but reached the disk. *)
Inductive on_disk : Log → State → Prop :=
  | disk_written p l : on_disk (EvPersisted p :: l) p
  | disk_maybe next p l : restamped next p → on_disk (EvPolicyError (Some next) :: l) p
  | disk_older ev l p : (∀ q, ev ≠ EvPersisted q) → on_disk l p → on_disk (ev :: l) p.

Lemma last_persisted_on_disk l p : last_persisted l = Some p → on_disk l p.
Proof.
  induction l as [|ev l IH]; [done|]. destruct ev; try (intros Hl; apply disk_older; [done|by apply IH]).
  intros [= ->]. apply disk_written.
Qed.

(** The requests for one host since the outage began. *)
Fixpoint count_shutdowns (id : string) (l : Log) : Z :=
  match l with
  | [] => 0
  | EvFreshOutage :: _ => 0
  | EvShutdown h :: l => (if bool_decide (h_ID h = id) then 1 else 0) + count_shutdowns id l
  | _ :: l => count_shutdowns id l
  end.

Fixpoint count_wakes (id : string) (l : Log) : Z :=
  match l with
  | [] => 0
  | EvFreshOutage :: _ => 0
  | EvWake id' :: l => (if bool_decide (id' = id) then 1 else 0) + count_wakes id l
  | _ :: l => count_wakes id l
  end.

Abbreviation hostmap := (gmap string HostState) (only parsing).
Definition at_host (hm : hostmap) (id : string) : HostState := default zeroHostState (hm !! id).

(** The attempt counters cover the requests that were made. *)
Definition counts (l : Log) (hm : hostmap) : Prop :=
  ∀ id, (0 ≤ count_shutdowns id l ≤ hs_ShutdownAttempts (at_host hm id))%Z ∧
        (0 ≤ count_wakes id l ≤ hs_WakeAttempts (at_host hm id))%Z.

(** A direct host is settled: it is off, needs nothing, or its request was
    delivered and cannot be verified. *)
Definition settled_host (h : HostConfig) (hs : HostState) : Prop :=
  hs_ShutdownState hs = ShutdownCompleted ∨ hs_ShutdownState hs = ShutdownNotRequired ∨
  (unverifiable h = true ∧
   (hs_ShutdownState hs = ShutdownAcknowledged ∨ hs_ShutdownState hs = ShutdownRequested)).

(** What the disk holds agrees with memory on everything a restart acts on. *)
Record agrees (p st : State) : Prop := {
  agrees_committed : st_ShutdownCommitted p = st_ShutdownCommitted st;
  agrees_recovery : st_RecoveryStarted p = st_RecoveryStarted st;
  agrees_tx : st_TransactionID p = st_TransactionID st;
  agrees_power : st_PowerState p = st_PowerState st ∨ st_PowerState st = BootReconcile ∨
                 st_PowerState st = WaitingForAC;
  agrees_hosts id : hs_ShutdownState (host_at p id) = hs_ShutdownState (host_at st id) ∧
                    hs_ShutdownAttempts (host_at p id) = hs_ShutdownAttempts (host_at st id) ∧
                    hs_WakeAttempts (host_at p id) = hs_WakeAttempts (host_at st id);
}.

Lemma agrees_refl st : agrees st st.
Proof. split; auto. Qed.

Lemma host_at_hosts st id : host_at st id = at_host (hosts_of st) id.
Proof. done. Qed.

Lemma at_host_insert hm i j hs :
  at_host (<[i := hs]> hm) j = if decide (i = j) then hs else at_host hm j.
Proof. unfold at_host. rewrite lookup_insert. by case_decide. Qed.

(** ** The invariant *)

Section invariant.
Context {W : Type} `{StateWriterLaws W writable stored}.
Context (env : Env) (cfg : ConfigModel.Config) (UPSMonConfPath : string).

Definition plan : ShutdownPlan := shutdown_plan cfg.
Definition wake_hosts : list HostPlan.Config := toHostConfigs (cf_Hosts cfg).

(** When each side effect may happen, given the log before it. *)
Definition ok_event (ev : Event) (older : Log) : Prop :=
  match ev with
  | EvPersisted p | EvPolicyError (Some p) =>
      (* what is written is consistent and counts every request made so far *)
      wf_state p ∧ counts older (hosts_of p)
  | EvShutdown h =>
      (* the attempt was persisted just before, in the shutdown phase *)
      h ∈ cf_Hosts cfg ∧ h_ID h ∈ PreFSD plan ∧
      ∃ p l, older = EvPersisted p :: l ∧
        st_PowerState p = ShutdownInProgress ∧ st_ShutdownCommitted p = true ∧
        hs_ShutdownState (host_at p (h_ID h)) = ShutdownRequested ∧
        (count_shutdowns (h_ID h) older + 1 ≤ hs_ShutdownAttempts (host_at p (h_ID h)) ≤ maxDirectShutdownAttempts)%Z
  | EvFSD _ _ =>
      (* every direct host is settled and the request is on disk *)
      ∃ p, last_persisted older = Some p ∧
        st_PowerState p = ShutdownInProgress ∧ st_ShutdownCommitted p = true ∧
        (∀ id, id ∈ PreFSD plan → settled_host (host_config cfg id) (host_at p id)) ∧
        (∀ id, id ∈ NUTGroup plan →
           hs_ShutdownState (host_at p id) = ShutdownCompleted ∨
           hs_ShutdownState (host_at p id) = ShutdownRequested ∧
           (hs_ShutdownAttempts (host_at p id) ≤ maxNUTFSDShutdownAttempts)%Z)
  | EvWake id =>
      (* the attempt was persisted just before, in the restore phase *)
      ∃ p l h, older = EvPersisted p :: l ∧
        st_PowerState p = RestoreHosts ∧ st_RecoveryStarted p = true ∧
        h ∈ wake_hosts ∧ hc_ID h = id ∧ restorable (hosts_of p) h ∧
        hs_RecoveryState (host_at p id) = RecoveryWOLSent ∧
        (count_wakes id older + 1 ≤ hs_WakeAttempts (host_at p id) ≤ max_wake_attempts h)%Z ∧
        (∀ dep dh ds, dep ∈ hc_DependsOn h → dh ∈ wake_hosts → hc_ID dh = dep →
           hosts_of p !! dep = Some ds → EligibleForRestore dh ds = true →
           hs_RecoveryState ds = RecoveryOnline)
  | _ => True
  end.

Fixpoint good_log (l : Log) : Prop :=
  match l with
  | [] => True
  | ev :: older => ok_event ev older ∧ good_log older
  end.

Record Inv (w : World W) : Prop := {
  inv_wf : wf_state (w_State w);
  inv_log : good_log (w_log w);
  inv_agrees : ∃ p, last_persisted (w_log w) = Some p ∧ agrees p (w_State w);
  inv_counts : counts (w_log w) (hosts_of (w_State w));
}.

(** The world in power state [pw] with host map [hm]. *)
Definition at_ (pw : PowerState) (hm : hostmap) (w : World W) : Prop :=
  Inv w ∧ st_PowerState (w_State w) = pw ∧ hosts_of (w_State w) = hm.

(** ... and whose last action was to write exactly that. *)
Definition at_written (pw : PowerState) (hm : hostmap) (w : World W) : Prop :=
  at_ pw hm w ∧ ∃ l, w_log w = EvPersisted (w_State w) :: l.

Lemma at_Inv pw hm w : at_ pw hm w → Inv w.
Proof. by intros [? _]. Qed.
Lemma at_written_at pw hm w : at_written pw hm w → at_ pw hm w.
Proof. by intros [? _]. Qed.

(** Log entries that need no permission. *)
Definition quiet (ev : Event) : Prop :=
  match ev with
  | EvPolicyError None | EvCheck _ | EvWait _ _ | EvOnline _ | EvNewTransactionID => True
  | _ => False
  end.

Lemma Inv_quiet ev w : quiet ev → Inv w → Inv (log ev w).
Proof.
  intros Hq [Hwf Hl Ha Hc]. split; [done| | |].
  - simpl. split; [by destruct ev as [|[]| | | | | | | |]|done].
  - simpl. by destruct ev.
  - simpl. intros id. specialize (Hc id). by destruct ev.
Qed.

(** A failed call; what it tried to write was fit to be written. *)
Lemma Inv_failed tried w :
  (∀ next, tried = Some next → wf_state next ∧ counts (w_log w) (hosts_of next)) →
  Inv w → Inv (log (EvPolicyError tried) w).
Proof.
  intros Ht [Hwf Hl Ha Hc]. split; [done| |done|done]. simpl. split; [|done]. destruct tried; [by apply Ht|done].
Qed.

(** Fields of the controller other than the state and the log. *)
Lemma Inv_irrelevant (w w' : World W) : w_State w' = w_State w → w_log w' = w_log w → Inv w → Inv w'.
Proof. intros Hs Hl [Hwf Hlg Ha Hct]. split; rewrite ?Hs, ?Hl; done. Qed.

Lemma at_irrelevant pw hm (w w' : World W) :
  w_State w' = w_State w → w_log w' = w_log w → at_ pw hm w → at_ pw hm w'.
Proof.
  intros Hs Hl (Hi & Hp & Hh). split_and!; [by eapply Inv_irrelevant|by rewrite Hs|by rewrite Hs].
Qed.

(** *** Durable writes *)

Lemma restamped_counts l next p : restamped next p → counts l (hosts_of next) → counts l (hosts_of p).
Proof. intros (_ & _ & _ & Hh & _)%restamped_flags. unfold hosts_of. by rewrite Hh. Qed.

Lemma Policy_Write_inv next st l0 :
  wf_state next → counts l0 (hosts_of next) →
  spec (λ w : World W, Inv w ∧ w_State w = st ∧ w_log w = l0) (Policy_Write next)
    (λ p w, Inv w ∧ restamped next p ∧ w_State w = p ∧ w_log w = EvPersisted p :: l0)
    (λ w, Inv w ∧ w_State w = st).
Proof.
  intros Hwf Hcnt w (Hi & Hst & Hl). unfold Policy_Write, lift_coord, c_Write, write_through.
  destruct (sw_Write next (c_store (w_coord w))) as [w' [e|p]] eqn:Hw.
  - split; [|exact Hst]. apply Inv_failed; [by intros ? [= <-]; simpl; rewrite Hl|].
    by eapply Inv_irrelevant; [| |exact Hi].
  - pose proof (write_restamps _ _ _ _ Hw) as Hr. split; [|split_and!; [exact Hr|reflexivity|simpl; by rewrite Hl]].
    pose proof (restamped_wf _ _ Hr Hwf) as Hwfp.
    assert (Hcp : counts l0 (hosts_of p)) by by eapply restamped_counts.
    destruct Hi as [_ Hlg _ _]. split.
    + done.
    + simpl. by rewrite Hl in *.
    + exists p. split; [done|apply agrees_refl].
    + simpl. by rewrite Hl in *.
Qed.

(** A write that keeps the power state and replaces the host map. *)
Lemma Policy_Write_at pw hm hm' next l0 :
  (∀ st, wf_state st → st_PowerState st = pw → wf_state (next st)) →
  (∀ st, hosts_of st = hm → hosts_of (next st) = hm' ∧ st_PowerState (next st) = st_PowerState st) →
  counts l0 hm' →
  spec (λ w : World W, at_ pw hm w ∧ w_log w = l0)
    (st ← Policy_State; _ ← Policy_Write (next st); mret ())
    (λ _ w, at_written pw hm' w ∧ w_log w = EvPersisted (w_State w) :: l0) (at_ pw hm).
Proof.
  intros Hwf Hn Hcnt w [(Hi & Hp & Hh) Hl]. unfold Policy_State, gets, mbind, GoM_bind, mret, GoM_ret.
  destruct (Hn (w_State w) Hh) as [Hnh Hnp].
  assert (Hwf' : wf_state (next (w_State w))) by (apply Hwf; [by destruct Hi|done]).
  pose proof (Policy_Write_inv (next (w_State w)) (w_State w) l0 Hwf') as Hw. rewrite Hnh in Hw.
  specialize (Hw Hcnt w (conj Hi (conj eq_refl Hl))).
  destruct (Policy_Write (next (w_State w)) w) as [w' [e|p]].
  { destruct Hw as [Hi' Hst]. split_and!; [done|by rewrite Hst..]. }
  destruct Hw as (Hi' & Hr & Hst & Hl').
  pose proof (restamped_flags _ _ Hr) as (Hpp & _ & _ & Hhp & _).
  assert (Hh' : hosts_of p = hm') by (rewrite <-Hnh; unfold hosts_of; by rewrite Hhp).
  rewrite <-Hst in Hl'. split; [|done]. split; [|by eexists].
  split; [done|]. rewrite Hst. split; [by rewrite Hpp, Hnp, Hp|done].
Qed.

(** The attempt counters of [hs'] are those of [hs] or more. *)
Definition more_attempts (hs hs' : HostState) : Prop :=
  (hs_ShutdownAttempts hs ≤ hs_ShutdownAttempts hs')%Z ∧ (hs_WakeAttempts hs ≤ hs_WakeAttempts hs')%Z.

Lemma counts_insert l hm id hs :
  counts l hm → more_attempts (at_host hm id) hs → counts l (<[id := hs]> hm).
Proof.
  intros Hc [H1 H2] i. rewrite at_host_insert. specialize (Hc i). case_decide; [subst; lia|done].
Qed.

Lemma persistHost_at pw hm id hs l0 :
  more_attempts (at_host hm id) hs →
  spec (λ w : World W, at_ pw hm w ∧ w_log w = l0) (persistHost id hs)
    (λ _ w, at_written pw (<[id := hs]> hm) w ∧ w_log w = EvPersisted (w_State w) :: l0) (at_ pw hm).
Proof.
  intros Hm w [Hat Hl]. assert (Hc : counts l0 hm) by (rewrite <-Hl; destruct Hat as (Hi & _ & <-); apply Hi).
  apply (Policy_Write_at pw hm (<[id := hs]> hm) (λ st, st_put_host id hs (cloneState st)) l0); [..|done].
  - done.
  - intros st <-. done.
  - by apply counts_insert.
Qed.

(** The same without the log. *)
Lemma persistHost_spec pw hm id hs :
  more_attempts (at_host hm id) hs →
  spec (at_ pw hm) (persistHost id hs) (λ _, at_written pw (<[id := hs]> hm)) Inv.
Proof.
  intros Hm w Hat. pose proof (persistHost_at pw hm id hs (w_log w) Hm w (conj Hat eq_refl)) as Hs.
  destruct (persistHost id hs w) as [w' [e|[]]]; [by eapply at_Inv|]. by destruct Hs.
Qed.

(** A failed write leaves memory as it was. *)
Lemma persistHost_attempt pw hm id hs E :
  more_attempts (at_host hm id) hs →
  spec (at_ pw hm) (attempt (persistHost id hs))
    (λ r, match r with inl _ => at_ pw hm | inr _ => at_ pw (<[id := hs]> hm) end) E.
Proof.
  intros Hm w Hat. pose proof (persistHost_at pw hm id hs (w_log w) Hm w (conj Hat eq_refl)) as Hs.
  unfold attempt. destruct (persistHost id hs w) as [w' [e|[]]]; [done|]. by destruct Hs as [[Hs _] _].
Qed.

(** What is on disk counts every request made so far. *)
Lemma good_log_disk l p : good_log l → on_disk l p → wf_state p ∧ counts l (hosts_of p).
Proof.
  intros Hl Hd. induction Hd as [p l|next p l Hr|ev l p Hev Hd IH].
  - by destruct Hl as [[Hwf Hc] _].
  - destruct Hl as [[Hwf Hc] _]. split; [by eapply restamped_wf|]. by eapply restamped_counts.
  - destruct Hl as [Hok Hl]. destruct (IH Hl) as [Hwf Hc]. split; [done|].
    assert (Hhead : ∀ p' l', l = EvPersisted p' :: l' → p' = p).
    { intros p' l' ->. inversion Hd as [| |? ? ? Hne]; subst; [done|]. by destruct (Hne p'). }
    intros id. specialize (Hc id). destruct ev as [q|tried|h|h b|h|u pa|id'|id'| |]; simpl; try exact Hc; [..|lia].
    + destruct Hok as (_ & _ & p' & l' & Heq & _ & _ & _ & Hn). rewrite (Hhead _ _ Heq) in Hn.
      rewrite host_at_hosts in Hn. case_bool_decide; [subst id; lia|lia].
    + destruct Hok as (p' & l' & h & Heq & _ & _ & _ & _ & _ & _ & Hn & _). rewrite (Hhead _ _ Heq) in Hn.
      rewrite host_at_hosts in Hn. case_bool_decide; [subst id; lia|lia].
Qed.

(** *** Reading and asking *)

Lemma Policy_State_spec pw hm :
  spec (at_ pw hm) Policy_State
    (λ st w, (st_PowerState st = pw ∧ hosts_of st = hm ∧ wf_state st) ∧ at_ pw hm w) Inv.
Proof. intros w Hat. pose proof Hat as (Hi & Hp & Hh). split; [|done]. split_and!; [done..|apply Hi]. Qed.

Lemma current_host_spec pw hm id :
  spec (at_ pw hm) (current_host id) (λ hs w, hs = at_host hm id ∧ at_ pw hm w) Inv.
Proof.
  eapply spec_bind; [apply Policy_State_spec|]. intros st. apply spec_pure. intros (_ & Hh & _).
  intros w Hat. split; [|done]. by rewrite host_at_hosts, Hh.
Qed.

Lemma ask_quiet {A} ev (answer : Log → result A) pw hm :
  quiet ev → spec (at_ pw hm) (ask ev answer) (λ _, at_ pw hm) (at_ pw hm).
Proof.
  intros Hq w (Hi & Hp & Hh). unfold ask.
  assert (Hat : at_ pw hm (log ev w)) by (split_and!; [by apply Inv_quiet|done..]).
  by destruct (answer (w_log w)).
Qed.

Lemma ask_error_quiet ev answer pw hm :
  quiet ev → spec (at_ pw hm) (ask_error ev answer) (λ _, at_ pw hm) (at_ pw hm).
Proof. apply ask_quiet. Qed.

(** [x, err := call()] when the call keeps the situation either way. *)
Lemma attempt_same {A} (m : GoM (World W) A) P E :
  spec P m (λ _, P) P → spec P (attempt m) (λ _, P) E.
Proof. intros Hm w Hw. specialize (Hm w Hw). unfold attempt. by destruct (m w) as [w' [e|a]]. Qed.

(** A write into any consistent state keeps the invariant. *)
Lemma Policy_Write_any pw hm next :
  (∀ st, wf_state st → hosts_of st = hm → wf_state (next st)) →
  (∀ l st, counts l hm → hosts_of st = hm → counts l (hosts_of (next st))) →
  spec (at_ pw hm) (st ← Policy_State; _ ← Policy_Write (next st); mret ()) (λ _, Inv) Inv.
Proof.
  intros Hwf Hcnt w (Hi & Hp & Hh). unfold Policy_State, gets, mbind, GoM_bind, mret, GoM_ret.
  assert (Hc : counts (w_log w) (hosts_of (next (w_State w)))).
  { apply Hcnt; [|done]. rewrite <-Hh. apply Hi. }
  pose proof (Policy_Write_inv (next (w_State w)) (w_State w) (w_log w) (Hwf _ (inv_wf _ Hi) Hh) Hc w
    (conj Hi (conj eq_refl eq_refl))) as Hw.
  destruct (Policy_Write (next (w_State w)) w) as [w' [e|p]]; by destruct Hw.
Qed.

(** ** Direct shutdowns *)

Lemma fail_safe_spec pw hm id hs reason :
  more_attempts (at_host hm id) hs → spec (at_ pw hm) (fail_safe id hs reason) (λ _ _, False) Inv.
Proof.
  intros Hm. eapply (spec_bind _ _ _ (λ _, Inv)); [|intros []; by apply spec_throw].
  apply (Policy_Write_any pw hm (λ st, cloneState st
    |> st_put_host id (hs |> hs_set_ShutdownState ShutdownFailed |> hs_set_LastError reason)
    |> st_set_PowerState FailedSafe |> st_set_FailedSafeReason ("host " +:+ id +:+ ": " +:+ reason))).
  - intros st [Hrec _] _. split; [exact Hrec|exact I].
  - intros l st Hc <-. by apply counts_insert.
Qed.

Lemma retry_pending_spec pw hm id hs :
  more_attempts (at_host hm id) hs → spec (at_ pw hm) (retry_pending id hs) (λ _ _, False) Inv.
Proof.
  intros Hm. eapply spec_bind; [by apply persistHost_spec|].
  intros []. apply spec_throw. intros w Hw. eapply at_Inv, at_written_at, Hw.
Qed.

(** The host ends in a settled state, the other hosts are untouched. *)
Definition settles (h : HostConfig) (hm : hostmap) (w : World W) : Prop :=
  ∃ hs, at_ ShutdownInProgress (<[h_ID h := hs]> hm) w ∧ settled_host h hs.

Lemma persist_settles h hm hs hs0 :
  more_attempts hs0 hs → settled_host h hs →
  spec (at_ ShutdownInProgress (<[h_ID h := hs0]> hm)) (persistHost (h_ID h) hs) (λ _, settles h hm) Inv.
Proof.
  intros Hm Hs. eapply spec_conseq; [apply persistHost_spec; by rewrite at_host_insert, decide_True|done| |done].
  intros [] w Hw%at_written_at. exists hs. by rewrite insert_insert_eq in Hw.
Qed.

Lemma await_offline_spec pr h hm hs0 :
  spec (at_ ShutdownInProgress (<[h_ID h := hs0]> hm)) (await_offline pr h) (λ _, settles h hm) Inv.
Proof.
  eapply spec_bind; [by apply attempt_same, ask_error_quiet|]. intros r.
  eapply spec_bind; [apply current_host_spec|]. intros hs. apply spec_pure. intros ->.
  rewrite at_host_insert, decide_True by done. destruct r as [e|[]].
  - eapply spec_conseq; [apply retry_pending_spec|done|done|done].
    rewrite at_host_insert, decide_True by done. done.
  - apply persist_settles; [done|by left].
Qed.

Lemma shutdown_ask {A} (answer : Log → result A) h hm l0 :
  let hs := at_host hm (h_ID h) in
  h ∈ cf_Hosts cfg → h_ID h ∈ PreFSD plan → hs_ShutdownState hs = ShutdownRequested →
  (count_shutdowns (h_ID h) l0 + 1 ≤ hs_ShutdownAttempts hs ≤ maxDirectShutdownAttempts)%Z →
  spec (λ w : World W, at_written ShutdownInProgress hm w ∧ w_log w = EvPersisted (w_State w) :: l0)
    (attempt (ask (EvShutdown h) answer)) (λ _, at_ ShutdownInProgress hm) Inv.
Proof.
  intros hs Hh Hpre Hreq Hn w [[([Hwf Hl Ha Hc] & Hp & Hm) _] Hlog].
  assert (Hi : Inv (log (EvShutdown h) w)).
  { split; [done| |done|].
    - simpl. split; [|done]. split; [done|]. split; [done|]. rewrite Hlog.
      destruct Hwf as [_ Hwf]. rewrite Hp in Hwf.
      exists (w_State w), l0. split_and!; try done; [apply Hwf|..]; rewrite host_at_hosts, Hm; done || apply Hn.
    - intros i. change (w_State (log (EvShutdown h) w)) with (w_State w). specialize (Hc i).
      rewrite Hm in *. rewrite Hlog in Hc. simpl in *. rewrite Hlog. simpl.
      case_bool_decide; [subst i; fold hs in Hc |- *|]; lia. }
  assert (Hat : at_ ShutdownInProgress hm (log (EvShutdown h) w)) by done.
  unfold attempt, ask. done.
Qed.

Lemma request_shutdown_spec pr shutdown tx h hm hs :
  h ∈ cf_Hosts cfg → h_ID h ∈ PreFSD plan → hs = at_host hm (h_ID h) →
  spec (at_ ShutdownInProgress hm) (request_shutdown pr shutdown tx h hs) (λ _, settles h hm) Inv.
Proof.
  intros Hh Hpre Hhs. unfold request_shutdown.
  destruct (Z.leb_spec maxDirectShutdownAttempts (hs_ShutdownAttempts hs)) as [Hmax|Hmax].
  { eapply spec_conseq; [apply fail_safe_spec|done|done|done]. by rewrite <-Hhs. }
  set (req := hs |> hs_set_ShutdownAttempts (hs_ShutdownAttempts hs + 1)%Z |> hs_set_ShutdownState ShutdownRequested
                 |> hs_set_LastActionID (action_id "shutdown" tx (h_ID h) (hs_ShutdownAttempts hs + 1)%Z)
                 |> hs_set_LastError "").
  intros w Hat. assert (Hc : counts (w_log w) hm) by (destruct Hat as (Hi & _ & <-); apply Hi).
  pose proof (Hc (h_ID h)) as [[_ Hch] _]. rewrite <-Hhs in Hch.
  remember (w_log w) as l0 eqn:Hl0. assert (Hpw : at_ ShutdownInProgress hm w ∧ w_log w = l0) by done.
  revert w Hl0 Hpw Hat. intros w _ Hpw _. revert w Hpw.
  eapply spec_bind; [eapply spec_conseq; [apply (persistHost_at ShutdownInProgress hm (h_ID h) req l0)|done|done|by apply at_Inv]|];
    [rewrite <-Hhs; split; simpl; lia|]. intros [].
  eapply spec_bind; [apply (shutdown_ask _ h (<[h_ID h := req]> hm) l0); try done;
    rewrite at_host_insert, decide_True by done; simpl; [done|lia]|].
  intros r. eapply spec_bind; [apply current_host_spec|]. intros hs'. apply spec_pure. intros ->.
  rewrite at_host_insert, decide_True by done. destruct r as [e|[| | |raw]].
  - case_match.
    + eapply spec_conseq; [apply fail_safe_spec|done|done|done]. by rewrite at_host_insert, decide_True.
    + eapply spec_conseq; [apply retry_pending_spec|done|done|done]. by rewrite at_host_insert, decide_True.
  - set (ack := hs_set_ShutdownState ShutdownAcknowledged req).
    eapply (spec_bind _ _ _ (λ _, at_ ShutdownInProgress (<[h_ID h := ack]> hm))).
    { eapply spec_conseq; [apply (persistHost_spec ShutdownInProgress (<[h_ID h := req]> hm) (h_ID h) ack)|done| |done].
      - by rewrite at_host_insert, decide_True.
      - intros [] w Hw%at_written_at. by rewrite insert_insert_eq in Hw. }
    intros []. destruct (unverifiable h) eqn:Hu; [|apply await_offline_spec].
    intros w Hw. exists ack. split; [done|]. right. right. split; [done|by left].
  - apply spec_throw. intros w Hw. by eapply at_Inv.
  - apply persist_settles; [done|right; by left].
  - destruct (unverifiable h) eqn:Hu; [|apply await_offline_spec].
    intros w Hw. exists req. split; [done|]. right. right. split; [done|by right].
Qed.

Lemma insert_at_host hm id : at_host hm id ≠ zeroHostState → <[id := at_host hm id]> hm = hm.
Proof. unfold at_host. destruct (hm !! id) as [hs|] eqn:Hh; [|done]. intros _. by apply insert_id. Qed.

Lemma settleDirect_spec pr shutdown h hm :
  h ∈ cf_Hosts cfg → h_ID h ∈ PreFSD plan →
  spec (at_ ShutdownInProgress hm) (settleDirect pr shutdown h) (λ _, settles h hm) Inv.
Proof.
  intros Hh Hpre. unfold settleDirect. eapply spec_bind; [apply Policy_State_spec|].
  intros st. apply spec_pure. intros (_ & Hhm & _). rewrite host_at_hosts, Hhm.
  set (hs := at_host hm (h_ID h)). unfold shutdown_is. destruct (hs_ShutdownState hs) eqn:Hst; simpl;
    try (by apply request_shutdown_spec).
  1,4: intros w Hw; exists hs; split; [|unfold settled_host; auto];
    unfold hs; rewrite insert_at_host; [done|]; intros Hz; unfold hs in *; by rewrite Hz in Hst.
  4: { eapply spec_conseq; [apply (fail_safe_spec ShutdownInProgress hm)|done|done|done]; done. }
  all: destruct (unverifiable h); [by eapply spec_conseq; [apply (retry_pending_spec ShutdownInProgress hm)|done..]|].
  all: eapply spec_bind; [by apply attempt_same, ask_quiet|]; intros [e|res];
    [by eapply spec_conseq; [apply (retry_pending_spec ShutdownInProgress hm)|done..]|].
  all: destruct (pb_Known res); simpl; [|by eapply spec_conseq; [apply (retry_pending_spec ShutdownInProgress hm)|done..]].
  all: destruct (pb_Online res); simpl; [by apply request_shutdown_spec|].
  all: eapply spec_conseq; [by apply (persistHost_spec ShutdownInProgress hm)|done| |done].
  all: intros [] w Hw%at_written_at; eexists; split; [exact Hw|by left].
Qed.

(** *** All direct hosts *)

Hypothesis Hnd : NoDup (h_ID <$> cf_Hosts cfg).

Lemma host_config_in id : (∃ h, h ∈ cf_Hosts cfg ∧ h_ID h = id) →
  host_config cfg id ∈ cf_Hosts cfg ∧ h_ID (host_config cfg id) = id.
Proof.
  intros (h & Hh & <-). unfold host_config, byID.
  assert (Hl : by_id h_ID (cf_Hosts cfg) !! h_ID h = Some h) by by apply by_id_lookup.
  by rewrite Hl.
Qed.

Lemma plan_hosts id :
  id ∈ PreFSD plan ∨ id ∈ NUTGroup plan → ∃ h, h ∈ cf_Hosts cfg ∧ h_ID h = id.
Proof.
  unfold plan, shutdown_plan. rewrite BuildShutdownPlan_parts. simpl.
  intros [Hin|Hin]; apply list_elem_of_fmap in Hin as (hc & -> & Hin);
    rewrite SliceStable_elem in Hin; apply list_elem_of_filter in Hin as [_ Hin];
    apply list_elem_of_fmap in Hin as (h & -> & Hin); by exists h.
Qed.

(** The direct hosts and the NUT group have no host in common. *)
Lemma plan_disjoint id : id ∈ PreFSD plan → id ∈ NUTGroup plan → False.
Proof.
  unfold plan, shutdown_plan. rewrite BuildShutdownPlan_parts. simpl.
  intros (h1 & -> & H1)%list_elem_of_fmap (h2 & Heq & H2)%list_elem_of_fmap.
  rewrite SliceStable_elem in H1, H2.
  apply list_elem_of_filter in H1 as [Hc1 (x1 & -> & H1)%list_elem_of_fmap],
    H2 as [Hc2 (x2 & -> & H2)%list_elem_of_fmap].
  simpl in Heq. assert (x1 = x2) as -> by by apply (NoDup_key_inj h_ID (cf_Hosts cfg)). congruence.
Qed.

(** The hosts of [ids] are settled in [hm]. *)
Definition all_settled (ids : list string) (hm : hostmap) : Prop :=
  ∀ id, id ∈ ids → settled_host (host_config cfg id) (at_host hm id).

Lemma settle_hosts_spec pr shutdown ids done_ids hm :
  (∀ id, id ∈ ids → id ∈ PreFSD plan) → all_settled done_ids hm →
  spec (at_ ShutdownInProgress hm) (settle_hosts cfg pr shutdown ids)
    (λ b w, Inv w ∧ (b = true → ∃ hm', at_ ShutdownInProgress hm' w ∧ all_settled (done_ids ++ ids) hm')) Inv.
Proof.
  revert done_ids hm. induction ids as [|id ids IH]; intros done_ids hm Hids Hdone; simpl.
  { intros w Hw. split; [by eapply at_Inv|]. intros _. exists hm. by rewrite app_nil_r. }
  destruct (host_config_in id) as [Hin Hid]; [apply plan_hosts; left; apply Hids; left|].
  assert (Hpre : h_ID (host_config cfg id) ∈ PreFSD plan) by (rewrite Hid; apply Hids; left).
  eapply spec_bind; [eapply spec_attempt, settleDirect_spec; done|]. intros [e|[]].
  { destruct (_ || _); [|by apply spec_throw]. intros w Hw. by split. }
  intros w (hs & Hw & Hs). rewrite Hid in Hw. revert w Hw.
  eapply spec_conseq; [apply (IH (done_ids ++ [id]) (<[id := hs]> hm))|done| |done].
  - intros id' Hin'. apply Hids. by right.
  - intros id' Hin'. rewrite at_host_insert. case_decide as Heq; [by subst id'|].
    apply elem_of_app in Hin' as [Hin'|Hin']; [by apply Hdone|]. by apply list_elem_of_singleton in Hin'.
  - intros b w [Hi Hb]. split; [done|]. intros Hbt. destruct (Hb Hbt) as (hm' & ? & Hall).
    exists hm'. rewrite <-app_assoc in Hall. done.
Qed.

(** ** The NUT group *)

Lemma NoDup_plan : NoDup (NUTGroup plan).
Proof.
  unfold plan, shutdown_plan. rewrite BuildShutdownPlan_parts. simpl.
  rewrite (SliceStable_perm (less_id hc_ID)).
  assert (Hids : NoDup (hc_ID <$> toHostConfigs (cf_Hosts cfg))).
  { unfold toHostConfigs. rewrite <-list_fmap_compose. exact Hnd. }
  revert Hids. unfold of_class. induction (toHostConfigs (cf_Hosts cfg)) as [|h l IH]; [done|].
  simpl. intros [Hni Hl]%NoDup_cons. rewrite filter_cons. case_decide; [|by apply IH].
  simpl. apply NoDup_cons. split; [|by apply IH].
  intros (h' & Heq & [_ Hin]%list_elem_of_filter)%list_elem_of_fmap. apply Hni. rewrite Heq. by apply list_elem_of_fmap_2.
Qed.

(** Only the host map entries of [ids] differ. *)
Definition same_except (ids : list string) (hm hm' : hostmap) : Prop :=
  ∀ i, i ∉ ids → at_host hm' i = at_host hm i.

Lemma same_except_settled hm hm' :
  same_except (NUTGroup plan) hm hm' → all_settled (PreFSD plan) hm → all_settled (PreFSD plan) hm'.
Proof. intros Hs Ha id Hid. rewrite Hs; [by apply Ha|]. intros Hin. by eapply plan_disjoint. Qed.

(** A loop over distinct hosts whose body handles one host at a time. *)
Lemma for_collect_hosts (f : string → GoM (World W) (list error)) (Pre Post : HostState → Prop) ids hm :
  (∀ id hm, Pre (at_host hm id) →
     spec (at_ ShutdownInProgress hm) (f id)
       (λ errs w, ∃ hm', at_ ShutdownInProgress hm' w ∧ same_except [id] hm hm' ∧
                         (errs = [] → Post (at_host hm' id))) Inv) →
  NoDup ids → (∀ id, id ∈ ids → Pre (at_host hm id)) →
  spec (at_ ShutdownInProgress hm) (for_collect f ids)
    (λ errs w, ∃ hm', at_ ShutdownInProgress hm' w ∧ same_except ids hm hm' ∧
                      (errs = [] → ∀ id, id ∈ ids → Post (at_host hm' id))) Inv.
Proof.
  intros Hf Hids. revert hm. induction Hids as [|id ids Hni _ IH]; intros hm Hpre; simpl.
  { intros w Hw. exists hm. split_and!; [done|done|]. by intros _ ? ?%not_elem_of_nil. }
  eapply spec_bind; [apply Hf, Hpre; left|]. intros errs w (hm1 & Hw & Hs1 & Hp1). revert w Hw.
  eapply spec_bind; [apply IH|].
  { intros i Hi. rewrite Hs1; [apply Hpre; by right|]. intros Hi'. by apply list_elem_of_singleton in Hi' as ->. }
  intros errs' w (hm2 & Hw & Hs2 & Hp2). exists hm2. split_and!; [done| |].
  - intros i Hi. rewrite not_elem_of_cons in Hi. rewrite Hs2, Hs1; [done| |tauto].
    rewrite list_elem_of_singleton. tauto.
  - intros [-> ->]%app_eq_nil i [->|Hi]%elem_of_cons; [|by apply Hp2]. rewrite Hs2 by done. by apply Hp1.
Qed.

Lemma join_collected_spec m P (Q : World W → Prop) :
  spec P m (λ errs w, Inv w ∧ (errs = [] → Q w)) Inv → spec P (join_collected m) (λ _, Q) Inv.
Proof.
  intros Hm. eapply spec_bind; [exact Hm|]. intros [|e errs]; simpl; intros w [Hi Hq]; [by apply Hq|exact Hi].
Qed.

(** Writing one host and collecting the error. *)
Lemma collect_persist_spec what id hm hs (Post : HostState → Prop) :
  more_attempts (at_host hm id) hs → Post hs →
  spec (at_ ShutdownInProgress hm) (collect_persist what id hs)
    (λ errs w, ∃ hm', at_ ShutdownInProgress hm' w ∧ same_except [id] hm hm' ∧
                      (errs = [] → Post (at_host hm' id))) Inv.
Proof.
  intros Hm Hp. eapply spec_bind; [by apply persistHost_attempt|]. intros [e|[]] w Hw.
  - by exists hm.
  - exists (<[id := hs]> hm). split_and!; [done| |by rewrite at_host_insert, decide_True].
    intros i Hi. rewrite at_host_insert, decide_False; [done|]. intros ->. apply Hi. left.
Qed.

Lemma skip_host hm id (Post : HostState → Prop) :
  Post (at_host hm id) →
  spec (at_ ShutdownInProgress hm) (mret [])
    (λ (errs : list error) w, ∃ hm', at_ ShutdownInProgress hm' w ∧ same_except [id] hm hm' ∧
                                     (errs = [] → Post (at_host hm' id))) Inv.
Proof. intros Hp w Hw. by exists hm. Qed.

(** Before the request: a host still needs it, and attempts remain. *)
Definition attempts_left (hs : HostState) : Prop := (hs_ShutdownAttempts hs < maxNUTFSDShutdownAttempts)%Z.
Definition marked (hs : HostState) : Prop :=
  hs_ShutdownState hs = ShutdownCompleted ∨
  hs_ShutdownState hs = ShutdownRequested ∧ (hs_ShutdownAttempts hs ≤ maxNUTFSDShutdownAttempts)%Z.

Lemma markNUTRequested_spec hm :
  (∀ id, id ∈ NUTGroup plan → attempts_left (at_host hm id)) →
  spec (at_ ShutdownInProgress hm) (markNUTRequested (NUTGroup plan))
    (λ _ w, ∃ hm', at_ ShutdownInProgress hm' w ∧ same_except (NUTGroup plan) hm hm' ∧
                   ∀ id, id ∈ NUTGroup plan → marked (at_host hm' id)) Inv.
Proof.
  intros Hleft. apply join_collected_spec. eapply spec_conseq;
    [apply (for_collect_hosts _ attempts_left marked _ hm); [|apply NoDup_plan|done]|done| |done].
  - clear hm Hleft. intros id hm Hleft. eapply spec_bind; [apply Policy_State_spec|]. intros st.
    apply spec_pure. intros (_ & Hh & _). rewrite host_at_hosts, Hh. unfold shutdown_is.
    case_bool_decide as Hst; [apply skip_host; by left|].
    apply collect_persist_spec; [split; simpl; lia|]. right. split; [done|].
    unfold attempts_left in Hleft. simpl. lia.
  - intros errs w (hm' & Hw & Hs & Hp). split; [by eapply at_Inv|]. intros He. exists hm'. split_and!; [done..|by apply Hp].
Qed.

(** The later loops only have to keep the invariant. *)
Lemma group_loop_Inv (f : string → GoM (World W) (list error)) hm :
  (∀ id hm, spec (at_ ShutdownInProgress hm) (f id)
     (λ errs w, ∃ hm', at_ ShutdownInProgress hm' w ∧ same_except [id] hm hm' ∧ (errs = [] → True)) Inv) →
  spec (at_ ShutdownInProgress hm) (join_collected (for_collect f (NUTGroup plan)))
    (λ _ w, ∃ hm', at_ ShutdownInProgress hm' w) Inv.
Proof.
  intros Hf. apply join_collected_spec. eapply spec_conseq;
    [apply (for_collect_hosts f (λ _, True) (λ _, True) _ hm); [intros; apply Hf|apply NoDup_plan|done]|done| |done].
  intros errs w (hm' & Hw & _). split; [by eapply at_Inv|]. by eexists.
Qed.

Ltac on_current_host :=
  eapply spec_bind; [apply current_host_spec|]; intros ?; apply spec_pure; intros ->.

Lemma markNUTAcknowledged_spec hm :
  spec (at_ ShutdownInProgress hm) (markNUTAcknowledged (NUTGroup plan)) (λ _ w, ∃ hm', at_ ShutdownInProgress hm' w) Inv.
Proof.
  apply group_loop_Inv. clear hm. intros id hm. on_current_host. unfold shutdown_is.
  case_bool_decide; simpl; [by apply (collect_persist_spec _ _ _ _ (λ _, True))|by apply (skip_host _ _ (λ _, True))].
Qed.

Lemma markNUTError_spec hm cause :
  spec (at_ ShutdownInProgress hm) (markNUTError (NUTGroup plan) cause) (λ _ w, ∃ hm', at_ ShutdownInProgress hm' w) Inv.
Proof.
  apply group_loop_Inv. clear hm. intros id hm. on_current_host. unfold shutdown_is.
  case_bool_decide; simpl; [by apply (skip_host _ _ (λ _, True))|by apply (collect_persist_spec _ _ _ _ (λ _, True))].
Qed.

Lemma verifyNUTGroup_spec pr hm :
  spec (at_ ShutdownInProgress hm) (verifyNUTGroup cfg pr (NUTGroup plan)) (λ _ w, ∃ hm', at_ ShutdownInProgress hm' w) Inv.
Proof.
  apply group_loop_Inv. clear hm. intros id hm. on_current_host.
  destruct (_ || _); [by apply (skip_host _ _ (λ _, True))|].
  eapply spec_bind; [by apply attempt_same, ask_error_quiet|]. intros r. on_current_host.
  apply (collect_persist_spec _ _ _ _ (λ _, True)); [|done]. by destruct r.
Qed.

Lemma prepareNUTGroup_spec pr ids hm :
  spec (at_ ShutdownInProgress hm) (prepareNUTGroup cfg pr ids)
    (λ _ w, ∃ hm', at_ ShutdownInProgress hm' w ∧ same_except ids hm hm') Inv.
Proof.
  revert hm. induction ids as [|id ids IH]; intros hm; simpl.
  { intros w Hw. exists hm. by split. }
  on_current_host.
  eapply (spec_bind _ _ _ (λ _ w, ∃ hm', at_ ShutdownInProgress hm' w ∧ same_except [id] hm hm')).
  { assert (Hskip : ∀ w, at_ ShutdownInProgress hm w → ∃ hm', at_ ShutdownInProgress hm' w ∧ same_except [id] hm hm')
      by (intros w Hw; by exists hm).
    destruct (_ || _); [exact Hskip|].
    eapply spec_bind; [by apply attempt_same, ask_quiet|]. intros [e|res]; [exact Hskip|].
    apply spec_when; intros _; [|exact Hskip].
    eapply spec_conseq; [by apply (persistHost_spec ShutdownInProgress hm)|done| |done].
    intros [] w Hw%at_written_at. eexists. split; [exact Hw|].
    intros i Hi. rewrite at_host_insert, decide_False; [done|]. intros ->. apply Hi. left. }
  intros [] w (hm1 & Hw & Hs). revert w Hw. eapply spec_conseq; [apply (IH hm1)|done| |done].
  intros [] w (hm2 & Hw & Hs2). exists hm2. split; [done|]. intros i Hi. rewrite not_elem_of_cons in Hi.
  rewrite Hs2, Hs; [done| |tauto]. rewrite list_elem_of_singleton. tauto.
Qed.

(** ** Policy decisions *)

(** What persisting a decision does to the world, on every branch. *)
Lemma persist_decision_inv before (e : Engine) d tried :
  wf_state (e_st e) → st_Hosts (e_st e) = st_Hosts before →
  (∀ p, agrees p before → dec_Changed d = false → agrees p (e_st e)) →
  (∀ c next, c_State c = before → tried c = Some next → next = e_st e) →
  spec (λ w : World W, Inv w ∧ w_State w = before)
    (lift_coord dec_Changed tried (persist_decision before e d))
    (λ d' w, Inv w ∧ d' = d ∧ st_PowerState (w_State w) = e_power e ∧ st_Hosts (w_State w) = st_Hosts before)
    (λ w, Inv w ∧ w_State w = before).
Proof.
  intros Hwf Hh Hag Htried w [Hi Hb]. pose proof Hi as [_ Hlg (p0 & Hp0 & Ha0) Hc].
  assert (Hce : counts (w_log w) (hosts_of (e_st e))) by (rewrite Hb in Hc; unfold hosts_of in *; by rewrite Hh).
  unfold lift_coord, persist_decision. destruct (dec_Changed d) eqn:Hd; simpl.
  - unfold write_through. destruct (sw_Write (e_st e) (c_store (w_coord w))) as [w' [err|p]] eqn:Hw.
    + split; [|done]. apply Inv_failed; [|by eapply Inv_irrelevant; [| |exact Hi]].
      intros next Hn. by rewrite (Htried _ _ Hb Hn).
    + rewrite Hd. pose proof (write_restamps _ _ _ _ Hw) as Hr.
      pose proof (restamped_flags _ _ Hr) as (Hpp & _ & _ & Hhp & _).
      pose proof (restamped_wf _ _ Hr Hwf) as Hwfp. pose proof (restamped_counts _ _ _ Hr Hce) as Hcp.
      split; [|split_and!; [done|exact Hpp|by rewrite <-Hh]]. split.
      * done.
      * by split.
      * exists p. split; [done|apply agrees_refl].
      * exact Hcp.
  - rewrite Hd. split; [|done]. split.
    + exact Hwf.
    + exact Hlg.
    + exists p0. split; [exact Hp0|]. apply Hag; [by rewrite <-Hb|done].
    + intros i. specialize (Hc i). rewrite Hb in Hc. unfold hosts_of in *.
      change (st_Hosts (w_State _)) with (st_Hosts (e_st e)). rewrite Hh. exact Hc.
Qed.

(** The decision [d] of the engine's step on the state [before], seen from
    the world after it. *)
Definition stepped (before : State) (now : Time) (i : Inputs) (d : Decision) (w : World W) : Prop :=
  Inv w ∧ hosts_of (w_State w) = hosts_of before ∧
  ∃ e, e_st e = before ∧ (Step now i e).2 = inr d ∧ st_PowerState (w_State w) = e_power (Step now i e).1.

Lemma Policy_Step_spec now i before :
  spec (λ w : World W, Inv w ∧ w_State w = before) (Policy_Step now i) (stepped before now i) Inv.
Proof.
  intros w [Hi Hb]. unfold Policy_Step, lift_coord, c_Step.
  set (e0 := c_engine (w_coord w)). assert (He0 : e_st e0 = before) by exact Hb.
  pose proof (Step_preserves_flags now i e0) as Hwf. rewrite He0 in Hwf.
  specialize (Hwf ltac:(rewrite <-Hb; apply Hi)).
  pose proof (Step_keeps_hosts now i e0) as [Hh Htx]. pose proof (Step_error_keeps_state now i e0) as Herr.
  pose proof (Step_unchanged_keeps_state now i e0) as Hun. unfold stepped.
  assert (Hsame : ∃ e, e_st e = before ∧ Step now i e = Step now i e0) by by exists e0.
  destruct (Step now i e0) as [e [err|d]] eqn:Hst; simpl in *.
  - apply Inv_failed; [|apply (Inv_irrelevant w); [|done|exact Hi]].
    + intros next. unfold tried_by. fold e0. by rewrite Hst.
    + change (e_st e = w_State w). rewrite Hb, <-He0. by eapply Herr.
  - assert (Htried : ∀ c next, c_State c = before → (λ _ : Coordinator W, tried_by (Step now i) (w_coord w)) c = Some next → next = e_st e).
    { intros c next _. simpl. unfold tried_by. fold e0. rewrite Hst. destruct (dec_Changed d); congruence. }
    assert (Hspec := persist_decision_inv before e d (λ _, tried_by (Step now i) (w_coord w)) Hwf). rewrite He0 in *. specialize (Hspec Hh).
    assert (Hag : ∀ p, agrees p before → dec_Changed d = false → agrees p (e_st e)).
    { intros p [H1 H2 H3 H4 H5] Hc. specialize (Hun d eq_refl Hc).
      destruct Hun as [->|(Hp1 & Hp2 & ->)]; [done|]. split; try done. rewrite Hp2. auto. }
    specialize (Hspec Hag Htried w (conj Hi Hb)). unfold lift_coord in Hspec.
    destruct (persist_decision before e d (w_coord w)) as [c [err|d']]; simpl in *; [by destruct Hspec|].
    destruct Hspec as (Hi' & -> & Hpw & Hhs). split; [done|]. split; [unfold hosts_of; by rewrite Hhs|].
    exists e0. rewrite Hst. done.
Qed.

Lemma MarkShutdownPhaseComplete_keeps e :
  st_Hosts (e_st (MarkShutdownPhaseComplete e).1) = st_Hosts (e_st e) ∧
  (dec_Changed (MarkShutdownPhaseComplete e).2 = false → (MarkShutdownPhaseComplete e).1 = e).
Proof. unfold MarkShutdownPhaseComplete. by repeat case_bool_decide. Qed.

Lemma MarkRecoveryComplete_keeps e :
  st_Hosts (e_st (MarkRecoveryComplete e).1) = st_Hosts (e_st e) ∧
  (dec_Changed (MarkRecoveryComplete e).2 = false → (MarkRecoveryComplete e).1 = e).
Proof. unfold MarkRecoveryComplete. by repeat case_bool_decide. Qed.

Lemma Mark_spec (mark : Engine → Engine * Decision) :
  (∀ e, wf_state (e_st e) → wf_state (e_st (mark e).1)) →
  (∀ e, st_Hosts (e_st (mark e).1) = st_Hosts (e_st e) ∧ (dec_Changed (mark e).2 = false → (mark e).1 = e)) →
  spec Inv (lift_coord dec_Changed (tried_by (λ e, ok (mark e)))
              (λ c, let before := e_st (c_engine c) in
                    let '(e, d) := mark (c_engine c) in persist_decision before e d c))
    (λ _, Inv) Inv.
Proof.
  intros Hwf Hk w Hi. specialize (Hwf (c_engine (w_coord w)) (inv_wf _ Hi)).
  destruct (Hk (c_engine (w_coord w))) as [Hh Hun]. unfold lift_coord.
  assert (Htried : ∀ c next, c_State c = w_State w →
    (λ _ : Coordinator W, tried_by (λ e, ok (mark e)) (w_coord w)) c = Some next →
    next = e_st (mark (c_engine (w_coord w))).1).
  { intros c next _. unfold tried_by, ok. destruct (mark _) as [e d]. simpl. destruct (dec_Changed d); congruence. }
  destruct (mark (c_engine (w_coord w))) as [e d]. simpl in *.
  assert (Hag : ∀ p, agrees p (w_State w) → dec_Changed d = false → agrees p (e_st e)).
  { intros p Ha Hc. by rewrite (Hun Hc). }
  pose proof (persist_decision_inv (w_State w) e d (λ _, tried_by (λ e, ok (mark e)) (w_coord w)) Hwf Hh Hag Htried w (conj Hi eq_refl)) as Hs.
  unfold lift_coord in Hs. change (c_State (w_coord w)) with (e_st (c_engine (w_coord w))) in *.
  change (w_State w) with (e_st (c_engine (w_coord w))) in *.
  destruct (persist_decision _ e d (w_coord w)) as [c [err|d']]; by destruct Hs.
Qed.

Lemma FinishShutdown_spec : spec Inv (FinishShutdown : GoM (World W) unit) (λ _, Inv) Inv.
Proof.
  eapply spec_bind; [|intros ?; intros w Hw; exact Hw].
  apply (Mark_spec MarkShutdownPhaseComplete); [apply MarkShutdownPhaseComplete_flags|apply MarkShutdownPhaseComplete_keeps].
Qed.

(** ** The shutdown phase *)

Lemma maxNUTAttempts_bound st ids n :
  (maxNUTAttempts st ids < n)%Z → ∀ id, id ∈ ids → (hs_ShutdownAttempts (host_at st id) < n)%Z.
Proof.
  unfold maxNUTAttempts. assert (Hgen : ∀ ids m,
    (m ≤ fold_left (λ m id, if (m <? hs_ShutdownAttempts (host_at st id))%Z
                            then hs_ShutdownAttempts (host_at st id) else m) ids m)%Z ∧
    ∀ id, id ∈ ids → (hs_ShutdownAttempts (host_at st id) ≤
      fold_left (λ m id, if (m <? hs_ShutdownAttempts (host_at st id))%Z
                         then hs_ShutdownAttempts (host_at st id) else m) ids m)%Z).
  { clear ids. induction ids as [|i ids IH]; intros m; simpl; [split; [lia|by intros ? ?%not_elem_of_nil]|].
    destruct (IH (if (m <? hs_ShutdownAttempts (host_at st i))%Z then hs_ShutdownAttempts (host_at st i) else m)) as [H1 H2].
    split; [destruct (Z.ltb_spec m (hs_ShutdownAttempts (host_at st i))); lia|].
    intros id [->|Hin]%elem_of_cons; [|by apply H2].
    destruct (Z.ltb_spec m (hs_ShutdownAttempts (host_at st i))); lia. }
  intros Hlt id Hid. destruct (Hgen ids 0%Z) as [_ H2]. specialize (H2 id Hid). lia.
Qed.

Lemma FSD_ask answer ups path hm :
  all_settled (PreFSD plan) hm → (∀ id, id ∈ NUTGroup plan → marked (at_host hm id)) →
  spec (at_ ShutdownInProgress hm) (attempt (ask_error (EvFSD ups path) answer))
    (λ _, at_ ShutdownInProgress hm) Inv.
Proof.
  intros Hpre Hmark. unfold ask_error. set (ans := λ l, _). intros w ([Hwf Hl Ha Hc] & Hp & Hm).
  assert (Hi : Inv (log (EvFSD ups path) w)).
  { split; [done| |done|done]. simpl. split; [|done].
    destruct Ha as (p & Hlast & [Hcm _ _ Hpw Hhosts]). exists p. split; [done|].
    destruct Hwf as [_ Hwf]. rewrite Hp in Hwf, Hpw. destruct Hpw as [Hpw|[Hpw|Hpw]]; try done.
    rewrite Hcm. split_and!; [done|apply Hwf|..].
    - intros id Hid. specialize (Hpre id Hid). destruct (Hhosts id) as (Hsd & _ & _).
      unfold settled_host in *. by rewrite Hsd, host_at_hosts, Hm.
    - intros id Hid. specialize (Hmark id Hid). destruct (Hhosts id) as (Hsd & Hat & _).
      unfold marked in Hmark. by rewrite Hsd, Hat, host_at_hosts, Hm. }
  assert (Hat : at_ ShutdownInProgress hm (log (EvFSD ups path) w)) by done.
  unfold attempt, ask. by destruct (ans (w_log w)).
Qed.

Lemma request_FSD_spec pr fsd now tx n hm :
  all_settled (PreFSD plan) hm → (∀ id, id ∈ NUTGroup plan → marked (at_host hm id)) →
  spec (at_ ShutdownInProgress hm) (request_FSD cfg UPSMonConfPath pr fsd now tx n (NUTGroup plan)) (λ _, Inv) Inv.
Proof.
  intros Hpre Hmark. eapply spec_bind; [by apply FSD_ask|]. intros [e|[]].
  - eapply spec_bind; [eapply spec_attempt, markNUTError_spec|]. intros [e'|[]]; [by apply spec_throw|].
    apply spec_modify. intros w (hm' & Hw). eapply Inv_irrelevant; [..|by eapply at_Inv]; done.
  - eapply (spec_bind _ _ _ (λ _, at_ ShutdownInProgress hm)).
    { apply spec_modify. intros w. by apply at_irrelevant. }
    intros []. eapply spec_bind; [apply wrap_err_spec, markNUTAcknowledged_spec|].
    intros [] w (hm' & Hw). revert w Hw.
    eapply spec_bind; [apply wrap_err_spec, verifyNUTGroup_spec|]. intros [] w (hm'' & Hw%at_Inv).
    by apply FinishShutdown_spec.
Qed.

Lemma fail_hosts_flags reason ids st :
  st_RecoveryStarted (fold_left (fail_host reason) ids st) = st_RecoveryStarted st ∧
  st_ShutdownCommitted (fold_left (fail_host reason) ids st) = st_ShutdownCommitted st.
Proof.
  revert st. induction ids as [|i ids IH]; intros st; simpl; [done|].
  destruct (IH (fail_host reason st i)) as [-> ->]. unfold fail_host. by case_match.
Qed.

Lemma fail_hosts_counts l reason ids st :
  counts l (hosts_of st) → counts l (hosts_of (fold_left (fail_host reason) ids st)).
Proof.
  revert st. induction ids as [|i ids IH]; intros st Hc; simpl; [done|].
  apply IH. unfold fail_host. case_match; [done|]. by apply counts_insert.
Qed.

Lemma enterNUTGroupFailedSafe_spec pw hm ids reason :
  spec (at_ pw hm) (enterNUTGroupFailedSafe ids reason) (λ _, Inv) Inv.
Proof.
  apply (Policy_Write_any pw hm (λ st, fold_left (fail_host reason) ids (cloneState st)
    |> st_set_PowerState FailedSafe |> st_set_FailedSafeReason reason)).
  - intros st [Hrec _] _. split; [|done]. simpl.
    destruct (fail_hosts_flags reason ids (cloneState st)) as [-> ->]. exact Hrec.
  - intros l st Hc <-. by apply (fail_hosts_counts l reason ids (cloneState st)).
Qed.

Lemma shutdown_NUT_group_spec pr now hm :
  all_settled (PreFSD plan) hm →
  spec (at_ ShutdownInProgress hm) (shutdown_NUT_group env cfg UPSMonConfPath pr now (NUTGroup plan)) (λ _, Inv) Inv.
Proof.
  intros Hpre. unfold shutdown_NUT_group. destruct (env_FSD env) as [fsd|]; [|apply spec_throw, at_Inv].
  case_bool_decide; [apply spec_throw, at_Inv|].
  eapply spec_bind; [apply prepareNUTGroup_spec|]. intros [] w (hm1 & Hw & Hs1).
  pose proof (same_except_settled _ _ Hs1 Hpre) as Hpre1. revert w Hw.
  eapply spec_bind; [apply Policy_State_spec|]. intros st. apply spec_pure. intros (_ & Hst & _).
  destruct (Z.leb_spec maxNUTFSDShutdownAttempts (maxNUTAttempts st (NUTGroup plan))) as [Hmax|Hmax].
  { apply enterNUTGroupFailedSafe_spec. }
  assert (Hleft : ∀ id, id ∈ NUTGroup plan → attempts_left (at_host hm1 id)).
  { intros id Hid. unfold attempts_left. rewrite <-Hst, <-host_at_hosts. by eapply maxNUTAttempts_bound. }
  eapply (spec_bind _ _ _ (λ _, at_ ShutdownInProgress hm1)).
  { intros w Hw. unfold shouldAttemptNUTFSD. simpl. case_bool_decide; [done|]. by eapply at_irrelevant; [..|exact Hw]. }
  intros [|]; simpl; [|intros w Hw; by eapply at_Inv].
  eapply spec_bind; [apply wrap_err_spec, markNUTRequested_spec, Hleft|].
  intros [] w (hm2 & Hw & Hs2 & Hmark). apply (request_FSD_spec _ _ _ _ _ hm2); [|done|done].
  by eapply same_except_settled.
Qed.

Lemma executeShutdown_spec now hm :
  spec (at_ ShutdownInProgress hm) (executeShutdown env cfg UPSMonConfPath now) (λ _, Inv) Inv.
Proof.
  unfold executeShutdown. destruct (env_Probe env) as [pr|]; [|apply spec_throw, at_Inv].
  destruct (env_Shutdown env) as [shutdown|]; [|apply spec_throw, at_Inv].
  eapply spec_bind; [apply (settle_hosts_spec pr shutdown _ [] hm); [done|by intros ? ?%not_elem_of_nil]|].
  intros [|]; simpl; intros w [Hi Hb]; [|exact Hi]. destruct (Hb eq_refl) as (hm' & Hw & Hall).
  case_bool_decide; [by apply FinishShutdown_spec|]. by apply (shutdown_NUT_group_spec pr now hm').
Qed.

(** ** The recovery phase *)

Lemma NoDup_wake_hosts : NoDup (hc_ID <$> wake_hosts).
Proof. unfold wake_hosts, toHostConfigs. rewrite <-list_fmap_compose. exact Hnd. Qed.

(** The fields a change of the shared map may not touch. *)
Definition same_counters (hs hs' : HostState) : Prop :=
  hs_ShutdownState hs' = hs_ShutdownState hs ∧ hs_ShutdownAttempts hs' = hs_ShutdownAttempts hs ∧
  hs_WakeAttempts hs' = hs_WakeAttempts hs.

Lemma share_Inv hm' (w : World W) :
  (∀ id, same_counters (host_at (w_State w) id) (at_host hm' id)) → Inv w → Inv (share_hosts hm' w).
Proof.
  intros Hsame [Hwf Hl (p & Hp & [H1 H2 H3 H4 H5]) Hc]. split.
  - exact Hwf.
  - exact Hl.
  - exists p. split; [exact Hp|]. split; try done. intros id.
    change (host_at (w_State (share_hosts hm' w)) id) with (at_host hm' id).
    destruct (Hsame id) as (-> & -> & ->). apply H5.
  - intros id. change (hosts_of (w_State (share_hosts hm' w))) with hm'.
    change (w_log (share_hosts hm' w)) with (w_log w).
    destruct (Hsame id) as (_ & -> & ->). apply Hc.
Qed.

Lemma block_host_keeps byid acc h id :
  same_counters (at_host acc.1 id) (at_host (block_host byid acc h).1 id).
Proof.
  destruct acc as [states changed]. unfold block_host, same_counters.
  destruct (negb _ || _ || _); [done|]. destruct (find _ _); [|done].
  simpl. rewrite at_host_insert. case_decide as Heq; [|done]. by subst id.
Qed.

Lemma markBlocked_keeps hosts states id :
  same_counters (at_host states id) (at_host (markBlockedRecovery hosts states).1 id).
Proof.
  unfold markBlockedRecovery. generalize (by_id hc_ID hosts). intros byid.
  assert (Hgen : ∀ acc, same_counters (at_host acc.1 id) (at_host (fold_left (block_host byid) hosts acc).1 id)).
  { induction hosts as [|h hosts IH]; intros acc; simpl; [done|].
    destruct (IH (block_host byid acc h)) as (H1 & H2 & H3).
    destruct (block_host_keeps byid acc h id) as (K1 & K2 & K3). split_and!; congruence. }
  apply (Hgen (states, false)).
Qed.

Lemma counts_same l hm hm' :
  counts l hm → (∀ id, same_counters (at_host hm id) (at_host hm' id)) → counts l hm'.
Proof. intros Hc Hs id. destruct (Hs id) as (_ & -> & ->). apply Hc. Qed.

(** A write of a generation of the restore phase, and its result. *)
Lemma restore_write next st l0 :
  wf_state next → counts l0 (hosts_of next) →
  spec (λ w : World W, Inv w ∧ w_State w = st ∧ w_log w = l0) (attempt (Policy_Write next))
    (λ r w, match r with
            | inl _ => Inv w
            | inr p => Inv w ∧ restamped next p ∧ w_State w = p ∧ w_log w = EvPersisted p :: l0
            end) Inv.
Proof.
  intros Hwf Hc w Hw. pose proof (Policy_Write_inv next st l0 Hwf Hc w Hw) as Hs. unfold attempt.
  destruct (Policy_Write next w) as [w' [e|p]]; [by destruct Hs|done].
Qed.

Lemma block_recovery_spec hm :
  spec (at_ RestoreHosts hm) (block_recovery wake_hosts) (λ _ w, ∃ hm', at_ RestoreHosts hm' w) Inv.
Proof.
  intros w Hat. unfold block_recovery, Policy_State, gets, mbind, GoM_bind. pose proof Hat as (Hi & Hp & Hh).
  pose proof (markBlocked_keeps wake_hosts (hosts_of (w_State w))) as Hk.
  destruct (markBlockedRecovery wake_hosts (hosts_of (w_State w))) as [states changed]. simpl in Hk.
  destruct changed; simpl; [|by exists hm].
  unfold modify, mret, GoM_ret. simpl. set (w1 := share_hosts states w).
  set (next := st_set_Hosts (Some states) (w_State w)).
  assert (Hi1 : Inv w1) by by apply share_Inv.
  assert (Hwf : wf_state next) by exact (inv_wf _ Hi).
  assert (Hc : counts (w_log w1) (hosts_of next)).
  { apply (counts_same _ (hosts_of (w_State w))); [apply Hi|done]. }
  pose proof (Policy_Write_inv next (w_State w1) (w_log w1) Hwf Hc w1 (conj Hi1 (conj eq_refl eq_refl))) as Hs.
  destruct (Policy_Write next w1) as [w' [e|p]]; [by destruct Hs|].
  destruct Hs as (Hi' & Hr & Hst & _). apply restamped_flags in Hr as (Hpp & _ & _ & Hhp & _).
  exists (hosts_of p). split_and!; [done|by rewrite Hst, Hpp|by rewrite Hst].
Qed.

Lemma FinishRecovery_spec : spec Inv (FinishRecovery : GoM (World W) unit) (λ _, Inv) Inv.
Proof.
  eapply (spec_bind _ _ _ (λ _, Inv)).
  { apply spec_modify. intros w. by apply Inv_irrelevant. }
  intros []. eapply spec_bind; [|intros ?; intros w Hw; exact Hw].
  apply (Mark_spec MarkRecoveryComplete); [apply MarkRecoveryComplete_flags|apply MarkRecoveryComplete_keeps].
Qed.

Lemma eligible_same h hs hs' : hs_WasOnline hs' = hs_WasOnline hs → EligibleForRestore h hs' = EligibleForRestore h hs.
Proof. unfold EligibleForRestore. by intros ->. Qed.

(** The wake is sent right after its attempt was persisted. *)
Lemma wake_ask answer st cfg0 probe p l0 :
  next_ok wake_hosts (hosts_of st) cfg0 → counts l0 (hosts_of st) →
  st_PowerState st = RestoreHosts → wf_state st →
  (hs_WakeAttempts (host_at st (hc_ID cfg0)) < max_wake_attempts cfg0)%Z →
  restamped (st_put_host (hc_ID cfg0) (wake_requested st cfg0 probe) st) p →
  spec (λ w : World W, Inv w ∧ w_State w = p ∧ w_log w = EvPersisted p :: l0)
    (attempt (ask_error (EvWake (hc_ID cfg0)) answer)) (λ _ w, Inv w ∧ w_State w = p) Inv.
Proof.
  intros (Hin & Hr & Hdone & Hdeps) Hc0 Hpw [Hrec Hwfp] Hmax Hre w ([Hwf Hl Ha Hc] & Hst & Hlog).
  apply restamped_flags in Hre as (Hpp & _ & Hpr & Hhp & _). rewrite Hpw in Hwfp.
  assert (Hhosts : hosts_of p = <[hc_ID cfg0 := wake_requested st cfg0 probe]> (hosts_of st)) by (unfold hosts_of at 1; by rewrite Hhp).
  assert (Hpid : host_at p (hc_ID cfg0) = wake_requested st cfg0 probe) by (rewrite host_at_hosts, Hhosts, at_host_insert; by rewrite decide_True).
  destruct (Hc0 (hc_ID cfg0)) as [_ [_ Hcw]].
  assert (Hok : ok_event (EvWake (hc_ID cfg0)) (w_log w)).
  { simpl. rewrite Hlog. exists p, l0, cfg0. rewrite Hpid, Hpp, Hpr.
    split; [done|]. split; [done|]. split; [apply Hwfp|]. split; [done|]. split; [done|].
    split; [|split; [done|split]].
    - destruct Hr as (hs0 & Hhs0 & Hel). exists (wake_requested st cfg0 probe).
      split; [by rewrite Hhosts, lookup_insert_eq|]. rewrite <-Hel. apply eligible_same.
      unfold wake_requested, host_at. simpl. by rewrite Hhs0.
    - simpl. rewrite <-host_at_hosts in Hcw. lia.
    - intros dep dh ds Hdep Hdh Hid Hds Hel. rewrite Hhosts, lookup_insert in Hds.
      case_decide as Heq; [|by apply (Hdeps dep dh ds)].
      (* a host that depends on itself is never next *)
      exfalso. subst dep. destruct Hr as (hs0 & Hhs0 & Hel0).
      assert (dh = cfg0) as -> by (by apply (NoDup_key_inj hc_ID wake_hosts); [apply NoDup_wake_hosts|..]).
      specialize (Hdeps _ cfg0 hs0 Hdep Hdh eq_refl Hhs0 Hel0).
      rewrite Hhs0 in Hdone. simpl in Hdone. by rewrite Hdeps in Hdone. }
  assert (Hi' : Inv (log (EvWake (hc_ID cfg0)) w)).
  { split; [done|by split|done|]. intros i.
    change (w_State (log (EvWake (hc_ID cfg0)) w)) with (w_State w). specialize (Hc i). specialize (Hc0 i).
    rewrite Hst, Hhosts in *. rewrite at_host_insert in *. simpl. rewrite Hlog in *. simpl in *.
    case_bool_decide as Heq; case_decide; try congruence; [subst i|]; simpl in *; rewrite ?host_at_hosts in *; lia. }
  unfold attempt, ask_error, ask. by destruct (answer (w_log w)).
Qed.

#[local] Instance rio : RecoveryIO (World W) := World_RecoveryIO env.

(** [Inv] with its state and log named, to chain writes. *)
Definition snap (st : State) (l : Log) (w : World W) : Prop := Inv w ∧ w_State w = st ∧ w_log w = l.

Lemma snap_counts st l w : snap st l w → counts l (hosts_of st).
Proof. intros (Hi & <- & <-). apply Hi. Qed.

Lemma write_result_Inv next st l0 :
  wf_state next → counts l0 (hosts_of next) →
  spec (λ w : World W, Inv w ∧ w_State w = st ∧ w_log w = l0) (write_result next) (λ _, Inv) Inv.
Proof.
  intros Hwf Hc. eapply spec_bind; [by apply restore_write|].
  intros [e|p] w Hw; simpl; [done|]. by destruct Hw.
Qed.

Lemma wake_host_spec cfg0 probe st :
  next_ok wake_hosts (hosts_of st) cfg0 → st_PowerState st = RestoreHosts → wf_state st →
  (hs_WakeAttempts (host_at st (hc_ID cfg0)) < max_wake_attempts cfg0)%Z →
  spec (at_ RestoreHosts (hosts_of st)) (wake_host st cfg0 probe) (λ _, Inv) Inv.
Proof.
  intros Hok Hpw Hwf Hmax.
  apply (spec_ghost (λ w, (w_State w, w_log w))). intros [s0 l0].
  apply (spec_fact (counts l0 (hosts_of st))).
  { intros w ((Hi & _ & <-) & [= <- <-]). apply Hi. }
  intros Hc. set (next := st_put_host (hc_ID cfg0) (wake_requested st cfg0 probe) st).
  assert (Hcn : counts l0 (hosts_of next)).
  { unfold next. rewrite hosts_of_put. apply counts_insert; [done|].
    rewrite <-host_at_hosts. split; simpl; lia. }
  apply (spec_conseq _ _ (λ w, Inv w ∧ w_State w = s0 ∧ w_log w = l0) _ (λ _, Inv) _ Inv);
    [|intros w ((Hi & _) & Heq); split; [done|by injection Heq]|done|done].
  eapply spec_bind; [by apply restore_write|].
  intros [e|p]; [intros w Hw; exact Hw|].
  eapply (spec_bind _ _ _ (λ _ w, Inv w ∧ w_State w = p)).
  { intros w (Hi & Hr & Hst & Hlog). by eapply (wake_ask _ st cfg0 probe p l0). }
  intros [err|[]]; [|intros w Hw; by destruct Hw].
  set (hs := hs_set_LastError (err_msg err) (host_at p (hc_ID cfg0))).
  set (hm' := <[hc_ID cfg0 := hs]> (hosts_of p)).
  assert (Hsame : ∀ id, same_counters (at_host (hosts_of p) id) (at_host hm' id)).
  { intros id. unfold hm', same_counters. rewrite at_host_insert. case_decide as Heq; [|done]. by subst id. }
  intros w [Hi Hst]. unfold mbind, GoM_bind, modify, rio_share, rio, World_RecoveryIO.
  set (w1 := share_hosts _ w).
  assert (Hi1 : Inv w1). { apply share_Inv; [|done]. intros id. rewrite Hst. apply Hsame. }
  assert (Hwf1 : wf_state (st_put_host (hc_ID cfg0) hs p)). { rewrite <-Hst. exact (inv_wf _ Hi). }
  assert (Hc1 : counts (w_log w1) (hosts_of (st_put_host (hc_ID cfg0) hs p))).
  { rewrite hosts_of_put. apply (counts_same _ (hosts_of p)); [|exact Hsame]. rewrite <-Hst. apply Hi. }
  pose proof (restore_write _ (w_State w1) (w_log w1) Hwf1 Hc1 w1 (conj Hi1 (conj eq_refl eq_refl))) as Hs.
  unfold rio_Write. destruct (attempt (Policy_Write _) w1) as [w2 [e|[e|p2]]]; simpl; [done|done|by destruct Hs].
Qed.

Lemma RunNext_spec r st :
  st_PowerState st = RestoreHosts → wf_state st →
  spec (at_ RestoreHosts (hosts_of st)) (RunNext (H := World_RecoveryIO env) r st wake_hosts) (λ _, Inv) Inv.
Proof.
  intros Hpw Hwf. unfold RunNext.
  destruct (_ || _ || _); [intros w Hw; by eapply at_Inv|].
  destruct (NextRecoveryHost wake_hosts (hosts_of st)) as [e|[cfg0|]] eqn:Hn; try (intros w Hw; by eapply at_Inv).
  apply NextRecoveryHost_ok in Hn; [|apply NoDup_wake_hosts].
  assert (Hwrite : ∀ hs, more_attempts (host_at st (hc_ID cfg0)) hs →
    spec (at_ RestoreHosts (hosts_of st)) (write_result (st_put_host (hc_ID cfg0) hs st)) (λ _, Inv) Inv).
  { intros hs Hm w (Hi & _ & Hh). apply (write_result_Inv _ (w_State w) (w_log w)); [exact Hwf| |done].
    rewrite hosts_of_put, <-Hh. apply counts_insert; [apply Hi|]. by rewrite Hh, <-host_at_hosts. }
  assert (Hoff : ∀ probe, spec (at_ RestoreHosts (hosts_of st)) (wake_or_fail st cfg0 probe) (λ _, Inv) Inv).
  { intros probe. unfold wake_or_fail.
    destruct (Z.leb_spec (max_wake_attempts cfg0) (hs_WakeAttempts (host_at st (hc_ID cfg0)))); [|by apply wake_host_spec].
    eapply spec_bind; [by apply Hwrite|]. intros ? w Hw. exact Hw. }
  eapply spec_bind; [by apply attempt_same, ask_quiet|]. intros [e|[|]]; [apply Hoff| |apply Hoff].
  eapply spec_bind; [by apply Hwrite|]. intros ? w Hw. exact Hw.
Qed.

Lemma run_next_spec now r st n :
  st_PowerState st = RestoreHosts → wf_state st →
  spec (at_ RestoreHosts (hosts_of st)) (run_next env now r wake_hosts st n) (λ _, Inv) Inv.
Proof.
  intros Hpw Hwf. unfold run_next.
  eapply spec_bind; [by apply (RunNext_spec r (cloneState st))|]. intros [[st' id] err].
  eapply (spec_bind _ _ _ (λ _, Inv)); [by intros w Hw|]. intros after.
  eapply (spec_bind _ _ _ (λ _, Inv)).
  { apply spec_when; [|done]. intros _. apply spec_modify. intros w. by apply Inv_irrelevant. }
  intros []. destruct err as [e|]; case_bool_decide; simpl; try (by intros w Hw); try (by apply spec_throw).
  destruct (recoverySettled _ _); [apply FinishRecovery_spec|by intros w Hw].
Qed.

Lemma executeRecoveryStep_spec now hm :
  spec (at_ RestoreHosts hm) (executeRecoveryStep env cfg now) (λ _, Inv) Inv.
Proof.
  unfold executeRecoveryStep. destruct (env_Recovery env) as [r|]; [|apply spec_throw, at_Inv].
  fold wake_hosts. eapply spec_bind; [apply block_recovery_spec|]. intros [] w (hm1 & Hw). revert w Hw.
  eapply spec_bind; [apply Policy_State_spec|]. intros st. apply spec_pure. intros (Hpw & <- & Hwf).
  destruct (recoverySettled _ _).
  { intros w Hw%at_Inv. by apply FinishRecovery_spec. }
  destruct (NextRecoveryHost wake_hosts (hosts_of st)) as [e|[next|]]; [apply spec_throw, at_Inv| |by apply run_next_spec].
  eapply (spec_bind _ _ _ (λ _, at_ RestoreHosts (hosts_of st))).
  { intros w Hw. unfold wake_delayed. destruct (negb _); [|done]. destruct (_ && _); by eapply at_irrelevant; [..|exact Hw]. }
  intros [|]; [intros w Hw; by eapply at_Inv|]. by apply run_next_spec.
Qed.

(** ** Outages *)

Definition in_state (st : State) (w : World W) : Prop := Inv w ∧ w_State w = st.

Lemma in_state_Inv st w : in_state st w → Inv w.
Proof. by intros [? _]. Qed.

Lemma ask_quiet_state {A} ev (answer : Log → result A) st :
  quiet ev → spec (in_state st) (ask ev answer) (λ _, in_state st) (in_state st).
Proof.
  intros Hq w [Hi Hst]. unfold ask.
  assert (Hin : in_state st (log ev w)) by (split; [by apply Inv_quiet|done]).
  by destruct (answer (w_log w)).
Qed.

(** A snapshot changes neither the flags nor the attempt counters. *)
Definition snapshot_of (st st' : State) : Prop :=
  st_PowerState st' = st_PowerState st ∧ st_ShutdownCommitted st' = st_ShutdownCommitted st ∧
  st_RecoveryStarted st' = st_RecoveryStarted st ∧
  ∀ id, hs_ShutdownAttempts (host_at st' id) = hs_ShutdownAttempts (host_at st id) ∧
        hs_WakeAttempts (host_at st' id) = hs_WakeAttempts (host_at st id).

Lemma snapshot_put st st' id hs :
  snapshot_of st st' → hs_ShutdownAttempts hs = hs_ShutdownAttempts (host_at st' id) →
  hs_WakeAttempts hs = hs_WakeAttempts (host_at st' id) → snapshot_of st (st_put_host id hs st').
Proof.
  intros (H1 & H2 & H3 & H4) Hs Hw. split_and!; try done. intros i. rewrite host_at_put.
  case_decide; [subst i; rewrite Hs, Hw; apply H4|apply H4].
Qed.

Lemma snapshot_loop_spec pr known st0 st hosts :
  snapshot_of st0 st →
  spec (in_state st0) (snapshot_loop pr known st hosts)
    (λ st' w, in_state st0 w ∧ snapshot_of st0 st') Inv.
Proof.
  revert st. induction hosts as [|h hosts IH]; intros st Hs; simpl; [by intros w Hw|].
  eapply (spec_bind _ _ _ (λ st' w, snapshot_of st0 st' ∧ in_state st0 w));
    [|intros st'; apply spec_pure; intros Hs'; by apply IH].
  unfold snapshot_host. case_match; [by intros w Hw|].
  case_match; [intros w Hw; split; [|done]; by apply snapshot_put|].
  eapply spec_bind; [eapply spec_attempt, ask_quiet_state; done|].
  intros [e|res] w Hw; (split; [|done]); (apply snapshot_put; [done|..]); [done|done| |];
    by destruct (pb_Known res), (pb_Online res), known.
Qed.

Lemma snapshotHosts_spec known : spec Inv (snapshotHosts env cfg known) (λ _, Inv) Inv.
Proof.
  unfold snapshotHosts. destruct (env_Probe env) as [pr|]; [|by apply spec_throw].
  apply (spec_ghost w_State). intros st0.
  eapply (spec_bind _ _ _ (λ st w, st = st0 ∧ in_state st0 w)); [by intros w [Hi <-]|].
  intros st. apply spec_pure. intros ->.
  eapply spec_bind; [by apply (snapshot_loop_spec pr known st0 (cloneState st0))|].
  intros st' w [[Hi Hst] (H1 & H2 & H3 & H4)].
  assert (Hwf : wf_state st').
  { unfold wf_state. rewrite H1, H2, H3, <-Hst. apply Hi. }
  assert (Hc : counts (w_log w) (hosts_of st')).
  { intros id. rewrite <-host_at_hosts. destruct (H4 id) as [-> ->]. rewrite <-Hst. apply Hi. }
  pose proof (Policy_Write_inv st' st0 (w_log w) Hwf Hc w (conj Hi (conj Hst eq_refl))) as Hs.
  unfold wrap_err, mbind, GoM_bind. destruct (Policy_Write st' w) as [w' [e|p]]; by destruct Hs.
Qed.

Lemma Inv_fresh w : Inv w → Inv (log EvFreshOutage w).
Proof.
  intros [Hwf Hl Ha Hc]. split; [done|done|done|]. intros id.
  change (w_State (log EvFreshOutage w)) with (w_State w). specialize (Hc id). simpl. lia.
Qed.

Lemma beginFreshOutage_spec : spec (λ w, Inv w ∧ st_PowerState (w_State w) = OnBattery)
    (beginFreshOutage env cfg) (λ _, Inv) Inv.
Proof.
  unfold beginFreshOutage.
  eapply (spec_bind _ _ _ (λ _ w, (Inv w ∧ st_PowerState (w_State w) = OnBattery) ∧
    ∀ id, count_shutdowns id (w_log w) = 0%Z ∧ count_wakes id (w_log w) = 0%Z)).
  { apply spec_modify. intros w [Hi Hp]. split; [|done]. split; [by apply Inv_fresh|done]. }
  intros [].
  set (P w := (Inv w ∧ st_PowerState (w_State w) = OnBattery) ∧
    ∀ id, count_shutdowns id (w_log w) = 0%Z ∧ count_wakes id (w_log w) = 0%Z).
  assert (HPI : ∀ w, P w → Inv w) by (by intros w [[? _] _]).
  eapply (spec_bind _ _ _ (λ _, P)).
  { apply spec_modify. intros w [[Hi Hp] Hz]. split; [|done]. split; [by eapply Inv_irrelevant; [..|exact Hi]|done]. }
  intros []. eapply (spec_bind _ _ _ (λ st w, st_PowerState st = OnBattery ∧ P w)).
  { intros w HP. split; [apply HP|done]. }
  intros st. apply spec_pure. intros Hst.
  eapply (spec_bind _ _ _ (λ st w, st_PowerState st = OnBattery ∧ P w)).
  { destruct (env_NewTransactionID env) as [newID|]; [|by intros w HP].
    eapply (spec_bind _ _ _ (λ _, P)).
    { intros w [[Hi Hp] Hz]. split; [|exact Hz]. split; [by apply Inv_quiet|done]. }
    intros id. case_bool_decide; [by apply spec_throw|by intros w HP]. }
  clear st Hst. intros st. apply spec_pure. intros Hst.
  eapply (spec_bind _ _ _ (λ _, Inv)); [|intros ?; apply snapshotHosts_spec].
  apply wrap_err_spec. intros w [[Hi Hp] Hz].
  set (next := st |> st_set_Hosts (Some ∅) |> st_set_ShutdownCommitted false |> st_set_RecoveryStarted false
                  |> st_set_FailedSafeReason "").
  assert (Hwf : wf_state next). { unfold wf_state, next. simpl. by rewrite Hst. }
  assert (Hc : counts (w_log w) (hosts_of next)).
  { intros id. destruct (Hz id) as [-> ->]. unfold next, hosts_of, at_host. simpl. rewrite lookup_empty. done. }
  pose proof (Policy_Write_inv next (w_State w) (w_log w) Hwf Hc w (conj Hi (conj eq_refl eq_refl))) as Hs.
  fold next. destruct (Policy_Write next w) as [w' [e|p]]; by destruct Hs.
Qed.

(** ** One tick *)

(** The power state a decision leaves behind, by its action. *)
Lemma decision_power now i e d :
  (Step now i e).2 = inr d →
  (dec_Action d = ActionCommitShutdown → e_power (Step now i e).1 = ShutdownCommitted ∧ e_committed (Step now i e).1 = true) ∧
  (dec_Action d = ActionStartRestore → e_power (Step now i e).1 = RestoreHosts).
Proof. step_branches now i e; intros Hd; simplify_eq/=; done. Qed.

Lemma enter_outage_action now i e d :
  (Step now i e).2 = inr d → e_power (Step now i e).1 = OnBattery →
  (e_power e = Normal → dec_Action d = ActionNone) ∧
  (e_power e = BootReconcile → dec_Action d = ActionNone ∨ dec_Action d = ActionStopRecovery).
Proof. step_branches now i e; intros Hdd Hpp; simplify_eq/=; split; auto; congruence. Qed.

Lemma step_from_committed now i e d :
  e_power e = ShutdownCommitted → e_committed e = true → (Step now i e).2 = inr d →
  e_power (Step now i e).1 = ShutdownInProgress.
Proof.
  intros Hp Hc. unfold Step. rewrite Hp, Hc, andb_false_r. done.
Qed.

Lemma continue_phase_spec now (a : Action) :
  spec Inv
    (st ← Policy_State;
     _ ← when (bool_decide (st_PowerState st = ShutdownInProgress) && bool_decide (a = ActionNone))
           (executeShutdown env cfg UPSMonConfPath now);
     st ← Policy_State;
     when (bool_decide (st_PowerState st = RestoreHosts) && bool_decide (a = ActionNone))
       (executeRecoveryStep env cfg now)) (λ _, Inv) Inv.
Proof.
  eapply (spec_bind _ _ _ in_state); [by intros w Hw|]. intros st.
  eapply (spec_bind _ _ _ (λ _, Inv)).
  { apply spec_when; [|by intros _ w [? _]]. intros [Hp _]%andb_true_iff. apply bool_decide_eq_true in Hp.
    eapply spec_conseq; [apply (executeShutdown_spec now (hosts_of st))|
      intros w [Hi Hst]; split_and!; [done|by rewrite Hst|by rewrite Hst]|done|done]. }
  intros []. clear st. eapply (spec_bind _ _ _ in_state); [by intros w Hw|]. intros st.
  apply spec_when; [|by intros _ w [? _]]. intros [Hp _]%andb_true_iff. apply bool_decide_eq_true in Hp.
  eapply spec_conseq; [apply (executeRecoveryStep_spec now (hosts_of st))|
    intros w [Hi Hst]; split_and!; [done|by rewrite Hst|by rewrite Hst]|done|done].
Qed.

Lemma act_on_spec now i d before :
  spec (stepped before now i d) (act_on env cfg UPSMonConfPath now i d) (λ _, Inv) Inv.
Proof.
  unfold act_on. destruct (dec_Action d) eqn:Had.
  1,4: eapply spec_conseq; [apply (continue_phase_spec now _)|by intros w [? _]|done|done].
  - apply (spec_ghost w_State). intros st1.
    apply (spec_fact (st_PowerState st1 = ShutdownCommitted ∧ wf_state st1)).
    { intros w [(Hi & _ & e & _ & Hd & Hp) <-]. apply decision_power in Hd as [Hcs _].
      destruct (Hcs Had) as [Hpe _]. split; [by rewrite Hp|apply Hi]. }
    intros [Hp1 Hwf1]. eapply (spec_bind _ _ _ (λ d' w, stepped st1 now i d' w)).
    { eapply spec_conseq; [apply (Policy_Step_spec now i st1)|by intros w [(Hi & _) Hst]|done|done]. }
    intros d'. eapply (spec_bind _ _ _ (λ _, Inv)); [|intros []; apply (continue_phase_spec now _)].
    apply (spec_ghost (λ w, hosts_of (w_State w))). intros hm.
    eapply spec_conseq; [apply (executeShutdown_spec now hm)| |done|done].
    intros w [(Hi & _ & e & He & Hd & Hp) Hh]. split_and!; [done| |done]. rewrite Hp.
    destruct Hwf1 as [_ Hwf1]. rewrite Hp1 in Hwf1. destruct Hwf1 as [Hc1 _].
    apply (step_from_committed now i e d'); [by rewrite He|by rewrite He|done].
  - eapply (spec_bind _ _ _ in_state); [by intros w [Hi _]|]. intros st.
    apply spec_when; [|by intros _ w [? _]]. intros Hp%bool_decide_eq_true.
    eapply spec_conseq; [apply beginFreshOutage_spec|intros w [Hi Hst]; by rewrite Hst|done|done].
  - eapply (spec_bind _ _ _ (λ _, Inv)); [|intros []; apply (continue_phase_spec now _)].
    apply (spec_ghost (λ w, hosts_of (w_State w))). intros hm.
    eapply spec_conseq; [apply (executeRecoveryStep_spec now hm)| |done|done].
    intros w [(Hi & _ & e & He & Hd & Hp) Hh]. split_and!; [done| |done]. rewrite Hp.
    apply decision_power in Hd as [_ Hr]. by apply Hr.
Qed.

Lemma Tick_spec now i : spec Inv (Tick env cfg UPSMonConfPath now i) (λ _, Inv) Inv.
Proof.
  unfold Tick. eapply (spec_bind _ _ _ in_state); [by intros w Hw|]. intros before.
  eapply spec_bind; [apply (Policy_Step_spec now i before)|]. intros d.
  eapply (spec_bind _ _ _ (λ after w, stepped before now i d w ∧ w_State w = after)); [by intros w Hw|]. intros after.
  destruct (bool_decide (st_PowerState before = Normal) && bool_decide (st_PowerState after = OnBattery)) eqn:Hfresh;
    [|destruct (bool_decide (st_PowerState before = BootReconcile) && bool_decide (st_PowerState after = OnBattery)) eqn:Hboot].
  - (* a fresh outage: nothing else happens in this tick *)
    apply andb_true_iff in Hfresh as [Hb%bool_decide_eq_true Ha%bool_decide_eq_true].
    apply (spec_fact (dec_Action d = ActionNone)).
    { intros w [(_ & _ & e & He & Hd & Hp) Hst]. rewrite Hst, Ha in Hp. rewrite <-He in Hb.
      by apply (enter_outage_action now i e d). }
    intros Had. eapply (spec_bind _ _ _ (λ _, Inv)).
    { eapply spec_conseq; [apply beginFreshOutage_spec|intros w [(Hi & _) ->]; done|done|done]. }
    intros []. eapply (spec_bind _ _ _ (λ _, Inv)); [|intros []; by intros w Hw].
    unfold act_on. rewrite Had. apply (continue_phase_spec now).
  - apply andb_true_iff in Hboot as [Hb%bool_decide_eq_true Ha%bool_decide_eq_true].
    apply (spec_fact (dec_Action d = ActionNone ∨ dec_Action d = ActionStopRecovery)).
    { intros w [(_ & _ & e & He & Hd & Hp) Hst]. rewrite Hst, Ha in Hp. rewrite <-He in Hb.
      by apply (enter_outage_action now i e d). }
    intros Had. eapply (spec_bind _ _ _ (λ _, Inv)).
    { eapply spec_conseq; [apply snapshotHosts_spec|by intros w [(Hi & _) _]|done|done]. }
    intros []. eapply (spec_bind _ _ _ (λ _, Inv)); [|intros []; by intros w Hw].
    unfold act_on. destruct Had as [-> | ->]; [apply (continue_phase_spec now)|].
    eapply (spec_bind _ _ _ in_state); [by intros w Hw|]. intros st.
    apply spec_when; [|by intros _ w [? _]]. intros Hp%bool_decide_eq_true.
    eapply spec_conseq; [apply beginFreshOutage_spec|intros w [Hi Hst]; by rewrite Hst|done|done].
  - eapply (spec_bind _ _ _ (λ _, stepped before now i d)); [by intros w [Hw _]|]. intros [].
    eapply spec_bind; [apply act_on_spec|]. intros []. by intros w Hw.
Qed.
End invariant.
