(* ===== verification/OrchestratorRuns.v ===== *)
(** * Runs of the controller

    The worlds a controller reaches from boot by observing the UPS and
    ticking, and again from the generation a crash leaves on disk, whatever
    hosts, packets and durable writes answer, and what their logs guarantee:
    write-ahead for every side effect, bounded attempts, the forced shutdown
    last, wakes in dependency order, a disk that agrees with memory, and that
    a crash forgets no request. *)

From S2P Require Import Prelude StableSort PowerStateModel Nut.
From S2P Require Import HostPlan HostPlanFacts ConfigModel Policy.
From S2P Require Import PolicyFacts Coordinator Recovery Orchestrator.
From S2P Require Import OrchestratorFacts.

Section runs.
Context {W : Type} `{StateWriterLaws W writable stored}.
Context (env : Env) (cfg : ConfigModel.Config) (UPSMonConfPath : string) (pcfg : Policy.Config).

(** A process that has loaded [p], in a world where [l] has happened. *)
Definition start (p : State) (l : Log) (store : W) : World W :=
  mkWorld (NewCoordinator (New pcfg p) store) zero_time "" false "" zero_time (EvPersisted p :: l).

Definition observe (o : UPSObservation) (w : World W) : World W :=
  w_set_coord (ObserveUPS o (w_coord w)) w.

(** The worlds reached from the generation [s0], across crashes: a crash may
    happen between any two events of a run, and the next process loads what
    is then on disk. *)
Inductive reachable (s0 : State) : World W → Prop :=
  | reach_boot store : reachable s0 (start s0 [] store)
  | reach_crash w newer l p store :
      reachable s0 w → w_log w = newer ++ l → on_disk l p → reachable s0 (start p l store)
  | reach_resume p l store :
      (* a committed shutdown is resumed at startup (app/armed.go) *)
      reachable s0 (start p l store) → st_ShutdownCommitted p = true →
      st_PowerState p = ShutdownCommitted ∨ st_PowerState p = ShutdownInProgress →
      reachable s0 (Policy_Write (st_set_PowerState ShutdownInProgress p) (start p l store)).1
  | reach_observe o w : reachable s0 w → reachable s0 (observe o w)
  | reach_tick now i w : reachable s0 w → reachable s0 (Tick env cfg UPSMonConfPath now i w).1.

(** A generation this program wrote. *)
Record own_state (s : State) : Prop := {
  own_wf : wf_state s;
  own_attempts id : (0 ≤ hs_ShutdownAttempts (host_at s id))%Z ∧ (0 ≤ hs_WakeAttempts (host_at s id))%Z;
}.

Lemma New_state s :
  ∃ v, e_st (New pcfg s) = s |> st_set_StateVersion v |> st_set_PowerState BootReconcile.
Proof.
  unfold New. simpl. destruct (st_StateVersion s =? 0)%Z; [by eexists|].
  exists (st_StateVersion s). by destruct s.
Qed.

Lemma start_Inv p l store : good_log cfg l → wf_state p → counts l (hosts_of p) → Inv cfg (start p l store).
Proof.
  intros Hl Hwf Hc. destruct (New_state p) as [v Hv].
  assert (Hs : w_State (start p l store) = (p |> st_set_StateVersion v |> st_set_PowerState BootReconcile)) by exact Hv.
  split.
  - apply wf_state_new. apply Hwf.
  - by split.
  - exists p. split; [done|]. rewrite Hs. by split; auto.
  - rewrite Hs. exact Hc.
Qed.

Lemma own_counts s : own_state s → counts [] (hosts_of s).
Proof. intros [_ Hatt] id. rewrite <-host_at_hosts. destruct (Hatt id). simpl. lia. Qed.

Lemma good_log_suffix newer l : good_log cfg (newer ++ l) → good_log cfg l.
Proof. induction newer as [|ev newer IH]; simpl; [done|]. intros [_ Hl]. by apply IH. Qed.

Hypothesis Hnd : NoDup (h_ID <$> cf_Hosts cfg).

Lemma resume_Inv p l store :
  Inv cfg (start p l store) → st_PowerState p = ShutdownCommitted ∨ st_PowerState p = ShutdownInProgress →
  Inv cfg (Policy_Write (st_set_PowerState ShutdownInProgress p) (start p l store)).1.
Proof.
  intros Hi Hp. set (next := st_set_PowerState ShutdownInProgress p). pose proof Hi as [_ [[Hwfp Hcp] _] _ _].
  assert (Hwf : wf_state next).
  { destruct Hwfp as [Hr Hps]. split; [exact Hr|]. simpl. by destruct Hp as [Hp|Hp]; rewrite Hp in Hps. }
  pose proof (Policy_Write_inv cfg next _ (EvPersisted p :: l) Hwf Hcp (start p l store) (conj Hi (conj eq_refl eq_refl))) as Hs.
  destruct (Policy_Write next (start p l store)) as [w' [e|q]]; by destruct Hs.
Qed.

Lemma reachable_Inv s0 w : own_state s0 → reachable s0 w → Inv cfg w.
Proof.
  intros Hown. induction 1 as [store|w newer l p store _ [_ Hlog _ _] Hl Hd|p l store _ IH Hc Hp
                              |o w _ [Hwf Hl (p & Hlp & [H1 H2 H3 H4 H5]) Hct]|now i w _ IH].
  - apply start_Inv; [done|by destruct Hown|by apply own_counts].
  - rewrite Hl in Hlog. apply good_log_suffix in Hlog. destruct (good_log_disk cfg l p Hlog Hd). by apply start_Inv.
  - by apply resume_Inv.
  - split; [exact Hwf|exact Hl| |exact Hct]. exists p. split; [done|]. by split.
  - pose proof (Tick_spec env cfg UPSMonConfPath Hnd now i w IH) as Hs.
    destruct (Tick env cfg UPSMonConfPath now i w) as [w' [e|d]]; done.
Qed.

Lemma good_log_split newer ev older : good_log cfg (newer ++ ev :: older) → ok_event cfg ev older.
Proof. induction newer as [|ev' newer IH]; simpl; [by intros [? _]|]. intros [_ Hl]. by apply IH. Qed.

(** C1: Write-ahead for direct shutdowns: whenever a host was asked to shut
    down, the event just before in the log is the durable write of a
    committed SHUTDOWN_IN_PROGRESS generation that records this host as
    requested, and the host is a direct host of the plan. *)
Theorem direct_shutdown_is_written_ahead s0 w newer h older :
  own_state s0 → reachable s0 w → w_log w = newer ++ EvShutdown h :: older →
  h ∈ cf_Hosts cfg ∧ h_ID h ∈ PreFSD (plan cfg) ∧
  ∃ p l, older = EvPersisted p :: l ∧
    st_PowerState p = ShutdownInProgress ∧ st_ShutdownCommitted p = true ∧
    hs_ShutdownState (host_at p (h_ID h)) = ShutdownRequested.
Proof.
  intros Hown Hr Hlog. destruct (reachable_Inv s0 w Hown Hr) as [_ Hl _ _]. rewrite Hlog in Hl.
  apply good_log_split in Hl. simpl in Hl. naive_solver.
Qed.

(** C22: Direct shutdown requests are bounded: across any number of ticks,
    failures, observations and restarts of one outage, no host is asked to
    shut down more than three times. *)
Theorem direct_shutdowns_are_bounded s0 w newer h older :
  own_state s0 → reachable s0 w → w_log w = newer ++ EvShutdown h :: older →
  (count_shutdowns (h_ID h) (EvShutdown h :: older) ≤ maxDirectShutdownAttempts)%Z.
Proof.
  intros Hown Hr Hlog. destruct (reachable_Inv s0 w Hown Hr) as [_ Hl _ _]. rewrite Hlog in Hl.
  apply good_log_split in Hl as (_ & _ & p & l & _ & _ & _ & _ & Hn). simpl.
  rewrite bool_decide_true by done. lia.
Qed.

(** C2: The forced shutdown is last and durable: whenever FSD was
    requested, the newest generation on disk is a committed
    SHUTDOWN_IN_PROGRESS one in which every direct host is settled (off, not
    required, or its request delivered and unverifiable) and every NUT host
    is off or recorded as requested within its six attempts. *)
Theorem forced_shutdown_is_last s0 w newer ups path older :
  own_state s0 → reachable s0 w → w_log w = newer ++ EvFSD ups path :: older →
  ∃ p, last_persisted older = Some p ∧
    st_PowerState p = ShutdownInProgress ∧ st_ShutdownCommitted p = true ∧
    (∀ id, id ∈ PreFSD (plan cfg) → settled_host (host_config cfg id) (host_at p id)) ∧
    (∀ id, id ∈ NUTGroup (plan cfg) →
       hs_ShutdownState (host_at p id) = ShutdownCompleted ∨
       hs_ShutdownState (host_at p id) = ShutdownRequested ∧
       (hs_ShutdownAttempts (host_at p id) ≤ maxNUTFSDShutdownAttempts)%Z).
Proof.
  intros Hown Hr Hlog. destruct (reachable_Inv s0 w Hown Hr) as [_ Hl _ _]. rewrite Hlog in Hl.
  by apply good_log_split in Hl.
Qed.

(** C3: Wake-on-LAN is written ahead, bounded and ordered: whenever a packet
    was sent to a host, the event just before is the durable write of a
    RESTORE_HOSTS generation that counts this attempt; the host is
    restorable, every restorable host it depends on is recorded online, and
    the packets of this outage do not exceed the configured maximum. *)
Theorem wake_is_written_ahead_and_ordered s0 w newer id older :
  own_state s0 → reachable s0 w → w_log w = newer ++ EvWake id :: older →
  ∃ p l h, older = EvPersisted p :: l ∧
    st_PowerState p = RestoreHosts ∧ st_RecoveryStarted p = true ∧
    h ∈ wake_hosts cfg ∧ hc_ID h = id ∧ restorable (hosts_of p) h ∧
    hs_RecoveryState (host_at p id) = RecoveryWOLSent ∧
    (count_wakes id (EvWake id :: older) ≤ hs_WakeAttempts (host_at p id) ≤ max_wake_attempts h)%Z ∧
    (∀ dep dh ds, dep ∈ hc_DependsOn h → dh ∈ wake_hosts cfg → hc_ID dh = dep →
       hosts_of p !! dep = Some ds → EligibleForRestore dh ds = true →
       hs_RecoveryState ds = RecoveryOnline).
Proof.
  intros Hown Hr Hlog. destruct (reachable_Inv s0 w Hown Hr) as [_ Hl _ _]. rewrite Hlog in Hl.
  apply good_log_split in Hl as (p & l & h & H1 & H2 & H3 & H4 & H5 & H6 & H7 & H8 & H9).
  exists p, l, h. simpl. rewrite bool_decide_true by done. split_and!; try done; lia.
Qed.


(** C19: A crash forgets no request: cut a run at any point, and take any
    generation the disk may then hold (the newest one written, or one whose
    write was reported as failed); it is consistent, and its counters cover
    every shutdown request and every magic packet sent so far in this outage,
    by this process and the ones before it. *)
Theorem crash_forgets_no_request s0 w newer l p :
  own_state s0 → reachable s0 w → w_log w = newer ++ l → on_disk l p →
  wf_state p ∧
  (∀ id, (count_shutdowns id l ≤ hs_ShutdownAttempts (host_at p id))%Z ∧
         (count_wakes id l ≤ hs_WakeAttempts (host_at p id))%Z).
Proof.
  intros Hown Hr Hlog Hd. destruct (reachable_Inv s0 w Hown Hr) as [_ Hl _ _]. rewrite Hlog in Hl.
  destruct (good_log_disk cfg l p (good_log_suffix _ _ Hl) Hd) as [Hwf Hc]. split; [done|].
  intros id. destruct (Hc id). rewrite host_at_hosts. lia.
Qed.
End runs.

(** ** Retry delays *)

(** The FSD retry delay doubles from five seconds and never exceeds a
    minute: after [n] failed attempts it is [min(60s, 5s * 2^(n-1))]. *)
Theorem retry_delay_doubles n :
  (1 ≤ n)%Z → retry_delay n = Z.min Minute (5 * Second * 2 ^ (n - 1))%Z.
Proof.
  intros Hn. destruct (Z.le_gt_cases n 5) as [Hle|Hgt].
  - assert (n = 1 ∨ n = 2 ∨ n = 3 ∨ n = 4 ∨ n = 5)%Z as [->|[->|[->|[->| ->]]]] by lia; reflexivity.
  - assert (Hp : (2 ^ 5 ≤ 2 ^ (n - 1))%Z) by (apply Z.pow_le_mono_r; lia).
    unfold retry_delay, double_until, Minute, Second.
    rewrite !(proj2 (Z.ltb_lt _ n)) by lia. simpl. unfold Second in *. lia.
Qed.
