(* ===== verification/ArmedFacts.v ===== *)
(** * Guarantees of the armed runtime

    The recovery gates fail closed; a dependency counts as ready only after
    consecutive confirmations; the configured seconds reach the policy
    unchanged within an int64; a process is a run of the controller, so that
    every guarantee about those holds of it; recovery is committed only with
    every gate open; and the controller asks for its own shutdown at most once
    per outage, with growing pauses after failures. *)

From Stdlib Require Import Ascii.
From S2P Require Import Prelude StableSort GoStrings GoTime PowerStateModel Nut HostPlan HostPlanFacts.
From S2P Require Import ConfigModel ConfigValidate ConfigFacts Policy PolicyFacts Store StoreFacts.
From S2P Require Import Coordinator Recovery Orchestrator HostAdapters HostAdapterFacts Health Armed.
From S2P Require Import OrchestratorFacts OrchestratorRuns.

(** ** The health gates *)

Definition no_critical_failure (rs : list health.Result) : Prop :=
  Forall (λ r, health.rs_Critical r = true → health.rs_OK r = true) rs.

Lemma critical_failure_false r : critical_failure r = false ↔ (health.rs_Critical r = true → health.rs_OK r = true).
Proof. unfold critical_failure. destruct (health.rs_Critical r), (health.rs_OK r); naive_solver. Qed.

Lemma find_critical rs : find critical_failure rs = None ↔ no_critical_failure rs.
Proof.
  unfold no_critical_failure. induction rs as [|r rs IH]; simpl; [split; [constructor|done]|].
  rewrite Forall_cons, <-critical_failure_false, <-IH. destruct (critical_failure r); naive_solver.
Qed.

Lemma existsb_critical rs : existsb critical_failure rs = false ↔ no_critical_failure rs.
Proof.
  unfold no_critical_failure. induction rs as [|r rs IH]; simpl; [split; [constructor|done]|].
  rewrite Forall_cons, <-critical_failure_false, <-IH, orb_false_iff. done.
Qed.

Lemma agent_safe_iff snap :
  criticalAgentHealthSafe snap = true ↔
  health.sn_State snap ≠ health.FailedSafe ∧ no_critical_failure (health.sn_Results snap).
Proof.
  unfold criticalAgentHealthSafe. rewrite <-existsb_critical. case_bool_decide; [naive_solver|].
  rewrite negb_true_iff. naive_solver.
Qed.

(** A snapshot that vouches for the control stack at [now]. *)
Record vouches (snap : health.Snapshot) (maxAge : Duration) (now : Time) : Prop := {
  vo_version : health.sn_Version snap = 1%Z;
  vo_stamped : health.sn_CheckedAt snap ≠ zero_time;
  vo_fresh : (0 < maxAge)%Z → (health.sn_CheckedAt snap ≤ now)%Z ∧ (time_sub now (health.sn_CheckedAt snap) ≤ maxAge)%Z;
  vo_state : health.sn_State snap ≠ health.FailedSafe;
  vo_checks : no_critical_failure (health.sn_Results snap);
}.

Lemma system_safe_iff `{health.SnapshotCodec} file maxAge now :
  (systemHealthSafe file maxAge now).1 = true ↔
  ∃ b snap, file = inr b ∧ health.hj_Unmarshal b = inr snap ∧ vouches snap maxAge now.
Proof.
  unfold systemHealthSafe. destruct file as [e|b]; simpl; [split; [done|by intros (? & ? & ? & _)]|].
  destruct (health.hj_Unmarshal b) as [e|snap] eqn:Hu; simpl;
    [split; [done|intros (? & ? & [= <-] & ? & _); congruence]|].
  assert (Hex : (∃ b' snap', inr (A := error) b = inr b' ∧ health.hj_Unmarshal b' = inr snap' ∧ vouches snap' maxAge now) ↔
                vouches snap maxAge now) by (split; [intros (b' & snap' & [= <-] & ? & ?); congruence|eauto]).
  rewrite Hex. clear Hex.
  destruct (health.sn_Version snap =? 1)%Z eqn:Hv; simpl; [|split; [done|intros [H1 _ _ _ _]; lia]].
  destruct (IsZero (health.sn_CheckedAt snap)) eqn:Hz; [split; [done|intros [_ H1 _ _ _]; unfold IsZero, zero_time in *; lia]|].
  destruct ((0 <? maxAge)%Z && (time_sub now (health.sn_CheckedAt snap) <? 0)%Z) eqn:Hf.
  { apply andb_true_iff in Hf as [Hf1 Hf2]. split; [done|]. intros [_ _ H1 _ _]. destruct H1 as [H1 _]; [lia|].
    unfold time_sub, min_int64, max_int64 in Hf2. lia. }
  destruct ((0 <? maxAge)%Z && (maxAge <? time_sub now (health.sn_CheckedAt snap))%Z) eqn:Hs.
  { apply andb_true_iff in Hs as [Hs1 Hs2]. split; [done|]. intros [_ _ H1 _ _]. destruct H1 as [_ H1]; [lia|]. lia. }
  case_bool_decide as Hst; [split; [done|intros [_ _ _ H1 _]; congruence]|].
  destruct (find critical_failure (health.sn_Results snap)) as [r|] eqn:Hc; simpl.
  { split; [done|]. intros [_ _ _ _ H1]. apply find_critical in H1. congruence. }
  split; [|done]. intros _. split; [lia|unfold IsZero, zero_time in *; lia| |done|by apply find_critical].
  intros Hpos. apply andb_false_iff in Hf. apply andb_false_iff in Hs. split.
  - unfold time_sub, min_int64, max_int64 in Hf. lia.
  - lia.
Qed.

(** The gate on the control stack fails closed: recovery is allowed
    exactly when the snapshot file can be read and decoded, has the known
    version and a time stamp that is neither in the future nor older than the
    maximum age, is not FAILED_SAFE, and contains no failed critical check. *)
Theorem system_gate_fails_closed `{health.SnapshotCodec} file maxAge now :
  (systemHealthSafe file maxAge now).1 = true ↔
  ∃ b snap, file = inr b ∧ health.hj_Unmarshal b = inr snap ∧ vouches snap maxAge now.
Proof. exact (system_safe_iff file maxAge now). Qed.

(** ** Dependencies *)

(** The probe of a dependency found it online. *)
Definition seen_online (net : ProbeNet) (dep : DependencyConfig) : Prop :=
  ∃ address, dp_Address dep = Some address ∧ Check net address (dp_Status dep) = inr (known true).

#[export] Instance seen_online_dec net dep : base.Decision (seen_online net dep).
Proof.
  unfold seen_online. destruct (dp_Address dep) as [address|]; [|right; by intros (? & ? & _)].
  destruct (Check net address (dp_Status dep)) as [e|[[] []]] eqn:Hc;
    [right|left; by exists address|right..]; intros (? & [= <-] & Hc'); unfold known in Hc'; congruence.
Defined.

(** The streak a probe leaves behind. *)
Definition next_streak (net : ProbeNet) (dep : DependencyConfig) (n : Z) : Z :=
  if decide (seen_online net dep) then (n + 1)%Z else 0%Z.

Lemma ready_loop_addresses probe i deps streaks b streaks' :
  ready_loop probe i deps streaks b = (streaks', true) → b = true ∧ Forall (λ d, is_Some (dp_Address d)) deps.
Proof.
  revert i streaks b. induction deps as [|dep deps IH]; intros i streaks b; simpl; [intros [= _ ->]; by split|].
  destruct (dp_Address dep) as [a|] eqn:Ha; [|done].
  destruct (Check (probe i) a (dp_Status dep)) as [e|[[] []]]; intros Hr; apply IH in Hr as [Hb Hall]; try done.
  destruct (_ <? _)%Z; [done|]. split; [done|]. constructor; [by rewrite Ha|done].
Qed.

Lemma ready_loop_step probe i dep deps streaks b :
  is_Some (dp_Address dep) →
  let n := next_streak (probe i) dep (default 0%Z (streaks !! dp_ID dep)) in
  ready_loop probe i (dep :: deps) streaks b =
  ready_loop probe (S i) deps (<[dp_ID dep := n]> streaks) (b && bool_decide (needed (dp_Status dep) ≤ n)%Z).
Proof.
  intros [a Ha]. simpl. unfold next_streak. rewrite Ha. pose proof (needed_pos (dp_Status dep)) as Hpos.
  destruct (decide (seen_online (probe i) dep)) as [(a' & Ha' & Hc)|Hno].
  - rewrite Ha in Ha'. injection Ha' as <-. rewrite Hc. unfold known. f_equal.
    destruct (_ <? _)%Z eqn:Hlt; case_bool_decide; rewrite ?andb_true_r, ?andb_false_r; try done; lia.
  - rewrite bool_decide_eq_false_2 by lia. rewrite andb_false_r.
    destruct (Check (probe i) a (dp_Status dep)) as [e|[[] []]] eqn:Hc; try done.
    destruct Hno. by exists a.
Qed.

(** The whole loop, when every dependency has an address. *)
Lemma ready_loop_spec probe deps : ∀ i streaks b,
  NoDup (dp_ID <$> deps) → Forall (λ d, is_Some (dp_Address d)) deps →
  let '(streaks', b') := ready_loop probe i deps streaks b in
  (∀ j dep, deps !! j = Some dep →
     streaks' !! dp_ID dep = Some (next_streak (probe (i + j)) dep (default 0%Z (streaks !! dp_ID dep)))) ∧
  (∀ id, id ∉ (dp_ID <$> deps) → streaks' !! id = streaks !! id) ∧
  (b' = true → ∀ j dep, deps !! j = Some dep →
     (needed (dp_Status dep) ≤ next_streak (probe (i + j)%nat) dep (default 0%Z (streaks !! dp_ID dep)))%Z).
Proof.
  induction deps as [|dep deps IH]; intros i streaks b Hnd Hall; [done|].
  apply Forall_cons in Hall as [Ha Hall]. apply NoDup_cons in Hnd as [Hni Hnd].
  rewrite ready_loop_step by done. set (n := next_streak _ _ _).
  specialize (IH (S i) (<[dp_ID dep := n]> streaks) (b && bool_decide (needed (dp_Status dep) ≤ n)%Z) Hnd Hall).
  pose proof (ready_loop_addresses probe (S i) deps (<[dp_ID dep := n]> streaks) (b && bool_decide (needed (dp_Status dep) ≤ n)%Z)) as Hb.
  destruct (ready_loop _ _ _ _ _) as [streaks' b'] eqn:Hr. destruct IH as (IH1 & IH2 & IH3).
  assert (Hother : ∀ j d, deps !! j = Some d → dp_ID d ≠ dp_ID dep).
  { intros j d Hd Heq. apply Hni. rewrite <-Heq. apply list_elem_of_fmap_2. by eapply list_elem_of_lookup_2. }
  split_and!.
  - intros [|j] d Hd; simpl in Hd.
    + injection Hd as <-. rewrite IH2 by done. rewrite lookup_insert_eq, Nat.add_0_r. done.
    + rewrite (IH1 j d Hd). rewrite lookup_insert_ne by (intros Heq; by apply (Hother j d Hd)).
      by rewrite Nat.add_succ_r.
  - intros id Hid. rewrite fmap_cons, not_elem_of_cons in Hid. destruct Hid as [Hne Hid].
    rewrite IH2 by done. by apply lookup_insert_ne.
  - intros -> [|j] d Hd; simpl in Hd.
    + injection Hd as <-. rewrite Nat.add_0_r. destruct (Hb streaks' eq_refl) as [Hbt _].
      apply andb_true_iff in Hbt as [_ Hbt]. by apply bool_decide_eq_true in Hbt.
    + specialize (IH3 eq_refl j d Hd). rewrite lookup_insert_ne in IH3 by (intros Heq; by apply (Hother j d Hd)).
      by rewrite Nat.add_succ_r.
Qed.

(** ** Settings *)

(** A number of seconds that a [time.Duration] can hold. *)
Definition fits (n : Z) : Prop := (n ≤ 9223372036)%Z.
Definition fits_option (v : option Z) : Prop := match v with Some n => fits n | None => True end.

(** The durations a configuration asks for, in exact arithmetic. *)
Definition exact_seconds (v : option Z) : Z := match v with Some n => (n * Second)%Z | None => 0%Z end.

Definition exact_policy (cfg : ConfigModel.Config) : Policy.Config :=
  let oc := cf_Outage cfg in
  let rc := cf_Recovery cfg in
  Policy.mkConfig (oc_GracePeriodSeconds oc * Second) (exact_seconds (oc_MaxOnBatterySeconds oc))
    (float64_of_int <$> oc_CriticalBatteryPercent oc) (exact_seconds (oc_CriticalRuntimeSeconds oc))
    (oc_CommunicationLossGraceSeconds oc * Second) (Some (rc_Enabled rc)) (rc_UtilityStableSeconds rc * Second)
    (float64_of_int <$> rc_BatteryChargeMin rc) (exact_seconds (rc_RuntimeMinSeconds rc))
    (exact_seconds (rc_RechargeTimeSeconds rc)) (rc_NetworkWaitSeconds rc * Second).

Lemma seconds_exact v : positive_ok v → fits_option v → seconds_or_zero v = exact_seconds v.
Proof.
  destruct v as [n|]; [|done]. simpl. unfold fits. intros Hp Hf. apply duration_of_seconds. specialize (Hp n eq_refl). lia.
Qed.

(** The settings of an accepted configuration with recovery enabled
    reach the policy exactly: no duration is truncated or wraps, as long as
    every one fits an int64 of nanoseconds (9223372036 seconds); and the
    stability interval is never replaced by the engine's own default. *)
Theorem policy_settings_are_exact cfg p :
  config_ok cfg → rc_Enabled (cf_Recovery cfg) = true →
  fits (oc_GracePeriodSeconds (cf_Outage cfg)) → fits (oc_CommunicationLossGraceSeconds (cf_Outage cfg)) →
  fits_option (oc_MaxOnBatterySeconds (cf_Outage cfg)) → fits_option (oc_CriticalRuntimeSeconds (cf_Outage cfg)) →
  fits (rc_UtilityStableSeconds (cf_Recovery cfg)) → fits (rc_NetworkWaitSeconds (cf_Recovery cfg)) →
  fits_option (rc_RuntimeMinSeconds (cf_Recovery cfg)) → fits_option (rc_RechargeTimeSeconds (cf_Recovery cfg)) →
  policyFromConfig cfg = exact_policy cfg ∧ e_cfg (Policy.New (policyFromConfig cfg) p) = exact_policy cfg.
Proof.
  intros Hok He F1 F2 F3 F4 F5 F6 F7 F8. pose proof (ok_outage _ Hok) as [O1 O2 _ O4 O5].
  destruct (ok_recovery _ Hok He) as [R1 R2 _ R4 R5 _]. unfold fits in *.
  assert (Heq : policyFromConfig cfg = exact_policy cfg).
  { unfold policyFromConfig, exact_policy. rewrite !seconds_exact by done.
    rewrite !duration_of_seconds by lia. done. }
  split; [done|]. rewrite Heq. unfold Policy.New. cbn [e_cfg].
  destruct (cfg_UtilityStable (exact_policy cfg) <=? 0)%Z eqn:Hz; [|done].
  exfalso. cbn [exact_policy cfg_UtilityStable] in Hz. unfold Second in Hz. lia.
Qed.

(** ** A process is a run of the controller *)

(** What a start may read from either file. *)
Definition generations `{StateCodec} (fs : FS) (p : State) : Prop :=
  file_state d_current (fs_view fs) = Some p ∨ file_state d_previous (fs_view fs) = Some p.

Section start.
Context `{StateCodecLaws encodable}.

Lemma Load_reads fs fs' p src : Load fs = (fs', inr (p, src)) → generations fs p.
Proof.
  unfold Load, mbind, GoM_bind. set (v := fs_view fs).
  assert (Hfs : vshape false v (fs_tmp fs) fs) by done.
  pose proof (readAndValidate_v false (λ _, True) d_current v (fs_tmp fs) I fs Hfs) as H1.
  destruct (readAndValidate d_current fs) as [fs1 [e|[e|st]]]; [done| |].
  - destruct H1 as [_ H1]. pose proof (readAndValidate_v false (λ _, True) d_previous v (fs_tmp fs) I fs1 H1) as H2.
    destruct (readAndValidate d_previous fs1) as [fs2 [e'|[e'|st]]]; [done..|]. destruct H2 as [[H2 _] _].
    intros [= _ <- _]. right. by apply H2.
  - destruct H1 as [[H1 _] _]. intros [= _ <- _]. left. by apply H1.
Qed.

(** Distinct random bytes give distinct transactions. *)
Lemma hex_digit_inj n m : (n < 16)%nat → (m < 16)%nat → hex_digit n = hex_digit m → n = m.
Proof.
  intros Hn Hm. assert (Hall : forallb (λ n, forallb (λ m, negb (bool_decide (hex_digit n = hex_digit m)) || (n =? m)) (seq 0 16)) (seq 0 16) = true)
    by (vm_compute; reflexivity).
  rewrite forallb_forall in Hall. specialize (Hall n ltac:(apply in_seq; lia)). rewrite forallb_forall in Hall.
  specialize (Hall m ltac:(apply in_seq; lia)). intros He. rewrite bool_decide_true in Hall by done. by apply Nat.eqb_eq.
Qed.

Lemma newTransactionID_distinct b b' now now' :
  newTransactionID (inr b) now = newTransactionID (inr b') now' → b = b'.
Proof.
  unfold newTransactionID, hex_Encode. intros He%(f_equal String.list_ascii_of_string).
  rewrite !String.list_ascii_of_string_of_list_ascii in He. revert b' He.
  induction b as [|c b IH]; intros [|c' b'] He; rewrite ?bind_cons in He; cbn [app] in He; try done. injection He as E1 E2 He. f_equal; [|auto].
  change (hex_digit (nat_of_ascii c / 16)%nat = hex_digit (nat_of_ascii c' / 16)%nat) in E1.
  change (hex_digit (nat_of_ascii c mod 16)%nat = hex_digit (nat_of_ascii c' mod 16)%nat) in E2.
  pose proof (nat_ascii_bounded c).  pose proof (nat_ascii_bounded c').
  apply hex_digit_inj in E1; [|apply Nat.Div0.div_lt_upper_bound; lia..]. apply hex_digit_inj in E2; [|apply Nat.mod_upper_bound; lia..].
  rewrite <-(ascii_nat_embedding c), <-(ascii_nat_embedding c'). f_equal.
  rewrite (Nat.div_mod_eq (nat_of_ascii c) 16), (Nat.div_mod_eq (nat_of_ascii c') 16). lia.
Qed.

Lemma fresh_own tx rev : own_state (PowerStateModel.New tx rev).
Proof. split; [by split|]. intros id. unfold host_at, hosts_of. cbn. by rewrite lookup_empty. Qed.

Lemma restamped_own next p : restamped next p → own_state next → own_state p.
Proof. intros (?&?&?&->) [Hwf Hc]. split; [exact Hwf|exact Hc]. Qed.

Lemma load_persisted_own revision newID fs fs' p :
  (∀ q, generations fs q → own_state q) → load_persisted revision newID fs = (fs', inr p) → own_state p.
Proof.
  intros Hgen. unfold load_persisted, mbind at 1, GoM_bind at 1, attempt.
  destruct (Load fs) as [fs1 [e|[q src]]] eqn:Hload.
  - destruct (negb _); [done|]. unfold wrap_err.
    destruct (Write _ fs1) as [fs2 [e'|p']] eqn:Hw; [done|]. intros [= _ <-].
    apply Write_restamps in Hw. eapply restamped_own; [exact Hw|]. apply fresh_own.
  - case_bool_decide; [intros [= _ <-]; apply Hgen; by eapply Load_reads|].
    destruct (active_transaction q) eqn:Ha; [done|]. unfold wrap_err.
    destruct (Write _ fs1) as [fs2 [e'|p']] eqn:Hw; [done|]. intros [= _ <-].
    apply Write_restamps in Hw. eapply restamped_own; [exact Hw|].
    unfold active_transaction in Ha. apply orb_false_iff in Ha as [Ha _]. apply orb_false_iff in Ha as [Hc Hr].
    split.
    + split; [simpl; congruence|done].
    + intros id. unfold host_at, hosts_of. cbn. by rewrite lookup_empty.
Qed.
End start.

(** *** Starting over a transaction *)

Section transaction.
Context `{StateCodecLaws encodable}.

Lemma load_state_generation d p : load_state d = Some p → file_state d_current d = Some p ∨ file_state d_previous d = Some p.
Proof.
  unfold load_state. rewrite load_dir_files. destruct (file_state d_current d); [by left; simplify_eq/=|].
  destruct (file_state d_previous d); [by right; simplify_eq/=|done].
Qed.

Lemma generation_valid path d p : file_state path d = Some p → valid_state p.
Proof.
  unfold file_state. destruct (path d) as [b|]; simpl; [|done]. unfold validate_bytes.
  destruct (json_Unmarshal b) as [e|st]; [done|]. destruct (validateSemantic st) eqn:Hv; [done|].
  rewrite <-validateSemantic_spec. repeat case_match; intros; simplify_eq; done.
Qed.

Lemma Load_quiet fs p :
  fs_faults fs = [] → load_state (fs_view fs) = Some p →
  ∃ fs' src, Load fs = (fs', inr (p, src)) ∧ fs_view fs' = fs_view fs ∧ fs_faults fs' = [].
Proof.
  intros Hf Hl. pose proof (Load_v true (λ _, True) (fs_view fs) (fs_tmp fs) I fs) as Hs.
  unfold attempt in Hs. destruct (Load fs) as [fs' r]. destruct Hs as (Hr & Hv & _ & Hf'); [done|].
  specialize (Hr eq_refl). unfold load_state in Hl. destruct (load_dir (fs_view fs)) as [[p' src]|]; [|done].
  simpl in Hl. injection Hl as ->. exists fs', src. rewrite Hr. split_and!; [done|done|by apply Hf'].
Qed.

Lemma Write_quiet next fs :
  encodable next → valid_state (stamp 0 next) → fs_faults fs = [] →
  ∃ p fs', Write next fs = (fs', inr p) ∧ persisted_as next p ∧ load_state (fs_view fs') = Some p ∧ fs_pending fs' = [].
Proof.
  intros Henc Hval%validateSemantic_spec Hf.
  pose proof (Write_v true (fs_view fs) next Henc (fs_tmp fs) (λ _, Hval) fs ltac:(done)) as Hw.
  destruct (Write next fs) as [fs' [e|p]]; [by destruct Hw|].
  destruct Hw as (Hp & _ & Hpa & _ & _ & b & v' & _ & _ & Hdur & Hb).
  exists p, fs'. split_and!; try done. unfold fs_view. rewrite Hp, Hdur. simpl.
  unfold load_state. rewrite load_dir_files. unfold file_state. simpl. by rewrite Hb.
Qed.

End transaction.

(** Every state of a process that began with [w0], with the samples of its
    ticks, newest first.  The clock is past Go's zero time. *)
Inductive armed_run {W} `{StateWriter W, health.SnapshotCodec} (os : Outside) (opts : Options)
    (cfg runtimeCfg : ConfigModel.Config) (w0 : World W) : list Sample → Armed W → Prop :=
  | run_start : armed_run os opts cfg runtimeCfg w0 [] (mkArmed w0 ∅ zeroTracker [] [])
  | run_tick s ss a :
      armed_run os opts cfg runtimeCfg w0 ss a → (0 < sm_now s)%Z →
      armed_run os opts cfg runtimeCfg w0 (s :: ss) (armedPowerTick os opts cfg runtimeCfg s a).1.

Section process.
Context {W : Type} `{StateWriterLaws W writable stored, health.SnapshotCodec}.
Context (os : Outside) (opts : Options) (cfg runtimeCfg : ConfigModel.Config).

Abbreviation tick_of s a := (armedPowerTick (W := W) os opts cfg runtimeCfg s a).

Abbreviation controller_run p := (reachable (armed_env os runtimeCfg) runtimeCfg (op_UPSMonConfPath opts) (policyFromConfig cfg) p).

(** The parts of a tick. *)
Lemma tick_controller s a :
  ar_controller (tick_of s a).1 =
  (Tick (armed_env os runtimeCfg) runtimeCfg (op_UPSMonConfPath opts) (sm_now s)
     (inputs_of opts s (Ready (sm_dependency s) (cf_Dependencies cfg) (ar_streaks a)).2)
     (observe (observation_of (ups_of s) (sm_now s)) (ar_controller a))).1.
Proof.
  unfold armedPowerTick. destruct (Ready _ _ _) as [streaks networkReady]. cbn [snd].
  change (w_set_coord (ObserveUPS ?o (w_coord ?w)) ?w) with (observe o w).
  destruct (Tick _ _ _ _ _ _) as [w [e|d]]; [done|]. by destruct (shut_controller_down _ _ _ _).
Qed.

Lemma tick_streaks s a :
  ar_streaks (tick_of s a).1 = (Ready (sm_dependency s) (cf_Dependencies cfg) (ar_streaks a)).1.
Proof.
  unfold armedPowerTick. destruct (Ready _ _ _) as [streaks networkReady].
  destruct (Tick _ _ _ _ _ _) as [w [e|d]]; [done|]. by destruct (shut_controller_down _ _ _ _).
Qed.

Lemma run_is_reachable p0 w0 ss a :
  controller_run p0 w0 → armed_run os opts cfg runtimeCfg w0 ss a → controller_run p0 (ar_controller a).
Proof.
  intros Hstart. induction 1 as [|s ss a Ha IH Hpos]; [exact Hstart|]. rewrite tick_controller.
  by apply reach_tick, reach_observe.
Qed.

Lemma resume_reachable p store w :
  resume_shutdown p (new_controller (policyFromConfig cfg) p store) = (w, inr ()) → controller_run p w.
Proof.
  unfold resume_shutdown, when, resumes. change (new_controller (policyFromConfig cfg) p store) with (start (policyFromConfig cfg) p [] store).
  pose proof (reach_boot (armed_env os runtimeCfg) runtimeCfg (op_UPSMonConfPath opts) (policyFromConfig cfg) p store) as Hb.
  destruct (st_ShutdownCommitted p) eqn:Hc; simpl; [|by intros [= <-]].
  destruct (bool_decide (st_PowerState p = ShutdownCommitted) || bool_decide (st_PowerState p = ShutdownInProgress)) eqn:Hp;
    [|by intros [= <-]].
  apply orb_true_iff in Hp. rewrite !bool_decide_eq_true in Hp.
  pose proof (reach_resume (armed_env os runtimeCfg) runtimeCfg (op_UPSMonConfPath opts) (policyFromConfig cfg) p p [] store Hb Hc Hp) as Hr.
  unfold mbind, GoM_bind, wrap_err. destruct (Policy_Write _ _) as [w' [e|q]]; [done|]. by intros [= <-].
Qed.
End process.

(** The armed process is a run of the controller: when [runArmed] has
    started from a directory in which both files hold generations of this
    program (or none), it loaded such a generation, its controller is in a
    state reachable from it, before the first tick and after every one, and
    the hosts of its configuration are distinct.  So every guarantee about
    reachable controllers is one about the running agent. *)
Theorem armed_process_is_controller_run `{StateCodecLaws encodable, health.SnapshotCodec}
    os opts lc cfg revision newID fs fs' runtimeCfg w0 ss a :
  config_ok cfg → (∀ q, generations fs q → own_state q) →
  runArmed_start lc cfg revision newID fs = Some (fs', inr (runtimeCfg, w0)) →
  armed_run os opts cfg runtimeCfg w0 ss a →
  NoDup (h_ID <$> cf_Hosts runtimeCfg) ∧
  ∃ p, own_state p ∧
    reachable (armed_env os runtimeCfg) runtimeCfg (op_UPSMonConfPath opts) (policyFromConfig cfg) p (ar_controller a).
Proof.
  intros Hok Hgen. unfold runArmed_start. destruct (RuntimeArmedExclusions lc cfg) as [[e|excluded]|]; simpl; [done| |done].
  destruct revision as [e|rev]; [done|]. destruct (load_persisted rev newID fs) as [fs1 [e|p]] eqn:Hl; [done|].
  destruct (resume_shutdown p _) as [w [e|[]]] eqn:Hr; [done|]. intros [= <- <- <-] Hrun. split.
  - rewrite runtime_ids. by apply ids_hosts_NoDup, ok_ids.
  - exists p. split; [by eapply load_persisted_own|]. eapply run_is_reachable; [|exact Hrun]. by eapply resume_reachable.
Qed.

(** ** Recovery *)

Section recovery.
Context {W : Type} `{StateWriter W, health.SnapshotCodec}.
Context (os : Outside) (opts : Options) (cfg runtimeCfg : ConfigModel.Config).

(** [Tick] returns the engine's own decision. *)
Lemma Tick_decision (env : Env) path now i (w w' : World W) d :
  Tick env runtimeCfg path now i w = (w', inr d) → (Step now i (c_engine (w_coord w))).2 = inr d.
Proof.
  assert (Hb : ∀ A B (m : GoM (World W) A) (f : A → GoM (World W) B) x x' b,
    (m ≫= f) x = (x', inr b) → ∃ y a, m x = (y, inr a) ∧ f a y = (x', inr b)).
  { intros A B m f x x' b. unfold mbind, GoM_bind. destruct (m x) as [y [e|a]]; [done|]. eauto. }
  unfold Tick. intros (y & st & Hst & Hrest)%Hb. injection Hst as <- _.
  apply Hb in Hrest as (y1 & d1 & Hstep & Hrest).
  apply Hb in Hrest as (y2 & st2 & _ & Hrest). apply Hb in Hrest as (y3 & u & _ & Hrest).
  apply Hb in Hrest as (y4 & u' & _ & Hrest). injection Hrest as _ ->.
  revert Hstep. unfold Policy_Step, lift_coord, c_Step.
  destruct (Step now i (c_engine (w_coord w))) as [e [err|d2]]; [done|]. unfold persist_decision.
  destruct (negb (dec_Changed d2)); [|destruct (write_through _ _ _ _) as [c' [err|p]]; [done|]]; cbn [snd]; congruence.
Qed.

(** The last [n] ticks all found a dependency online. *)
Definition online_for (n : nat) (i : nat) (dep : DependencyConfig) (ss : list Sample) : Prop :=
  n ≤ length ss ∧ Forall (λ s, seen_online (sm_dependency s i) dep) (take n ss).

Lemma online_for_next n i dep s ss :
  online_for n i dep ss →
  ∃ n', next_streak (sm_dependency s i) dep (Z.of_nat n) = Z.of_nat n' ∧ online_for n' i dep (s :: ss).
Proof.
  intros [Hlen Hall]. unfold next_streak. case_decide as Hs.
  - exists (S n). split; [lia|]. split; [simpl; lia|]. simpl. by constructor.
  - exists 0. split; [done|]. split; [simpl; lia|constructor].
Qed.

Definition deps_named : Prop := NoDup (dp_ID <$> cf_Dependencies cfg).

Lemma Ready_loop probe streaks :
  Ready probe (cf_Dependencies cfg) streaks = ready_loop probe 0 (cf_Dependencies cfg) streaks true.
Proof. unfold Ready. by destruct (cf_Dependencies cfg). Qed.

(** The tracker counts the consecutive confirmations. *)
Lemma run_streaks w0 ss a :
  deps_named → Forall (λ d, is_Some (dp_Address d)) (cf_Dependencies cfg) →
  armed_run os opts cfg runtimeCfg w0 ss a →
  ∀ i dep, cf_Dependencies cfg !! i = Some dep →
    ∃ n, default 0%Z (ar_streaks a !! dp_ID dep) = Z.of_nat n ∧ online_for n i dep ss.
Proof.
  intros Hnd Hall Hrun. induction Hrun as [|s ss a Hrun IH Hpos]; intros i dep Hi.
  - exists 0. simpl. rewrite lookup_empty. split; [done|]. split; [simpl; lia|constructor].
  - destruct (IH i dep Hi) as (n & Hn & Hon). rewrite tick_streaks, Ready_loop.
    pose proof (ready_loop_spec (sm_dependency s) (cf_Dependencies cfg) 0 (ar_streaks a) true Hnd Hall) as Hl.
    destruct (ready_loop _ _ _ _ _) as [streaks b]. destruct Hl as (Hl & _ & _). cbn [fst].
    rewrite (Hl i dep Hi), Hn. simpl. destruct (online_for_next n i dep s ss Hon) as (n' & -> & Hon'). eauto.
Qed.

Lemma ready_confirmed w0 ss a s :
  deps_named → armed_run os opts cfg runtimeCfg w0 ss a →
  (Ready (sm_dependency s) (cf_Dependencies cfg) (ar_streaks a)).2 = true →
  ∀ i dep, cf_Dependencies cfg !! i = Some dep →
    ∃ n, (needed (dp_Status dep) ≤ Z.of_nat n)%Z ∧ online_for n i dep (s :: ss).
Proof.
  intros Hnd Hrun. rewrite Ready_loop. intros Hr.
  assert (Hall : Forall (λ d, is_Some (dp_Address d)) (cf_Dependencies cfg)).
  { destruct (ready_loop _ _ _ _ _) as [streaks b] eqn:Hl. simpl in Hr. subst b.
    by apply ready_loop_addresses in Hl as [_ Hl]. }
  pose proof (ready_loop_spec (sm_dependency s) (cf_Dependencies cfg) 0 (ar_streaks a) true Hnd Hall) as Hl.
  destruct (ready_loop _ _ _ _ _) as [streaks b]. destruct Hl as (_ & _ & Hl). intros i dep Hi.
  destruct (run_streaks w0 ss a Hnd Hall Hrun i dep Hi) as (n & Hn & Hon).
  specialize (Hl Hr i dep Hi). rewrite Hn in Hl. simpl in Hl.
  destruct (online_for_next n i dep s ss Hon) as (n' & Hn' & Hon'). rewrite Hn' in Hl. eauto.
Qed.

(** C13: Recovery starts only with every gate open: when a tick of the
    armed process logs a recovery commitment, the UPS query of that tick
    succeeded and reports utility power with neither low battery nor FSD, the
    agent's own health and the control stack's snapshot are safe, every
    network dependency was found online in each of its last required ticks,
    and the engine's own gates (enabled, stability, recharge) all passed. *)
Theorem armed_recovery_is_gated w0 ss a s a' before after d :
  deps_named → armed_run os opts cfg runtimeCfg w0 ss a →
  armedPowerTick os opts cfg runtimeCfg s a = (a', inr ()) →
  ar_transitions a' = (before, after, d) :: ar_transitions a → dec_Action d = ActionCommitRecovery →
  (∃ st, sm_query s = inr st ∧ us_Utility st = UtilityOnline ∧ us_LowBattery st = false ∧ us_FSD st = false) ∧
  criticalAgentHealthSafe (sm_health s) = true ∧
  (∃ b snap, sm_file s = inr b ∧ health.hj_Unmarshal b = inr snap ∧ vouches snap (op_SystemHealthMaxAge opts) (sm_now s)) ∧
  (∀ i dep, cf_Dependencies cfg !! i = Some dep →
     ∃ n, (needed (dp_Status dep) ≤ Z.of_nat n)%Z ∧ online_for n i dep (s :: ss)) ∧
  recovery_gates (sm_now s) (inputs_of opts s true)
    (c_engine (w_coord (observe (observation_of (ups_of s) (sm_now s)) (ar_controller a)))).
Proof.
  intros Hnd Hrun Htick Htr Hact. pose proof (ready_confirmed w0 ss a s Hnd Hrun) as Hconf. revert Htick. unfold armedPowerTick.
  destruct (Ready _ _ _) as [streaks networkReady]. cbn [snd] in Hconf.
  change (w_set_coord (ObserveUPS ?o (w_coord ?w)) ?w) with (observe o w).
  destruct (Tick _ _ _ _ _ _) as [w [e|d']] eqn:Ht; [done|].
  destruct (shut_controller_down _ _ _ _) as [tracker reqs]. intros [= <-]. cbn [ar_transitions] in Htr.
  assert (Hd : d' = d).
  { unfold logged in Htr. destruct (_ || _); simpl in Htr; [by injection Htr|].
    exfalso. apply (f_equal length) in Htr. simpl in Htr. lia. }
  subst d'. apply Tick_decision in Ht.
  assert (Hg : commits_recovery (Step (sm_now s) (inputs_of opts s networkReady)
    (c_engine (w_coord (observe (observation_of (ups_of s) (sm_now s)) (ar_controller a)))))) by by exists d.
  apply commits_recovery_spec in Hg. pose proof Hg as [_ _ Hon Hlb Hfsd _ _ Hnet Hhealth].
  cbn [inputs_of in_NetworkReady in_HealthSafe in_UPS] in *. subst networkReady.
  apply andb_true_iff in Hhealth as [Hagent Hsys]. split_and!; [|done|by apply system_safe_iff|by apply Hconf|exact Hg].
  unfold ups_of in *. destruct (sm_query s) as [e|st]; [done|]. by exists st.
Qed.
End recovery.

(** ** The controller's own shutdown *)

(** How many of the newest requests belong to one transaction. *)
Fixpoint attempts_for (tx : string) (reqs : list FSDRequest) : Z :=
  match reqs with
  | [] => 0
  | r :: reqs => if bool_decide (rq_tx r = tx) then 1 + attempts_for tx reqs else 0
  end%Z.

(** A request follows another of its transaction only if that one failed, and
    only after the pause for the number of failures so far. *)
Fixpoint paced (reqs : list FSDRequest) : Prop :=
  match reqs with
  | r :: (prev :: _) as older =>
      (rq_tx r = rq_tx prev →
         is_Some (rq_answer prev) ∧
         (rq_now prev + retry_delay (attempts_for (rq_tx prev) older) ≤ rq_now r)%Z) ∧ paced older
  | _ => True
  end.

Lemma attempts_for_nonneg tx reqs : (0 ≤ attempts_for tx reqs)%Z.
Proof. induction reqs as [|r reqs IH]; simpl; [done|]. case_bool_decide; lia. Qed.

Lemma double_until_nonneg fuel i n d : (0 ≤ d ≤ Minute)%Z → (0 ≤ double_until fuel i n d)%Z.
Proof.
  revert i d. induction fuel as [|fuel IH]; intros i d Hd; simpl; [lia|].
  destruct ((i <? n)%Z && (d <? Minute)%Z) eqn:Hc; [|lia]. apply andb_true_iff in Hc as [_ Hc].
  destruct (Z.le_gt_cases (d * 2) Minute) as [Hle|Hgt].
  - apply IH. rewrite wrap64_id by (unfold int64_range, min_int64, max_int64, Minute in *; lia). lia.
  - rewrite wrap64_id by (unfold int64_range, min_int64, max_int64, Minute in *; lia).
    destruct fuel as [|fuel]; simpl; [lia|]. rewrite (proj2 (Z.ltb_ge (d * 2) Minute)) by lia. rewrite andb_false_r. lia.
Qed.

Lemma retry_delay_nonneg n : (0 ≤ retry_delay n)%Z.
Proof.
  unfold retry_delay. pose proof (double_until_nonneg 6 1 n (5 * Second)%Z) as H. unfold Second, Minute in *.
  destruct (_ <? _)%Z; lia.
Qed.

(** The tracker is what the newest requests say. *)
Definition tracks (t : controllerFSDTracker) (reqs : list FSDRequest) : Prop :=
  match reqs with
  | [] => t = zeroTracker
  | r :: _ =>
      tk_transactionID t = rq_tx r ∧ (0 < rq_now r)%Z ∧
      match rq_answer r with
      | None => tk_completed t = true
      | Some _ => tk_completed t = false ∧ tk_attempts t = attempts_for (rq_tx r) reqs ∧
                  tk_nextAttempt t = time_add (rq_now r) (retry_delay (tk_attempts t))
      end
  end.

Section pacing.
Context {W : Type} `{StateWriter W, health.SnapshotCodec}.
Context (os : Outside) (opts : Options) (cfg runtimeCfg : ConfigModel.Config).

(** What is left of the tracker when a request is due for [tx]. *)
Lemma due_tracker now tx t reqs :
  (0 < now)%Z → tracks t reqs → (shouldAttempt now tx t).2 = true →
  let t' := resetFor tx t in
  tk_transactionID t' = tx ∧ tk_completed t' = false ∧ tk_attempts t' = attempts_for tx reqs ∧
  match reqs with
  | r :: _ => tx = rq_tx r → is_Some (rq_answer r) ∧ (rq_now r + retry_delay (attempts_for (rq_tx r) reqs) ≤ now)%Z
  | [] => True
  end.
Proof.
  intros Hnow Htr. unfold shouldAttempt, resetFor. cbn [snd]. destruct reqs as [|r reqs].
  - simpl in Htr. subst t. simpl. case_bool_decide as Htx; simpl; [subst tx|]; done.
  - destruct Htr as (Ht & Hpos & Hans). case_bool_decide as Htx; intros Hdue.
    + apply andb_true_iff in Hdue as [Hc Hnext]. apply negb_true_iff in Hc.
      destruct (rq_answer r) as [e|] eqn:Ha; [|congruence]. destruct Hans as (_ & Hatt & Hna).
      rewrite Ht in Htx. subst tx. split_and!; [done..|]. intros _. split; [by eexists|].
      rewrite Hna in Hnext. rewrite Hatt in Hnext. pose proof (retry_delay_nonneg (attempts_for (rq_tx r) (r :: reqs))).
      unfold IsZero, Before, time_add in Hnext. apply orb_true_iff in Hnext as [Hz|Hb]; [lia|].
      apply negb_true_iff in Hb. lia.
    + rewrite Ht in Htx. split_and!; [done..| |congruence]. simpl. by rewrite bool_decide_eq_false_2 by done.
Qed.

Lemma idle_tracker now tx t reqs :
  tracks t reqs → (0 < now)%Z → (shouldAttempt now tx t).2 = false → tracks (resetFor tx t) reqs.
Proof.
  intros Htr Hnow. unfold shouldAttempt, resetFor. cbn [snd]. destruct reqs as [|r reqs].
  - simpl in Htr. subst t. simpl. case_bool_decide; done.
  - case_bool_decide as Htx; [by intros _|]. done.
Qed.

Lemma shut_down_paced s st t reqs :
  (0 < sm_now s)%Z → tracks t reqs → paced reqs →
  let '(t', new) := shut_controller_down cfg s st t in
  tracks t' (new ++ reqs) ∧ paced (new ++ reqs) ∧
  (new = [] ∨ ∃ answer, new = [mkFSDRequest (st_TransactionID st) (sm_now s) answer] ∧
                        controller_may_shut_down cfg (ups_of s) st = true).
Proof.
  intros Hnow Htr Hp. unfold shut_controller_down.
  destruct (controller_may_shut_down cfg (ups_of s) st) eqn:Hmay; [|by auto].
  destruct (shouldAttempt (sm_now s) (st_TransactionID st) t) as [t1 go] eqn:Hs.
  assert (t1 = resetFor (st_TransactionID st) t) as -> by (unfold shouldAttempt in Hs; congruence).
  destruct go.
  - destruct (due_tracker (sm_now s) (st_TransactionID st) t reqs Hnow Htr) as (H1 & H2 & H3 & H4); [by rewrite Hs|].
    assert (Hpaced : ∀ ans, paced (mkFSDRequest (st_TransactionID st) (sm_now s) ans :: reqs)).
    { intros ans. destruct reqs as [|r reqs]; [done|]. split; [|done]. intros Htx. by apply H4. }
    destruct (sm_FSD s) as [e|] eqn:Hans; (split_and!; [|by apply Hpaced|right; by eexists]).
    + unfold markFailure. set (u := resetFor _ t) in *.
      assert (Hre : resetFor (st_TransactionID st) u = u) by (unfold resetFor; by rewrite bool_decide_eq_true_2 by done).
      rewrite Hre. simpl. split_and!; [done..| |done]. rewrite bool_decide_eq_true_2 by done. lia.
    + unfold markSuccess. set (u := resetFor _ t) in *.
      assert (Hre : resetFor (st_TransactionID st) u = u) by (unfold resetFor; by rewrite bool_decide_eq_true_2 by done).
      rewrite Hre. simpl. by split_and!.
  - split_and!; [|done|by left]. apply idle_tracker with (sm_now s); [done..|]. by rewrite Hs.
Qed.

Lemma run_paced w0 ss a :
  armed_run os opts cfg runtimeCfg w0 ss a → tracks (ar_tracker a) (ar_requests a) ∧ paced (ar_requests a).
Proof.
  induction 1 as [|s ss a _ [IH1 IH2] Hpos]; [done|]. unfold armedPowerTick. destruct (Ready _ _ _) as [streaks ready].
  destruct (Tick _ _ _ _ _ _) as [w [e|d]]; [done|].
  pose proof (shut_down_paced s (w_State w) (ar_tracker a) (ar_requests a) Hpos IH1 IH2) as Hs.
  destruct (shut_controller_down cfg s (w_State w) (ar_tracker a)) as [tracker reqs]. by destruct Hs as (H1 & H2 & _).
Qed.

End pacing.
