(* ===== verification/Chronicle.v ===== *)
(** * What a power loss finds ([agent/internal/state], [agent/internal/orchestrator])

    The controller's theorems speak of crashes in terms of its log: a restart
    finds [on_disk] a generation that was written, or one whose write was
    reported as failed.  The store's theorems speak of directories, renames
    and calls that fail.  Here both meet: along every run of the armed process
    over the crash-safe store, the calls of the store line up with the writes
    in the log, and a power loss between any two of them leaves a directory
    that loads a generation the log knows. *)

From S2P Require Import Prelude StableSort PowerStateModel Nut HostPlan HostPlanFacts ConfigModel ConfigValidate ConfigFacts.
From S2P Require Import Policy PolicyFacts Store StoreFacts Coordinator Recovery Orchestrator OrchestratorFacts OrchestratorRuns.
From S2P Require Import HostAdapters Health Armed ArmedFacts.

(** ** Directories that survive *)

Section directories.
Context `{StateCodec}.

(** Every file that is there validates. *)
Definition clean_file (o : option string) : Prop :=
  match o with Some b => ∃ st, validate_bytes b = inr st | None => True end.

(** The directory loads a generation of [A]. *)
Record holds (A : State → Prop) (d : Dir) : Prop := {
  holds_current : clean_file (d_current d);
  holds_previous : clean_file (d_previous d);
  holds_loads : ∃ st, load_state d = Some st ∧ A st;
}.

(** A directory and its pending renames: so it is after a power loss. *)
Definition survives (A : State → Prop) (e : Dir * list DirOp) : Prop := ∀ d', crash e.2 e.1 d' → holds A d'.

Definition now (fs : FS) : Dir * list DirOp := (fs_durable fs, fs_pending fs).

Lemma holds_weaken (A B : State → Prop) d : (∀ s, A s → B s) → holds A d → holds B d.
Proof. intros HAB [H1 H2 (st & Hst & HA)]. split; eauto. Qed.

Lemma survives_weaken (A B : State → Prop) e : (∀ s, A s → B s) → survives A e → survives B e.
Proof. intros HAB He d' Hc. eapply holds_weaken; [exact HAB|by apply He]. Qed.

Lemma load_current b p prev : validate_bytes b = inr p → load_state (mkDir (Some b) prev) = Some p.
Proof. intros Hb. unfold load_state. rewrite load_dir_files. unfold file_state. simpl. by rewrite Hb. Qed.

Lemma holds_rotate A d : holds A d → holds A (apply_op d RotateCurrent).
Proof.
  intros [H1 H2 (st & Hst & HA)]. unfold apply_op. destruct d as [[b|] prev]; simpl in *; [|by split; eauto].
  destruct H1 as [p Hp]. split; simpl; [done|by exists p|]. rewrite (load_current b p) in Hst by done.
  exists st. split; [|done]. unfold load_state. rewrite load_dir_files. unfold file_state. simpl. by rewrite Hp.
Qed.

Lemma holds_activate (A : State → Prop) d b p synced : validate_bytes b = inr p → A p → holds A d → holds A (apply_op d (ActivateTmp b synced)).
Proof. intros Hb Hp [H1 H2 _]. split; simpl; [by exists p|done|]. exists p. split; [by apply load_current|done]. Qed.

Lemma crash_snoc ops op d d' :
  crash (ops ++ [op]) d d' → (∀ b, op ≠ ActivateTmp b false) → ∃ d0, crash ops d d0 ∧ (d' = d0 ∨ d' = apply_op d0 op).
Proof.
  revert d. induction ops as [|o ops IH]; intros d Hc Hop; simpl in Hc.
  - inversion Hc as [|op' ops' d1 d2 Hc'|op' ops' d1 d2 Hc'|b b' ops' d1 d2 Hc']; subst; [..|by destruct (Hop b)];
      inversion Hc'; subst; eexists; (split; [apply crash_nil|]); auto.
  - inversion Hc as [|op' ops' d1 d2 Hc'|op' ops' d1 d2 Hc'|b b' ops' d1 d2 Hc']; subst;
      apply IH in Hc' as (d0 & Hd0 & Hd'); try done; exists d0; (split; [|done]).
    + by apply crash_lost.
    + by apply crash_kept.
    + by eapply crash_torn.
Qed.

Lemma crash_all ops : ∀ d, crash ops d (fold_left apply_op ops d).
Proof. induction ops as [|op ops IH]; intros d; simpl; [apply crash_nil|]. by apply crash_kept. Qed.

Lemma survives_rotate A d ops : survives A (d, ops) → survives A (d, ops ++ [RotateCurrent]).
Proof.
  intros Hs d' Hc. apply crash_snoc in Hc as (d0 & Hd0 & [->| ->]); [..|done]; [by apply Hs|]. by apply holds_rotate, Hs.
Qed.

Lemma survives_activate (A : State → Prop) d ops b p :
  validate_bytes b = inr p → A p → survives A (d, ops) → survives A (d, ops ++ [ActivateTmp b true]).
Proof.
  intros Hb Hp Hs d' Hc. apply crash_snoc in Hc as (d0 & Hd0 & [->| ->]); [..|done]; [by apply Hs|].
  by eapply holds_activate, Hs.
Qed.

Lemma survives_synced A fs : survives A (now fs) → survives A (fs_view fs, []).
Proof. intros Hs d' Hc. inversion Hc; subst. apply Hs, crash_all. Qed.
End directories.

(** ** One write *)

Section write.
Context `{StateCodecLaws encodable}.
Context (A : State → Prop) (old : list (Dir * list DirOp)).

(** A power loss now, or at any call since [old], leaves a generation of
    [A]. *)
Definition chronicled (tmp : option (string * bool)) (fs : FS) : Prop :=
  survives A (now fs) ∧ (∃ seg, fs_trace fs = seg ++ old ∧ Forall (survives A) seg) ∧ fs_tmp fs = tmp.

Definition chronicled_any (fs : FS) : Prop := ∃ tmp, chronicled tmp fs.

Lemma syscall_chronicled name eff tmp tmp' :
  (∀ d ops faults trace, survives A (d, ops) →
     let fs' := eff (mkFS d ops tmp faults trace) in
     survives A (now fs') ∧ fs_trace fs' = trace ∧ fs_tmp fs' = tmp') →
  spec (chronicled tmp) (syscall name eff) (λ _, chronicled tmp') chronicled_any.
Proof.
  intros Heff [d ops t faults trace] (Hnow & (seg & Htr & Hseg) & Ht). simpl in *. subst t.
  assert (Hok : ∀ faults', chronicled tmp' (fs_record (eff (mkFS d ops tmp faults' trace)))).
  { intros faults'. destruct (Heff d ops faults' trace Hnow) as (H1 & H2 & H3). split; [exact H1|]. split; [|exact H3].
    exists (now (eff (mkFS d ops tmp faults' trace)) :: seg). split; [simpl; by rewrite H2, Htr|by constructor]. }
  unfold syscall. simpl. destruct faults as [|[] faults]; [apply Hok| |apply Hok].
  exists tmp. split; [exact Hnow|]. split; [|done]. exists ((d, ops) :: seg). simpl. rewrite Htr. split; [done|by constructor].
Qed.

Lemma quiet_chronicled name tmp : spec (chronicled tmp) (sys_quiet name) (λ _, chronicled tmp) chronicled_any.
Proof. by apply syscall_chronicled. Qed.

Lemma readAndValidate_chronicled path tmp : spec (chronicled tmp) (readAndValidate path) (λ _, chronicled tmp) (λ _, False).
Proof.
  intros fs Hfs. unfold readAndValidate, read_file, mbind, GoM_bind, sys_quiet, syscall.
  destruct Hfs as (Hnow & (seg & Htr & Hseg) & Ht).
  assert (Hok : ∀ faults, chronicled tmp (fs_record (mkFS (fs_durable fs) (fs_pending fs) (fs_tmp fs) faults (fs_trace fs)))).
  { intros faults. split; [exact Hnow|]. split; [|exact Ht]. exists (now fs :: seg). simpl. rewrite Htr. split; [done|by constructor]. }
  destruct fs as [d ops t faults trace]. destruct faults as [|[] faults]; simpl; apply Hok.
Qed.

Lemma Load_chronicled tmp : spec (chronicled tmp) (attempt Load) (λ _, chronicled tmp) (λ _, False).
Proof.
  intros fs Hfs. pose proof (readAndValidate_chronicled d_current tmp fs Hfs) as H1.
  unfold attempt, Load, mbind, GoM_bind. destruct (readAndValidate d_current fs) as [fs1 [e|[e|st]]]; [done| |done].
  pose proof (readAndValidate_chronicled d_previous tmp fs1 H1) as H2.
  by destruct (readAndValidate d_previous fs1) as [fs2 [e'|[e'|st]]].
Qed.

Lemma lift_chronicled {B} (r : result B) tmp :
  spec (chronicled tmp) (lift_result r) (λ a fs, r = inr a ∧ chronicled tmp fs) chronicled_any.
Proof. intros fs Hfs. destruct r; simpl; [by exists tmp|done]. Qed.

Lemma sync_chronicled tmp : spec (chronicled tmp) syncDir (λ _, chronicled tmp) chronicled_any.
Proof. apply syscall_chronicled. intros d ops faults trace Hs. split_and!; [|done..]. apply (survives_synced A (mkFS d ops tmp faults trace) Hs). Qed.

Lemma install_chronicled b p :
  validate_bytes b = inr p → A p →
  spec (chronicled (Some (b, true))) (install p) (λ r fs, r = p ∧ chronicled None fs) chronicled_any.
Proof.
  intros Hb Hp. unfold install. eapply spec_bind; [eapply spec_conseq; [apply readAndValidate_chronicled|done|done|done]|].
  intros cur. eapply (spec_bind _ _ _ (λ _, chronicled (Some (b, true)))).
  { destruct cur as [e|st]; [by intros fs Hfs|]. eapply (spec_bind _ _ _ (λ _, chronicled (Some (b, true)))); [|intros []; apply wrap_err_spec, sync_chronicled].
    apply wrap_err_spec, syscall_chronicled. intros d ops faults trace Hs. split_and!; [|done..]. by apply survives_rotate. }
  intros []. eapply spec_bind.
  { apply wrap_err_spec, (syscall_chronicled _ _ (Some (b, true)) None). intros d ops faults trace Hs. split_and!; [|done..].
    by eapply survives_activate. }
  intros []. eapply spec_bind; [apply wrap_err_spec, sync_chronicled|]. intros []. apply spec_ret.
Qed.

(** The part of [Write] from the payload on. *)
Definition put (p : State) : GoM FS State :=
  _ ← wrap_err "create temp state: " sys_create_temp;
  _ ← wrap_err "chmod temp state: " (sys_quiet "chmod");
  contents ← wrap_err "write temp state: " (lift_result (json_Encode p));
  _ ← wrap_err "write temp state: " (sys_write_temp contents);
  _ ← wrap_err "fsync temp state: " sys_sync_temp;
  _ ← wrap_err "close temp state: " (sys_quiet "close");
  install p.

Lemma put_chronicled p tmp :
  (∀ b, json_Encode p = inr b → validate_bytes b = inr p) → A p →
  spec (chronicled tmp) (put p) (λ r fs, r = p ∧ chronicled None fs) chronicled_any.
Proof.
  intros Hb Hp. unfold put.
  assert (Hq : ∀ pre name tmp, spec (chronicled tmp) (wrap_err pre (sys_quiet name)) (λ _, chronicled tmp) chronicled_any).
  { intros. by apply wrap_err_spec, quiet_chronicled. }
  eapply spec_bind; [by apply wrap_err_spec, (syscall_chronicled _ _ tmp (Some (EmptyString, false)))|].
  intros []. eapply spec_bind; [apply Hq|]. intros [].
  eapply spec_bind; [apply wrap_err_spec, lift_chronicled|]. intros b. apply spec_pure. intros Henc.
  eapply spec_bind; [by apply wrap_err_spec, (syscall_chronicled _ _ _ (Some (b, false)))|]. intros [].
  eapply spec_bind; [by apply wrap_err_spec, (syscall_chronicled _ _ _ (Some (b, true)))|]. intros [].
  eapply spec_bind; [apply Hq|]. intros []. by apply (install_chronicled b p); [apply Hb|].
Qed.
End write.

Section whole.
Context `{StateCodecLaws encodable}.
Context (B : State → Prop) (old : list (Dir * list DirOp)).

Lemma chronicled_weaken (C : State → Prop) tmp fs : (∀ q, B q → C q) → chronicled B old tmp fs → chronicled C old tmp fs.
Proof.
  intros HBC (Hn & (seg & Htr & Hseg) & Ht). split; [by eapply survives_weaken|]. split; [|done]. exists seg. split; [done|].
  eapply Forall_impl; [exact Hseg|]. intros e. by apply survives_weaken.
Qed.

Lemma chronicled_any_weaken (C : State → Prop) fs : (∀ q, B q → C q) → chronicled_any B old fs → chronicled_any C old fs.
Proof. intros HBC [tmp Hfs]. exists tmp. by apply chronicled_weaken. Qed.
End whole.

(** A power loss at any call of a write leaves a generation of before, or the
    new one: the one the write returns, if it returns one. *)
Lemma Write_chronicled `{StateCodecLaws encodable} (B : State → Prop) old next tmp :
  encodable next →
  spec (chronicled B old tmp) (Write next) (λ p fs, persisted_as next p ∧ chronicled (λ q, B q ∨ q = p) old None fs)
    (chronicled_any (λ q, B q ∨ persisted_as next q) old).
Proof.
  intros Henc. set (E := chronicled_any _ old).
  assert (Hweak : ∀ tmp fs, chronicled B old tmp fs → E fs) by (intros tmp' fs Hfs; exists tmp'; eapply chronicled_weaken; [|exact Hfs]; auto).
  assert (Hq : ∀ pre name, spec (chronicled B old tmp) (wrap_err pre (sys_quiet name)) (λ _, chronicled B old tmp) E).
  { intros pre name. eapply spec_conseq; [apply wrap_err_spec, quiet_chronicled|done|done|]. by intros fs [tmp' Hfs%Hweak]. }
  change (Write next) with
    (_ ← wrap_err "create state dir: " (sys_quiet "mkdir");
     _ ← wrap_err "open state lock: " (sys_quiet "open lock");
     _ ← wrap_err "lock state: " (sys_quiet "flock");
     loaded ← attempt Load;
     let baseSeq := match loaded with inr (current, _) => st_Sequence current | inl _ => 0%Z end in
     let next := stamp baseSeq next in
     _ ← match validateSemantic next with Some e => throw e | None => mret () end;
     payload ← lift_result (withChecksum next);
     put payload).
  do 3 (eapply spec_bind; [apply Hq|intros []]).
  eapply spec_bind; [eapply spec_conseq; [apply Load_chronicled|done|done|done]|]. intros loaded. cbv zeta.
  set (seq := match loaded with inr (c, _) => st_Sequence c | inl _ => 0%Z end).
  destruct (validateSemantic (stamp seq next)) eqn:Hval; [by intros fs Hfs%Hweak|].
  eapply spec_bind; [apply (spec_ret ())|]. intros []. apply spec_pure. intros _.
  destruct (withChecksum (stamp seq next)) as [e|p] eqn:Hp; [by intros fs Hfs%Hweak|].
  assert (Hpa : persisted_as next p) by (apply withChecksum_inv in Hp as (ck & -> & _); by exists seq, ck).
  eapply spec_bind; [apply (spec_ret p)|]. intros ?. apply spec_pure. intros ->.
  eapply spec_conseq; [apply (put_chronicled (λ q, B q ∨ q = p) old p tmp); [|by right]| | |].
  - intros b Hb. by eapply validate_bytes_payload.
  - intros fs. apply chronicled_weaken. auto.
  - by intros r fs [-> Hfs].
  - intros fs. apply chronicled_any_weaken. intros q [Hq'| ->]; auto.
Qed.

(** ** The log and the calls of the store *)

(** What may be on disk while the write behind [ev] is under way. *)
Definition in_flight (l : Log) (ev : Event) (p : State) : Prop := on_disk l p ∨ on_disk (ev :: l) p.

Definition is_write (ev : Event) : bool :=
  match ev with EvPersisted _ | EvPolicyError (Some _) => true | _ => false end.

(** The calls of the store, newest first, beside a log that began as [l0]
    when it had made the calls [old]: each write of the log has its own, and
    a power loss at one of them leaves what was on disk before or what the
    write puts there. *)
Inductive chronicle `{StateCodec} (l0 : Log) (old : list (Dir * list DirOp)) : Log → list (Dir * list DirOp) → Prop :=
  | chron_start : chronicle l0 old l0 old
  | chron_event ev l tr seg :
      chronicle l0 old l tr → (is_write ev = false → seg = []) →
      Forall (survives (in_flight l ev)) seg →
      chronicle l0 old (ev :: l) (seg ++ tr).

(** The codec can encode what the log wrote. *)
Definition encodes (encodable : State → Prop) (ev : Event) : Prop :=
  match ev with
  | EvPersisted p | EvPolicyError (Some p) => encodable p
  | _ => True
  end.

Section world.
Context `{StateCodecLaws encodable}.
Context (l0 : Log) (old : list (Dir * list DirOp)).

Definition store_of (w : World FS) : FS := c_store (w_coord w).

Definition recorded (w : World FS) : Prop :=
  Forall (encodes encodable) (w_log w) →
  chronicle l0 old (w_log w) (fs_trace (store_of w)) ∧ survives (on_disk (w_log w)) (now (store_of w)).

Definition keeps {A} (m : GoM (World FS) A) : Prop := spec recorded m (λ _, recorded) recorded.

Lemma recorded_quiet ev w w' :
  is_write ev = false → w_log w' = ev :: w_log w → store_of w' = store_of w → recorded w → recorded w'.
Proof.
  intros Hev Hl Hs Hw. unfold recorded. rewrite Hl, Hs. intros [_ Henc]%Forall_cons. destruct (Hw Henc) as [Hc Hn]. split.
  - by apply (chron_event _ _ ev _ _ []).
  - eapply survives_weaken; [|exact Hn]. intros p Hp. apply disk_older; [|done]. by intros q ->.
Qed.

Lemma encodable_restamped next p : restamped next p → encodable p → encodable next.
Proof.
  intros (seq & v & ck & ->) Hp. apply (codec_stamp _ (st_Sequence next) (st_StateVersion next) (st_Checksum next)) in Hp.
  by destruct next.
Qed.

(** The calls of one write, beside the event it logs. *)
Lemma recorded_write next w w' fs' r ev :
  Write next (store_of w) = (fs', r) →
  ev = match r with inl _ => EvPolicyError (Some next) | inr p => EvPersisted p end →
  w_log w' = ev :: w_log w → store_of w' = fs' → recorded w → recorded w'.
Proof.
  intros Hwr Hev Hl Hs Hw. unfold recorded. rewrite Hl, Hs. intros [Hone Henc]%Forall_cons. destruct (Hw Henc) as [Hc Hn].
  assert (Hnext : encodable next).
  { subst ev. destruct r as [e|p]; [exact Hone|]. simpl in Hone. eapply encodable_restamped; [|exact Hone]. by apply (Write_restamps next (store_of w) fs'). }
  assert (Hpre : chronicled (on_disk (w_log w)) (fs_trace (store_of w)) (fs_tmp (store_of w)) (store_of w)) by (split; [done|]; split; [by exists []|done]).
  pose proof (Write_chronicled (on_disk (w_log w)) (fs_trace (store_of w)) next (fs_tmp (store_of w)) Hnext _ Hpre) as Hspec.
  pose proof (Write_v false (fs_view (store_of w)) next Hnext (fs_tmp (store_of w)) ltac:(done) (store_of w) ltac:(done)) as Hv.
  rewrite Hwr in Hspec, Hv. subst ev. destruct r as [e|p].
  - destruct Hspec as (tmp & Hn' & (seg & Htr & Hseg) & _).
    assert (Hin : ∀ q, on_disk (w_log w) q ∨ persisted_as next q → on_disk (EvPolicyError (Some next) :: w_log w) q).
    { intros q [Hq|Hq]; [by apply disk_older|by apply disk_maybe, persisted_as_restamped]. }
    split; [|eapply survives_weaken; [exact Hin|exact Hn']]. rewrite Htr. apply chron_event; [done|done|].
    eapply Forall_impl; [exact Hseg|]. intros e'. apply survives_weaken. intros q Hq. right. by apply Hin.
  - destruct Hspec as (_ & Hn' & (seg & Htr & Hseg) & _). split.
    + rewrite Htr. apply chron_event; [done|done|]. eapply Forall_impl; [exact Hseg|]. intros e'. apply survives_weaken.
      intros q [Hq| ->]; [by left|right; apply disk_written].
    + destruct Hv as (Hpend & _ & _ & _ & _ & b & v' & _ & _ & Hdur & Hb).
      intros d' Hc'. pose proof (Hn' d' Hc') as [H1 H2 _]. unfold now in Hc'. simpl in Hc'. rewrite Hpend, Hdur in Hc'.
      inversion Hc'; subst d'. split; [done|done|]. exists p. split; [by apply load_current|apply disk_written].
Qed.

(** A call of the coordinator makes one write, or none, and logs it. *)
Definition writes_once {A} (wrote : A → bool) (tried : Coordinator FS → option State) (m : GoM (Coordinator FS) A) : Prop :=
  ∀ c, match m c with
       | (c', inl _) => match tried c with
                        | Some next => ∃ e, Write next (c_store c) = (c_store c', inl e)
                        | None => c_store c' = c_store c
                        end
       | (c', inr a) => if wrote a then ∃ next, Write next (c_store c) = (c_store c', inr (c_State c'))
                        else c_store c' = c_store c
       end.

Lemma keeps_lift {A} (wrote : A → bool) tried m : writes_once wrote tried m → keeps (lift_coord wrote tried m).
Proof.
  intros Hm w Hw. unfold lift_coord. specialize (Hm (w_coord w)). destruct (m (w_coord w)) as [c [e|a]].
  - destruct (tried (w_coord w)) as [next|].
    + destruct Hm as [e' He]. by apply (recorded_write next w _ _ _ _ He eq_refl).
    + by apply (recorded_quiet (EvPolicyError None) w).
  - destruct (wrote a).
    + destruct Hm as [next Hn]. by apply (recorded_write next w _ _ _ _ Hn eq_refl).
    + unfold recorded, store_of in *. simpl. by rewrite Hm.
Qed.

Lemma persist_writes_once before e d c :
  match persist_decision before e d c with
  | (c', inl _) => dec_Changed d = true ∧ ∃ err, Write (e_st e) (c_store c) = (c_store c', inl err)
  | (c', inr d') => d' = d ∧ if dec_Changed d then ∃ next, Write next (c_store c) = (c_store c', inr (c_State c')) else c_store c' = c_store c
  end.
Proof.
  unfold persist_decision. destruct (dec_Changed d); simpl; [|done]. unfold write_through, sw_Write, FS_StateWriter.
  destruct (Write (e_st e) (c_store c)) as [fs' [err|p]] eqn:Hw; simpl; [by split; [|exists err]|]. split; [done|]. by exists (e_st e).
Qed.

(** A step of the engine, persisted by the coordinator. *)
Lemma step_writes_once (step : Engine → Engine * result Decision) (m : GoM (Coordinator FS) Decision) :
  (∀ c, m c = match step (c_engine c) with
              | (e, inl err) => (c_set_engine e c, inl err)
              | (e, inr d) => persist_decision (e_st (c_engine c)) e d c
              end) →
  writes_once dec_Changed (tried_by step) m.
Proof.
  intros Hm c. rewrite Hm. unfold tried_by. destruct (step (c_engine c)) as [e [err|d]]; [done|].
  pose proof (persist_writes_once (e_st (c_engine c)) e d c) as Hp. destruct (persist_decision _ e d c) as [c' [err|d']].
  - destruct Hp as [-> Hp]. exact Hp.
  - by destruct Hp as [-> Hp].
Qed.

Lemma keeps_Step t i : keeps (Policy_Step t i).
Proof. by apply keeps_lift, step_writes_once. Qed.
Lemma keeps_shutdown_complete : keeps Policy_MarkShutdownPhaseComplete.
Proof. apply keeps_lift, step_writes_once. intros c. unfold c_MarkShutdownPhaseComplete, ok. by destruct (MarkShutdownPhaseComplete _). Qed.
Lemma keeps_recovery_complete : keeps Policy_MarkRecoveryComplete.
Proof. apply keeps_lift, step_writes_once. intros c. unfold c_MarkRecoveryComplete, ok. by destruct (MarkRecoveryComplete _). Qed.
Lemma keeps_Write next : keeps (Policy_Write next).
Proof.
  apply keeps_lift. intros c. unfold c_Write, write_through, sw_Write, FS_StateWriter.
  destruct (Write next (c_store c)) as [fs' [e|p]] eqn:Hw; simpl; [by exists e|by exists next].
Qed.
End world.

(** ** Every operation of the controller *)

Section operations.
Context `{StateCodecLaws encodable}.
Context (l0 : Log) (old : list (Dir * list DirOp)).

Abbreviation kept m := (keeps (encodable := encodable) l0 old m).
Abbreviation recorded_now w := (recorded (encodable := encodable) l0 old w).

Lemma keeps_ret {A} (a : A) : kept (mret a).
Proof. by intros w Hw. Qed.
Lemma keeps_throw {A} e : kept (throw e : GoM (World FS) A).
Proof. by intros w Hw. Qed.
Lemma keeps_gets {A} (f : World FS → A) : kept (gets f).
Proof. by intros w Hw. Qed.
Lemma keeps_bind {A B} (m : GoM (World FS) A) (f : A → GoM (World FS) B) :
  kept m → (∀ a, kept (f a)) → kept (m ≫= f).
Proof. intros Hm Hf. by eapply spec_bind. Qed.
Lemma keeps_attempt {A} (m : GoM (World FS) A) : kept m → kept (attempt m).
Proof. intros Hm w Hw. specialize (Hm w Hw). unfold attempt. by destruct (m w) as [w' [e|a]]. Qed.
Lemma keeps_wrap_err {A} prefix (m : GoM (World FS) A) : kept m → kept (wrap_err prefix m).
Proof. apply wrap_err_spec. Qed.
Lemma keeps_when b (m : GoM (World FS) unit) : kept m → kept (when b m).
Proof. destruct b; [done|]. intros _. apply keeps_ret. Qed.
Lemma keeps_collect {A} (f : A → GoM (World FS) (list error)) l : (∀ a, kept (f a)) → kept (for_collect f l).
Proof.
  intros Hf. induction l as [|a l IH]; simpl; [apply keeps_ret|]. apply keeps_bind; [apply Hf|]. intros e.
  apply keeps_bind; [exact IH|]. intros es. apply keeps_ret.
Qed.

(** Neither the log nor the store is touched. *)
Lemma recorded_same w w' : w_log w' = w_log w → store_of w' = store_of w → recorded_now w → recorded_now w'.
Proof. unfold recorded. by intros -> ->. Qed.
Lemma keeps_modify f : (∀ w : World FS, w_log (f w) = w_log w ∧ store_of (f w) = store_of w) → kept (modify f).
Proof. intros Hf w Hw. destruct (Hf w). by eapply recorded_same. Qed.
Lemma keeps_log ev : is_write ev = false → kept (modify (log ev)).
Proof. intros Hev w Hw. by apply (recorded_quiet l0 old ev w). Qed.
Lemma keeps_ask {A} ev (answer : Log → result A) : is_write ev = false → kept (ask ev answer).
Proof. intros Hev w Hw. pose proof (recorded_quiet l0 old ev w (log ev w) Hev eq_refl eq_refl Hw). unfold ask. by destruct (answer (w_log w)). Qed.
Lemma keeps_ask_error ev answer : is_write ev = false → kept (ask_error ev answer).
Proof. apply keeps_ask. Qed.
End operations.

Create HintDb keeps discriminated.
#[export] Hint Resolve keeps_ret keeps_throw keeps_gets keeps_Write keeps_Step keeps_shutdown_complete keeps_recovery_complete : keeps.
#[export] Hint Extern 1 (keeps _ _ (modify _)) => (apply keeps_modify; intros; by split) : keeps.
#[export] Hint Extern 1 (keeps _ _ (modify (log _))) => (by apply keeps_log) : keeps.
#[export] Hint Extern 1 (keeps _ _ (ask _ _)) => (by apply keeps_ask) : keeps.
#[export] Hint Extern 1 (keeps _ _ (ask_error _ _)) => (by apply keeps_ask_error) : keeps.

Ltac keeps :=
  repeat first
    [ match goal with |- ∀ _, _ => intro end
    | progress cbv zeta
    | solve [auto 2 with keeps]
    | apply keeps_bind
    | apply keeps_attempt
    | apply keeps_wrap_err
    | apply keeps_when
    | apply keeps_collect
    | match goal with |- keeps _ _ (match ?x with _ => _ end) => destruct x end ].

Section controller.
Context `{StateCodecLaws encodable}.
Context (l0 : Log) (old : list (Dir * list DirOp)).
Context (env : Env) (cfg : ConfigModel.Config) (UPSMonConfPath : string).

Abbreviation kept m := (keeps (encodable := encodable) l0 old m).

Lemma keeps_State : kept Policy_State.
Proof. unfold Policy_State. keeps. Qed.
Lemma keeps_persistHost id hs : kept (persistHost id hs).
Proof. unfold persistHost, Policy_State. keeps. Qed.
#[local] Hint Resolve keeps_State keeps_persistHost : keeps.

Lemma keeps_snapshot b : kept (snapshotHosts env cfg b).
Proof.
  unfold snapshotHosts. keeps.
  match goal with |- context [snapshot_loop ?pr b ?st _] => generalize st end.
  induction (cf_Hosts cfg) as [|h hosts IH]; intros st; simpl; keeps. unfold snapshot_host. keeps.
Qed.
#[local] Hint Resolve keeps_snapshot : keeps.

Lemma keeps_fresh : kept (beginFreshOutage env cfg).
Proof. unfold beginFreshOutage. keeps. Qed.

Lemma keeps_current id : kept (current_host id).
Proof. unfold current_host. keeps. Qed.
#[local] Hint Resolve keeps_fresh keeps_current : keeps.

Lemma keeps_fail_safe id hs reason : kept (fail_safe id hs reason).
Proof. unfold fail_safe, enterShutdownFailedSafe. keeps. Qed.
Lemma keeps_retry id hs : kept (retry_pending id hs).
Proof. unfold retry_pending. keeps. Qed.
#[local] Hint Resolve keeps_fail_safe keeps_retry : keeps.

Lemma keeps_await pr h : kept (await_offline pr h).
Proof. unfold await_offline. keeps. Qed.
#[local] Hint Resolve keeps_await : keeps.
Lemma keeps_request pr shutdown tx h hs : kept (request_shutdown pr shutdown tx h hs).
Proof. unfold request_shutdown. keeps. Qed.
#[local] Hint Resolve keeps_request : keeps.
Lemma keeps_settle pr shutdown ids : kept (settle_hosts cfg pr shutdown ids).
Proof. induction ids as [|id ids IH]; simpl; keeps. Qed.
Lemma keeps_prepare pr ids : kept (prepareNUTGroup cfg pr ids).
Proof. induction ids as [|id ids IH]; simpl; keeps. Qed.
#[local] Hint Resolve keeps_settle keeps_prepare : keeps.

Lemma keeps_collect_persist what id hs : kept (collect_persist what id hs).
Proof. unfold collect_persist. keeps. Qed.
#[local] Hint Resolve keeps_collect_persist : keeps.
Lemma keeps_FSD pr now tx n group fsd : kept (request_FSD cfg UPSMonConfPath pr fsd now tx n group).
Proof. unfold request_FSD, markNUTError, markNUTAcknowledged, verifyNUTGroup, FinishShutdown, join_collected. keeps. Qed.
#[local] Hint Resolve keeps_FSD : keeps.
Lemma keeps_due now tx : kept (shouldAttemptNUTFSD now tx).
Proof. intros w Hw. unfold shouldAttemptNUTFSD. simpl. by case_bool_decide. Qed.
#[local] Hint Resolve keeps_due : keeps.
Lemma keeps_NUT pr now group : kept (shutdown_NUT_group env cfg UPSMonConfPath pr now group).
Proof. unfold shutdown_NUT_group, enterNUTGroupFailedSafe, markNUTRequested, join_collected. keeps. Qed.
#[local] Hint Resolve keeps_NUT : keeps.
Lemma keeps_shutdown now : kept (executeShutdown env cfg UPSMonConfPath now).
Proof. unfold executeShutdown, FinishShutdown. keeps. Qed.
#[local] Hint Resolve keeps_shutdown : keeps.

(** One step of the recovery executor, on the controller's interface. *)
Lemma keeps_RunNext r st hosts : kept (RunNext (H := World_RecoveryIO env) r st hosts).
Proof. unfold RunNext, wake_or_fail, wake_host, write_result. simpl. keeps. Qed.
#[local] Hint Resolve keeps_RunNext : keeps.
Lemma keeps_delayed now next states : kept (wake_delayed now next states).
Proof. intros w Hw. unfold wake_delayed. cbv zeta. by destruct (negb (w_resumeWakeDelayEvaluated w)); [destruct (recoveryHasPriorWake states), (0 <? _)%Z|]. Qed.
#[local] Hint Resolve keeps_delayed : keeps.
Lemma keeps_recovery now : kept (executeRecoveryStep env cfg now).
Proof. unfold executeRecoveryStep, block_recovery, run_next, FinishRecovery. keeps. Qed.
#[local] Hint Resolve keeps_recovery : keeps.

Lemma keeps_Tick now i : kept (Tick env cfg UPSMonConfPath now i).
Proof. unfold Tick, act_on. keeps. Qed.
End controller.

(** ** Restarts *)

(** What a power loss leaves, as the next process meets it. *)
Definition reboot (d : Dir) : FS := mkFS d [] None [] [].

(** A state directory that has come to rest on a generation. *)
Definition settled `{StateCodec} (fs : FS) (p : State) : Prop := fs_pending fs = [] ∧ holds (λ q, q = p) (fs_durable fs).

Section restart.
Context `{StateCodecLaws encodable, health.SnapshotCodec}.

Lemma settled_survives fs p : settled fs p → survives (λ q, q = p) (now fs).
Proof. intros [Hp Hh] d' Hc. unfold now in Hc. simpl in Hc. rewrite Hp in Hc. by inversion Hc; subst. Qed.

Lemma survives_settled A fs d' : survives A (now fs) → crash (fs_pending fs) (fs_durable fs) d' →
  ∃ q, settled (reboot d') q ∧ A q.
Proof. intros Hs Hc. destruct (Hs d' Hc) as [Hcur Hprev (q & Hq & HA)]. exists q. split; [|done]. split; [done|]. split; [done|done|by exists q]. Qed.

(** The controller of a process that resumes from what it has loaded. *)
Lemma start_recorded cfg lc rev newID fs p src fs' runtimeCfg w :
  settled fs p → (Load fs).2 = inr (p, src) → st_ActiveConfigRevision p = rev →
  runArmed_start lc cfg (inr rev) newID fs = Some (fs', inr (runtimeCfg, w)) →
  ∃ old, recorded (encodable := encodable) [EvPersisted p] old w ∧
    (w = start (policyFromConfig cfg) p [] (Load fs).1 ∨ resumes p = true ∧
     w = (Policy_Write (st_set_PowerState ShutdownInProgress p) (start (policyFromConfig cfg) p [] (Load fs).1)).1).
Proof.
  intros Hset Hload Hrev. unfold runArmed_start. destruct (RuntimeArmedExclusions lc cfg) as [[e|excluded]|]; simpl; [done| |done].
  assert (Hc : chronicled (λ q, q = p) (fs_trace fs) (fs_tmp fs) fs).
  { split; [by apply settled_survives|]. split; [by exists []|done]. }
  apply (Load_chronicled _ _ (fs_tmp fs)) in Hc. unfold load_persisted, mbind, GoM_bind. unfold attempt in *.
  destruct (Load fs) as [fs1 [e|[q src']]] eqn:Hl; simpl in Hload; [done|]. injection Hload as -> ->.
  rewrite bool_decide_eq_true_2 by done. unfold mret, GoM_ret.
  change (new_controller (policyFromConfig cfg) p fs1) with (start (policyFromConfig cfg) p [] fs1).
  assert (Hrec : recorded (encodable := encodable) [EvPersisted p] (fs_trace fs1) (start (policyFromConfig cfg) p [] fs1)).
  { intros _. split; [apply chron_start|]. destruct Hc as (Hn & _ & _). eapply survives_weaken; [|exact Hn].
    intros q ->. apply disk_written. }
  destruct (resume_shutdown p _) as [w' [e|[]]] eqn:Hres; [done|]. intros [= <- <- <-]. exists (fs_trace fs1).
  unfold resume_shutdown in Hres. destruct (resumes p) eqn:Hr; simpl in Hres; [|injection Hres as <-; by auto].
  pose proof (keeps_Write [EvPersisted p] (fs_trace fs1) (st_set_PowerState ShutdownInProgress p) _ Hrec) as Hw.
  unfold wrap_err, mbind, GoM_bind in Hres. destruct (Policy_Write _ _) as [w1 [e|u]]; [done|]. injection Hres as <-. by auto.
Qed.

Lemma run_recorded os opts cfg runtimeCfg w0 ss a l0 old :
  recorded (encodable := encodable) l0 old w0 → armed_run os opts cfg runtimeCfg w0 ss a → recorded (encodable := encodable) l0 old (ar_controller a).
Proof.
  intros Hw. induction 1 as [|s ss a _ IH _]; [exact Hw|]. rewrite tick_controller.
  match goal with |- context [Tick ?env ?rc ?path ?n ?i ?w1] => pose proof (keeps_Tick (encodable := encodable) l0 old env rc path n i w1 IH) as Ht end.
  by destruct (Tick _ _ _ _ _ _) as [w' [e|d]].
Qed.

(** Every call of the store, seen from the log. *)
Lemma chronicle_entries p old l tr :
  chronicle [EvPersisted p] old l tr →
  ∃ new, tr = new ++ old ∧ ∀ e, e ∈ new → ∀ d', crash e.2 e.1 d' →
    ∃ newer l' q, l = newer ++ l' ∧ settled (reboot d') q ∧ on_disk l' q.
Proof.
  induction 1 as [|ev l tr seg _ (new & -> & IH) _ Hseg]; [exists []; split; [done|]; by intros e ?%not_elem_of_nil|].
  exists (seg ++ new). rewrite app_assoc. split; [done|]. intros e [Hin|Hin]%elem_of_app d' Hc.
  - rewrite Forall_forall in Hseg. destruct (Hseg e Hin d' Hc) as [Hcur Hprev (q & Hq & [Hd|Hd])];
      [exists [ev], l, q|exists [], (ev :: l), q]; (split; [done|]; split; [|done]; split; [done|]; split; [done|done|by exists q]).
  - destruct (IH e Hin d' Hc) as (newer & l' & q & -> & ?). by exists (ev :: newer), l', q.
Qed.

End restart.
