(* ===== verification/Completion.v ===== *)
(** * Recovery comes to an end ([orchestrator/controller.go])

    The other theorems on the controller say what it must not do; this one
    says that it gets its work done.  While the state can be written and the
    power, the health and the network are good, a recovery ends within a time
    that the remaining attempts bound, whatever the hosts answer: every step
    of it confirms a host, counts an attempt or gives a host up.  The potential
    is [deadline], which no tick postpones.  What it asks of the recorded hosts
    ([recorded]) is what a fresh outage records ([beginFreshOutage_records]);
    what it asks of the writer ([ReliableWriter]) is what the store does on a
    disk where no call fails ([FS_reliable]). *)

From S2P Require Import Prelude StableSort PowerStateModel Store StoreFacts Nut.
From S2P Require Import HostPlan HostPlanFacts ConfigModel ConfigFacts.
From S2P Require Import Policy PolicyFacts Coordinator Recovery Orchestrator OrchestratorFacts.

(** What a map by identifier holds. *)
Lemma by_id_member {A} (key : A → string) hosts id h : by_id key hosts !! id = Some h → h ∈ hosts ∧ key h = id.
Proof.
  unfold by_id. assert (Hgen : ∀ m : gmap string A, fold_left (λ m h, <[key h := h]> m) hosts m !! id = Some h →
    (h ∈ hosts ∧ key h = id) ∨ m !! id = Some h).
  { induction hosts as [|x hosts IH]; intros m; simpl; [by right|]. intros [[Hin Hk]|Hm]%IH; [left; split; [by right|done]|].
    apply lookup_insert_Some in Hm as [[Hk <-]|[_ Hm]]; [left; split; [left|done]|by right]. }
  intros [|Hm]%Hgen; [done|]. by rewrite lookup_empty in Hm.
Qed.

(** ** What is left to do *)

Section budget.
Context (hosts : list HostPlan.Config).
Hypothesis Hnd : NoDup (hc_ID <$> hosts).
Implicit Types hm : hostmap.

(** Every host was recorded when the outage began, and what was recorded as
    needing no recovery still needs none. *)
Definition recorded hm : Prop :=
  ∀ h, h ∈ hosts → ∃ hs, hm !! hc_ID h = Some hs ∧
    (hs_RecoveryState hs = RecoveryNotRequired → EligibleForRestore h hs = false).

(** The steps one host may still need: its attempts, and one to settle it. *)
Definition host_budget (h : HostPlan.Config) (hs : HostState) : nat :=
  if EligibleForRestore h hs && negb (recovery_done (hs_RecoveryState hs))
  then S (Z.to_nat (max_wake_attempts h - hs_WakeAttempts hs)) else 0.

Definition budget_of hm (l : list HostPlan.Config) : nat := sum_list_with (λ h, host_budget h (at_host hm (hc_ID h))) l.
Definition recovery_budget hm : nat := budget_of hm hosts.

Lemma budget_insert hm hs l h :
  NoDup (hc_ID <$> l) → h ∈ l →
  budget_of (<[hc_ID h := hs]> hm) l + host_budget h (at_host hm (hc_ID h)) = budget_of hm l + host_budget h hs.
Proof.
  unfold budget_of. induction l as [|h' l IH]; intros Hl Hin; [by apply elem_of_nil in Hin|].
  rewrite fmap_cons in Hl. apply NoDup_cons in Hl as [Hnew Hl]. simpl. apply elem_of_cons in Hin as [->|Hin].
  - rewrite at_host_insert, decide_True by done.
    assert (Hrest : sum_list_with (λ h, host_budget h (at_host (<[hc_ID h' := hs]> hm) (hc_ID h))) l =
                    sum_list_with (λ h, host_budget h (at_host hm (hc_ID h))) l); [|lia].
    clear -Hnew. induction l as [|k l IH]; [done|]. rewrite fmap_cons, not_elem_of_cons in Hnew. destruct Hnew as [Hk Hnew].
    simpl. rewrite IH by done. by rewrite at_host_insert, decide_False.
  - specialize (IH Hl Hin). rewrite at_host_insert, decide_False; [lia|].
    intros Heq. apply Hnew. rewrite <-Heq. by apply list_elem_of_fmap_2.
Qed.

(** A host that has moved on. *)
Definition moved (h : HostPlan.Config) (hs hs' : HostState) : Prop :=
  hs_WasOnline hs' = hs_WasOnline hs ∧ hs_RecoveryState hs' ≠ RecoveryNotRequired ∧ host_budget h hs' < host_budget h hs.

Lemma recorded_at hm h : recorded hm → h ∈ hosts → hm !! hc_ID h = Some (at_host hm (hc_ID h)).
Proof. intros Hr Hh. destruct (Hr h Hh) as (hs & Hhs & _). unfold at_host. by rewrite Hhs. Qed.

Lemma moved_recorded hm h hs : recorded hm → moved h (at_host hm (hc_ID h)) hs → recorded (<[hc_ID h := hs]> hm).
Proof.
  intros Hr (_ & Hn & _) h' Hh'. rewrite lookup_insert. case_decide as Heq; [eexists; split; [done|]; congruence|by apply Hr].
Qed.

Lemma moved_budget hm h hs : h ∈ hosts → moved h (at_host hm (hc_ID h)) hs →
  recovery_budget (<[hc_ID h := hs]> hm) < recovery_budget hm.
Proof. intros Hh (_ & _ & Hlt). pose proof (budget_insert hm hs hosts h Hnd Hh). unfold recovery_budget. lia. Qed.

Lemma settled_no_budget hm : recorded hm → recoverySettled hosts hm = true ↔ recovery_budget hm = 0.
Proof.
  intros Hr. unfold recoverySettled, recovery_budget, budget_of. rewrite forallb_forall.
  assert (Hhost : ∀ h, h ∈ hosts →
    match hm !! hc_ID h with Some hs => negb (EligibleForRestore h hs) || recovery_done (hs_RecoveryState hs) | None => true end = true
    ↔ host_budget h (at_host hm (hc_ID h)) = 0).
  { intros h Hh. rewrite (recorded_at hm h Hr Hh). unfold host_budget.
    destruct (EligibleForRestore _ _), (recovery_done _); simpl; split; done || lia. }
  setoid_rewrite <-list_elem_of_In. split.
  - intros Hall. assert (Hz : ∀ h, h ∈ hosts → host_budget h (at_host hm (hc_ID h)) = 0) by (intros h Hh; by apply Hhost, Hall).
    clear -Hz. induction hosts as [|h l IH]; [done|]. simpl. rewrite Hz by left. apply IH. intros k Hk. apply Hz. by right.
  - intros Hz h Hh. apply Hhost; [done|]. apply list_elem_of_split in Hh as (l1 & l2 & Hl). rewrite Hl in Hz.
    rewrite sum_list_with_app in Hz. simpl in Hz. lia.
Qed.

(** *** Hosts whose dependencies failed *)

Abbreviation byid := (by_id hc_ID hosts).

Lemma block_host_cases hm c h : recorded hm → h ∈ hosts →
  (block_host byid (hm, c) h = (hm, c) ∧
   (EligibleForRestore h (at_host hm (hc_ID h)) = true → recovery_done (hs_RecoveryState (at_host hm (hc_ID h))) = false →
    ∀ dep, dep ∈ hc_DependsOn h → dependency_failed byid hm dep = false)) ∨
  ∃ hs, block_host byid (hm, c) h = (<[hc_ID h := hs]> hm, true) ∧ moved h (at_host hm (hc_ID h)) hs.
Proof.
  intros Hr Hh. unfold block_host. rewrite (recorded_at hm h Hr Hh). cbn [default from_option id].
  destruct (Hr h Hh) as (hs & Hhs & Hneed). assert (Hat : at_host hm (hc_ID h) = hs) by (unfold at_host; by rewrite Hhs).
  rewrite Hat.
  destruct (EligibleForRestore h hs) eqn:Hel; simpl; [|by left].
  destruct (_ || _) eqn:Hdone.
  { left. split; [done|]. intros _ Hnd'. exfalso. unfold recovery_done in Hnd'. apply orb_true_iff in Hdone as [Hd|Hd]; rewrite Hd in Hnd'; [done|].
    by rewrite orb_true_r in Hnd'. }
  destruct (find _ _) as [dep|] eqn:Hf.
  - right. eexists. split; [done|]. split; [done|]. split; [done|]. unfold host_budget. rewrite Hel.
    apply orb_false_iff in Hdone as [H1 H2]. unfold recovery_done. rewrite H1, H2.
    rewrite (bool_decide_eq_false_2 (hs_RecoveryState hs = RecoveryNotRequired)) by (by intros ?%Hneed).
    simpl. rewrite andb_false_r. simpl. lia.
  - left. split; [done|]. intros _ _ dep Hdep. apply (find_none _ _ Hf). by apply list_elem_of_In.
Qed.

Lemma block_fold l : (∀ h, h ∈ l → h ∈ hosts) → ∀ hm c, recorded hm →
  let '(hm', c') := fold_left (block_host byid) l (hm, c) in
  recorded hm' ∧ recovery_budget hm' ≤ recovery_budget hm ∧
  (c = true → c' = true) ∧ (c' = true → c = true ∨ recovery_budget hm' < recovery_budget hm) ∧
  (c' = false → hm' = hm ∧ ∀ h, h ∈ l → EligibleForRestore h (at_host hm (hc_ID h)) = true →
     recovery_done (hs_RecoveryState (at_host hm (hc_ID h))) = false →
     ∀ dep, dep ∈ hc_DependsOn h → dependency_failed byid hm dep = false).
Proof.
  induction l as [|h l IH]; intros Hl hm c Hr; cbn [fold_left].
  - split_and!; [done|done|done|by left|]. intros _. split; [done|]. by intros h []%elem_of_nil.
  - assert (Hh : h ∈ hosts) by (apply Hl; left). assert (Hl' : ∀ h, h ∈ l → h ∈ hosts) by (intros; apply Hl; by right).
    destruct (block_host_cases hm c h Hr Hh) as [[-> Hfree]|(hs & -> & Hm)].
    + specialize (IH Hl' hm c Hr). destruct (fold_left _ l _) as [hm' c']. destruct IH as (H1 & H2 & H0 & H3 & H4).
      split_and!; [done..|]. intros Hc. destruct (H4 Hc) as [-> H5]. split; [done|].
      intros k [->|Hk]%elem_of_cons; [exact Hfree|by apply H5].
    + pose proof (moved_budget hm h hs Hh Hm) as Hlt.
      specialize (IH Hl' _ true (moved_recorded hm h hs Hr Hm)). destruct (fold_left _ l _) as [hm' c'].
      destruct IH as (H1 & H2 & H0 & H3 & H4). rewrite H0 in * by done. split_and!; [done|lia|done|intros _; right; lia|done].
Qed.

Lemma block_progress hm : recorded hm →
  let '(hm', changed) := markBlockedRecovery hosts hm in
  recorded hm' ∧ recovery_budget hm' ≤ recovery_budget hm ∧ (changed = true → recovery_budget hm' < recovery_budget hm) ∧
  (changed = false → hm' = hm ∧ ∀ h, h ∈ hosts → EligibleForRestore h (at_host hm (hc_ID h)) = true →
     recovery_done (hs_RecoveryState (at_host hm (hc_ID h))) = false →
     ∀ dep, dep ∈ hc_DependsOn h → dependency_failed byid hm dep = false).
Proof.
  intros Hr. pose proof (block_fold hosts (λ h Hh, Hh) hm false Hr) as H. unfold markBlockedRecovery.
  destruct (fold_left _ hosts _) as [hm' c]. destruct H as (H1 & H2 & _ & H3 & H4). split_and!; [done|done| |done].
  intros Hc. by destruct (H3 Hc).
Qed.

(** *** There is always a next host *)

Lemma unready_dependency hm h : dependencies_ready byid hm h = false →
  ∃ dep dh ds, dep ∈ hc_DependsOn h ∧ dh ∈ hosts ∧ hc_ID dh = dep ∧ hm !! dep = Some ds ∧
    EligibleForRestore dh ds = true ∧ hs_RecoveryState ds ≠ RecoveryOnline.
Proof.
  intros Hd. unfold dependencies_ready in Hd.
  assert (He : existsb (λ d, negb (dependency_ready byid hm d)) (hc_DependsOn h) = true).
  { revert Hd. induction (hc_DependsOn h) as [|d l IH]; simpl; [done|]. by destruct (dependency_ready byid hm d). }
  apply existsb_exists in He as (dep & Hdep%list_elem_of_In & Hr). unfold dependency_ready in Hr.
  destruct (byid !! dep) as [dh|] eqn:Hdh; [|done]. destruct (hm !! dep) as [ds|] eqn:Hds; [|done].
  rewrite negb_involutive in Hr. apply andb_true_iff in Hr as [Hel Hoff].
  apply by_id_member in Hdh as [Hdh Hid]. exists dep, dh, ds. split_and!; try done.
  intros Hon. by rewrite Hon in Hoff.
Qed.

(** A settled dependency that is not online has failed. *)
Lemma settled_dependency hm dh ds : recorded hm → dh ∈ hosts → hm !! hc_ID dh = Some ds →
  EligibleForRestore dh ds = true → hs_RecoveryState ds ≠ RecoveryOnline →
  recovery_done (hs_RecoveryState (at_host hm (hc_ID dh))) = true → dependency_failed byid hm (hc_ID dh) ≠ false.
Proof.
  intros Hr Hdh Hds Hel Hoff Hdone. destruct (Hr dh Hdh) as (ds' & Hds' & Hneed). rewrite Hds in Hds'. injection Hds' as <-.
  unfold dependency_failed. rewrite (by_id_lookup hc_ID hosts dh Hnd Hdh), Hds. simpl. rewrite Hel. simpl.
  unfold at_host in Hdone. rewrite Hds in Hdone. simpl in Hdone. unfold recovery_done in Hdone.
  rewrite bool_decide_eq_false_2 in Hdone by done. rewrite (bool_decide_eq_false_2 (hs_RecoveryState ds = RecoveryNotRequired)) in Hdone
    by (intros Hn; rewrite (Hneed Hn) in Hel; discriminate).
  simpl in Hdone. by rewrite Hdone.
Qed.

(** When no dependency has failed, the first unsettled host of the plan can
    be acted on. *)
Lemma next_exists hm : recorded hm → recovery_budget hm ≠ 0 → (∃ plan, BuildRecoveryPlan hosts hm = inr plan) →
  (∀ h, h ∈ hosts → EligibleForRestore h (at_host hm (hc_ID h)) = true →
     recovery_done (hs_RecoveryState (at_host hm (hc_ID h))) = false →
     ∀ dep, dep ∈ hc_DependsOn h → dependency_failed byid hm dep = false) →
  ∃ next, NextRecoveryHost hosts hm = inr (Some next).
Proof.
  intros Hr Hb [plan Hplan] Hfree. unfold NextRecoveryHost. rewrite Hplan.
  destruct (first_ready byid hm plan) as [next|] eqn:Hf; [by eexists|]. exfalso.
  pose proof (λ id, plan_members hosts hm plan id Hnd Hplan) as Hmem.
  assert (Hsplit : ∀ n before id after, length before < n → plan = before ++ id :: after →
            recovery_done (hs_RecoveryState (at_host hm id)) = true).
  { induction n as [|n IH]; intros before id after Hlen Hp; [lia|].
    assert (Hin : id ∈ plan) by (rewrite Hp; apply elem_of_app; right; left).
    destruct (first_ready_None byid hm plan id Hf Hin) as [Hd|Hd]; [done|].
    apply Hmem in Hin as (h & Hh & <- & hs & Hhs & Hel). rewrite (by_id_lookup hc_ID hosts h Hnd Hh) in Hd.
    assert (Hat : at_host hm (hc_ID h) = hs) by (unfold at_host; by rewrite Hhs).
    destruct (recovery_done (hs_RecoveryState (at_host hm (hc_ID h)))) eqn:Hdone; [done|]. exfalso.
    apply unready_dependency in Hd as (dep & dh & ds & Hdep & Hdh & <- & Hds & Hdel & Hoff).
    assert (Hbefore : hc_ID dh ∈ before).
    { destruct (plan_position _ _ hosts hm plan before (hc_ID h) after h (reflexivity _) (reflexivity _) Hnd Hplan Hp Hh eq_refl) as [Hpos _].
      apply (Hpos _ dh); [done..|]. by exists ds. }
    apply list_elem_of_split in Hbefore as (b1 & b2 & ->).
    assert (Hdd : recovery_done (hs_RecoveryState (at_host hm (hc_ID dh))) = true).
    { apply (IH b1 _ (b2 ++ hc_ID h :: after)); [rewrite length_app in Hlen; simpl in Hlen; lia|]. by rewrite Hp, <-app_assoc. }
    assert (Hfail : dependency_failed byid hm (hc_ID dh) = false) by (apply (Hfree h); [done|by rewrite Hat|done|done]).
    by apply (settled_dependency hm dh ds Hr Hdh Hds Hdel Hoff Hdd). }
  apply Hb, settled_no_budget; [done|]. unfold recoverySettled. rewrite forallb_forall. intros h Hh%list_elem_of_In.
  rewrite (recorded_at hm h Hr Hh). destruct (EligibleForRestore h _) eqn:Hel; [|done]. simpl.
  assert (Hin : hc_ID h ∈ plan) by (apply Hmem; exists h; split_and!; [done..|]; eexists; split; [by apply recorded_at|done]).
  apply list_elem_of_split in Hin as (b & a & Hp). by apply (Hsplit (S (length b)) b (hc_ID h) a); [lia|].
Qed.
End budget.

(** ** A writer that does not fail *)

(** The same transaction with other hosts and another phase. *)
Definition transacted (st st' : State) : Prop :=
  ∃ hm pw c r o, st' = st |> st_set_Hosts (Some hm) |> st_set_PowerState pw |> st_set_ShutdownCommitted c
                          |> st_set_RecoveryStarted r |> st_set_OutageElapsedSeconds o.

Lemma transacted_same st st' hm :
  st_StateVersion st' = st_StateVersion st → st_TransactionID st' = st_TransactionID st →
  st_ParentTransactionID st' = st_ParentTransactionID st → st_Sequence st' = st_Sequence st →
  st_ActiveConfigRevision st' = st_ActiveConfigRevision st → st_LastUPS st' = st_LastUPS st →
  st_FailedSafeReason st' = st_FailedSafeReason st → st_Checksum st' = st_Checksum st → st_Hosts st' = Some hm →
  transacted st st'.
Proof.
  intros. exists hm, (st_PowerState st'), (st_ShutdownCommitted st'), (st_RecoveryStarted st'), (st_OutageElapsedSeconds st').
  destruct st, st'. simpl in *. by subst.
Qed.

(** [calm]: no call of the writer fails; [fit]: what identifies the
    transaction is in order. *)
Class ReliableWriter (W : Type) `{StateWriter W} (calm : W → Prop) (fit : State → Prop) : Prop := {
  write_succeeds next w : calm w → fit next → wf_state next → is_Some (st_Hosts next) →
    ∃ w' p, sw_Write next w = (w', inr p) ∧ calm w' ∧ restamped next p ∧ fit p;
  fit_transacted st st' : fit st → transacted st st' → fit st';
}.

(** The fields of the controller besides the policy and the log. *)
Definition clocks {W} (w : World W) : Time * string * bool * string * Time :=
  (w_lastRecoveryWakeAt w, w_lastRecoveryWakeHostID w, w_resumeWakeDelayEvaluated w, w_nutFSDTransactionID w, w_nutFSDNextAttempt w).

Section progress.
Context {W : Type} `{ReliableWriter W calm fit}.
Context (env : Env) (cfg : ConfigModel.Config) (UPSMonConfPath : string) (pc : Policy.Config).

Abbreviation clock_fields := (Time * string * bool * string * Time)%type (only parsing).
Abbreviation total P m Q := (spec P m Q (λ _, False)).

Record live (pw : PowerState) (hm : hostmap) (x : clock_fields) (w : World W) : Prop := {
  lv_calm : calm (c_store (w_coord w));
  lv_fit : fit (w_State w);
  lv_wf : wf_state (w_State w);
  lv_power : st_PowerState (w_State w) = pw;
  lv_hosts : st_Hosts (w_State w) = Some hm;
  lv_cfg : e_cfg (c_engine (w_coord w)) = pc;
  lv_clocks : clocks w = x;
}.

Lemma live_hosts_of pw hm x w : live pw hm x w → hosts_of (w_State w) = hm.
Proof. intros []. unfold hosts_of. by rewrite lv_hosts0. Qed.

(** A change to the state in memory or on disk. *)
Lemma live_write pw hm x w pw' hm' next : live pw hm x w → transacted (w_State w) next → wf_state next →
  st_PowerState next = pw' → st_Hosts next = Some hm' →
  ∃ c p, c_Write next (w_coord w) = (c, inr p) ∧ restamped next p ∧ c_State c = p ∧
    live pw' hm' x (log (EvPersisted p) (w_set_coord c w)).
Proof.
  intros [Hc Hf Hwf Hp Hh Hcfg Hx] Ht Hwf' Hp' Hh'.
  destruct (write_succeeds next (c_store (w_coord w)) Hc) as (s' & p & Hw & Hc' & Hr & Hfp);
    [by eapply fit_transacted|done|by rewrite Hh'|].
  eexists _, p. unfold c_Write, write_through. rewrite Hw. split; [done|]. split; [done|]. split; [done|].
  destruct (restamped_flags _ _ Hr) as (Hpp & _ & _ & Hhp & _). split; simpl; try done.
  - by eapply restamped_wf.
  - by rewrite <-Hp', <-Hpp.
  - by rewrite <-Hh', <-Hhp.
Qed.

Lemma Policy_Write_live pw hm x st pw' hm' next :
  (fit st → wf_state st → st_PowerState st = pw → st_Hosts st = Some hm →
   transacted st next ∧ wf_state next ∧ st_PowerState next = pw' ∧ st_Hosts next = Some hm') →
  total (λ w, live pw hm x w ∧ w_State w = st) (Policy_Write next)
    (λ p w, (live pw' hm' x w ∧ w_State w = p) ∧ restamped next p).
Proof.
  intros Hn w [Hl <-]. destruct (Hn (lv_fit _ _ _ _ Hl) (lv_wf _ _ _ _ Hl) (lv_power _ _ _ _ Hl) (lv_hosts _ _ _ _ Hl)) as (Ht & Hwf & Hp & Hh).
  destruct (live_write _ _ _ _ _ _ _ Hl Ht Hwf Hp Hh) as (c & p & Hc & Hr & Hst & Hl').
  unfold Policy_Write, lift_coord. rewrite Hc. rewrite Hst. done.
Qed.

Lemma transacted_hosts st hm' : transacted st (st_set_Hosts (Some hm') st).
Proof. exists hm', (st_PowerState st), (st_ShutdownCommitted st), (st_RecoveryStarted st), (st_OutageElapsedSeconds st). by destruct st. Qed.

Lemma transacted_put st id hs : transacted st (st_put_host id hs st).
Proof. apply transacted_hosts. Qed.

(** A write of one host. *)
Lemma put_live pw hm x st id hs :
  total (λ w, live pw hm x w ∧ w_State w = st) (Policy_Write (st_put_host id hs (cloneState st)))
    (λ p w, live pw (<[id := hs]> hm) x w ∧ w_State w = p).
Proof.
  eapply spec_conseq; [eapply (Policy_Write_live pw hm x st pw (<[id := hs]> hm))|done| |done].
  - intros Hf Hwf Hp Hh. split_and!; [by apply (transacted_hosts st)|done|done|]. unfold st_put_host, cloneState, hosts_of. simpl. by rewrite Hh.
  - by intros p w [? _].
Qed.

Lemma persistHost_live pw hm x id hs :
  total (live pw hm x) (persistHost id hs) (λ _, live pw (<[id := hs]> hm) x).
Proof.
  eapply (spec_bind _ _ _ (λ st w, live pw hm x w ∧ w_State w = st)); [by intros w Hw|]. intros st.
  eapply spec_bind; [apply put_live|]. by intros p w [? _].
Qed.

Lemma share_live pw hm x hm' w : live pw hm x w → live pw hm' x (share_hosts hm' w).
Proof.
  intros [Hc Hf Hwf Hp Hh Hcfg Hx]. split; try done. simpl. by eapply fit_transacted, transacted_hosts.
Qed.

Lemma ask_live {A} pw hm x ev (answer : Log → result A) :
  total (live pw hm x) (attempt (ask ev answer)) (λ _, live pw hm x).
Proof. intros w [Hc Hf Hwf Hp Hh Hcfg Hx]. unfold attempt, ask. by destruct (answer (w_log w)). Qed.
(** ** One step of the recovery *)

#[local] Instance rio : RecoveryIO (World W) := World_RecoveryIO env.

(** [h] may still be restored. *)
Definition open (h : HostPlan.Config) (hs : HostState) : Prop :=
  EligibleForRestore h hs = true ∧ recovery_done (hs_RecoveryState hs) = false.

Lemma open_moved h hs hs' : open h hs → hs_WasOnline hs' = hs_WasOnline hs →
  hs_RecoveryState hs' = RecoveryOnline ∨ hs_RecoveryState hs' = RecoveryFailed ∨
  hs_RecoveryState hs' = RecoveryWOLSent ∧ hs_WakeAttempts hs' = (hs_WakeAttempts hs + 1)%Z ∧ (hs_WakeAttempts hs < max_wake_attempts h)%Z →
  moved h hs hs'.
Proof.
  intros [Hel Hdone] Hwas Hcase. split; [done|]. split; [destruct Hcase as [->|[->|[-> _]]]; done|].
  unfold host_budget. rewrite (eligible_same h hs hs' Hwas), Hel, Hdone. simpl.
  destruct Hcase as [->|[->|(-> & -> & Hlt)]]; simpl; lia.
Qed.

(** Where a step on [h] leads from host map [hm]. *)
Definition after_step (h : HostPlan.Config) (hm : hostmap) (x : clock_fields) (res : State * string * option error) (w : World W) : Prop :=
  res.1.2 = hc_ID h ∧ ∃ hs, moved h (at_host hm (hc_ID h)) hs ∧ live RestoreHosts (<[hc_ID h := hs]> hm) x w.

Abbreviation restoring hm x st := (λ w, live RestoreHosts hm x w ∧ w_State w = st) (only parsing).

Lemma attempt_put_live hm x st id hs :
  total (restoring hm x st) (attempt (rio_Write (st_put_host id hs (cloneState st))))
    (λ r w, ∃ p, r = inr p ∧ restoring (<[id := hs]> hm) x p w).
Proof.
  intros w Hw. pose proof (put_live RestoreHosts hm x st id hs w Hw) as Hp. unfold attempt, rio_Write, rio, World_RecoveryIO.
  destruct (Policy_Write _ w) as [w' [e|p]]; [done|]. by exists p.
Qed.

Lemma write_result_live hm x st h hs : moved h (at_host hm (hc_ID h)) hs →
  total (restoring hm x st) (write_result (st_put_host (hc_ID h) hs (cloneState st)))
    (λ r w, r.2 = None ∧ live RestoreHosts (<[hc_ID h := hs]> hm) x w).
Proof.
  intros Hm. eapply spec_bind; [apply attempt_put_live|]. intros r w (p & -> & Hl & _). done.
Qed.

Lemma wake_host_live hm x st h probe : open h (at_host hm (hc_ID h)) → (hs_WakeAttempts (at_host hm (hc_ID h)) < max_wake_attempts h)%Z →
  total (restoring hm x st) (wake_host (cloneState st) h probe) (after_step h hm x).
Proof.
  intros Hopen Hlt. apply (spec_fact (hosts_of st = hm)); [intros w [Hl <-]; by eapply live_hosts_of|]. intros Hhm.
  unfold wake_host. set (hs := wake_requested (cloneState st) h probe). set (old := at_host hm (hc_ID h)) in *.
  assert (Hm : ∀ hs', hs_WasOnline hs' = hs_WasOnline old → hs_RecoveryState hs' = RecoveryWOLSent →
            hs_WakeAttempts hs' = (hs_WakeAttempts old + 1)%Z → moved h old hs').
  { intros hs' Hwas Hrec Hn. apply open_moved; [done|done|]. by right; right. }
  assert (Hold : host_at (cloneState st) (hc_ID h) = old) by (by rewrite host_at_hosts, hosts_of_clone, Hhm).
  assert (Hhs : hs_WasOnline hs = hs_WasOnline old ∧ hs_RecoveryState hs = RecoveryWOLSent ∧ hs_WakeAttempts hs = (hs_WakeAttempts old + 1)%Z).
  { unfold hs, wake_requested. rewrite Hold. done. }
  destruct Hhs as (Hwas & Hrec & Hn). clearbody hs.
  eapply spec_bind; [apply attempt_put_live|]. intros r w (p & -> & Hl & Hp).
  pose proof (ask_live _ _ _ (EvWake (hc_ID h)) (λ l, match env_Wake env l (hc_ID h) with Some e => inl e | None => inr () end) w Hl) as Ha.
  unfold mbind at 1, GoM_bind. unfold rio_Wake, rio, World_RecoveryIO, ask_error.
  assert (Hpa : w_State (attempt (ask (EvWake (hc_ID h)) (λ l, match env_Wake env l (hc_ID h) with Some e => inl e | None => inr () end)) w).1 = p) by done.
  destruct (attempt _ w) as [w1 [e|[err|[]]]]; [done| |split; [done|]; exists hs; auto]. simpl in Hpa.
  unfold mbind, GoM_bind, modify. set (hs2 := hs_set_LastError (err_msg err) (host_at p (hc_ID h))).
  assert (Hhs2 : hs2 = hs_set_LastError (err_msg err) hs).
  { unfold hs2. rewrite host_at_hosts, <-Hpa, (live_hosts_of _ _ _ _ Ha), at_host_insert. by rewrite decide_True. }
  clearbody hs2. subst hs2. set (hs2 := hs_set_LastError (err_msg err) hs).
  assert (Hins : <[hc_ID h := hs2]> (hosts_of p) = <[hc_ID h := hs2]> hm) by (rewrite <-Hpa, (live_hosts_of _ _ _ _ Ha); apply insert_insert_eq).
  assert (Hl2 : live RestoreHosts (<[hc_ID h := hs2]> hm) x (share_hosts (<[hc_ID h := hs2]> (hosts_of (w_State w1))) w1)).
  { rewrite Hpa, Hins. by eapply share_live. }
  change (rio_share (hc_ID h) hs2 w1) with (share_hosts (<[hc_ID h := hs2]> (hosts_of (w_State w1))) w1).
  set (w2 := share_hosts _ w1) in *.
  assert (Hw : total (restoring (<[hc_ID h := hs2]> hm) x (w_State w2)) (Policy_Write (st_put_host (hc_ID h) hs2 p))
                 (λ q w, (live RestoreHosts (<[hc_ID h := hs2]> hm) x w ∧ w_State w = q) ∧ restamped (st_put_host (hc_ID h) hs2 p) q)).
  { apply Policy_Write_live. intros _ Hwf _ _. rewrite <-Hpa in *.
    split_and!; [apply (transacted_hosts (w_State w2))|exact (lv_wf _ _ _ _ Ha)|exact (lv_power _ _ _ _ Ha)|].
    unfold st_put_host. by rewrite <-Hins. }
  specialize (Hw w2 (conj Hl2 eq_refl)). unfold attempt, rio_Write.
  destruct (Policy_Write _ w2) as [w3 [e|q]]; [done|]. split; [done|]. exists hs2. split; [by apply Hm|apply Hw].
Qed.

Lemma wake_or_fail_live hm x st h probe : open h (at_host hm (hc_ID h)) →
  total (restoring hm x st) (wake_or_fail (cloneState st) h probe) (after_step h hm x).
Proof.
  intros Hopen. unfold wake_or_fail.
  apply (spec_fact (host_at (cloneState st) (hc_ID h) = at_host hm (hc_ID h))).
  { intros w [Hl <-]. by rewrite host_at_hosts, hosts_of_clone, (live_hosts_of _ _ _ _ Hl). }
  intros Hold. rewrite Hold. destruct (Z.leb_spec (max_wake_attempts h) (hs_WakeAttempts (at_host hm (hc_ID h)))) as [Hmax|Hmax].
  - set (hs := hs_set_LastError _ _). assert (Hm : moved h (at_host hm (hc_ID h)) hs) by (apply open_moved; auto).
    eapply spec_bind; [by apply write_result_live|]. intros [q err] w [Herr Hl]. simpl in Herr. subst err.
    split; [done|]. by exists hs.
  - by apply wake_host_live.
Qed.

(** One [RunNext] moves the next host on. *)
Lemma RunNext_live hm x st h :
  NextRecoveryHost (wake_hosts cfg) hm = inr (Some h) → open h (at_host hm (hc_ID h)) →
  total (restoring hm x st) (RunNext (H := rio) (mkRecoveryExecutor true true true) (cloneState st) (wake_hosts cfg)) (after_step h hm x).
Proof.
  intros Hnext Hopen. apply (spec_fact (hosts_of (cloneState st) = hm)); [intros w [Hl <-]; by eapply live_hosts_of|]. intros Hhm.
  unfold RunNext. simpl negb. cbn iota. simpl orb. cbn iota. rewrite Hhm, Hnext.
  eapply (spec_bind _ _ _ (λ _, restoring hm x st)).
  { intros w [Hl Hst]. pose proof (ask_live _ _ _ (EvOnline (hc_ID h)) (λ l, env_Online env l (hc_ID h)) w Hl) as Ha.
    unfold rio_Online, rio, World_RecoveryIO, attempt, ask in *. by destruct (env_Online env (w_log w) (hc_ID h)). }
  intros [e|[|]]; [by apply wake_or_fail_live| |by apply wake_or_fail_live].
  assert (Hold : host_at (cloneState st) (hc_ID h) = at_host hm (hc_ID h)) by (by rewrite host_at_hosts, Hhm).
  rewrite Hold. set (hs := hs_set_LastVerification _ _).
  assert (Hm : moved h (at_host hm (hc_ID h)) hs) by (apply open_moved; auto).
  eapply spec_bind; [by apply write_result_live|]. intros [q err] w [Herr Hl]. split; [done|]. by exists hs.
Qed.
(** *** The pace of the wakes *)

Abbreviation hosts := (wake_hosts cfg).
Abbreviation last_wake x := (x.1.1.1.1) (only parsing).
Abbreviation evaluated x := (x.1.1.2) (only parsing).

Definition wake_delay (h : HostPlan.Config) : Duration := duration_of (hc_WakeDelayAfterPreviousSeconds h) Second.

(** What one tick at [now] does to what is left, with delays of at most [D]. *)
Definition advances (D : Duration) (now : Time) (hm : hostmap) (x : clock_fields) (hm' : hostmap) (x' : clock_fields) : Prop :=
  (last_wake x' = last_wake x ∨ last_wake x' = now) ∧ (evaluated x = true → evaluated x' = true) ∧
  (recovery_budget hosts hm' < recovery_budget hosts hm ∨
   recovery_budget hosts hm' = recovery_budget hosts hm ∧
   (evaluated x = false ∧ evaluated x' = true ∨ (now < last_wake x + D)%Z ∧ last_wake x' = last_wake x)).

Lemma set_wake_live pw hm x now id w : live pw hm x w →
  live pw hm (now, id, evaluated x, x.1.2, x.2) (w_set_wake now id w).
Proof. intros [Hc Hf Hwf Hp Hh Hcfg <-]. by split. Qed.

Lemma run_next_live now hm x st h n :
  NextRecoveryHost hosts hm = inr (Some h) → open h (at_host hm (hc_ID h)) → hc_ID h ≠ "" →
  total (restoring hm x st) (run_next env now (mkRecoveryExecutor true true true) hosts st n)
    (λ _ w, ∃ hs x', moved h (at_host hm (hc_ID h)) hs ∧ live RestoreHosts (<[hc_ID h := hs]> hm) x' w ∧
                     (x' = x ∨ x' = (now, hc_ID h, evaluated x, x.1.2, x.2))).
Proof.
  intros Hnext Hopen Hid. unfold run_next. eapply spec_bind; [by apply RunNext_live|]. intros [[q id] err] w (Heq & hs & Hm & Hl).
  simpl in Heq. subst id. unfold Policy_State, gets, mbind, GoM_bind. rewrite bool_decide_eq_false_2 by done. simpl.
  destruct (_ <? _)%Z; simpl; destruct err; simpl; exists hs.
  1,2: exists (now, hc_ID h, evaluated x, x.1.2, x.2); eauto using set_wake_live.
  all: exists x; eauto.
Qed.

Lemma wake_delayed_live D now hm x st h : (wake_delay h ≤ D)%Z →
  total (restoring hm x st) (wake_delayed now h hm)
    (λ d w, ∃ x', restoring hm x' st w ∧ (last_wake x' = last_wake x ∨ last_wake x' = now) ∧ (evaluated x = true → evaluated x' = true) ∧
       (d = true → evaluated x = false ∧ evaluated x' = true ∨ (now < last_wake x + D)%Z ∧ last_wake x' = last_wake x)).
Proof.
  intros HD w [Hl <-]. pose proof (lv_clocks _ _ _ _ Hl) as Hx. unfold clocks in Hx.
  assert (Hwait : ∀ w' : World W, w_lastRecoveryWakeAt w' = last_wake x →
    ((0 <? wake_delay h)%Z && negb (IsZero (w_lastRecoveryWakeAt w')) && negb (bool_decide (hc_ID h = w_lastRecoveryWakeHostID w'))
     && (time_sub now (w_lastRecoveryWakeAt w') <? wake_delay h)%Z) = true → (now < last_wake x + D)%Z).
  { intros w' Hw' [_ Hlt%Z.ltb_lt]%andb_true_iff. rewrite Hw' in Hlt. unfold time_sub in Hlt.
    unfold min_int64, max_int64 in *. pose proof (wrap64_range (hc_WakeDelayAfterPreviousSeconds h * Second)) as [_ Hr].
    unfold wake_delay, duration_of in *. unfold max_int64 in Hr. lia. }
  unfold wake_delayed. fold (wake_delay h). subst x. simpl in *.
  destruct (w_resumeWakeDelayEvaluated w) eqn:Hev; simpl.
  - exists (clocks w). unfold clocks. simpl. rewrite Hev. split; [split; [by destruct Hl; split|done]|]. split; [by left|]. split; [done|].
    intros Hd. right. split; [by apply (Hwait w)|done].
  - destruct (_ && _) eqn:Hres; simpl.
    + eexists. split; [split; [apply (set_wake_live _ _ (clocks (w_set_evaluated true w))); by destruct Hl; split|done]|]. simpl. auto.
    + exists (clocks (w_set_evaluated true w)). split; [split; [by destruct Hl; split|done]|]. simpl. auto.
Qed.
(** *** A step of the recovery *)

Hypothesis Hnd : NoDup (hc_ID <$> hosts).
Hypothesis Hids : ∀ h, h ∈ hosts → hc_ID h ≠ "".
Hypothesis Hplans : ∀ hm, ∃ plan, BuildRecoveryPlan hosts hm = inr plan.

Lemma block_recovery_live hm x : recorded hosts hm →
  total (live RestoreHosts hm x) (block_recovery hosts)
    (λ _ w, ∃ hm', live RestoreHosts hm' x w ∧ recorded hosts hm' ∧
       (recovery_budget hosts hm' < recovery_budget hosts hm ∨
        hm' = hm ∧ ∀ h, h ∈ hosts → open h (at_host hm (hc_ID h)) →
          ∀ dep, dep ∈ hc_DependsOn h → dependency_failed (by_id hc_ID hosts) hm dep = false)).
Proof.
  intros Hr w Hl. unfold block_recovery, Policy_State, gets, mbind, GoM_bind. rewrite (live_hosts_of _ _ _ _ Hl).
  pose proof (block_progress hosts Hnd hm Hr) as Hb. destruct (markBlockedRecovery hosts hm) as [states changed].
  destruct Hb as (Hr' & _ & Hlt & Hsame). unfold when. destruct changed.
  - unfold modify, mret, GoM_ret. pose proof (share_live _ _ _ states _ Hl) as Hl2. set (w2 := share_hosts states w) in *.
    assert (Hw : total (restoring states x (w_State w2)) (Policy_Write (st_set_Hosts (Some states) (w_State w)))
                   (λ q v, (live RestoreHosts states x v ∧ w_State v = q) ∧ restamped (st_set_Hosts (Some states) (w_State w)) q)).
    { apply (Policy_Write_live RestoreHosts). intros _ _ _ _.
      split_and!; [apply (transacted_hosts (w_State w2))|exact (lv_wf _ _ _ _ Hl)|exact (lv_power _ _ _ _ Hl)|done]. }
    specialize (Hw w2 (conj Hl2 eq_refl)). destruct (Policy_Write _ w2) as [w3 [e|q]]; [done|].
    exists states. split; [apply Hw|]. auto.
  - exists hm. split; [done|]. destruct (Hsame eq_refl) as [-> Hfree]. split; [done|]. right. split; [done|].
    intros h Hh [Hel Hdone]. by apply Hfree.
Qed.

(** A change of phase by the engine, written by the coordinator. *)
Lemma persist_live pw pw' hm x w e d : live pw hm x w →
  dec_Changed d = true → e_cfg e = pc → transacted (w_State w) (e_st e) → wf_state (e_st e) →
  st_PowerState (e_st e) = pw' → st_Hosts (e_st e) = Some hm →
  ∃ c, persist_decision (w_State w) e d (w_coord w) = (c, inr d) ∧
    live pw' hm x (log (EvPersisted (c_State c)) (w_set_coord c w)).
Proof.
  intros [Hc Hf Hwf Hp Hh Hcfg Hx] Hd He Ht Hwf' Hp' Hh'. unfold persist_decision. rewrite Hd. simpl. unfold write_through.
  destruct (write_succeeds (e_st e) (c_store (w_coord w)) Hc) as (s' & p & Hw & Hc' & Hr & Hfp);
    [by eapply fit_transacted|done|by rewrite Hh'|].
  rewrite Hw. eexists. split; [done|]. destruct (restamped_flags _ _ Hr) as (Hpp & _ & _ & Hhp & _). split; simpl; try done.
  - by eapply restamped_wf.
  - by rewrite <-Hp', <-Hpp.
  - by rewrite <-Hh', <-Hhp.
Qed.

Lemma FinishRecovery_live hm x : total (live RestoreHosts hm x) FinishRecovery (λ _ w, ∃ x', live Normal hm x' w).
Proof.
  intros w Hl. unfold FinishRecovery, modify, mbind, GoM_bind. set (w1 := resetRecoveryWakeDelay w).
  assert (Hl1 : live RestoreHosts hm (clocks w1) w1) by (destruct Hl; by split).
  unfold Policy_MarkRecoveryComplete, lift_coord, c_MarkRecoveryComplete.
  pose proof (lv_power _ _ _ _ Hl1) as Hp. unfold w_State, c_State in Hp.
  unfold MarkRecoveryComplete. rewrite bool_decide_true by done. simpl negb. cbn iota.
  set (e := _ |> e_set_onlineConfirmations 0%Z).
  destruct (persist_live RestoreHosts Normal hm (clocks w1) w1 e (mkDecision true ActionNone "recovery complete") Hl1) as (c & Hc & Hl2); try done.
  - exact (lv_cfg _ _ _ _ Hl1).
  - apply (transacted_same _ _ hm); try done. exact (lv_hosts _ _ _ _ Hl1).
  - exact (lv_hosts _ _ _ _ Hl1).
  - unfold w_State, c_State in Hc. rewrite Hc. simpl. by eexists.
Qed.
Lemma run_next_none now hm x st n : NextRecoveryHost hosts hm = inr None → recoverySettled hosts hm = false →
  total (restoring hm x st) (run_next env now (mkRecoveryExecutor true true true) hosts st n) (λ _, live RestoreHosts hm x).
Proof.
  intros Hnext Hs w [Hl Hst]. unfold run_next, RunNext. simpl negb. cbn iota. simpl orb. cbn iota.
  assert (Hhm : hosts_of (cloneState st) = hm) by (rewrite <-Hst; by eapply live_hosts_of).
  rewrite Hhm, Hnext. unfold mbind, GoM_bind, mret, GoM_ret, Policy_State, gets. simpl.
  by rewrite (live_hosts_of _ _ _ _ Hl), Hs.
Qed.

Lemma next_open hm h : NextRecoveryHost hosts hm = inr (Some h) → h ∈ hosts ∧ open h (at_host hm (hc_ID h)).
Proof.
  intros (Hin & (hs & Hhs & Hel) & Hdone & _)%NextRecoveryHost_ok; [|exact Hnd]. split; [done|].
  unfold open, at_host in *. by rewrite Hhs in *.
Qed.

Definition recovery_over (w : World W) : Prop :=
  ∃ hm x, live Normal hm x w ∧ recorded hosts hm ∧ recoverySettled hosts hm = true.

Hypothesis Hrec : env_Recovery env = Some (mkRecoveryExecutor true true true).

Lemma executeRecoveryStep_live D now hm x : (∀ h, h ∈ hosts → wake_delay h ≤ D)%Z → recorded hosts hm →
  total (live RestoreHosts hm x) (executeRecoveryStep env cfg now)
    (λ _ w, recovery_over w ∨ ∃ hm' x', live RestoreHosts hm' x' w ∧ recorded hosts hm' ∧ advances D now hm x hm' x').
Proof.
  intros HD Hr0. unfold executeRecoveryStep. rewrite Hrec. eapply spec_bind; [by apply block_recovery_live|].
  intros _ w (hm1 & Hl & Hr & Hblock). unfold mbind at 1, GoM_bind, Policy_State, gets. rewrite (live_hosts_of _ _ _ _ Hl).
  destruct (recoverySettled (toHostConfigs (cf_Hosts cfg)) hm1) eqn:Hs.
  { pose proof (FinishRecovery_live hm1 x w Hl) as Hf. destruct (FinishRecovery w) as [w' [e|[]]]; [done|].
    destruct Hf as [x' Hl']. left. by exists hm1, x'. }
  destruct (NextRecoveryHost (toHostConfigs (cf_Hosts cfg)) hm1) as [e|[h|]] eqn:Hnext.
  - exfalso. unfold NextRecoveryHost in Hnext. destruct (Hplans hm1) as [plan Hp]. unfold wake_hosts in Hp. by rewrite Hp in Hnext.
  - destruct (next_open hm1 h Hnext) as [Hh Hopen].
    pose proof (wake_delayed_live D now hm1 x (w_State w) h (HD h Hh) w (conj Hl eq_refl)) as Hd. unfold mbind, GoM_bind.
    destruct (wake_delayed now h hm1 w) as [w1 [e|[|]]]; [done| |]; destruct Hd as (x1 & [Hl1 Hst1] & Hlast & Hev & Hwait).
    + right. exists hm1, x1. split; [done|]. split; [done|]. split; [done|]. split; [done|].
      destruct Hblock as [Hlt|[-> _]]; [by left|]. right. split; [done|]. by apply Hwait.
    + pose proof (run_next_live now hm1 x1 (w_State w) h (hs_WakeAttempts (host_at (w_State w) (hc_ID h))) Hnext Hopen (Hids h Hh) w1 (conj Hl1 Hst1)) as Hn.
      destruct (run_next _ _ _ _ _ _ w1) as [w2 [e|[]]]; [done|]. destruct Hn as (hs & x2 & Hm & Hl2 & Hx2).
      right. exists (<[hc_ID h := hs]> hm1), x2. split; [done|]. split; [by apply moved_recorded|].
      pose proof (moved_budget hosts Hnd hm1 h hs Hh Hm).
      split; [destruct Hx2 as [->| ->]; auto|]. split; [destruct Hx2 as [->| ->]; auto|]. left. destruct Hblock as [?|[-> _]]; lia.
  - pose proof (run_next_none now hm1 x (w_State w) 0%Z Hnext Hs w (conj Hl eq_refl)) as Hn.
    destruct (run_next _ _ _ _ _ _ w) as [w2 [e|[]]]; [done|]. right. exists hm1, x. split; [done|]. split; [done|].
    split; [by left|]. split; [done|]. left. destruct Hblock as [?|[-> Hfree]]; [done|]. exfalso.
    destruct (next_exists hosts Hnd hm Hr) as [h Hh]; [|done|..].
    + intros Hz. apply (settled_no_budget hosts hm Hr) in Hz. unfold wake_hosts in Hz. by rewrite Hz in Hs.
    + intros h Hh Hel Hdone. by apply Hfree.
    + unfold wake_hosts in Hh. by rewrite Hh in Hnext.
Qed.

(** *** A tick of the recovery *)

(** Inputs that let a recovery go on. *)
Definition safe (i : Inputs) : bool := negb (unsafeUPS (in_UPS i)) && in_HealthSafe i && in_NetworkReady i.

Definition recovering (pw : PowerState) : Prop := pw = RecoveryStarted ∨ pw = RestoreHosts.

Hypothesis Henabled : recoveryEnabled pc = true.

(** What the engine makes of safe inputs: nothing in NORMAL, and a recovery
    that was committed goes on. *)
Lemma Step_safe now i e : safe i = true → e_cfg e = pc → wf_state (e_st e) → recovering (e_power e) ∨ e_power e = Normal →
  ∃ e' d, Step now i e = (e', inr d) ∧ e_cfg e' = pc ∧ (dec_Action d = ActionNone ∨ dec_Action d = ActionStartRestore) ∧
    (dec_Changed d = false ∧ e_st e' = e_st e ∧ dec_Action d = ActionNone ∧ e_power e ≠ RecoveryStarted ∨
     dec_Changed d = true ∧ e_st e' = st_set_PowerState RestoreHosts (e_st e) ∧ e_power e = RecoveryStarted ∧
     dec_Action d = ActionStartRestore).
Proof.
  unfold safe. rewrite !andb_true_iff, negb_true_iff. intros [[Hu Hh] Hn] Hcfg [Hrs Hps] Hpw.
  pose proof Hu as Hu'. unfold unsafeUPS in Hu'. apply orb_false_iff in Hu' as [[[Hb _]%orb_false_iff _]%orb_false_iff Hf].
  unfold Step. destruct Hpw as [[Hp|Hp]|Hp]; rewrite !bool_decide_eq_false_2 by (by rewrite Hp); rewrite Hf; simpl; rewrite Hp.
  - unfold step_case_RecoveryStarted. rewrite Hcfg, Henabled, Hu, Hh, Hn. simpl. eexists _, _. split; [done|]. simpl.
    split; [done|]. split; [by right|]. by right.
  - unfold step_case_RestoreHosts. rewrite Hcfg, Henabled, Hu, Hh, Hn. simpl. eexists _, _. split; [done|]. simpl.
    split; [done|]. split; [by left|]. by left.
  - unfold step_case_Normal. rewrite Hb. simpl. eexists _, _. split; [done|]. simpl. split; [done|]. split; [by left|]. by left.
Qed.

Lemma Policy_Step_safe pw now i hm x w : safe i = true → recovering pw ∨ pw = Normal → live pw hm x w →
  ∃ w' d, Policy_Step now i w = (w', inr d) ∧ (dec_Action d = ActionNone ∨ dec_Action d = ActionStartRestore) ∧
    (pw = Normal → dec_Action d = ActionNone) ∧
    live (if decide (pw = Normal) then Normal else RestoreHosts) hm x w'.
Proof.
  intros Hi Hpw Hl. unfold Policy_Step, lift_coord, c_Step.
  pose proof (lv_power _ _ _ _ Hl : e_power (c_engine (w_coord w)) = pw) as Hp.
  destruct (Step_safe now i (c_engine (w_coord w)) Hi) as (e' & d & Hst & Hcfg & Hact & Hcase);
    [exact (lv_cfg _ _ _ _ Hl)|exact (lv_wf _ _ _ _ Hl)|by rewrite Hp|]. rewrite Hst.
  destruct Hcase as [(Hd & Hsame & Ha & Hne)|(Hd & Hch & Hp' & Ha)].
  - unfold persist_decision. rewrite Hd. simpl. eexists _, d. rewrite Hd. split; [done|]. split; [done|]. split; [done|].
    assert (Hpw' : (if decide (pw = Normal) then Normal else RestoreHosts) = pw).
    { case_decide; [done|]. rewrite Hp in Hne. by destruct Hpw as [[]|]. }
    rewrite Hpw'. destruct Hl. split; try done; unfold w_State, c_State in *; simpl; by rewrite Hsame.
  - assert (pw = RecoveryStarted) as -> by congruence.
    destruct (persist_live RecoveryStarted RestoreHosts hm x w e' d Hl Hd Hcfg) as (c & Hc & Hl').
    + rewrite Hch. exists hm, RestoreHosts, (st_ShutdownCommitted (w_State w)), (st_RecoveryStarted (w_State w)), (st_OutageElapsedSeconds (w_State w)).
      pose proof (lv_hosts _ _ _ _ Hl) as Hh. unfold w_State, c_State in *. destruct (e_st _). simpl in *. by subst.
    + pose proof (lv_wf _ _ _ _ Hl) as [Hr Hps]. unfold w_State, c_State in Hr, Hps. rewrite Hp in Hps. rewrite Hch. split; [done|]. done.
    + by rewrite Hch.
    + rewrite Hch. exact (lv_hosts _ _ _ _ Hl).
    + unfold w_State, c_State in Hc. rewrite Hc, Hd. eexists _, d. split; [done|]. split; [done|]. split; [done|]. done.
Qed.

(** One tick with safe inputs. *)
Lemma Tick_recovers D now i pw hm x w : (∀ h, h ∈ hosts → wake_delay h ≤ D)%Z → safe i = true → recovering pw →
  live pw hm x w → recorded hosts hm →
  let '(w', r) := Tick env cfg UPSMonConfPath now i w in
  (∃ d, r = inr d) ∧
  (recovery_over w' ∨ ∃ hm' x', live RestoreHosts hm' x' w' ∧ recorded hosts hm' ∧ advances D now hm x hm' x').
Proof.
  intros HD Hi Hpw Hl Hr. unfold Tick. unfold Policy_State, gets, mbind, GoM_bind.
  destruct (Policy_Step_safe pw now i hm x w Hi (or_introl Hpw) Hl) as (w1 & d & Hs & Hact & _ & Hl1). rewrite Hs.
  rewrite decide_False in Hl1 by (by destruct Hpw as [->| ->]).
  rewrite (lv_power _ _ _ _ Hl), (lv_power _ _ _ _ Hl1).
  rewrite !(bool_decide_eq_false_2 (RestoreHosts = OnBattery)) by done. rewrite !andb_false_r. simpl.
  pose proof (executeRecoveryStep_live D now hm x HD Hr w1 Hl1) as Hstep.
  unfold act_on, Policy_State, gets, when, mbind, GoM_bind. destruct Hact as [->| ->]; simpl.
  - rewrite (lv_power _ _ _ _ Hl1). simpl. rewrite (lv_power _ _ _ _ Hl1). simpl.
    destruct (executeRecoveryStep env cfg now w1) as [w2 [e|[]]]; [done|]. simpl. split; [by eexists|exact Hstep].
  - destruct (executeRecoveryStep env cfg now w1) as [w2 [e|[]]]; [done|]. do 2 (rewrite andb_false_r; simpl). split; [by eexists|exact Hstep].
Qed.

Lemma Tick_stays now i w : safe i = true → recovery_over w →
  let '(w', r) := Tick env cfg UPSMonConfPath now i w in (∃ d, r = inr d) ∧ recovery_over w'.
Proof.
  intros Hi (hm & x & Hl & Hr & Hs). unfold Tick. unfold Policy_State, gets, mbind, GoM_bind.
  destruct (Policy_Step_safe Normal now i hm x w Hi (or_intror eq_refl) Hl) as (w1 & d & Hst & _ & Hact & Hl1). rewrite Hst.
  rewrite decide_True in Hl1 by done. specialize (Hact eq_refl).
  rewrite (lv_power _ _ _ _ Hl), (lv_power _ _ _ _ Hl1). simpl.
  unfold act_on, Policy_State, gets, when, mbind, GoM_bind. rewrite Hact, (lv_power _ _ _ _ Hl1). simpl.
  rewrite (lv_power _ _ _ _ Hl1). simpl. split; [eauto|]. by exists hm, x.
Qed.

(** *** The ticks of the main loop *)

Fixpoint run_ticks (ticks : list (Time * Inputs)) : GoM (World W) unit :=
  match ticks with
  | [] => mret ()
  | (now, i) :: ticks => _ ← Tick env cfg UPSMonConfPath now i; run_ticks ticks
  end.

(** Each tick comes at most [g] after the one before. *)
Fixpoint paced (g : Duration) (t : Time) (ticks : list (Time * Inputs)) : Prop :=
  match ticks with
  | [] => True
  | (now, _) :: ticks => (t ≤ now ≤ t + g)%Z ∧ paced g now ticks
  end.

Definition finish (t : Time) (ticks : list (Time * Inputs)) : Time := fold_left (λ _ tick, tick.1) ticks t.

(** When recovery is over at the latest, seen from a tick at [t]. *)
Definition deadline (D g : Duration) (t : Time) (hm : hostmap) (x : clock_fields) : Time :=
  (Z.max t (last_wake x + D) + Z.of_nat (recovery_budget hosts hm + (if evaluated x then 0 else 1)) * (D + g))%Z.

Lemma deadline_not_past D g t hm x : (0 ≤ D → 0 ≤ g → t ≤ deadline D g t hm x)%Z.
Proof. unfold deadline. lia. Qed.

(** A tick never postpones the deadline. *)
Lemma advances_deadline D g t now hm x hm' x' : (0 ≤ D)%Z → (0 ≤ g)%Z → (t ≤ now ≤ t + g)%Z →
  advances D now hm x hm' x' → (deadline D g now hm' x' ≤ deadline D g t hm x)%Z.
Proof.
  intros HD Hg Ht (Hlast & Hev & Hcase). unfold deadline.
  set (n := (recovery_budget hosts hm + (if evaluated x then 0 else 1))%nat).
  set (n' := (recovery_budget hosts hm' + (if evaluated x' then 0 else 1))%nat).
  assert (Hn : (n' < n)%nat ∨ (n' ≤ n)%nat ∧ (now < last_wake x + D)%Z ∧ last_wake x' = last_wake x).
  { subst n n'. destruct (evaluated x), (evaluated x'); try (specialize (Hev eq_refl); discriminate); intuition (try discriminate); lia. }
  clearbody n n'. destruct Hn as [Hlt|Hn].
  - assert (Z.of_nat n' * (D + g) ≤ (Z.of_nat n - 1) * (D + g))%Z by (apply Z.mul_le_mono_nonneg_r; lia).
    destruct Hlast as [->| ->]; lia.
  - assert (Z.of_nat n' * (D + g) ≤ Z.of_nat n * (D + g))%Z by (apply Z.mul_le_mono_nonneg_r; lia).
    destruct Hn as (_ & Hnow & ->). lia.
Qed.

Lemma ticks_stay ticks w : Forall (λ tick, safe tick.2 = true) ticks → recovery_over w →
  let '(w', r) := run_ticks ticks w in r = inr () ∧ recovery_over w'.
Proof.
  intros Hsafe. revert w. induction Hsafe as [|[now i] ticks Hi _ IH]; intros w Hover; [done|]. simpl.
  unfold mbind, GoM_bind. pose proof (Tick_stays now i w Hi Hover) as Hs.
  destruct (Tick env cfg UPSMonConfPath now i w) as [w2 r]. destruct Hs as [[d ->] Hover']. by apply IH.
Qed.

Lemma ticks_recover D g ticks : (∀ h, h ∈ hosts → wake_delay h ≤ D)%Z → (0 ≤ D)%Z → (0 ≤ g)%Z →
  Forall (λ tick, safe tick.2 = true) ticks → ∀ pw t hm x w,
  paced g t ticks → recovering pw → live pw hm x w → recorded hosts hm →
  let '(w', r) := run_ticks ticks w in
  r = inr () ∧ (recovery_over w' ∨ (finish t ticks ≤ deadline D g t hm x)%Z).
Proof.
  intros HD H0D H0g Hsafe. induction Hsafe as [|[now i] ticks Hi Hsafe IH]; intros pw t hm x w Hp Hpw Hl Hr; simpl.
  - split; [done|]. right. by apply deadline_not_past.
  - destruct Hp as [Ht Hp]. unfold mbind, GoM_bind.
    pose proof (Tick_recovers D now i pw hm x w HD Hi Hpw Hl Hr) as Htick.
    destruct (Tick env cfg UPSMonConfPath now i w) as [w1 r]. destruct Htick as [[d ->] Hcase].
    destruct Hcase as [Hover|(hm' & x' & Hl' & Hr' & Hadv)].
    + pose proof (ticks_stay ticks w1 Hsafe Hover) as Hs. destruct (run_ticks ticks w1) as [w2 r].
      destruct Hs as [-> Hs]. by split; [|left].
    + specialize (IH RestoreHosts now hm' x' w1 Hp (or_intror eq_refl) Hl' Hr').
      destruct (run_ticks ticks w1) as [w2 r]. destruct IH as [-> IH]. split; [done|].
      destruct IH as [Hover|Hle]; [by left|]. right. change (finish t _) with (finish now ticks).
      pose proof (advances_deadline D g t now hm x hm' x' H0D H0g Ht Hadv). lia.
Qed.
End progress.

(** ** What an outage records *)

Section snapshot.
Context {W : Type} `{StateWriterLaws W writable stored}.
Context (env : Env) (cfg : ConfigModel.Config).
Hypothesis Hnd : NoDup (h_ID <$> cf_Hosts cfg).

Abbreviation ever := (λ _ : World W, True) (only parsing).

(** What is recorded as needing no recovery needs none. *)
Definition sound (hm : hostmap) : Prop :=
  ∀ h hs, h ∈ cf_Hosts cfg → hm !! h_ID h = Some hs → hs_RecoveryState hs = RecoveryNotRequired →
    EligibleForRestore (toHostConfig h) hs = false.

Lemma sound_put hm h hs : h ∈ cf_Hosts cfg → sound hm →
  hs_RecoveryState hs = (if negb (wk_Enabled (h_Wake h)) || bool_decide (h_RestorePolicy h = "never") then RecoveryNotRequired else RecoveryWaiting) →
  sound (<[h_ID h := hs]> hm).
Proof.
  intros Hh Hs Hrec k hs' Hk. rewrite lookup_insert. destruct (decide (h_ID h = h_ID k)) as [Hid|]; [|exact (Hs k hs' Hk)]. intros [= <-] Hn.
  assert (k = h) as ->.
  { apply list_elem_of_lookup in Hk as [i Hi], Hh as [j Hj].
    assert (i = j) as ->; [|congruence].
    by eapply (NoDup_lookup _ _ _ (h_ID h) Hnd); rewrite list_lookup_fmap; [rewrite Hi; simpl; rewrite Hid|rewrite Hj]. }
  rewrite Hn in Hrec. unfold EligibleForRestore, toHostConfig. simpl.
  destruct (wk_Enabled (h_Wake h)); simpl in *; [|done]. case_bool_decide as Hp; [|done]. by rewrite Hp.
Qed.

Lemma snapshot_host_sound pr known st h : h ∈ cf_Hosts cfg → sound (hosts_of st) →
  spec ever (snapshot_host pr known st h)
    (λ st' _, sound (hosts_of st') ∧ is_Some (hosts_of st' !! h_ID h) ∧ ∀ id, is_Some (hosts_of st !! id) → is_Some (hosts_of st' !! id)) ever.
Proof.
  intros Hh Hs. unfold snapshot_host. destruct (_ && _) eqn:Hkept.
  { intros w _. apply andb_true_iff in Hkept as [Hin%bool_decide_eq_true _]. done. }
  assert (Hput : ∀ hs, hs_RecoveryState hs = (if negb (wk_Enabled (h_Wake h)) || bool_decide (h_RestorePolicy h = "never") then RecoveryNotRequired else RecoveryWaiting) →
            let st' := st_put_host (h_ID h) hs st in
            sound (hosts_of st') ∧ is_Some (hosts_of st' !! h_ID h) ∧ ∀ id, is_Some (hosts_of st !! id) → is_Some (hosts_of st' !! id)).
  { intros hs Hrec st'. change (hosts_of st') with (<[h_ID h := hs]> (hosts_of st)). split; [by apply sound_put|]. split; [rewrite lookup_insert_eq; eauto|].
    intros id Hid. rewrite lookup_insert. destruct (decide (h_ID h = id)); eauto. }
  destruct (unverifiable h); [intros w _; by apply Hput|].
  eapply (spec_bind _ _ _ (λ _, ever)); [intros w _; unfold attempt; by destruct (ask _ _ w) as [? [?|?]]|].
  intros [e|res] w _; apply Hput; [done|]. by destruct (pb_Known res), (pb_Online res), known.
Qed.

Lemma snapshot_loop_sound pr known hosts st : (∀ h, h ∈ hosts → h ∈ cf_Hosts cfg) → sound (hosts_of st) →
  spec ever (snapshot_loop pr known st hosts)
    (λ st' _, sound (hosts_of st') ∧ (∀ h, h ∈ hosts → is_Some (hosts_of st' !! h_ID h)) ∧
              ∀ id, is_Some (hosts_of st !! id) → is_Some (hosts_of st' !! id)) ever.
Proof.
  revert st. induction hosts as [|h hosts IH]; intros st Hin Hs; cbn [snapshot_loop].
  { intros w _. split; [done|]. split; [|done]. by intros h []%elem_of_nil. }
  eapply spec_bind; [apply snapshot_host_sound; [apply Hin; left|done]|]. intros st1.
  apply (spec_fact (sound (hosts_of st1) ∧ is_Some (hosts_of st1 !! h_ID h) ∧ ∀ id, is_Some (hosts_of st !! id) → is_Some (hosts_of st1 !! id)));
    [done|]. intros (Hs1 & Hh & Hkeep).
  eapply spec_conseq; [apply (IH st1); [intros k Hk; apply Hin; by right|done]|done| |done].
  intros st2 _ (Hs2 & Hall & Hkeep2). split; [done|]. split; [|auto]. intros k [->|Hk]%elem_of_cons; auto.
Qed.

(** A fresh outage records every host, and calls recovery needless only where
    the configuration does. *)
Lemma beginFreshOutage_records :
  spec ever (beginFreshOutage env cfg) (λ _ w, recorded (wake_hosts cfg) (hosts_of (w_State w))) ever.
Proof.
  assert (Hany : ∀ A (m : GoM (World W) A), spec ever m (λ _, ever) ever) by (intros A m w _; by destruct (m w) as [? [?|?]]).
  unfold beginFreshOutage. do 4 (eapply spec_bind; [apply Hany|intros ?]).
  set (next := _ |> st_set_FailedSafeReason "").
  assert (Hwr : ∀ st, spec ever (Policy_Write st) (λ p w, w_State w = p ∧ restamped st p) ever).
  { intros st w _. unfold Policy_Write, lift_coord, c_Write, write_through.
    destruct (sw_Write st (c_store (w_coord w))) as [s [e|p]] eqn:Hw; [done|]. split; [done|]. by apply (write_restamps _ _ _ _ Hw). }
  eapply spec_bind; [apply wrap_err_spec, Hwr|]. intros p. apply (spec_fact (restamped next p)); [by intros w []|]. intros Hr.
  unfold snapshotHosts. destruct (env_Probe env) as [pr|]; [|by apply spec_throw].
  eapply (spec_bind _ _ _ (λ st _, hosts_of st = ∅)).
  { intros w [<- _]. simpl. destruct (restamped_flags _ _ Hr) as (_ & _ & _ & Hh & _). unfold hosts_of. by rewrite Hh. }
  intros st. apply (spec_fact (hosts_of st = ∅)); [done|]. intros Hempty.
  eapply spec_bind; [eapply spec_conseq; [apply (snapshot_loop_sound pr true (cf_Hosts cfg) (cloneState st)); [done|]| | |]; try done|].
  { intros h hs _. rewrite hosts_of_clone, Hempty, lookup_empty. done. }
  intros st'. apply (spec_fact (sound (hosts_of st') ∧ ∀ h, h ∈ cf_Hosts cfg → is_Some (hosts_of st' !! h_ID h))); [by intros w (? & ? & _)|].
  intros [Hs Hall]. eapply spec_bind; [apply wrap_err_spec; eapply spec_conseq; [apply Hwr|done..]|].
  intros q w [Hq Hr'] h Hh. destruct (restamped_flags _ _ Hr') as (_ & _ & _ & Hhq & _).
  assert (Hsame : hosts_of (w_State w) = hosts_of st') by (unfold hosts_of; by rewrite Hq, Hhq). rewrite Hsame.
  unfold wake_hosts, toHostConfigs in Hh. apply list_elem_of_fmap in Hh as (k & -> & Hk). simpl.
  destruct (Hall k Hk) as [hs Hhs]. exists hs. split; [done|]. by apply Hs.
Qed.
End snapshot.

(** ** The writers that do not fail *)

(** What [Write] asks of the state besides its flags and hosts. *)
Definition writable_header (st : State) : Prop :=
  (st_StateVersion st = 0%Z ∨ st_StateVersion st = Version) ∧ st_TransactionID st ≠ "" ∧ st_ActiveConfigRevision st ≠ "".

Lemma writable_transacted st st' : writable_header st → transacted st st' → writable_header st'.
Proof. by intros Hf (hm & pw & c & r & o & ->). Qed.

Lemma writable_valid next : writable_header next → wf_state next → is_Some (st_Hosts next) → valid_state (stamp 0 next).
Proof.
  intros (Hv & Ht & Hr) [Hrs Hps] Hh. unfold stamp. simpl. destruct Hv as [Hv|Hv]; rewrite Hv; simpl; split; simpl; try done.
  all: intros Hp; rewrite Hp in Hps; by destruct Hps.
Qed.

Lemma transacted_trans st st1 st2 : transacted st st1 → transacted st1 st2 → transacted st st2.
Proof. intros (hm & pw & c & r & o & ->) (hm' & pw' & c' & r' & o' & ->). by exists hm', pw', c', r', o'. Qed.

(** The state store, on a disk where no call fails, for a codec that encodes
    every state of the transaction. *)
#[export] Instance FS_reliable `{StateCodecLaws encodable} :
  ReliableWriter FS (λ fs, fs_faults fs = []) (λ st, writable_header st ∧ ∀ st', transacted st st' → encodable st').
Proof.
  split; [|intros st st' [Hh He] Ht; split; [by eapply writable_transacted|]; intros st2 Ht2; apply He; by eapply transacted_trans].
  intros next fs Hf [Hh He] Hwf Hhosts.
  assert (Hnext : encodable next).
  { destruct Hhosts as [hm Hhm]. apply He. exists hm, (st_PowerState next), (st_ShutdownCommitted next), (st_RecoveryStarted next), (st_OutageElapsedSeconds next).
    destruct next. simpl in *. by subst. }
  assert (Hval : valid_state (stamp 0 next)) by by apply writable_valid.
  apply validateSemantic_spec in Hval.
  pose proof (Write_v true (fs_view fs) next Hnext (fs_tmp fs) (λ _, Hval) fs ltac:(done)) as Hw.
  unfold sw_Write, FS_StateWriter. destruct (Write next fs) as [fs' [e|p]]; [by destruct Hw|].
  destruct Hw as (_ & Hf' & (seq & ck & ->) & _). eexists fs', _. split; [done|]. split; [by apply Hf'|].
  split; [apply persisted_as_restamped; by exists seq, ck|]. split.
  - destruct Hh as ([Hv|Hv] & Ht & Hr); unfold stamp; simpl; rewrite Hv; (split; [|done]); by right.
  - intros st' (hm & pw & c & r & o & ->).
    set (next' := next |> st_set_Hosts (Some hm) |> st_set_PowerState pw |> st_set_ShutdownCommitted c
                       |> st_set_RecoveryStarted r |> st_set_OutageElapsedSeconds o).
    assert (Hn : encodable next') by (apply He; by exists hm, pw, c, r, o).
    apply (codec_stamp _ (wrapu64 (seq + 1)) (if (st_StateVersion next =? 0)%Z then Version else st_StateVersion next) ck) in Hn.
    unfold stamp, next' in *. simpl in *. by destruct (st_StateVersion next =? 0)%Z.
Qed.

(** ** Recovery ends *)

Section recovery.
Context {W : Type} `{ReliableWriter W calm fit}.
Context (env : Env) (cfg : ConfigModel.Config) (UPSMonConfPath : string) (pc : Policy.Config).

Lemma valid_hosts_named : config_ok cfg → NoDup (hc_ID <$> wake_hosts cfg) ∧ ∀ h, h ∈ wake_hosts cfg → hc_ID h ≠ "".
Proof.
  intros Hok. split; [unfold wake_hosts; rewrite toHostConfigs_ids; by apply ids_hosts_NoDup, ok_ids|].
  intros h Hh. unfold wake_hosts, toHostConfigs in Hh. apply list_elem_of_fmap in Hh as (k & -> & Hk). simpl.
  pose proof (ok_hosts _ Hok) as Hall. rewrite Forall_forall in Hall. intros Hid. apply (hk_id _ (Hall k Hk)). by rewrite Hid.
Qed.

Lemma valid_plans hm : config_ok cfg → ∃ plan, BuildRecoveryPlan (wake_hosts cfg) hm = inr plan.
Proof.
  intros Hok. destruct (ok_acyclic _ Hok) as [rank Hr]. apply (ranked_plan_exists _ _ _ _ rank); [unfold range_of; reflexivity..|].
  apply acyclic_hosts_ranked; [|done]. by apply ids_hosts_NoDup, ok_ids.
Qed.

(** C4: Recovery ends.  From a committed recovery of a valid configuration,
    with the state writable and every tick finding good power, safe health
    and the network ready, no tick fails, and once the ticks have gone past
    the deadline (the delays and attempts that were left, with the pace of the
    ticks) the controller is in NORMAL and every recorded host it may restore
    is online or failed, whatever the probes and the wakes answered. *)
Theorem recovery_ends pw hm x w D g t ticks :
  config_ok cfg → env_Recovery env = Some (mkRecoveryExecutor true true true) → recoveryEnabled pc = true →
  recovering pw → live (calm := calm) (fit := fit) pc pw hm x w → recorded (wake_hosts cfg) hm →
  (∀ h, h ∈ wake_hosts cfg → wake_delay h ≤ D)%Z → (0 ≤ D)%Z → (0 ≤ g)%Z →
  paced g t ticks → Forall (λ tick, safe tick.2 = true) ticks →
  (deadline cfg D g t hm x < finish t ticks)%Z →
  ∃ w', run_ticks env cfg UPSMonConfPath ticks w = (w', inr ()) ∧ st_PowerState (w_State w') = Normal ∧
    ∀ h, h ∈ wake_hosts cfg → ∃ hs, hosts_of (w_State w') !! hc_ID h = Some hs ∧
      (EligibleForRestore h hs = true → hs_RecoveryState hs = RecoveryOnline ∨ hs_RecoveryState hs = RecoveryFailed).
Proof.
  intros Hok Hrec Hen Hpw Hl Hr HD H0D H0g Hp Hsafe Hlate. destruct (valid_hosts_named Hok) as [Hnd Hids].
  pose proof (ticks_recover env cfg UPSMonConfPath pc Hnd Hids (λ hm, valid_plans hm Hok) Hrec Hen D g ticks HD H0D H0g Hsafe
                pw t hm x w Hp Hpw Hl Hr) as Hrun.
  destruct (run_ticks env cfg UPSMonConfPath ticks w) as [w' r]. destruct Hrun as [-> [Hover|Hle]]; [|lia].
  destruct Hover as (hm' & x' & Hl' & Hr' & Hs'). exists w'. split; [done|]. split; [by eapply lv_power|].
  intros h Hh. rewrite (live_hosts_of pc _ _ _ _ Hl'). destruct (Hr' h Hh) as (hs & Hhs & Hneed). exists hs. split; [done|].
  intros Hel. unfold recoverySettled in Hs'. rewrite forallb_forall in Hs'. specialize (Hs' h). rewrite <-list_elem_of_In in Hs'.
  specialize (Hs' Hh). rewrite Hhs, Hel in Hs'. simpl in Hs'. unfold recovery_done in Hs'.
  rewrite !orb_true_iff, !bool_decide_eq_true in Hs'. destruct Hs' as [[->|Hn]| ->]; [by left| |by right].
  by rewrite (Hneed Hn) in Hel.
Qed.
End recovery.
