(* ===== verification/OrchestratorExample.v ===== *)
(** * A controller in action

    A fleet of three hosts goes through a power failure and its recovery:
    the direct host is shut down, the NUT group is forced down, and the hosts
    are woken in dependency order.  The run is computed, and the guarantees
    are applied to its log. *)

From S2P Require Import Prelude PowerStateModel Nut HostPlan.
From S2P Require Import HostPlanFacts ConfigModel Policy PolicyFacts.
From S2P Require Import Coordinator Recovery Orchestrator OrchestratorFacts.
From S2P Require Import OrchestratorRuns.

(** ** A writer that keeps one generation in memory *)

Definition Memory : Type := option State.

#[export] Instance Memory_writer : StateWriter Memory := λ next m,
  let p := if (st_StateVersion next =? 0)%Z then st_set_StateVersion Version next else next in
  match validateSemantic p with
  | Some e => (m, inl e)
  | None => (Some p, inr p)
  end.

#[export] Instance Memory_laws : StateWriterLaws Memory (λ _, True) id.
Proof.
  assert (Hre : ∀ next w w' p, sw_Write next w = (w', inr p) →
    restamped next p ∧ w' = Some p ∧ validateSemantic p = None).
  { intros next w w' p. unfold sw_Write, Memory_writer.
    destruct (st_StateVersion next =? 0)%Z; destruct (validateSemantic _) eqn:Hv; intros ?; simplify_eq/=.
    - split; [|done]. exists (st_Sequence next), Version, (st_Checksum next). by destruct next.
    - split; [|done]. exists (st_Sequence p), (st_StateVersion p), (st_Checksum p). by destruct p. }
  split.
  - intros next w w' p Hw. by apply (Hre next w w' p).
  - intros next w w' p _ Hw. destruct (Hre _ _ _ _ Hw) as (_ & -> & Hv). split; [done|]. by apply validateSemantic_spec.
  - intros next w w' e _. unfold sw_Write, Memory_writer. destruct (validateSemantic _); intros ?; simplify_eq. by left.
Qed.

(** ** The fleet *)

Definition tcp : StatusConfig := mkStatusConfig "tcp" (Some 22%Z) 1000 3 5.
Definition wake_on (mac : string) (priority : Z) : WakeConfig :=
  mkWakeConfig true (Some mac) None (Some "192.168.1.255") 9 priority 0 2.

Definition nas : HostConfig :=
  mkHostConfig "nas" "NAS" (Some "nas.lan") [] tcp (mkShutdownConfig "nut" 20 120 None None None)
    (wake_on "00:11:22:33:44:55" 10) "previous-state".
Definition pve : HostConfig :=
  mkHostConfig "pve" "Hypervisor" (Some "pve.lan") ["nas"] tcp
    (mkShutdownConfig "ssh" 10 120 (Some "root") (Some "/etc/key") None)
    (wake_on "00:11:22:33:44:66" 5) "always".

Definition fleet : ConfigModel.Config :=
  ConfigModel.mkConfig 1 "armed"
    (mkNUTConfig "local-server" "ups" "localhost" 3493 None None "POWER_CYCLE_VERIFIED"
       (mkNUTNetworkConfig "trusted-lan" true true []) (mkSynologyCompatibility false "" "") 60 15)
    (mkOutageConfig 60 (Some 600%Z) None None 120) (mkControllerConfig true true)
    (mkRecoveryConfig true 60 None None (Some 1%Z) 0) (mkHealthConfig true 60 60 true 5) [] [pve; nas].

Definition pcfg : Policy.Config :=
  Policy.mkConfig (60 * Second) (600 * Second) None 0 (120 * Second) (Some true) (60 * Second) None 0 (1 * Second) 0.

(** Every host answers: probes see it online, shutdowns are confirmed.  A
    host comes online once two packets were sent to it. *)
Definition env : Env := {|
  env_Probe := Some {| pr_Check := λ _ _, inr (mkProbeResult true true); pr_Wait := λ _ _ _, None |};
  env_Shutdown := Some (λ _ _, inr DispDirectRequested);
  env_FSD := Some (λ _ _ _, None);
  env_Recovery := Some (mkRecoveryExecutor true true true);
  env_Online := λ l id, inr (2 <=? count_wakes id l)%Z;
  env_Wake := λ _ _, None;
  env_NewTransactionID := Some (λ _, "tx-2");
|}.

Definition at_s (n : Z) : Time := (1000 * Second + n * Second)%Z.
Definition status (u : UtilityState) (low : bool) : Status := mkStatus u low false None None "" ∅.
Definition sample (u : UtilityState) (low : bool) : Inputs := mkInputs (status u low) true true.

Definition s0 : State := PowerStateModel.New "tx-1" "rev-1" |> st_set_PowerState Normal.

Definition tick (n : Z) (u : UtilityState) (low : bool) (w : World Memory) : World Memory :=
  (Tick env fleet "" (at_s n) (sample u low) w).1.

Definition outage : World Memory :=
  start pcfg s0 [] (Some s0) |> tick 0 UtilityOnline false |> tick 5 UtilityOnBattery false
    |> tick 10 UtilityOnBattery true.

Definition restored : World Memory :=
  outage |> tick 100 UtilityOnline false |> tick 200 UtilityOnline false |> tick 205 UtilityOnline false
    |> tick 210 UtilityOnline false |> tick 215 UtilityOnline false |> tick 220 UtilityOnline false.

Example outage_ends_waiting : st_PowerState (w_State outage) = WaitingForAC.
Proof. vm_compute. reflexivity. Qed.

(** The position of an event in a log, and what came before it. *)
Definition position (f : Event → bool) (l : Log) : nat := default 0 (fst <$> list_find (λ e, f e = true) l).
Definition newer_than (f : Event → bool) (l : Log) : Log := take (position f l) l.
Definition older_than (f : Event → bool) (l : Log) : Log := drop (S (position f l)) l.

Definition is_shutdown (e : Event) : bool := match e with EvShutdown _ => true | _ => false end.
Definition is_fsd (e : Event) : bool := match e with EvFSD _ _ => true | _ => false end.
Definition is_wake (id : string) (e : Event) : bool :=
  match e with EvWake id' => bool_decide (id' = id) | _ => false end.

(** ** A crash in the middle of it

    Power is lost right after the hypervisor was asked to shut down; the next
    process finds the request on disk, resumes and asks once more. *)

Definition cut : Log := EvShutdown pve :: older_than is_shutdown (w_log outage).
Definition survivor : State := default zeroState (last_persisted cut).

Definition resumed : World Memory :=
  (Policy_Write (st_set_PowerState ShutdownInProgress survivor) (start pcfg survivor cut (Some survivor))).1
  |> tick 60 UtilityOnBattery true.

Example request_survives : hs_ShutdownAttempts (host_at survivor "pve") = 1%Z.
Proof. vm_compute. reflexivity. Qed.

Example asked_again : count_shutdowns "pve" (w_log resumed) = 2%Z.
Proof. vm_compute. reflexivity. Qed.

(** ** The guarantees, applied *)

Lemma s0_own : own_state s0.
Proof. split; [done|]. intros id. change (host_at s0 id) with zeroHostState. done. Qed.

Lemma outage_reachable : reachable env fleet "" pcfg s0 outage.
Proof. unfold outage, tick. do 3 apply reach_tick. apply reach_boot. Qed.

Lemma cut_on_disk : on_disk cut survivor.
Proof. apply last_persisted_on_disk. vm_compute. reflexivity. Qed.

Lemma resumed_reachable : reachable env fleet "" pcfg s0 resumed.
Proof.
  unfold resumed, tick. apply reach_tick. apply reach_resume; [|vm_compute; reflexivity|right; vm_compute; reflexivity].
  apply (reach_crash env fleet "" pcfg s0 outage (newer_than is_shutdown (w_log outage)) cut);
    [apply outage_reachable|vm_compute; reflexivity|apply cut_on_disk].
Qed.

Lemma restored_reachable : reachable env fleet "" pcfg s0 restored.
Proof. unfold restored, tick. do 6 apply reach_tick. apply outage_reachable. Qed.

Lemma fleet_NoDup : NoDup (h_ID <$> cf_Hosts fleet).
Proof. refine (bool_decide_unpack (NoDup (h_ID <$> cf_Hosts fleet)) _). vm_compute. exact I. Qed.

Lemma direct_shutdown_is_written_ahead_witness :
  let older := older_than is_shutdown (w_log outage) in
  pve ∈ cf_Hosts fleet ∧ h_ID pve ∈ PreFSD (plan fleet) ∧
  ∃ p l, older = EvPersisted p :: l ∧
    st_PowerState p = ShutdownInProgress ∧ st_ShutdownCommitted p = true ∧
    hs_ShutdownState (host_at p (h_ID pve)) = ShutdownRequested.
Proof.
  apply (direct_shutdown_is_written_ahead env fleet "" pcfg fleet_NoDup s0 outage
           (newer_than is_shutdown (w_log outage)) pve).
  - exact s0_own.
  - exact outage_reachable.
  - vm_compute. reflexivity.
Defined.

Lemma direct_shutdowns_are_bounded_witness :
  (count_shutdowns (h_ID pve) (EvShutdown pve :: older_than is_shutdown (w_log resumed)) ≤ maxDirectShutdownAttempts)%Z.
Proof.
  apply (direct_shutdowns_are_bounded env fleet "" pcfg fleet_NoDup s0 resumed
           (newer_than is_shutdown (w_log resumed)) pve).
  - exact s0_own.
  - exact resumed_reachable.
  - vm_compute. reflexivity.
Defined.

Lemma crash_forgets_no_request_witness :
  wf_state survivor ∧
  (∀ id, (count_shutdowns id cut ≤ hs_ShutdownAttempts (host_at survivor id))%Z ∧
         (count_wakes id cut ≤ hs_WakeAttempts (host_at survivor id))%Z).
Proof.
  apply (crash_forgets_no_request env fleet "" pcfg fleet_NoDup s0 outage (newer_than is_shutdown (w_log outage))).
  - exact s0_own.
  - exact outage_reachable.
  - vm_compute. reflexivity.
  - exact cut_on_disk.
Defined.

Lemma forced_shutdown_is_last_witness :
  ∃ p, last_persisted (older_than is_fsd (w_log outage)) = Some p ∧
    st_PowerState p = ShutdownInProgress ∧ st_ShutdownCommitted p = true ∧
    (∀ id, id ∈ PreFSD (plan fleet) → settled_host (host_config fleet id) (host_at p id)) ∧
    (∀ id, id ∈ NUTGroup (plan fleet) →
       hs_ShutdownState (host_at p id) = ShutdownCompleted ∨
       hs_ShutdownState (host_at p id) = ShutdownRequested ∧
       (hs_ShutdownAttempts (host_at p id) ≤ maxNUTFSDShutdownAttempts)%Z).
Proof.
  apply (forced_shutdown_is_last env fleet "" pcfg fleet_NoDup s0 outage
           (newer_than is_fsd (w_log outage)) "ups" "/etc/nut/upsmon.conf").
  - exact s0_own.
  - exact outage_reachable.
  - vm_compute. reflexivity.
Defined.

Lemma wake_is_written_ahead_and_ordered_witness :
  let older := older_than (is_wake "pve") (w_log restored) in
  ∃ p l h, older = EvPersisted p :: l ∧
    st_PowerState p = RestoreHosts ∧ st_RecoveryStarted p = true ∧
    h ∈ wake_hosts fleet ∧ hc_ID h = "pve" ∧ restorable (hosts_of p) h ∧
    hs_RecoveryState (host_at p "pve") = RecoveryWOLSent ∧
    (count_wakes "pve" (EvWake "pve" :: older) ≤ hs_WakeAttempts (host_at p "pve") ≤ max_wake_attempts h)%Z ∧
    (∀ dep dh ds, dep ∈ hc_DependsOn h → dh ∈ wake_hosts fleet → hc_ID dh = dep →
       hosts_of p !! dep = Some ds → EligibleForRestore dh ds = true →
       hs_RecoveryState ds = RecoveryOnline).
Proof.
  apply (wake_is_written_ahead_and_ordered env fleet "" pcfg fleet_NoDup s0 restored
           (newer_than (is_wake "pve") (w_log restored)) "pve").
  - exact s0_own.
  - exact restored_reachable.
  - vm_compute. reflexivity.
Defined.


Lemma retry_delay_doubles_witness : retry_delay 3 = (20 * Second)%Z.
Proof. rewrite (retry_delay_doubles 3) by lia. reflexivity. Defined.
