(* ===== verification/PolicyExample.v ===== *)
(** * The policy engine and the coordinator in action

    Concrete runs of the engine, on which its guarantees are exercised: an
    outage, a recovery, a reboot in the middle, a write that fails. *)

From S2P Require Import Prelude PowerStateModel Nut Store.
From S2P Require Import StoreFacts StoreExample Policy PolicyFacts.
From S2P Require Import PolicyRuns Coordinator.

Definition cfg : Config :=
  mkConfig (60 * Second) (600 * Second) None 0 (120 * Second) (Some true) (60 * Second) None 0 (1 * Second) 0.

Definition status (u : UtilityState) (low : bool) : Status := mkStatus u low false None None "" ∅.
Definition sample (u : UtilityState) (low : bool) : Inputs := mkInputs (status u low) true true.

(** Instants of a run, well after the zero time. *)
Definition at_s (n : Z) : Time := (20000000000 * Second + n * Second)%Z.
Definition obs (n : Z) (u : UtilityState) : observation := (at_s n, sample u false).

Definition s0 : State := PowerStateModel.New "tx-1" "rev-1" |> st_set_PowerState Normal.

(** *** An outage *)

Definition on_battery : Engine := run (Policy.New cfg s0) [obs 0 UtilityOnline; obs 5 UtilityOnBattery].


Lemma outage_is_bounded_witness :
  e_committed (run on_battery ([obs 20 UtilityOnBattery; obs 40 UtilityUnknown]
                                 ++ [(at_s 700, sample UtilityOnBattery false)])) = true.
Proof.
  apply (outage_is_bounded (at_s 5)); try solve [vm_compute; done].
  constructor; [left; reflexivity|]. constructor; [right; reflexivity|constructor].
Defined.

(** *** A recovery *)

Definition waiting : State := s0 |> st_set_PowerState WaitingForAC |> st_set_ShutdownCommitted true.
Definition recovering : Engine :=
  run (Policy.New cfg waiting) [obs 0 UtilityOnline; obs 5 UtilityOnline; obs 40 UtilityOnline].

Lemma waiting_flags : st_RecoveryStarted waiting = true → st_ShutdownCommitted waiting = true.
Proof. done. Qed.

Lemma recovering_history :
  history cfg waiting [obs 40 UtilityOnline; obs 5 UtilityOnline; obs 0 UtilityOnline] recovering.
Proof. unfold recovering, run, obs. cbn [fold_left fst snd]. do 3 apply hist_step. apply hist_boot. Qed.

Lemma engine_flags_invariant_witness : wf_state (e_st recovering).
Proof.
  exact (engine_flags_invariant cfg waiting waiting_flags
           [obs 40 UtilityOnline; obs 5 UtilityOnline; obs 0 UtilityOnline] recovering recovering_history).
Defined.

Lemma recovery_needs_stable_utility_witness :
  clean_sample (at_s 70, sample UtilityOnline false) ∧
  ∃ t, (cfg_UtilityStable (e_cfg recovering) ≤ time_sub (at_s 70) t)%Z ∧
       stable_since t [obs 40 UtilityOnline; obs 5 UtilityOnline; obs 0 UtilityOnline].
Proof.
  apply (recovery_needs_stable_utility cfg waiting waiting_flags _ recovering).
  - exact recovering_history.
  - eexists. split; vm_compute; reflexivity.
Defined.

(** *** Reboots *)

Definition interrupted : State := s0 |> st_set_PowerState OnBattery |> st_set_OutageElapsedSeconds 90%Z.

Lemma reboot_keeps_outage_clock_witness :
  let e := (Step (at_s 0) (sample UtilityOnBattery false) (Policy.New cfg interrupted)).1 in
  e_power e = OnBattery ∧
  (cfg_GracePeriod cfg ≤ outage_elapsed (at_s 30) e)%Z ∧
  (Z.min max_int64 (st_OutageElapsedSeconds interrupted * Second + (at_s 30 - at_s 0)) ≤ outage_elapsed (at_s 30) e)%Z.
Proof.
  apply (reboot_keeps_outage_clock cfg interrupted (at_s 0) (sample UtilityOnBattery false) (at_s 30));
    vm_compute; done.
Defined.

Definition failed : State := s0 |> st_set_PowerState FailedSafe |> st_set_FailedSafeReason "reason".

Lemma restart_leaves_failed_safe_witness :
  e_power (Step (at_s 0) (sample UtilityOnline false) (Policy.New cfg failed)).1 = Normal.
Proof. apply (restart_leaves_failed_safe cfg failed); vm_compute; reflexivity. Defined.

(** *** Power fails again during the restore *)

(** The engine went through the outage that started at second 5. *)
Definition restoring : Engine :=
  run on_battery [(at_s 10, sample UtilityOnBattery true); obs 15 UtilityOnBattery]
    |> (λ e, (MarkShutdownPhaseComplete e).1)
    |> (λ e, run e [obs 700 UtilityOnline; obs 800 UtilityOnline; obs 805 UtilityOnline]).

Example restoring_hosts : e_power restoring = RestoreHosts.
Proof. vm_compute. reflexivity. Qed.

Lemma renewed_outage_inherits_timer_witness :
  let e' := (Step (at_s 810) (sample UtilityOnBattery false) restoring).1 in
  e_power e' = OnBattery ∧
  commits_shutdown (Step (at_s 815) (sample UtilityOnBattery false)
                      (e_set_st (st_set_ShutdownCommitted false (e_st e')) e')).
Proof.
  apply (renewed_outage_inherits_timer (at_s 5)); vm_compute; done.
Defined.

(** ** The coordinator *)

(** A writer whose next writes succeed or fail as a list says. *)
Definition Flaky : Type := (list bool * option State)%type.

#[export] Instance Flaky_writer : StateWriter Flaky := λ next w,
  match w with
  | (true :: faults, m) => ((faults, m), inl (Errorf "no space left on device"))
  | (faults, m) =>
      match validateSemantic next with
      | Some e => ((tail faults, m), inl e)
      | None => ((tail faults, Some next), inr next)
      end
  end.

#[export] Instance Flaky_laws : StateWriterLaws Flaky (λ _, True) snd.
Proof.
  assert (Hre : ∀ next p : State, next = p → restamped next p).
  { intros p _ <-. exists (st_Sequence p), (st_StateVersion p), (st_Checksum p). by destruct p. }
  split; intros next [[|[] l] m] w' r; unfold sw_Write, Flaky_writer; simpl.
  all: try destruct (validateSemantic next) eqn:Hv; intros; simplify_eq/=; auto.
  all: split; [done|by apply validateSemantic_spec].
Qed.

Definition coordinator (faults : list bool) : Coordinator Flaky :=
  NewCoordinator on_battery (faults, Some s0).
Definition low : Inputs := sample UtilityOnBattery true.

Lemma changed_decision_is_durable_witness :
  let c' := (c_Step (at_s 10) low (coordinator [])).1 in
  snd (c_store c') = Some (c_State c') ∧ valid_state (c_State c') ∧
  restamped (e_st (Step (at_s 10) low on_battery).1) (c_State c') ∧
  (Step (at_s 10) low on_battery).2 = inr (mkDecision true ActionCommitShutdown "low battery observed").
Proof.
  apply (changed_decision_is_durable (stored := snd) (at_s 10) low (coordinator []));
    [exact I | vm_compute; reflexivity | reflexivity].
Defined.

Lemma failed_write_returns_no_decision_witness :
  let c' := (c_Step (at_s 10) low (coordinator [true])).1 in
  c_State c' = c_State (coordinator [true]) ∧
  (snd (c_store c') = snd (c_store (coordinator [true])) ∨
   ∃ p, snd (c_store c') = Some p ∧ restamped (e_st (Step (at_s 10) low on_battery).1) p).
Proof.
  apply (failed_write_returns_no_decision (stored := snd) (at_s 10) low (coordinator [true]) _
           (Errorf "no space left on device") (mkDecision true ActionCommitShutdown "low battery observed"));
    [exact I | vm_compute; reflexivity | vm_compute; reflexivity].
Defined.

Definition calls : list call :=
  [CallStep (at_s 0) (sample UtilityOnline false); CallStep (at_s 5) (sample UtilityOnBattery false);
   CallStep (at_s 10) low; CallStep (at_s 15) low; CallShutdownComplete].


(** The store of [StoreExample] is a writer. *)
Lemma store_implements_writer_witness :
  StateWriterLaws (H := @FS_StateWriter (table_codec [Example_store.s0; Example_store.s1])) FS
    (known [Example_store.s0; Example_store.s1])
    (λ fs, @load_state (table_codec [Example_store.s0; Example_store.s1]) (fs_view fs)).
Proof. exact (store_implements_writer (H0 := table_codec_laws [Example_store.s0; Example_store.s1])). Defined.
