(* ===== verification/CompletionExample.v ===== *)
(** * The end of a recovery, computed

    The fleet of [OrchestratorExample] after its outage, with hosts that never
    answer: recovery gives them up and ends.  And a fleet that a change of the
    armed exclusions leaves in RESTORE_HOSTS. *)

From S2P Require Import Prelude StableSort PowerStateModel Store StoreFacts Nut.
From S2P Require Import HostPlan HostPlanFacts ConfigModel ConfigValidate ConfigFacts.
From S2P Require Import Policy PolicyFacts Coordinator Recovery Orchestrator HostAdapters OrchestratorFacts.
From S2P Require Import OrchestratorRuns Completion OrchestratorExample.

(** The writer of the example fails only on a state the store rejects. *)
#[export] Instance Memory_reliable : ReliableWriter Memory (λ _, True) writable_header.
Proof.
  split; [|exact writable_transacted]. intros next m _ Hh Hwf Hhosts. unfold sw_Write, Memory_writer.
  pose proof (writable_valid next Hh Hwf Hhosts) as Hval.
  set (p := if (st_StateVersion next =? 0)%Z then _ else _).
  assert (Hp : p = stamp 0 next |> st_set_Sequence (st_Sequence next)) by (unfold p, stamp; destruct next; simpl; by case_match).
  assert (Hv : validateSemantic p = None) by (apply validateSemantic_spec; rewrite Hp; by destruct Hval).
  rewrite Hv. exists (Some p), p. split; [done|]. split; [done|]. split.
  - exists (st_Sequence p), (st_StateVersion p), (st_Checksum p). unfold p. destruct next. simpl. by case_match.
  - destruct Hval as [V1 V2 V3 _ _ _]. rewrite Hp. split; [by right|done].
Qed.

(** ** Hosts that never answer *)

Definition mute : Env := {|
  env_Probe := env_Probe env; env_Shutdown := env_Shutdown env; env_FSD := env_FSD env; env_Recovery := env_Recovery env;
  env_Online := λ _ _, inl (Errorf "no route to host");
  env_Wake := λ _ _, Some (Errorf "network unreachable");
  env_NewTransactionID := env_NewTransactionID env;
|}.

(** The recovery is committed at 200 s. *)
Definition committed : World Memory := outage |> tick 100 UtilityOnline false |> tick 200 UtilityOnline false.

Definition waiting (n : Z) : Time * Inputs := (at_s n, sample UtilityOnline false).
Definition eight_ticks : list (Time * Inputs) := waiting <$> [205; 210; 215; 220; 225; 230; 235; 240]%Z.

Lemma fleet_ok : config_ok fleet.
Proof.
  apply (Validate_accepts_iff (map_keys (dependency_graph (cf_Hosts fleet)))); [unfold range_of; reflexivity|]. vm_compute. reflexivity.
Qed.

Lemma committed_live :
  live (calm := λ _ : Memory, True) (fit := writable_header) (e_cfg (c_engine (w_coord committed)))
    RecoveryStarted (hosts_of (w_State committed)) (clocks committed) committed.
Proof.
  split; [done| | |vm_compute; reflexivity|vm_compute; reflexivity|done|done].
  - split; [right; vm_compute; reflexivity|]. by split; intros Hn; vm_compute in Hn.
  - vm_compute. split; [done|]. by split.
Qed.

Lemma committed_recorded : recorded (wake_hosts fleet) (hosts_of (w_State committed)).
Proof.
  intros h Hh. unfold wake_hosts in Hh. repeat (apply elem_of_cons in Hh as [->|Hh]); [| |by apply elem_of_nil in Hh].
  all: eexists; split; [vm_compute; reflexivity|]; intros Hn; vm_compute in Hn; discriminate.
Qed.

Lemma recovery_ends_witness :
  ∃ w', run_ticks mute fleet "" eight_ticks committed = (w', inr ()) ∧ st_PowerState (w_State w') = Normal ∧
    ∀ h, h ∈ wake_hosts fleet → ∃ hs, hosts_of (w_State w') !! hc_ID h = Some hs ∧
      (EligibleForRestore h hs = true → hs_RecoveryState hs = RecoveryOnline ∨ hs_RecoveryState hs = RecoveryFailed).
Proof.
  apply (recovery_ends mute fleet "" (e_cfg (c_engine (w_coord committed))) RecoveryStarted (hosts_of (w_State committed)) (clocks committed) committed 0 (5 * Second) (at_s 200) eight_ticks).
  - exact fleet_ok.
  - reflexivity.
  - vm_compute. reflexivity.
  - by left.
  - exact committed_live.
  - exact committed_recorded.
  - intros h Hh. unfold wake_hosts in Hh. repeat (apply elem_of_cons in Hh as [->|Hh]); [| |by apply elem_of_nil in Hh]; vm_compute; discriminate.
  - lia.
  - vm_compute. discriminate.
  - vm_compute. repeat split; discriminate.
  - repeat constructor.
  - vm_compute. reflexivity.
Defined.

Example both_given_up :
  let w := (run_ticks mute fleet "" eight_ticks committed).1 in
  (hs_RecoveryState (host_at (w_State w) "nas"), hs_RecoveryState (host_at (w_State w) "pve"), count_wakes "nas" (w_log w))
  = (RecoveryFailed, RecoveryFailed, 2%Z).
Proof. vm_compute. reflexivity. Qed.

(** ** A host excluded at the start of the outage

    The runtime leaves out a host whose prerequisites are missing, "until
    fixed".  The snapshot then records that it needs no recovery.  When the
    agent restarts during the outage with the prerequisite in place, the host
    is eligible again, but what was recorded stands: it is never woken, and a
    host that depends on it is neither next nor blocked.  The assumption
    [recorded] of [recovery_ends] fails, and so does its conclusion. *)

Definition nas_by_ssh : HostConfig :=
  mkHostConfig "nas" "NAS" (Some "nas.lan") [] tcp
    (mkShutdownConfig "ssh" 20 120 (Some "root") (Some "/mnt/keys/nas") None) (wake_on "00:11:22:33:44:55" 10) "previous-state".

Definition ssh_fleet : ConfigModel.Config :=
  ConfigModel.mkConfig (cf_ConfigVersion fleet) (cf_Mode fleet) (cf_NUT fleet) (cf_Outage fleet) (cf_Controller fleet)
    (cf_Recovery fleet) (cf_Health fleet) (cf_Dependencies fleet) [pve; nas_by_ssh].

Definition without_nas : ConfigModel.Config := RuntimeConfigWithExclusions ssh_fleet {["nas" := "ssh key is missing"]}.

Definition ticks_of (cfg : ConfigModel.Config) (l : list (Z * UtilityState * bool)) (w : World Memory) : World Memory :=
  (run_ticks env cfg "" ((λ k, (at_s k.1.1, sample k.1.2 k.2)) <$> l) w).1.

Definition excluded_outage : World Memory :=
  ticks_of without_nas [(0, UtilityOnline, false); (5, UtilityOnBattery, false); (10, UtilityOnBattery, true)]%Z
    (start pcfg s0 [] (Some s0)).

(** The next process, with the key in place, for ten ticks after the commit. *)
Definition repaired : World Memory :=
  ticks_of ssh_fleet
    ((λ n, (n, UtilityOnline, false)) <$> [100; 101; 102; 250; 300; 350; 400; 450; 500; 550; 600; 650; 700]%Z)
    (start pcfg (w_State excluded_outage) [] (Some (w_State excluded_outage))).

Example ssh_fleet_ok : Validate ssh_fleet = None.
Proof. vm_compute. reflexivity. Qed.

(** Neither host was asked to wake, and recovery goes on. *)
Example dependent_waits_for_ever :
  st_PowerState (w_State excluded_outage) = WaitingForAC ∧ st_PowerState (w_State repaired) = RestoreHosts ∧
  hs_RecoveryState (host_at (w_State repaired) "nas") = RecoveryNotRequired ∧
  hs_RecoveryState (host_at (w_State repaired) "pve") = RecoveryWaiting ∧
  EligibleForRestore (toHostConfig nas_by_ssh) (host_at (w_State repaired) "nas") = true ∧
  count_wakes "nas" (w_log repaired) = 0%Z ∧ count_wakes "pve" (w_log repaired) = 0%Z.
Proof. vm_compute. done. Qed.
