(* ===== verification/ArmedExample.v ===== *)
(** * An armed process, concretely

    A workstation behind a switch, shut down over SSH: a power failure, the
    shutdown of the controller (refused once), and the recovery; then a
    process that resumes a committed shutdown from disk. *)

From Stdlib Require Import Ascii.
From S2P Require Import Prelude StableSort GoStrings GoTime PowerStateModel Nut HostPlan HostPlanFacts.
From S2P Require Import ConfigModel ConfigValidate ConfigFacts ConfigExample Policy PolicyFacts Store StoreFacts StoreExample.
From S2P Require Import Coordinator Wol WolExample Recovery Orchestrator HostAdapters HostAdapterFacts HostAdapterExample.
From S2P Require Import Health HealthFacts HealthExample Armed OrchestratorFacts OrchestratorRuns OrchestratorExample ArmedFacts.

(** ** The configuration *)

(** The workstation waits for the NAS no more. *)
Definition alone : HostConfig :=
  mkHostConfig "desktop" "Workstation" (Some "192.168.1.20") ["switch"] ping
    (mkShutdownConfig "ssh" 5 60 (Some "ups") (Some "/etc/cockpit-ups-wol/id") None)
    (wake "00-1b-21-0a-0b-0c" 20) "always".

Definition solo_with (grace : Z) : ConfigModel.Config :=
  applyDefaults (ConfigModel.mkConfig 1 "armed" (cf_NUT home)
    (mkOutageConfig grace (Some 600%Z) (Some 30%Z) (Some 300%Z) 30)
    (cf_Controller home) (mkRecoveryConfig true 60 None None (Some 30%Z) 300) (cf_Health home) [switch] [alone]).

Definition solo : ConfigModel.Config := solo_with 60.

Lemma solo_ok : config_ok solo.
Proof.
  refine (proj1 (problems_nil (map_keys (dependency_graph (cf_Hosts solo))) solo _) _); [by unfold range_of|].
  vm_compute. reflexivity.
Qed.

Lemma policy_settings_are_exact_witness :
  policyFromConfig solo = exact_policy solo ∧
  e_cfg (Policy.New (policyFromConfig solo) (PowerStateModel.New "tx-1" "rev-1")) = exact_policy solo.
Proof.
  apply policy_settings_are_exact; try (vm_compute; reflexivity); try (vm_compute; discriminate).
  exact solo_ok.
Defined.

(** Validation puts no upper bound on the configured seconds, and the
    policy multiplies them into an int64: a grace period of 9223372037
    seconds is accepted and reaches the policy as a negative duration, so
    that the shutdown is due at once. *)
Theorem oversized_grace_wraps :
  Validate (solo_with 9223372037) = None ∧ (cfg_GracePeriod (policyFromConfig (solo_with 9223372037)) < 0)%Z.
Proof. split; vm_compute; reflexivity. Qed.

(** ** A power failure and its recovery *)

#[local] Instance vouching_codec : health.SnapshotCodec :=
  snapshot_codec [health.mkSnapshot 1 health.Healthy (at_s 900) [] [] (health.mkCircuit ∅ ∅ "") 7].

(** The switch answers; the workstation is off. *)
Definition outside : Outside :=
  mkOutside (λ _ _, down) (λ _ _ _, [mkRound down None; mkRound down None; mkRound down None])
    (λ _ _, [mkRound down (Some (Sentinel "context.DeadlineExceeded" "context deadline exceeded"))]) (λ _, None)
    (λ _, ssh_ok) (λ _ _ _, None) (λ _, working) (λ _, "tx-2").

Definition options : Options := options_defaults (mkOptions "" "" "" (60 * Minute) 0 0 "" "" "").

Definition read (n : Z) (u : UtilityState) (low : bool) (fsd : option error) : Sample :=
  mkSample (inr (status u low)) (at_s n) (health.mkSnapshot 1 health.Healthy (at_s 0) [] [] (health.mkCircuit ∅ ∅ "") 1)
    (inr (ticks 1)) (λ _, up) fsd.

Definition refused : option error := Some (Errorf "upsmon is not running").

Definition readings : list Sample :=
  [read 1000 UtilityOnline false None; read 1005 UtilityOnBattery false None; read 1010 UtilityOnBattery true refused;
   read 1012 UtilityOnBattery true None; read 1016 UtilityOnBattery true None; read 1020 UtilityOnBattery true None;
   read 1100 UtilityOnline false None; read 1110 UtilityOnline false None].

Definition fresh : State := PowerStateModel.New "tx-1" "rev-1".

Definition begun : Armed Memory := mkArmed (new_controller (policyFromConfig solo) fresh (Some fresh)) ∅ zeroTracker [] [].

Definition after (ss : list Sample) : Armed Memory :=
  fold_left (λ a s, (armedPowerTick outside options solo solo s a).1) ss begun.

Lemma after_run ss :
  Forall (λ s, (0 < sm_now s)%Z) ss → armed_run outside options solo solo (ar_controller begun) (reverse ss) (after ss).
Proof.
  unfold after. induction ss as [|s ss IH] using rev_ind; [intros _; apply run_start|].
  rewrite Forall_app. intros [Hall Hs]. apply Forall_cons in Hs as [Hs _].
  rewrite fold_left_app, reverse_snoc. apply run_tick; [by apply IH|done].
Qed.

Definition waiting : Armed Memory := after readings.
Definition due : Sample := read 1180 UtilityOnline false None.
Definition committed : Armed Memory := (armedPowerTick outside options solo solo due waiting).1.

Lemma waiting_run : armed_run outside options solo solo (ar_controller begun) (reverse readings) waiting.
Proof. apply after_run. repeat (constructor; [vm_compute; reflexivity|]). constructor. Qed.

(** The refused request is followed by one that succeeds, six seconds on. *)
Definition second : FSDRequest := mkFSDRequest "tx-2" (at_s 1016) None.
Definition first : FSDRequest := mkFSDRequest "tx-2" (at_s 1010) refused.


Lemma armed_recovery_is_gated_witness :
  ∃ n, (3 ≤ Z.of_nat n)%Z ∧ online_for n 0 (default switch (cf_Dependencies solo !! 0)) (due :: reverse readings).
Proof.
  destruct (armed_recovery_is_gated outside options solo solo (ar_controller begun) (reverse readings) waiting due committed
              RecoveryWait RecoveryStarted (mkDecision true ActionCommitRecovery "all recovery gates satisfied"))
    as (_ & _ & _ & Hdeps & _).
  - unfold deps_named. vm_compute. constructor; [by intros ?%not_elem_of_nil|constructor].
  - exact waiting_run.
  - vm_compute. reflexivity.
  - vm_compute. reflexivity.
  - reflexivity.
  - destruct (Hdeps 0 (default switch (cf_Dependencies solo !! 0))) as (n & Hn & Hon); [vm_compute; reflexivity|].
    exists n. split; [exact Hn|exact Hon].
Defined.

(** ** Resuming a committed shutdown *)

Definition interrupted : State := Example_store.s1.
Definition resuming : State := st_set_PowerState ShutdownInProgress interrupted.

#[local] Instance resuming_codec : StateCodec := table_codec [interrupted; resuming].
#[local] Instance resuming_laws : StateCodecLaws (StoreExample.known [interrupted; resuming]) :=
  table_codec_laws [interrupted; resuming].

(** The directory a committed shutdown left behind. *)
Definition left_behind : FS := let fs := (Write interrupted Example_store.empty).1 in mkFS (fs_durable fs) [] None [] [].
Definition loaded : State := default interrupted (load_state (fs_durable left_behind)).

Definition pinned : Local := mkLocal (λ _, inr (true, 384%Z)) (λ _ _, ("# Host 192.168.1.20 found", CmdOk)) false.

Definition restarted : FS * result (ConfigModel.Config * World FS) :=
  default (left_behind, inl (Errorf "")) (runArmed_start pinned solo (inr "rev-1") "tx-3" left_behind).

Definition restarted_world : World FS :=
  match restarted.2 with inr (_, w) => w | inl _ => new_controller (policyFromConfig solo) loaded left_behind end.

Example resumes_it : st_PowerState (w_State restarted_world) = ShutdownInProgress.
Proof. vm_compute. reflexivity. Qed.

Lemma loaded_own : own_state loaded.
Proof. split; [by vm_compute|]. intros id. change (host_at loaded id) with zeroHostState. done. Qed.

Lemma left_behind_own q : generations left_behind q → own_state q.
Proof.
  intros [Hq|Hq]; [|by vm_compute in Hq].
  assert (Hl : file_state d_current (fs_view left_behind) = Some loaded) by (vm_compute; reflexivity).
  rewrite Hl in Hq. injection Hq as <-. exact loaded_own.
Qed.


Lemma armed_process_is_controller_run_witness :
  NoDup (h_ID <$> cf_Hosts solo) ∧
  ∃ p, own_state p ∧
    reachable (armed_env outside solo) solo (op_UPSMonConfPath options) (policyFromConfig solo) p
      (ar_controller (armedPowerTick outside options solo solo due (mkArmed restarted_world ∅ zeroTracker [] [])).1).
Proof.
  apply (armed_process_is_controller_run outside options pinned solo (inr "rev-1") "tx-3" left_behind restarted.1 solo
           restarted_world [due]).
  - exact solo_ok.
  - exact left_behind_own.
  - vm_compute. reflexivity.
  - apply run_tick; [apply run_start|vm_compute; reflexivity].
Defined.
