(* ===== verification/ChronicleExample.v ===== *)
(** * A power loss, concretely

    The armed agent of [ArmedExample] restarts on a committed shutdown and
    makes its first tick; the directory cannot be synced when the request for
    the workstation has been renamed into place, and then the power fails. *)

From S2P Require Import Prelude StableSort PowerStateModel Nut ConfigModel ConfigValidate Policy Store StoreFacts StoreExample.
From S2P Require Import Coordinator Orchestrator OrchestratorFacts OrchestratorRuns OrchestratorExample HostAdapters HostAdapterExample.
From S2P Require Import Health HealthExample Armed ArmedFacts ArmedExample Chronicle.

#[local] Instance vouching : health.SnapshotCodec :=
  snapshot_codec [health.mkSnapshot 1 health.Healthy (at_s 900) [] [] (health.mkCircuit ∅ ∅ "") 7].

(** *** The states of the run, from the same run on a writer in memory *)

Definition resumed : State := st_set_PowerState ShutdownInProgress interrupted.

Definition outage : Sample := read 1016 UtilityOnBattery true None.

Definition rehearsal : World Memory :=
  ar_controller (armedPowerTick outside options solo solo outage
    (mkArmed (resume_shutdown interrupted (start (policyFromConfig solo) interrupted [] (Some interrupted))).1 ∅ zeroTracker [] [])).1.

Definition tried : list State :=
  omap (λ ev, match ev with EvPersisted p | EvPolicyError (Some p) => Some p | _ => None end) (w_log rehearsal).

Definition states : list State := interrupted :: resumed :: tried.

#[local] Instance states_codec : StateCodec := table_codec states.
#[local] Instance states_laws : StateCodecLaws (StoreExample.known states) := table_codec_laws states.

(** *** The run *)

Definition at_rest (faults : list bool) : FS :=
  let fs := (Write interrupted Example_store.empty).1 in mkFS (fs_durable fs) [] None faults [].

Definition p0 : State := default interrupted (load_state (fs_durable (at_rest []))).

(** The resumption is written; the request is written; the host is asked to shut down; its
    acknowledgement is renamed into place, and the sync of the directory fails. *)
Definition faulty : FS := at_rest (replicate 42 false ++ [true]).

Definition resumed_world : World FS :=
  match runArmed_start pinned solo (inr "rev-1") "tx-3" faulty with
  | Some (_, inr (_, w)) => w
  | _ => start (policyFromConfig solo) p0 [] faulty
  end.

Definition ticked : Armed FS := (armedPowerTick outside options solo solo outage (mkArmed resumed_world ∅ zeroTracker [] [])).1.

Definition summary (w : World FS) : list (option string) :=
  (λ ev, match ev with EvPersisted p => Some (PowerState_string (st_PowerState p)) | EvPolicyError (Some _) => Some "failed" | _ => None end) <$> w_log w.

(** What a restart would load, with and without the pending rename. *)
Example either_generation :
  let fs := store_of (ar_controller ticked) in
  summary (ar_controller ticked) = [Some "failed"; None; Some "SHUTDOWN_IN_PROGRESS"; Some "SHUTDOWN_IN_PROGRESS"; Some "SHUTDOWN_COMMITTED"] ∧
  length (fs_pending fs) = 1 ∧
  (λ q, hs_ShutdownState (host_at q "desktop")) <$> load_state (fs_durable fs) = Some ShutdownRequested ∧
  (λ q, hs_ShutdownState (host_at q "desktop")) <$> load_state (fs_view fs) = Some ShutdownAcknowledged.
Proof. vm_compute. done. Qed.

#[local] Instance known_dec s : base.Decision (StoreExample.known states s).
Proof. apply list_elem_of_dec. Defined.

#[local] Instance encodes_dec ev : base.Decision (encodes (StoreExample.known states) ev).
Proof. destruct ev as [p|[p|]| | | | | | | |]; apply _. Defined.

Lemma rests : settled faulty p0.
Proof.
  split; [vm_compute; reflexivity|]. split; [eexists; vm_compute; reflexivity|exact I|].
  exists p0. split; [vm_compute; reflexivity|done].
Qed.

