(* ===== verification/Disk.v ===== *)
(** * The directories of the configuration history

    config/revision.go keeps the active configuration, three pointer files
    and one directory per revision.  This file models what its system calls
    see and what a power loss leaves: directory entries become durable only
    when their directory is synced, file data when the file is, and every
    call may fail.  A revision directory has an identity of its own (its
    generation): one that is made again under an old name starts empty.

    The crash-relevant state is recorded after every call.  The second half
    of the file is a small logic for such programs: [at_disk] tracks the
    visible tree exactly, everything a power loss could leave now, and
    everything it could have left at any earlier moment. *)

From S2P Require Import Prelude.

(** ** Trees *)

Inductive Leaf : Type := ConfigYaml | ManifestJson.

(** The files the code names. *)
Inductive Path : Type :=
  | ActiveConfig                              (* m.ActiveConfigPath *)
  | PointerFile (name : string)               (* HistoryDir/name *)
  | RevisionFile (id : string) (leaf : Leaf). (* HistoryDir/revisions/id/leaf *)

(** Where a file is: the generation of a revision directory is its inode. *)
Inductive Key : Type :=
  | KActive
  | KPointer (name : string)
  | KRevision (id : string) (gen : nat) (leaf : Leaf).

#[export] Instance Leaf_eq_dec : EqDecision Leaf.
Proof. solve_decision. Defined.
#[export] Instance Path_eq_dec : EqDecision Path.
Proof. solve_decision. Defined.
#[export] Instance Key_eq_dec : EqDecision Key.
Proof. solve_decision. Defined.

#[export] Instance Key_countable : Countable Key.
Proof.
  set (enc k := match k with
                | KActive => inl (inl ())
                | KPointer n => inl (inr n)
                | KRevision id g l => inr (id, g, bool_decide (l = ConfigYaml))
                end).
  set (dec (x : () + string + string * nat * bool) := match x with
                | inl (inl _) => KActive
                | inl (inr n) => KPointer n
                | inr (id, g, b) => KRevision id g (if b : bool then ConfigYaml else ManifestJson)
                end).
  apply (inj_countable' enc dec). by intros [| |id g []].
Defined.

Record Tree : Type := mkTree {
  t_files : gmap Key string;
  t_dirs : gmap string nat;       (* the entries of revisions/ *)
}.

Definition resolve (t : Tree) (p : Path) : option Key :=
  match p with
  | ActiveConfig => Some KActive
  | PointerFile n => Some (KPointer n)
  | RevisionFile id leaf => (λ g, KRevision id g leaf) <$> t_dirs t !! id
  end.

Definition t_read (t : Tree) (p : Path) : option string :=
  resolve t p ≫= λ k, t_files t !! k.

Definition set_file (k : Key) (v : option string) (t : Tree) : Tree :=
  mkTree (partial_alter (λ _, v) k (t_files t)) (t_dirs t).
Definition set_dir (id : string) (v : option nat) (t : Tree) : Tree :=
  mkTree (t_files t) (partial_alter (λ _, v) id (t_dirs t)).

(** ** Unsynced operations and power loss *)

Inductive Directory : Type :=
  | DirActive | DirHistory | DirRevisions | DirRevision (id : string) (gen : nat).

#[export] Instance Directory_eq_dec : EqDecision Directory.
Proof. solve_decision. Defined.

Inductive DiskOp : Type :=
  | OpFile (k : Key) (v : option string) (synced : bool)
  | OpDir (id : string) (v : option nat).

Definition key_dir (k : Key) : Directory :=
  match k with
  | KActive => DirActive
  | KPointer _ => DirHistory
  | KRevision id g _ => DirRevision id g
  end.

Definition op_dir (op : DiskOp) : Directory :=
  match op with OpFile k _ _ => key_dir k | OpDir _ _ => DirRevisions end.

Definition apply_op (t : Tree) (op : DiskOp) : Tree :=
  match op with
  | OpFile k v _ => set_file k v t
  | OpDir id v => set_dir id v t
  end.

Definition apply_ops (ops : list DiskOp) (t : Tree) : Tree := fold_left apply_op ops t.

(** What a power loss may leave: any of the unsynced operations, in order;
    a file renamed before its data was synced may hold anything. *)
Inductive crash : list DiskOp → Tree → Tree → Prop :=
  | crash_nil t : crash [] t t
  | crash_lost op ops t t' : crash ops t t' → crash (op :: ops) t t'
  | crash_kept op ops t t' : crash ops (apply_op t op) t' → crash (op :: ops) t t'
  | crash_torn k v b ops t t' :
      crash ops (set_file k (Some b) t) t' → crash (OpFile k (Some v) false :: ops) t t'.

(** ** System calls *)

Section disk.
Context {Ev : Type}.

Record Point : Type := mkPoint { pt_durable : Tree; pt_pending : list DiskOp; pt_log : list Ev }.

Record Disk : Type := mkDisk {
  dk_durable : Tree;
  dk_pending : list DiskOp;
  dk_tmp : option (string * bool);   (* the open temporary file *)
  dk_next : nat;                     (* the next unused directory generation *)
  dk_faults : list bool;
  dk_log : list Ev;                  (* calls outside the file system, latest first *)
  dk_trace : list Point;
}.

(** What processes see. *)
Definition dk_view (dk : Disk) : Tree := apply_ops (dk_pending dk) (dk_durable dk).

Definition dk_record (dk : Disk) : Disk :=
  mkDisk (dk_durable dk) (dk_pending dk) (dk_tmp dk) (dk_next dk) (dk_faults dk) (dk_log dk)
    (mkPoint (dk_durable dk) (dk_pending dk) (dk_log dk) :: dk_trace dk).

Definition set_faults (f : list bool) (dk : Disk) : Disk :=
  mkDisk (dk_durable dk) (dk_pending dk) (dk_tmp dk) (dk_next dk) f (dk_log dk) (dk_trace dk).
Definition set_tmp (t : option (string * bool)) (dk : Disk) : Disk :=
  mkDisk (dk_durable dk) (dk_pending dk) t (dk_next dk) (dk_faults dk) (dk_log dk) (dk_trace dk).
Definition add_op (op : DiskOp) (dk : Disk) : Disk :=
  mkDisk (dk_durable dk) (dk_pending dk ++ [op]) (dk_tmp dk) (dk_next dk) (dk_faults dk) (dk_log dk) (dk_trace dk).
Definition add_event (e : Ev) (dk : Disk) : Disk :=
  mkDisk (dk_durable dk) (dk_pending dk) (dk_tmp dk) (dk_next dk) (dk_faults dk) (e :: dk_log dk) (dk_trace dk).
Definition next_gen (dk : Disk) : Disk :=
  mkDisk (dk_durable dk) (dk_pending dk) (dk_tmp dk) (S (dk_next dk)) (dk_faults dk) (dk_log dk) (dk_trace dk).

(** Syncing a directory makes its own operations durable. *)
Definition sync_ops (d : Directory) (dk : Disk) : Disk :=
  mkDisk (apply_ops (filter (λ op, op_dir op = d) (dk_pending dk)) (dk_durable dk))
    (filter (λ op, op_dir op ≠ d) (dk_pending dk))
    (dk_tmp dk) (dk_next dk) (dk_faults dk) (dk_log dk) (dk_trace dk).

(** A call either fails and changes nothing, or has its effect. *)
Definition syscall (name : string) (effect : Disk → Disk) : GoM Disk unit := λ dk,
  match dk_faults dk with
  | true :: faults => (dk_record (set_faults faults dk), inl (Errorf name))
  | false :: faults => (dk_record (effect (set_faults faults dk)), inr ())
  | [] => (dk_record (effect dk), inr ())
  end.

Definition sys_quiet (name : string) : GoM Disk unit := syscall name id.

Definition ErrNotExist : error := Sentinel "os.ErrNotExist" "no such file or directory".

(** [os.MkdirAll] of a revision directory *)
Definition sys_mkdir (id : string) : GoM Disk unit := syscall "mkdir" (λ dk,
  match t_dirs (dk_view dk) !! id with
  | Some _ => dk
  | None => dk |> add_op (OpDir id (Some (dk_next dk))) |> next_gen
  end).

(** [os.MkdirAll(filepath.Dir(path))]; the other directories exist already. *)
Definition mkdir_of (p : Path) : GoM Disk unit :=
  match p with RevisionFile id _ => sys_mkdir id | _ => sys_quiet "mkdir" end.

(** [os.Rename(tmp, path)] *)
Definition sys_rename (p : Path) : GoM Disk unit := λ dk,
  match resolve (dk_view dk) p, dk_tmp dk with
  | Some k, Some (b, synced) => syscall "rename" (λ dk, dk |> set_tmp None |> add_op (OpFile k (Some b) synced)) dk
  | _, _ => (dk, inl ErrNotExist)
  end.

(** [d.Sync()] on the directory of a path *)
Definition sys_sync_dir_of (p : Path) : GoM Disk unit := λ dk,
  match resolve (dk_view dk) p with
  | Some k => syscall "fsync dir" (sync_ops (key_dir k)) dk
  | None => (dk, inl ErrNotExist)
  end.

Definition sys_sync_revisions : GoM Disk unit := syscall "fsync dir" (sync_ops DirRevisions).

(** [os.ReadFile] *)
Definition read_file (p : Path) : GoM Disk (result string) := λ dk,
  match sys_quiet "open" dk with
  | (dk', inl e) => (dk', inr (inl e))
  | (dk', inr _) => (dk', inr match t_read (dk_view dk') p with Some b => inr b | None => inl ErrNotExist end)
  end.

(** [os.Stat] of a revision directory *)
Definition stat_revision (id : string) : GoM Disk (result unit) := λ dk,
  match sys_quiet "stat" dk with
  | (dk', inl e) => (dk', inr (inl e))
  | (dk', inr _) => (dk', inr match t_dirs (dk_view dk') !! id with Some _ => inr () | None => inl ErrNotExist end)
  end.

(** The temporary file of [writeAtomic] *)
Definition sys_create_temp : GoM Disk unit := syscall "createtemp" (set_tmp (Some (EmptyString, false))).
Definition sys_write_temp (b : string) : GoM Disk unit := syscall "write" (set_tmp (Some (b, false))).
Definition sys_sync_temp : GoM Disk unit :=
  syscall "fsync" (λ dk, set_tmp (match dk_tmp dk with Some (b, _) => Some (b, true) | None => None end) dk).

Definition writeAtomic (path : Path) (data : string) : GoM Disk unit :=
  _ ← mkdir_of path;
  _ ← sys_create_temp;
  _ ← sys_quiet "chmod";
  _ ← sys_write_temp data;
  _ ← sys_sync_temp;
  _ ← sys_quiet "close";
  _ ← sys_rename path;
  _ ← sys_quiet "open dir";
  sys_sync_dir_of path.

(** The order in which the operating system lists a revision directory. *)
Class LeafOrder : Type := leaf_order : string → list Leaf.

(** [unlink] of a file of a directory that was opened *)
Definition sys_unlink (id : string) (gen : nat) (leaf : Leaf) : GoM Disk unit :=
  syscall "unlink" (add_op (OpFile (KRevision id gen leaf) None true)).

(** [os.RemoveAll] of a revision directory *)
Definition sys_remove_all `{LeafOrder} (id : string) : GoM Disk unit := λ dk,
  match t_dirs (dk_view dk) !! id with
  | None => sys_quiet "unlink" dk
  | Some gen =>
      (_ ← for_each (sys_unlink id gen) (leaf_order id);
       syscall "rmdir" (add_op (OpDir id None))) dk
  end.

(** An outside call: its answer depends on the events so far. *)
Definition outside {A} (ask : list Ev → A) (event : A → Ev) : GoM Disk A := λ dk,
  let a := ask (dk_log dk) in (dk_record (add_event (event a) dk), inr a).

(** A machine that has just started: everything visible is durable. *)
Definition max_gen (t : Tree) : nat :=
  Nat.max (list_max ((λ kb, match kb.1 with KRevision _ g _ => g | _ => O end) <$> map_to_list (t_files t)))
    (list_max (snd <$> map_to_list (t_dirs t))).

Definition boot (t : Tree) (faults : list bool) : Disk :=
  mkDisk t [] None (S (max_gen t)) faults [] [].

End disk.
Arguments Point : clear implicits.
Arguments Disk : clear implicits.
