(* ===== verification/DiskFacts.v ===== *)
(** * A crash logic for the configuration history

    [at_disk ff φ l v ψ]: the processes see the tree [v], [ψ] holds of every
    tree a power loss could leave now, [φ] (which may look at the events so
    far) held of every tree it could have left at any recorded moment, the
    events are [l], and with [ff] no call fails any more.  The rules give the
    exact effect of the calls of [Disk]. *)

From S2P Require Import Prelude Disk.

(** ** Power loss *)

Lemma crash_view ops t : crash ops t (apply_ops ops t).
Proof. revert t. induction ops as [|op ops IH]; intros t; [constructor|]. apply crash_kept, IH. Qed.

Lemma crash_durable ops t : crash ops t t.
Proof. induction ops; [constructor|]. by apply crash_lost. Qed.

Lemma crash_app o1 o2 t t' : crash (o1 ++ o2) t t' → ∃ t1, crash o1 t t1 ∧ crash o2 t1 t'.
Proof.
  revert t. induction o1 as [|op o1 IH]; intros t Hc; simpl in *; [by exists t; split; [constructor|]|].
  inversion Hc; subst; match goal with H : crash (o1 ++ o2) _ _ |- _ => apply IH in H as (t1 & ? & ?) end;
    exists t1; split; try done; by econstructor.
Qed.

Lemma crash_file k v t t' : crash [OpFile k v true] t t' → t' = t ∨ t' = set_file k v t.
Proof. intros Hc. repeat match goal with H : crash _ _ _ |- _ => inversion H; clear H; subst end; auto. Qed.

Lemma crash_dir id v t t' : crash [OpDir id v] t t' → t' = t ∨ t' = set_dir id v t.
Proof. intros Hc. repeat match goal with H : crash _ _ _ |- _ => inversion H; clear H; subst end; auto. Qed.

(** Operations on different directories commute. *)
Lemma set_file_comm k v k' v' t : k ≠ k' → set_file k v (set_file k' v' t) = set_file k' v' (set_file k v t).
Proof. intros Hk. unfold set_file. simpl. f_equal. by apply partial_alter_partial_alter_ne. Qed.

Lemma apply_op_comm op op' t : op_dir op ≠ op_dir op' → apply_op (apply_op t op) op' = apply_op (apply_op t op') op.
Proof.
  destruct op as [k v s|id v], op' as [k' v' s'|id' v']; simpl; intros Hd; try done.
  apply set_file_comm. congruence.
Qed.

Lemma apply_ops_comm D op ops t :
  op_dir op ≠ D → Forall (λ op', op_dir op' = D) ops → apply_ops ops (apply_op t op) = apply_op (apply_ops ops t) op.
Proof.
  intros Hop Hall. revert t. induction Hall as [|op' ops Hd Hall IH]; intros t; [done|]. simpl.
  rewrite apply_op_comm by congruence. apply IH.
Qed.

Lemma apply_ops_torn D k b ops t :
  key_dir k ≠ D → Forall (λ op', op_dir op' = D) ops →
  apply_ops ops (set_file k (Some b) t) = set_file k (Some b) (apply_ops ops t).
Proof. apply (apply_ops_comm D (OpFile k (Some b) true)). Qed.

Lemma filter_dir_Forall D (ops : list DiskOp) : Forall (λ op, op_dir op = D) (filter (λ op, op_dir op = D) ops).
Proof. apply Forall_forall. intros op Hin. by apply list_elem_of_filter in Hin as [? _]. Qed.

(** Syncing a directory only removes outcomes, *)
Lemma crash_sync D ops t t' :
  crash (filter (λ op, op_dir op ≠ D) ops) (apply_ops (filter (λ op, op_dir op = D) ops) t) t' → crash ops t t'.
Proof.
  revert t. induction ops as [|op ops IH]; intros t; [done|]. rewrite !filter_cons.
  pose proof (filter_dir_Forall D ops) as HF.
  destruct (decide (op_dir op = D)) as [Hd|Hd].
  - destruct (decide (op_dir op ≠ D)) as [|]; [done|]. simpl. intros Hc. apply crash_kept. by apply IH.
  - destruct (decide (op_dir op ≠ D)) as [_|]; [|done]. intros Hc. inversion Hc as [|? ? ? ? Hl|? ? ? ? Hk|k v b ? ? ? Hto]; subst.
    + apply crash_lost. by apply IH.
    + apply crash_kept, IH. by rewrite (apply_ops_comm D).
    + apply crash_torn with b. apply IH. by rewrite (apply_ops_torn D).
Qed.

(** and does not change what processes see. *)
Lemma view_sync D ops t :
  apply_ops (filter (λ op, op_dir op ≠ D) ops) (apply_ops (filter (λ op, op_dir op = D) ops) t) = apply_ops ops t.
Proof.
  revert t. induction ops as [|op ops IH]; intros t; [done|]. rewrite !filter_cons.
  pose proof (filter_dir_Forall D ops) as HF.
  destruct (decide (op_dir op = D)) as [Hd|Hd].
  - destruct (decide (op_dir op ≠ D)) as [|]; [done|]. simpl. apply IH.
  - destruct (decide (op_dir op ≠ D)) as [_|]; [|done]. simpl. rewrite <-(apply_ops_comm D) by done. apply IH.
Qed.

(** An operation of a directory that has no other pending one commutes with a power loss. *)
Lemma crash_comm D k v ops t t' :
  key_dir k = D → Forall (λ op, op_dir op ≠ D) ops → crash ops (set_file k v t) t' →
  ∃ t0, crash ops t t0 ∧ t' = set_file k v t0.
Proof.
  intros Hk Hall. revert t. induction Hall as [|op ops Hd Hall IH]; intros t Hc; [inversion Hc; subst; eexists; split; [constructor|done]|].
  inversion Hc as [|? ? ? ? Hl|? ? ? ? Hkp|k' v' b ? ? ? Hto]; subst.
  - apply IH in Hl as (t0 & ? & ->). eexists; split; [by apply crash_lost|done].
  - change (set_file k v t) with (apply_op t (OpFile k v true)) in Hkp.
    rewrite (apply_op_comm (OpFile k v true) op) in Hkp by (simpl; congruence). apply IH in Hkp as (t0 & ? & ->).
    eexists; split; [by apply crash_kept|done].
  - rewrite set_file_comm in Hto by (intros ->; by apply Hd). apply IH in Hto as (t0 & ? & ->).
    eexists; split; [by eapply crash_torn|done].
Qed.

(** ** Trees *)

Lemma t_read_set_file t p k v :
  resolve t p = Some k → t_read (set_file k v t) p = v.
Proof.
  intros Hr. unfold t_read. replace (resolve (set_file k v t) p) with (resolve t p) by (by destruct p).
  rewrite Hr. simpl. apply lookup_partial_alter_eq.
Qed.

Lemma t_read_set_file_ne t p k v :
  resolve t p ≠ Some k → t_read (set_file k v t) p = t_read t p.
Proof.
  intros Hr. unfold t_read. replace (resolve (set_file k v t) p) with (resolve t p) by (by destruct p).
  destruct (resolve t p) as [k'|]; [|done]. simpl. apply lookup_partial_alter_ne. congruence.
Qed.

Lemma resolve_set_file t p k v : resolve (set_file k v t) p = resolve t p.
Proof. by destruct p. Qed.

Lemma resolve_inj t p q k : resolve t p = Some k → resolve t q = Some k → p = q.
Proof.
  destruct p as [| |id l], q as [| |id' l']; simpl; rewrite ?fmap_Some; naive_solver.
Qed.

(** Writing a file changes what is read under its own name only. *)
Lemma t_read_write t p q k v :
  resolve t p = Some k → t_read (set_file k v t) q = if decide (q = p) then v else t_read t q.
Proof.
  intros Hr. case_decide as Hq; [subst; by apply t_read_set_file|].
  apply t_read_set_file_ne. intros Hr'. by apply Hq, (resolve_inj t _ _ k).
Qed.

(** ** Generations *)

Definition key_below (n : nat) (k : Key) : Prop :=
  match k with KRevision _ g _ => (g < n)%nat | _ => True end.

Definition op_below (n : nat) (op : DiskOp) : Prop :=
  match op with OpFile k _ _ => key_below n k | OpDir _ (Some g) => (g < n)%nat | OpDir _ None => True end.

Definition tree_below (n : nat) (t : Tree) : Prop :=
  (∀ k b, t_files t !! k = Some b → key_below n k) ∧ (∀ id g, t_dirs t !! id = Some g → (g < n)%nat).

Lemma key_below_mono n n' k : (n ≤ n')%nat → key_below n k → key_below n' k.
Proof. destruct k; simpl; [done..|lia]. Qed.

Lemma op_below_mono n n' op : (n ≤ n')%nat → op_below n op → op_below n' op.
Proof. destruct op as [k ? ?|id [g|]]; simpl; [apply key_below_mono|lia|done]. Qed.

Lemma tree_below_mono n n' t : (n ≤ n')%nat → tree_below n t → tree_below n' t.
Proof.
  intros Hn [H1 H2]. split; [intros; eapply key_below_mono; eauto|]. intros id g Hg. specialize (H2 id g Hg). lia.
Qed.

Lemma tree_below_set_file n k v t : (v ≠ None → key_below n k) → tree_below n t → tree_below n (set_file k v t).
Proof.
  intros Hk [H1 H2]. split; [|done]. intros k' b. simpl.
  destruct (decide (k = k')) as [<-|Hne]; [rewrite lookup_partial_alter_eq|rewrite lookup_partial_alter_ne by done; apply H1].
  intros ->. by apply Hk.
Qed.

Lemma tree_below_set_dir n id v t : (∀ g, v = Some g → (g < n)%nat) → tree_below n t → tree_below n (set_dir id v t).
Proof.
  intros Hv [H1 H2]. split; [done|]. intros id' g. simpl.
  destruct (decide (id = id')) as [<-|Hne]; [rewrite lookup_partial_alter_eq; apply Hv|].
  rewrite lookup_partial_alter_ne by done. apply H2.
Qed.

Lemma tree_below_apply n op t : op_below n op → tree_below n t → tree_below n (apply_op t op).
Proof.
  destruct op as [k v s|id v]; simpl; intros Hop; [by apply tree_below_set_file|].
  apply tree_below_set_dir. by intros g ->.
Qed.

Lemma tree_below_apply_ops n ops t : Forall (op_below n) ops → tree_below n t → tree_below n (apply_ops ops t).
Proof.
  intros Hall. revert t. induction Hall as [|op ops Hop Hall IH]; intros t Ht; [done|]. simpl.
  apply IH. by apply tree_below_apply.
Qed.

(** A generation not used yet has no files. *)
Lemma tree_below_fresh n t id leaf : tree_below n t → t_files t !! KRevision id n leaf = None.
Proof.
  intros [H1 _]. destruct (t_files t !! _) eqn:Hl; [|done]. apply H1 in Hl. simpl in Hl. lia.
Qed.

Lemma resolve_below n t p k : tree_below n t → resolve t p = Some k → key_below n k.
Proof.
  intros [_ H2]. destruct p as [|nm|id l]; simpl; [by intros [= <-]..|].
  rewrite fmap_Some. intros (g & Hg & ->). simpl. by eapply H2.
Qed.

(** ** The assertion *)

Section logic.
Context {Ev : Type}.
Implicit Types (φ : list Ev → Tree → Prop) (ψ : Tree → Prop) (dk : Disk Ev).

Definition point_ok φ (pt : Point Ev) : Prop :=
  ∀ t, crash (pt_pending pt) (pt_durable pt) t → φ (pt_log pt) t.

Record at_tmp (ff : bool) φ (l : list Ev) (v : Tree) ψ (tmp : option (string * bool)) dk : Prop := {
  at_faults : ff = true → dk_faults dk = [];
  at_log : dk_log dk = l;
  at_view : dk_view dk = v;
  at_dirs_below : tree_below (dk_next dk) (dk_durable dk);
  at_ops_below : Forall (op_below (dk_next dk)) (dk_pending dk);
  at_now : ∀ t, crash (dk_pending dk) (dk_durable dk) t → ψ t;
  at_trace : Forall (point_ok φ) (dk_trace dk);
  at_temp : dk_tmp dk = tmp;
}.

Definition at_disk ff φ l v ψ dk : Prop := at_tmp ff φ l v ψ (dk_tmp dk) dk.

(** What holds when a call failed; nothing fails with [ff]. *)
Definition fails (ff : bool) (P : Disk Ev → Prop) dk : Prop := ff = false ∧ P dk.

Definition after_set (k : Key) (v : option string) ψ (t : Tree) : Prop := ∃ t0, ψ t0 ∧ t = set_file k v t0.

Lemma at_tmp_disk ff φ l v ψ tmp dk : at_tmp ff φ l v ψ tmp dk → at_disk ff φ l v ψ dk.
Proof. intros H. unfold at_disk. by rewrite (at_temp _ _ _ _ _ _ _ H). Qed.

Lemma at_disk_view ff φ l v ψ dk : at_disk ff φ l v ψ dk → ψ v.
Proof. intros H. rewrite <-(at_view _ _ _ _ _ _ _ H). apply (at_now _ _ _ _ _ _ _ H), crash_view. Qed.

Lemma at_tmp_weaken ff φ l v ψ ψ' tmp dk :
  (∀ t, ψ t → ψ' t) → at_tmp ff φ l v ψ tmp dk → at_tmp ff φ l v ψ' tmp dk.
Proof. intros Hw []. split; auto. Qed.

Lemma at_disk_weaken ff φ l v ψ ψ' dk : (∀ t, ψ t → ψ' t) → at_disk ff φ l v ψ dk → at_disk ff φ l v ψ' dk.
Proof. intros. by eapply at_tmp_weaken. Qed.

Lemma at_tmp_set_faults ff φ l v ψ tmp f dk :
  (ff = true → f = []) → at_tmp ff φ l v ψ tmp dk → at_tmp ff φ l v ψ tmp (set_faults f dk).
Proof. intros Hf []. by split. Qed.

(** Recording the moment costs what holds now. *)
Lemma at_tmp_record ff φ l v ψ tmp dk :
  (∀ t, ψ t → φ l t) → at_tmp ff φ l v ψ tmp dk → at_tmp ff φ l v ψ tmp (dk_record dk).
Proof.
  intros Hφ [? Hl ? ? ? Hn ? ?]. split; try done. simpl. constructor; [|done].
  intros t Hc. simpl in *. rewrite Hl. auto.
Qed.

(** [R] and [R'] are facts about the durable tree and the pending operations. *)
Lemma syscall_at_with (R R' : list DiskOp → Tree → Prop) name eff ff φ l v ψ tmp v' ψ' tmp' :
  (∀ t, ψ t → φ l t) → (∀ t, ψ' t → φ l t) →
  (∀ dk, at_tmp ff φ l v ψ tmp dk → R (dk_pending dk) (dk_durable dk) →
         at_tmp ff φ l v' ψ' tmp' (eff dk) ∧ R' (dk_pending (eff dk)) (dk_durable (eff dk))) →
  spec (λ dk, at_tmp ff φ l v ψ tmp dk ∧ R (dk_pending dk) (dk_durable dk)) (syscall name eff)
    (λ _ dk, at_tmp ff φ l v' ψ' tmp' dk ∧ R' (dk_pending dk) (dk_durable dk)) (fails ff (at_tmp ff φ l v ψ tmp)).
Proof.
  intros Hφ Hφ' He dk [Hdk HR]. unfold syscall. pose proof (at_faults _ _ _ _ _ _ _ Hdk) as Hf.
  destruct (dk_faults dk) as [|[] faults] eqn:Hfs.
  - destruct (He dk Hdk HR). split; [by apply at_tmp_record|done].
  - split; [by destruct ff; [discriminate Hf|]|]. apply at_tmp_record, at_tmp_set_faults, Hdk; [done|].
    intros ->. discriminate Hf; done.
  - destruct (He (set_faults faults dk)); [|done|split; [by apply at_tmp_record|done]].
    apply at_tmp_set_faults, Hdk. intros ->. discriminate Hf; done.
Qed.

Lemma syscall_at name eff ff φ l v ψ tmp v' ψ' tmp' :
  (∀ t, ψ t → φ l t) → (∀ t, ψ' t → φ l t) →
  (∀ dk, at_tmp ff φ l v ψ tmp dk → at_tmp ff φ l v' ψ' tmp' (eff dk)) →
  spec (at_tmp ff φ l v ψ tmp) (syscall name eff) (λ _, at_tmp ff φ l v' ψ' tmp') (fails ff (at_tmp ff φ l v ψ tmp)).
Proof.
  intros Hφ Hφ' He. eapply spec_conseq; [by apply (syscall_at_with (λ _ _, True) (λ _ _, True) name eff ff φ l v ψ tmp v' ψ' tmp'); auto|done| |done].
  by intros _ dk [? _].
Qed.

Lemma quiet_at name ff φ l v ψ tmp :
  (∀ t, ψ t → φ l t) →
  spec (at_tmp ff φ l v ψ tmp) (sys_quiet name) (λ _, at_tmp ff φ l v ψ tmp) (fails ff (at_tmp ff φ l v ψ tmp)).
Proof. intros. by apply syscall_at. Qed.

(** ** The calls of [writeAtomic] *)

Lemma set_tmp_at name ff φ l v ψ tmp tmp' eff :
  (∀ t, ψ t → φ l t) → (∀ dk, dk_tmp dk = tmp → eff dk = set_tmp tmp' dk) →
  spec (at_tmp ff φ l v ψ tmp) (syscall name eff) (λ _, at_tmp ff φ l v ψ tmp') (fails ff (at_tmp ff φ l v ψ tmp)).
Proof.
  intros Hφ He. apply syscall_at; [done..|]. intros dk Hdk. rewrite He by apply Hdk. destruct Hdk. by split.
Qed.

Lemma view_add_op op dk : dk_view (add_op op dk) = apply_op (dk_view dk) op.
Proof. unfold dk_view, apply_ops. simpl. by rewrite fold_left_app. Qed.

Lemma at_next_below ff φ l v ψ tmp dk : at_tmp ff φ l v ψ tmp dk → tree_below (dk_next dk) v.
Proof. intros []. subst v. by apply tree_below_apply_ops. Qed.

Lemma add_file_at ff φ l v ψ tmp k b dk :
  at_tmp ff φ l v ψ tmp dk → key_below (dk_next dk) k →
  at_tmp ff φ l (set_file k b v) (λ t, ψ t ∨ after_set k b ψ t) tmp (add_op (OpFile k b true) dk).
Proof.
  intros [? ? Hv ? ? Hn ? ?] Hk. split; try done.
  - by rewrite view_add_op, Hv.
  - simpl. apply Forall_app. split; [done|]. by constructor.
  - intros t (t0 & Hc & [->| ->]%crash_file)%crash_app; [left; auto|right; exists t0; auto].
Qed.

Lemma add_dir_at ff φ l v ψ tmp id g dk :
  at_tmp ff φ l v ψ tmp dk → (∀ n, g = Some n → (n < dk_next dk)%nat) →
  at_tmp ff φ l (set_dir id g v) (λ t, ψ t ∨ ∃ t0, ψ t0 ∧ t = set_dir id g t0) tmp (add_op (OpDir id g) dk).
Proof.
  intros [? ? Hv ? ? Hn ? ?] Hk. split; try done.
  - by rewrite view_add_op, Hv.
  - simpl. apply Forall_app. split; [done|]. constructor; [|done]. simpl. destruct g; [by apply Hk|done].
  - intros t (t0 & Hc & [->| ->]%crash_dir)%crash_app; [left; auto|right; exists t0; auto].
Qed.

Lemma next_gen_at ff φ l v ψ tmp dk : at_tmp ff φ l v ψ tmp dk → at_tmp ff φ l v ψ tmp (next_gen dk).
Proof.
  intros []. split; try done; simpl.
  - by eapply tree_below_mono; [|done]; lia.
  - eapply Forall_impl; [done|]. intros op. apply op_below_mono. lia.
Qed.

(** The pending operations end with the rename; without it [ψ] holds. *)
Definition renamed k b ψ (ops : list DiskOp) (dur : Tree) : Prop :=
  ∃ ops0, ops = ops0 ++ [OpFile k (Some b) true] ∧ ∀ t, crash ops0 dur t → ψ t.

Lemma rename_at ff φ l v ψ p k b :
  resolve v p = Some k → (∀ t, ψ t → φ l t) → (∀ t, after_set k (Some b) ψ t → φ l t) →
  spec (at_tmp ff φ l v ψ (Some (b, true))) (sys_rename p)
    (λ _ dk, at_tmp ff φ l (set_file k (Some b) v) (λ t, ψ t ∨ after_set k (Some b) ψ t) None dk ∧
             renamed k b ψ (dk_pending dk) (dk_durable dk))
    (fails ff (at_tmp ff φ l v ψ (Some (b, true)))).
Proof.
  intros Hk Hφ Hφ' dk Hdk. unfold sys_rename.
  rewrite (at_view _ _ _ _ _ _ _ Hdk), Hk, (at_temp _ _ _ _ _ _ _ Hdk).
  apply (syscall_at_with (λ _ _, True) (renamed k b ψ) "rename"); [exact Hφ|intros t []; auto| |done].
  intros dk' Hdk' _. split.
  - apply add_file_at; [|simpl; eapply resolve_below; [by eapply at_next_below|done]].
    destruct Hdk'. by split.
  - exists (dk_pending dk'). split; [done|]. apply Hdk'.
Qed.

(** After the sync every outcome has the new contents. *)
Lemma sync_renamed_at D k b ff φ l v ψ tmp dk :
  key_dir k = D →
  at_tmp ff φ l v (λ t, ψ t ∨ after_set k (Some b) ψ t) tmp dk → renamed k b ψ (dk_pending dk) (dk_durable dk) →
  at_tmp ff φ l v (after_set k (Some b) ψ) tmp (sync_ops D dk).
Proof.
  intros HD [? ? Hv Hbt Hbo Hn ? ?] (ops & Hops & Hψ). rewrite Forall_forall in Hbo.
  split; try done; simpl.
  - rewrite <-Hv. apply view_sync.
  - apply tree_below_apply_ops; [|done]. apply Forall_forall. intros op [_ Hin]%list_elem_of_filter. by apply Hbo.
  - apply Forall_forall. intros op [_ Hin]%list_elem_of_filter. by apply Hbo.
  - intros t. rewrite Hops, !filter_app, !filter_cons. simpl.
    destruct (decide (key_dir k = D)) as [_|]; [|done]. destruct (decide (key_dir k ≠ D)) as [|_]; [done|].
    rewrite !filter_nil, app_nil_r. unfold apply_ops. rewrite fold_left_app. simpl. intros Hc.
    eapply crash_comm in Hc as (t0 & Hc & ->); [|done|].
    + exists t0. split; [|done]. apply Hψ. by eapply crash_sync.
    + apply Forall_forall. intros op Hin. by apply list_elem_of_filter in Hin as [? _].
Qed.

Lemma sync_at D ff φ l v ψ tmp dk : at_tmp ff φ l v ψ tmp dk → at_tmp ff φ l v ψ tmp (sync_ops D dk).
Proof.
  intros [? ? Hv Hbt Hbo Hn ? ?]. rewrite Forall_forall in Hbo. split; try done; simpl.
  - rewrite <-Hv. apply view_sync.
  - apply tree_below_apply_ops; [|done]. apply Forall_forall. intros op [_ Hin]%list_elem_of_filter. by apply Hbo.
  - apply Forall_forall. intros op [_ Hin]%list_elem_of_filter. by apply Hbo.
  - intros t Hc. apply Hn. by eapply crash_sync.
Qed.

(** What a call to [writeAtomic] that failed leaves: nothing, or the new
    contents in sight but not durable. *)
Definition half_written ff φ l v ψ k b dk : Prop :=
  at_disk ff φ l v ψ dk ∨ at_disk ff φ l (set_file k (Some b) v) (λ t, ψ t ∨ after_set k (Some b) ψ t) dk.

Lemma half_written_tmp ff φ l v ψ k b tmp dk :
  fails ff (at_tmp ff φ l v ψ tmp) dk → fails ff (half_written ff φ l v ψ k b) dk.
Proof. intros [Hff Hdk]. split; [done|]. left. by eapply at_tmp_disk. Qed.

(** Up to the rename only the temporary file changes. *)
Lemma prepare_at {A} ff φ l v ψ p k b (rest : GoM (Disk Ev) A) Q :
  resolve v p = Some k → (∀ t, ψ t → φ l t) →
  spec (at_tmp ff φ l v ψ (Some (b, true))) rest Q (fails ff (half_written ff φ l v ψ k b)) →
  spec (at_disk ff φ l v ψ)
    (_ ← mkdir_of p; _ ← sys_create_temp; _ ← sys_quiet "chmod"; _ ← sys_write_temp b; _ ← sys_sync_temp;
     _ ← sys_quiet "close"; rest) Q (fails ff (half_written ff φ l v ψ k b)).
Proof.
  intros Hk Hφ Hrest.
  assert (Hq : ∀ name eff tm tm', (∀ dk, dk_tmp dk = tm → eff dk = set_tmp tm' dk) →
    spec (at_tmp ff φ l v ψ tm) (syscall name eff) (λ _, at_tmp ff φ l v ψ tm') (fails ff (half_written ff φ l v ψ k b))).
  { intros name eff tm tm' Heff. eapply spec_conseq; [by apply (set_tmp_at name ff φ l v ψ tm tm')|done|done|apply half_written_tmp]. }
  assert (Hid : ∀ name tm, spec (at_tmp ff φ l v ψ tm) (sys_quiet name) (λ _, at_tmp ff φ l v ψ tm) (fails ff (half_written ff φ l v ψ k b))).
  { intros. eapply spec_conseq; [by apply quiet_at|done|done|apply half_written_tmp]. }
  intros dk Hdk. refine (spec_bind _ _ (at_tmp ff φ l v ψ (dk_tmp dk)) (λ _, at_tmp ff φ l v ψ (dk_tmp dk)) _ _ _ _ dk Hdk).
  { eapply (spec_conseq _ _ (at_tmp ff φ l v ψ (dk_tmp dk)) _ (λ _, at_tmp ff φ l v ψ (dk_tmp dk)) _
      (fails ff (at_tmp ff φ l v ψ (dk_tmp dk)))); [|done|done|apply half_written_tmp].
    destruct p as [| |id leaf]; simpl; [by apply quiet_at..|]. apply syscall_at; [done..|].
    intros dk' Hdk'. rewrite (at_view _ _ _ _ _ _ _ Hdk'). simpl in Hk. by destruct (t_dirs v !! id). }
  intros _. eapply spec_bind; [by apply (Hq _ _ _ (Some (EmptyString, false)))|].
  intros []. eapply spec_bind; [apply Hid|].
  intros []. eapply spec_bind; [by apply (Hq _ _ _ (Some (b, false)))|].
  intros []. eapply spec_bind; [apply (Hq _ _ _ (Some (b, true))); intros dk' ->; done|].
  intros []. eapply spec_bind; [apply Hid|]. done.
Qed.

Lemma writeAtomic_at ff φ l v ψ p k b :
  resolve v p = Some k → (∀ t, ψ t → φ l t) → (∀ t, after_set k (Some b) ψ t → φ l t) →
  spec (at_disk ff φ l v ψ) (writeAtomic p b)
    (λ _, at_disk ff φ l (set_file k (Some b) v) (after_set k (Some b) ψ))
    (fails ff (half_written ff φ l v ψ k b)).
Proof.
  intros Hk Hφ Hφ'. apply (prepare_at ff φ l v ψ p k b); [done..|].
  eapply spec_bind; [eapply spec_conseq; [by apply (rename_at ff φ l v ψ p k b)|done|done|apply half_written_tmp]|].
  intros []. set (v' := set_file k (Some b) v). set (ψ' t := ψ t ∨ after_set k (Some b) ψ t).
  assert (Hφ2 : ∀ t, ψ' t → φ l t) by (intros t []; auto).
  assert (He : ∀ dk, fails ff (at_tmp ff φ l v' ψ' None) dk → fails ff (half_written ff φ l v ψ k b) dk).
  { intros dk [Hff Hdk]. split; [done|]. right. by eapply at_tmp_disk. }
  eapply spec_bind.
  { eapply spec_conseq; [by apply (syscall_at_with (renamed k b ψ) (renamed k b ψ) "open dir" id ff φ l v' ψ' None v' ψ' None)
      |done|done|apply He]. }
  intros [] dk [Hdk Hren]. unfold sys_sync_dir_of.
  rewrite (at_view _ _ _ _ _ _ _ Hdk). unfold v' at 1. rewrite resolve_set_file, Hk.
  pose proof (syscall_at_with (renamed k b ψ) (λ _ _, True) "fsync dir" (sync_ops (key_dir k)) ff φ l v' ψ' None
    v' (after_set k (Some b) ψ) None Hφ2 Hφ') as Hs.
  specialize (Hs (λ dk H1 H2, conj (sync_renamed_at _ k b ff φ l v' ψ None dk eq_refl H1 H2) I) dk (conj Hdk Hren)).
  destruct (syscall _ _ dk) as [dk' [e|[]]]; [by apply He|]. destruct Hs. by eapply at_tmp_disk.
Qed.

(** ** The other calls *)

Lemma at_disk_tmp ff φ l v ψ {A} (m : GoM (Disk Ev) A) Q E :
  (∀ tmp, spec (at_tmp ff φ l v ψ tmp) m Q E) → spec (at_disk ff φ l v ψ) m Q E.
Proof. intros H dk Hdk. exact (H _ dk Hdk). Qed.

Lemma at_disk_syscall name eff ff φ l v ψ v' ψ' :
  (∀ t, ψ t → φ l t) → (∀ t, ψ' t → φ l t) →
  (∀ tmp dk, at_tmp ff φ l v ψ tmp dk → at_tmp ff φ l v' ψ' tmp (eff dk)) →
  spec (at_disk ff φ l v ψ) (syscall name eff) (λ _, at_disk ff φ l v' ψ') (fails ff (at_disk ff φ l v ψ)).
Proof.
  intros Hφ Hφ' He. apply at_disk_tmp. intros tmp.
  eapply spec_conseq; [by apply (syscall_at name eff ff φ l v ψ tmp v' ψ' tmp); auto|done| |].
  - intros ? dk. apply at_tmp_disk.
  - intros dk [Hff Hdk]. split; [done|]. by eapply at_tmp_disk.
Qed.

Lemma at_disk_quiet name ff φ l v ψ :
  (∀ t, ψ t → φ l t) →
  spec (at_disk ff φ l v ψ) (sys_quiet name) (λ _, at_disk ff φ l v ψ) (fails ff (at_disk ff φ l v ψ)).
Proof. intros. by apply at_disk_syscall. Qed.

Definition read_result (ff : bool) (found : option string) (r : result string) : Prop :=
  match r with
  | inr b => found = Some b
  | inl e => (found = None ∧ e = ErrNotExist) ∨ (ff = false ∧ errors_is "os.ErrNotExist" e = false)
  end.

Lemma quiet_error name dk dk' e : sys_quiet name dk = (dk', inl e) → e = Errorf name.
Proof. unfold sys_quiet, syscall. destruct (dk_faults dk) as [|[] ?]; intros [= <- <-]; done. Qed.

Lemma read_file_at ff φ l v ψ p E :
  (∀ t, ψ t → φ l t) →
  spec (at_disk ff φ l v ψ) (read_file p) (λ r dk, read_result ff (t_read v p) r ∧ at_disk ff φ l v ψ dk) E.
Proof.
  intros Hφ dk Hdk. unfold read_file. pose proof (at_disk_quiet "open" ff φ l v ψ Hφ dk Hdk) as Hq.
  destruct (sys_quiet "open" dk) as [dk' [e|[]]] eqn:He.
  - destruct Hq. split; [|done]. right. split; [done|]. by apply quiet_error in He as ->.
  - split; [|done]. rewrite (at_view _ _ _ _ _ _ _ Hq). destruct (t_read v p); simpl; auto.
Qed.

Lemma stat_at ff φ l v ψ id E :
  (∀ t, ψ t → φ l t) →
  spec (at_disk ff φ l v ψ) (stat_revision id)
    (λ r dk, match r with
             | inr _ => is_Some (t_dirs v !! id)
             | inl e => errors_is "os.ErrNotExist" e = true ∧ t_dirs v !! id = None ∨
                        ff = false ∧ errors_is "os.ErrNotExist" e = false
             end ∧ at_disk ff φ l v ψ dk) E.
Proof.
  intros Hφ dk Hdk. unfold stat_revision. pose proof (at_disk_quiet "stat" ff φ l v ψ Hφ dk Hdk) as Hq.
  destruct (sys_quiet "stat" dk) as [dk' [e|[]]] eqn:He.
  - destruct Hq. split; [|done]. right. split; [done|]. by apply quiet_error in He as ->.
  - split; [|done]. rewrite (at_view _ _ _ _ _ _ _ Hq). destruct (t_dirs v !! id); eauto.
Qed.

Lemma outside_at {A} (ask : list Ev → A) event ff φ l v ψ E :
  (∀ t, ψ t → φ (event (ask l) :: l) t) →
  spec (at_disk ff φ l v ψ) (outside ask event)
    (λ a dk, a = ask l ∧ at_disk ff φ (event (ask l) :: l) v ψ dk) E.
Proof.
  intros Hφ dk Hdk. unfold outside. rewrite (at_log _ _ _ _ _ _ _ Hdk). split; [done|].
  apply at_tmp_record; [done|]. destruct Hdk as [? Hl ? ? ? ? ? ?]. split; try done. simpl. by rewrite Hl.
Qed.

Lemma mkdir_at ff φ l v ψ id :
  (∀ t, ψ t → φ l t) → (∀ n t, ψ t → φ l (set_dir id (Some n) t)) →
  t_dirs v !! id = None →
  spec (at_disk ff φ l v ψ) (sys_mkdir id)
    (λ _ dk, ∃ n, (∀ leaf, t_files v !! KRevision id n leaf = None) ∧
       at_disk ff φ l (set_dir id (Some n) v) (λ t, ψ t ∨ ∃ t0, ψ t0 ∧ t = set_dir id (Some n) t0) dk)
    (fails ff (at_disk ff φ l v ψ)).
Proof.
  intros Hφ Hφ' Hid dk Hdk. set (n := dk_next dk).
  assert (Heff : ∀ f, at_disk ff φ l v ψ (set_faults f dk) → at_disk ff φ l (set_dir id (Some n) v)
    (λ t, ψ t ∨ ∃ t0, ψ t0 ∧ t = set_dir id (Some n) t0)
    (dk_record (set_faults f dk |> add_op (OpDir id (Some n)) |> next_gen))).
  { intros f Hf. apply at_tmp_record; [intros t [Ht|(t0 & Ht & ->)]; auto|].
    pose proof (next_gen_at _ _ _ _ _ _ _ Hf) as Hg.
    apply (add_dir_at _ _ _ _ _ _ id (Some n)) in Hg; [|intros ? [= <-]; simpl; lia].
    exact (at_tmp_disk _ _ _ _ _ _ _ Hg). }
  pose proof (at_faults _ _ _ _ _ _ _ Hdk) as Hff.
  assert (Hfresh : ∀ leaf, t_files v !! KRevision id n leaf = None).
  { intros leaf. apply tree_below_fresh. by eapply at_next_below. }
  unfold sys_mkdir, syscall.
  destruct (dk_faults dk) as [|[] faults] eqn:Hfs.
  - rewrite (at_view _ _ _ _ _ _ _ Hdk), Hid. exists n. split; [done|].
    specialize (Heff []). unfold set_faults in Heff. rewrite <-Hfs in Heff. destruct dk. by apply Heff.
  - split; [by destruct ff; [discriminate Hff|]|]. apply at_tmp_record, at_tmp_set_faults, Hdk; [done|].
    intros ->. discriminate Hff; done.
  - assert (Hv : dk_view (set_faults faults dk) = v) by apply (at_view _ _ _ _ _ _ _ Hdk).
    rewrite Hv, Hid. exists n. split; [done|]. apply Heff, at_tmp_set_faults, Hdk.
    intros ->. discriminate Hff; done.
Qed.

(** [v'] is [v] without some of the files of the directory [id]. *)
Record thinned (id : string) (v v' : Tree) : Prop := {
  thin_dirs : t_dirs v' = t_dirs v;
  thin_files k : (∀ g leaf, k ≠ KRevision id g leaf) → t_files v' !! k = t_files v !! k;
}.

Definition removed (id : string) (v v' : Tree) : Prop := ∃ v1, thinned id v v1 ∧ v' = set_dir id None v1.

Lemma thinned_refl id v : thinned id v v.
Proof. done. Qed.

Lemma thinned_unlink id g leaf v v1 : thinned id v v1 → thinned id v (set_file (KRevision id g leaf) None v1).
Proof.
  intros [Hd Hf]. split; [done|]. intros k Hk. simpl. rewrite lookup_partial_alter_ne by (intros <-; by eapply Hk). auto.
Qed.

(** A predicate that removing the directory [id] cannot falsify. *)
Record removable (id : string) ψ : Prop := {
  rm_file g leaf t : ψ t → ψ (set_file (KRevision id g leaf) None t);
  rm_dir t : ψ t → ψ (set_dir id None t);
}.

Lemma unlinks_at ff φ l v ψ id g leaves :
  (∀ t, ψ t → φ l t) → removable id ψ → t_dirs v !! id = Some g →
  spec (λ dk, ∃ v1, thinned id v v1 ∧ at_disk ff φ l v1 ψ dk) (for_each (sys_unlink id g) leaves)
    (λ _ dk, ∃ v1, thinned id v v1 ∧ at_disk ff φ l v1 ψ dk)
    (fails ff (λ dk, ∃ v1, thinned id v v1 ∧ at_disk ff φ l v1 ψ dk)).
Proof.
  intros Hφ [Hrf _] Hg. induction leaves as [|leaf leaves IH]; simpl; [by intros dk Hdk|].
  apply (spec_bind _ _ _ (λ _ dk, ∃ v1, thinned id v v1 ∧ at_disk ff φ l v1 ψ dk)); [|intros []; exact IH].
  intros dk (v1 & Ht & Hdk).
  pose proof (at_disk_syscall "unlink" (add_op (OpFile (KRevision id g leaf) None true)) ff φ l v1 ψ
    (set_file (KRevision id g leaf) None v1) ψ Hφ Hφ) as Hs.
  unfold sys_unlink. ospecialize (Hs _ dk Hdk).
  { intros tmp dk' Hdk'. eapply at_tmp_weaken; [|apply add_file_at; [done|]].
    - simpl. intros t [Hψ|(t0 & Hψ & ->)]; auto.
    - apply at_next_below in Hdk' as [_ Hb]. simpl. eapply Hb. by rewrite (thin_dirs _ _ _ Ht). }
  destruct (syscall _ _ dk) as [dk' [e|[]]].
  - destruct Hs as [? Hs]. split; [done|]. by exists v1.
  - eexists. split; [by apply thinned_unlink|done].
Qed.

Lemma remove_all_at `{LeafOrder} ff φ l v ψ id :
  (∀ t, ψ t → φ l t) → removable id ψ →
  spec (at_disk ff φ l v ψ) (sys_remove_all id)
    (λ _ dk, ∃ v', (removed id v v' ∨ t_dirs v !! id = None ∧ v' = v) ∧ at_disk ff φ l v' ψ dk)
    (fails ff (λ dk, ∃ v', thinned id v v' ∧ at_disk ff φ l v' ψ dk)).
Proof.
  intros Hφ Hrm dk Hdk. unfold sys_remove_all. rewrite (at_view _ _ _ _ _ _ _ Hdk).
  destruct (t_dirs v !! id) as [g|] eqn:Hg.
  - pose proof (unlinks_at ff φ l v ψ id g (leaf_order id) Hφ Hrm Hg dk) as Hu.
    ospecialize (Hu _); [by exists v|]. unfold mbind, GoM_bind.
    destruct (for_each _ _ dk) as [dk1 [e|[]]]; [done|]. destruct Hu as (v1 & Ht & H1).
    pose proof (at_disk_syscall "rmdir" (add_op (OpDir id None)) ff φ l v1 ψ (set_dir id None v1) ψ Hφ Hφ) as Hs.
    ospecialize (Hs _ dk1 H1).
    { intros tmp dk' Hdk'. eapply at_tmp_weaken; [|by apply add_dir_at].
      simpl. destruct Hrm as [_ Hrd]. intros t [Hψ|(t0 & Hψ & ->)]; auto. }
    destruct (syscall _ _ dk1) as [dk2 [e|[]]].
    + destruct Hs as [? Hs]. split; [done|]. by exists v1.
    + exists (set_dir id None v1). split; [left; by exists v1|done].
  - pose proof (at_disk_quiet "unlink" ff φ l v ψ Hφ dk Hdk) as Hq.
    destruct (sys_quiet "unlink" dk) as [dk' [e|[]]].
    + destruct Hq as [? Hq]. split; [done|]. by exists v.
    + exists v. auto.
Qed.

Lemma sync_revisions_at ff φ l v ψ :
  (∀ t, ψ t → φ l t) →
  spec (at_disk ff φ l v ψ) sys_sync_revisions (λ _, at_disk ff φ l v ψ) (fails ff (at_disk ff φ l v ψ)).
Proof. intros. apply at_disk_syscall; [done..|]. intros tmp dk. apply sync_at. Qed.

(** Reading around a directory that was removed. *)
Lemma thinned_read id v v' p : thinned id v v' → (∀ leaf, p ≠ RevisionFile id leaf) → t_read v' p = t_read v p.
Proof.
  intros [Hd Hf] Hp. unfold t_read. replace (resolve v' p) with (resolve v p) by (destruct p; simpl; by rewrite ?Hd).
  destruct (resolve v p) as [k|] eqn:Hk; [|done]. simpl. apply Hf. intros g leaf ->.
  destruct p as [| |id' leaf']; simpl in Hk; [done..|]. apply fmap_Some in Hk as (? & ? & [= <- <- <-]). by eapply Hp.
Qed.

Lemma removed_read id v v' p : removed id v v' → (∀ leaf, p ≠ RevisionFile id leaf) → t_read v' p = t_read v p.
Proof.
  intros (v1 & Ht & ->) Hp. rewrite <-(thinned_read id v v1 p) by done. unfold t_read.
  replace (resolve (set_dir id None v1) p) with (resolve v1 p); [done|].
  destruct p as [| |id' leaf]; [done..|]. simpl. rewrite lookup_partial_alter_ne; [done|]. intros ->. by eapply Hp.
Qed.

(** ** A fresh start *)

Lemma list_max_elem n ns : n ∈ ns → (n ≤ list_max ns)%nat.
Proof.
  intros Hin. pose proof (proj1 (list_max_le ns (list_max ns)) (le_n _)) as Hall.
  rewrite Forall_forall in Hall. by apply Hall.
Qed.

Lemma tree_below_max t : tree_below (S (max_gen t)) t.
Proof.
  split.
  - intros k b Hk. destruct k as [| |id g leaf]; simpl; [done..|].
    enough (g ≤ max_gen t)%nat by lia. unfold max_gen. etrans; [|apply Nat.le_max_l].
    apply list_max_elem, list_elem_of_fmap. exists (KRevision id g leaf, b). by rewrite elem_of_map_to_list.
  - intros id g Hg. enough (g ≤ max_gen t)%nat by lia. unfold max_gen. etrans; [|apply Nat.le_max_r].
    apply list_max_elem, list_elem_of_fmap. exists (id, g). by rewrite elem_of_map_to_list.
Qed.

Lemma boot_at ff φ t faults ψ : (ff = true → faults = []) → ψ t → at_disk ff φ [] t ψ (boot t faults).
Proof.
  intros Hf Hψ. split; try done; simpl; [apply tree_below_max|intros t0 Hc; by inversion Hc; subst].
Qed.
End logic.
