(* ===== verification/Revision.v ===== *)
(** * Configuration revisions ([agent/internal/config])

    revision.go, revision_maintenance.go, startup.go, status.go, bootstrap.go
    and lock_try.go: the manager that makes a candidate configuration the
    active one, watches the agent under it for a probation period, promotes
    or rolls back, and reconciles an interrupted transaction when the agent
    starts.  Its operations are programs over [Disk]; the clock, the sleep
    and the agent under validation answer according to the events so far.

    Decoding YAML, the JSON form of a manifest and SHA-256 are interfaces.
    Taking the exclusive lock waits, which takes no step here; another holder
    is visible only to [tryLock].  Entries of revisions/ are directories. *)

From Stdlib Require Import Ascii.
From S2P Require Import Prelude StableSort GoStrings GoTime.
From S2P Require Import ConfigModel ConfigValidate Disk.

Module revision.

(** ** Data *)

(** [OtherStatus]: a string that is none of the constants. *)
Inductive RevisionStatus : Type :=
  | RevisionCandidate | RevisionValidating | RevisionKnownGood | RevisionFailed | RevisionRolledBack
  | OtherStatus (raw : string).

#[export] Instance RevisionStatus_eq_dec : EqDecision RevisionStatus.
Proof. solve_decision. Defined.

Definition status_string (s : RevisionStatus) : string :=
  match s with
  | RevisionCandidate => "candidate"
  | RevisionValidating => "validating"
  | RevisionKnownGood => "known-good"
  | RevisionFailed => "failed"
  | RevisionRolledBack => "rolled-back"
  | OtherStatus raw => raw
  end.

Record Manifest : Type := mkManifest {
  mf_RevisionID : string;
  mf_CreatedAt : string;
  mf_Source : string;
  mf_SchemaVersion : Z;
  mf_ParentRevision : string;
  mf_Status : RevisionStatus;
  mf_ContentSHA256 : string;
  mf_FailureReason : string;
}.

(** [manifest.Status = s; manifest.FailureReason = reason] *)
Definition set_status (s : RevisionStatus) (reason : string) (m : Manifest) : Manifest :=
  mkManifest (mf_RevisionID m) (mf_CreatedAt m) (mf_Source m) (mf_SchemaVersion m) (mf_ParentRevision m)
    s (mf_ContentSHA256 m) reason.

(** The events outside the file system. *)
Inductive Event : Type :=
  | EvNow (t : Time)
  | EvSleep (d : Duration) (err : option error)
  | EvApply (err : option error)
  | EvHealthy (err : option error).

Abbreviation Log := (list Event).
Abbreviation M := (GoM (Disk Event)).

Record Runtime : Type := mkRuntime {
  rt_Apply : Log → option error;
  rt_Healthy : Log → option error;
}.

Record Manager : Type := mkManager {
  mg_Probation : Duration;
  mg_HealthInterval : Duration;
  mg_RevisionKeep : Z;
  mg_Now : Log → Time;
  mg_Sleep : Log → Duration → option error;
}.

Definition defaultRevisionKeep : Z := 10.
Definition maxRevisionIDAttempts : nat := 100.

(** [defaults], apart from the nil clock and the nil sleep. *)
Definition defaults (m : Manager) : Manager :=
  mkManager (if (mg_Probation m <=? 0)%Z then (60 * Second)%Z else mg_Probation m)
    (if (mg_HealthInterval m <=? 0)%Z then (5 * Second)%Z else mg_HealthInterval m)
    (if (mg_RevisionKeep m <=? 0)%Z then defaultRevisionKeep else mg_RevisionKeep m)
    (mg_Now m) (mg_Sleep m).

(** ** Interfaces *)

Class RevisionCodec : Type := {
  yaml_decode : string → result Config * Trailing;
  manifest_MarshalIndent : Manifest → result string;
  manifest_Unmarshal : string → result Manifest;
  sha256_hex : string → string;
}.

(** A manifest up to the texts that JSON may have to repair. *)
Definition core (m : Manifest) : string * string * Z * string * RevisionStatus * string :=
  (mf_RevisionID m, mf_CreatedAt m, mf_SchemaVersion m, mf_ParentRevision m, mf_Status m, mf_ContentSHA256 m).

Definition newline_text : string := String.String newline "".

(** [encodable]: the texts of [core] are valid UTF-8.  What is decoded always
    is; the digest is written in lower-case hexadecimal. *)
Class RevisionCodecLaws `{RevisionCodec} (encodable : Manifest → Prop) : Prop := {
  mj_total m : encodable m → ∃ b, manifest_MarshalIndent m = inr b;
  mj_roundtrip m b : encodable m → manifest_MarshalIndent m = inr b →
    ∃ m', manifest_Unmarshal (b +:+ newline_text) = inr m' ∧ core m' = core m;
  mj_decoded b m : manifest_Unmarshal b = inr m → encodable m;
  mj_set_status s reason m : encodable m → (∀ raw, s ≠ OtherStatus raw) → encodable (set_status s reason m);
  mj_ascii id created source parent hash :
    Forall (λ c, (nat_of_ascii c < 128)%nat) (String.list_ascii_of_string (id +:+ created +:+ parent +:+ hash)) →
    encodable (mkManifest id created source 1 parent RevisionCandidate hash "");
  sha256_hex_shape b : String.length (sha256_hex b) = 64%nat ∧
    Forall (λ c, is_digit c || (97 <=? nat_of_ascii c)%nat && (nat_of_ascii c <=? 102)%nat = true)
      (String.list_ascii_of_string (sha256_hex b));
}.

(** ** Revision names *)

Definition is_hex_digit (c : ascii) : bool :=
  is_digit c || (97 <=? nat_of_ascii c)%nat && (nat_of_ascii c <=? 102)%nat.

(** A literal, then [n] characters of a class. *)
Definition take_lit (lit : string) (l : list ascii) : option (list ascii) :=
  strip_prefix (String.list_ascii_of_string lit) l.

Fixpoint take_class (n : nat) (f : ascii → bool) (l : list ascii) : option (list ascii) :=
  match n, l with
  | O, _ => Some l
  | S n, c :: l => if f c then take_class n f l else None
  | S _, [] => None
  end.

(** [(-[0-9]+)?$] *)
Definition id_suffix (l : list ascii) : bool :=
  match l with
  | [] => true
  | c :: ((_ :: _) as ds) => Ascii.eqb c "-" && forallb is_digit ds
  | _ => false
  end.

Definition id_rest (l : list ascii) : option (list ascii) :=
  l ← take_lit "cfg-" l;
  l ← take_class 8 is_digit l;
  l ← take_lit "T" l;
  l ← take_class 6 is_digit l;
  l ← take_lit "Z-" l;
  take_class 8 is_hex_digit l.

(** [revisionIDPattern.MatchString] *)
Definition revisionIDPattern (id : string) : bool :=
  match id_rest (String.list_ascii_of_string id) with
  | Some rest => id_suffix rest
  | None => false
  end.

Definition ValidateRevisionID (id : string) : option error :=
  if revisionIDPattern id then None else Some (Errorf ("invalid revision id " +:+ Quote id)).

(** [t.UTC().Format("20060102T150405Z")] *)
Definition FormatCompact (t : Time) : string :=
  let secs := (t / Second)%Z in
  let '(y, m, d) := civil (secs / 86400) in
  let s := (secs mod 86400)%Z in
  pad 4 y +:+ pad 2 m +:+ pad 2 d +:+ "T" +:+ pad 2 (s / 3600) +:+ pad 2 (s / 60 mod 60) +:+ pad 2 (s mod 60) +:+ "Z".

Definition first_bytes (n : nat) (s : string) : string := String.substring 0 n s.

Definition throw_opt (e : option error) : M unit :=
  match e with Some e => throw e | None => mret () end.
Definition lift {A} (r : result A) : M A :=
  match r with inl e => throw e | inr a => mret a end.

Section manager.
Context `{RevisionCodec} `{LeafOrder}.

(** [Parse] *)
Definition Parse (content : string) : result Config :=
  Parse_stream (yaml_decode content).

Definition contentMatches (manifest : Manifest) (content : string) : bool :=
  EqualFold (mf_ContentSHA256 manifest) (sha256_hex content).

(** ** Outside calls *)

Definition Now (m : Manager) : M Time := outside (mg_Now m) EvNow.
Definition Sleep (m : Manager) (d : Duration) : M (option error) := outside (λ l, mg_Sleep m l d) (EvSleep d).
Definition Apply (r : Runtime) : M (option error) := outside (rt_Apply r) EvApply.
Definition Healthy (r : Runtime) : M (option error) := outside (rt_Healthy r) EvHealthy.

(** ** The lock *)

Definition Ensure : M unit := _ ← sys_quiet "mkdir"; sys_quiet "mkdir".

Definition lock : M unit :=
  _ ← Ensure; _ ← sys_quiet "open lock"; sys_quiet "flock".

(** [held]: another process holds the lock. *)
Definition tryLock (held : bool) : M bool :=
  _ ← Ensure;
  _ ← sys_quiet "open lock";
  if held then mret false else _ ← sys_quiet "flock"; mret true.

(** ** Pointers and manifests *)

Definition writePointer (name value : string) : M unit :=
  _ ← wrap_err ("write " +:+ name +:+ " pointer: ") (throw_opt (ValidateRevisionID value));
  writeAtomic (PointerFile name) (value +:+ newline_text).

Definition readPointer (name : string) : M string :=
  r ← read_file (PointerFile name);
  match r with
  | inl e => if errors_is "os.ErrNotExist" e then mret "" else throw e
  | inr b =>
      let value := TrimSpace b in
      if bool_decide (value = "") then mret ""
      else
        _ ← wrap_err ("read " +:+ name +:+ " pointer: ") (throw_opt (ValidateRevisionID value));
        mret value
  end.

(** [value, _ := m.readPointer(name)] *)
Definition pointer_or_empty (name : string) : M string :=
  r ← attempt (readPointer name);
  mret match r with inl _ => "" | inr value => value end.

Definition ActiveRevision : M string := readPointer "active".
Definition LastKnownGood : M string := readPointer "last-known-good".
Definition PreviousKnownGood : M string := readPointer "previous-known-good".

Definition writeManifest (manifest : Manifest) : M unit :=
  _ ← throw_opt (ValidateRevisionID (mf_RevisionID manifest));
  b ← lift (manifest_MarshalIndent manifest);
  writeAtomic (RevisionFile (mf_RevisionID manifest) ManifestJson) (b +:+ newline_text).

Definition readManifest (id : string) : M Manifest :=
  _ ← throw_opt (ValidateRevisionID id);
  r ← read_file (RevisionFile id ManifestJson);
  b ← lift r;
  lift (manifest_Unmarshal b).

Definition read_config (id : string) : M (result string) := read_file (RevisionFile id ConfigYaml).

(** ** The history *)

Definition newer (a b : Manifest) : bool := string_less (mf_CreatedAt b) (mf_CreatedAt a).

(** The names of the directories, sorted as [os.ReadDir] returns them. *)
Definition ReadDir : M (list string) :=
  _ ← sys_quiet "readdir";
  dirs ← gets (λ dk, t_dirs (dk_view dk));
  mret (SliceStable string_less (map_keys dirs)).

Fixpoint known_good_of (names : list string) : M (list Manifest) :=
  match names with
  | [] => mret []
  | name :: names =>
      r ← attempt (readManifest name);
      out ← known_good_of names;
      mret match r with
           | inl _ => out
           | inr manifest => if bool_decide (mf_Status manifest = RevisionKnownGood) then manifest :: out else out
           end
  end.

Definition KnownGoodRevisions : M (list Manifest) :=
  _ ← Ensure;
  names ← ReadDir;
  out ← known_good_of names;
  mret (SliceStable newer out).

Definition pointer_names : list string := ["active"; "last-known-good"; "previous-known-good"].

(** The map [protected] *)
Fixpoint protected_revisions (names : list string) : M (gset string) :=
  match names with
  | [] => mret ∅
  | name :: names =>
      id ← wrap_err ("read protected revision pointer " +:+ name +:+ ": ") (readPointer name);
      rest ← protected_revisions names;
      mret (if bool_decide (id = "") then rest else {[id]} ∪ rest)
  end.

(** The loop over the revisions; the result is [removed]. *)
Fixpoint prune_loop (keepSet : gset string) (revisions : list Manifest) (removed : bool) : M bool :=
  match revisions with
  | [] => mret removed
  | revision :: revisions =>
      if bool_decide (mf_RevisionID revision ∈ keepSet) then prune_loop keepSet revisions removed
      else
        _ ← throw_opt (ValidateRevisionID (mf_RevisionID revision));
        _ ← wrap_err ("prune revision " +:+ mf_RevisionID revision +:+ ": ") (sys_remove_all (mf_RevisionID revision));
        prune_loop keepSet revisions true
  end.

Definition keep_set (protected : gset string) (revisions : list Manifest) (keep : Z) : gset string :=
  protected ∪ list_to_set (mf_RevisionID <$> take (Z.to_nat keep) revisions).

Definition pruneRevisionsLocked (keep : Z) : M unit :=
  if (keep <? 1)%Z then throw (Errorf "revision keep count must be >= 1")
  else
    protected ← protected_revisions pointer_names;
    revisions ← KnownGoodRevisions;
    removed ← prune_loop (keep_set protected revisions keep) revisions false;
    if negb removed then mret ()
    else _ ← sys_quiet "open dir"; sys_sync_revisions.

Definition PruneRevisions (keep : Z) : M unit :=
  if (keep <? 1)%Z then throw (Errorf "revision keep count must be >= 1")
  else _ ← lock; pruneRevisionsLocked keep.

(** ** New revisions *)

(** The name of the [n]-th attempt *)
Definition nth_id (base : string) (n : nat) : string :=
  if (n =? 0)%nat then base else base +:+ "-" +:+ pretty (Z.of_nat n).

(** The attempts from the [n]-th on, [attempts] of them. *)
Fixpoint unique_from (base : string) (n attempts : nat) : M string :=
  match attempts with
  | O => throw (Errorf "unable to allocate unique revision id after 100 attempts")
  | S attempts =>
      let id := nth_id base n in
      r ← stat_revision id;
      match r with
      | inl e => if errors_is "os.ErrNotExist" e then mret id
                 else throw (Wrapf ("check revision id " +:+ Quote id +:+ ": ") e "")
      | inr _ => unique_from base (S n) attempts
      end
  end.

Definition base_id (t : Time) (contentHash : string) : string :=
  "cfg-" +:+ FormatCompact t +:+ "-" +:+ first_bytes 8 contentHash.

Definition uniqueRevisionID (m : Manager) (contentHash : string) : M string :=
  if (String.length contentHash <? 8)%nat then throw (Errorf "content hash is too short to allocate revision id")
  else
    t ← Now m;
    unique_from (base_id t contentHash) 0 maxRevisionIDAttempts.

Definition beginLocked (m : Manager) (source content : string) : M Manifest :=
  _ ← lift (Parse content);
  let hexsum := sha256_hex content in
  id ← uniqueRevisionID m hexsum;
  parent ← pointer_or_empty "active";
  _ ← sys_mkdir id;
  _ ← writeAtomic (RevisionFile id ConfigYaml) content;
  now ← Now m;
  let manifest := mkManifest id (FormatRFC3339 now) source 1 parent RevisionCandidate hexsum "" in
  _ ← writeManifest manifest;
  mret manifest.

Definition Begin (m : Manager) (source content : string) : M Manifest :=
  let m := defaults m in
  _ ← lock;
  beginLocked m source content.

(** ** Promotion, failure, rollback *)

Definition promoteLocked (m : Manager) (manifest : Manifest) : M Manifest :=
  let manifest := set_status RevisionKnownGood "" manifest in
  _ ← writeManifest manifest;
  oldLKG ← pointer_or_empty "last-known-good";
  _ ← when (negb (bool_decide (oldLKG = "")) && negb (bool_decide (oldLKG = mf_RevisionID manifest)))
        (writePointer "previous-known-good" oldLKG);
  _ ← writePointer "last-known-good" (mf_RevisionID manifest);
  _ ← writePointer "active" (mf_RevisionID manifest);
  _ ← attempt (pruneRevisionsLocked (mg_RevisionKeep m));
  mret manifest.

(** [failLocked] and [rollbackLocked] return the error of their caller. *)
Definition failLocked (manifest : Manifest) (cause : error) : M error :=
  _ ← attempt (writeManifest (set_status RevisionFailed (err_msg cause) manifest));
  mret cause.

(** [r.Apply] and then [r.Healthy], unless [r] is nil. *)
Definition wrapped (prefix : string) (e : error) : error := Wrapf prefix e "".

Definition apply_and_check (r : option Runtime) (applyErr healthErr : error → error) : M unit :=
  match r with
  | None => mret ()
  | Some r =>
      e ← Apply r;
      _ ← match e with Some e => throw (applyErr e) | None => mret () end;
      e ← Healthy r;
      match e with Some e => throw (healthErr e) | None => mret () end
  end.

(** The steps of [rollbackLocked] that put a revision back. *)
Definition rollback_to (lkg : string) (r : option Runtime) : M unit :=
  c ← read_config lkg;
  content ← wrap_err ("read last-known-good " +:+ lkg +:+ ": ") (lift c);
  _ ← wrap_err "restore last-known-good: " (writeAtomic ActiveConfig content);
  _ ← writePointer "active" lkg;
  apply_and_check r (wrapped "rollback apply failed: ") (wrapped "rollback health failed: ").

Definition rollbackLocked (failed : Manifest) (cause : error) (r : option Runtime) : M error :=
  let failed := set_status RevisionFailed (err_msg cause) failed in
  _ ← attempt (writeManifest failed);
  lkg ← pointer_or_empty "last-known-good";
  if bool_decide (lkg = "")
  then mret (Wrapf ("candidate " +:+ mf_RevisionID failed +:+ " failed and no last-known-good is available: ") cause "")
  else
    done ← attempt (rollback_to lkg r);
    match done with
    | inl e => mret e
    | inr _ =>
        _ ← attempt (writeManifest (set_status RevisionRolledBack (err_msg cause) failed));
        mret (Wrapf ("candidate " +:+ mf_RevisionID failed +:+ " rolled back to " +:+ lkg +:+ ": ") cause "")
    end.

(** ** Activation *)

(** How the probation ends. *)
Inductive Verdict : Type := Passed | Rejected (cause : error) | OutOfFuel.

(** [for m.Now().Before(deadline)] *)
Fixpoint probation (fuel : nat) (m : Manager) (r : Runtime) (deadline : Time) : M Verdict :=
  match fuel with
  | O => mret OutOfFuel
  | S fuel =>
      now ← Now m;
      if negb (Before now deadline) then mret Passed
      else
        now ← Now m;
        let remaining := time_sub deadline now in
        let wait := if (remaining <? mg_HealthInterval m)%Z then remaining else mg_HealthInterval m in
        slept ← (if (0 <? wait)%Z then Sleep m wait else mret None);
        match slept with
        | Some e => mret (Rejected e)
        | None =>
            health ← Healthy r;
            match health with
            | Some e => mret (Rejected (Wrapf "probation health: " e ""))
            | None => probation fuel m r deadline
            end
        end
  end.

(** The runtime's part of an activation. *)
Definition validate_runtime (fuel : nat) (m : Manager) (r : option Runtime) : M Verdict :=
  match r with
  | None => mret (Rejected (Errorf "runtime validator is required"))
  | Some r =>
      e ← Apply r;
      match e with
      | Some e => mret (Rejected (Wrapf "runtime apply: " e ""))
      | None =>
          e ← Healthy r;
          match e with
          | Some e => mret (Rejected (Wrapf "immediate health: " e ""))
          | None =>
              now ← Now m;
              probation fuel m r (time_add now (mg_Probation m))
          end
      end
  end.

Definition model_fuel : error := Sentinel "model.fuel" "probation has no fuel left".

Definition activate (fuel : nat) (m : Manager) (id : string) (manifest : Manifest) (content : string) (r : option Runtime) : M Manifest :=
  written ← attempt (writeAtomic ActiveConfig content);
  match written with
  | inl e => e ← failLocked manifest e; throw e
  | inr _ =>
      pointed ← attempt (writePointer "active" id);
      match pointed with
      | inl e => e ← rollbackLocked manifest (Wrapf "activate pointer: " e "") r; throw e
      | inr _ =>
          let manifest := set_status RevisionValidating "" manifest in
          _ ← writeManifest manifest;
          verdict ← validate_runtime fuel m r;
          match verdict with
          | Rejected cause => e ← rollbackLocked manifest cause r; throw e
          | Passed => promoteLocked m manifest
          | OutOfFuel => throw model_fuel
          end
      end
  end.

Definition activatable (s : RevisionStatus) : bool :=
  bool_decide (s = RevisionCandidate) || bool_decide (s = RevisionValidating).

Definition ActivateAndValidate (fuel : nat) (m : Manager) (id : string) (r : option Runtime) : M Manifest :=
  let m := defaults m in
  _ ← lock;
  manifest ← readManifest id;
  if negb (activatable (mf_Status manifest))
  then throw (Errorf ("revision " +:+ id +:+ " not activatable from status " +:+ status_string (mf_Status manifest)))
  else
    c ← read_config id;
    content ← lift c;
    if negb (contentMatches manifest content)
    then e ← failLocked manifest (Errorf "candidate content hash does not match manifest"); throw e
    else match Parse content with
    | inl e => e ← failLocked manifest e; throw e
    | inr _ => activate fuel m id manifest content r
    end.

(** ** Recovery of an interrupted transaction *)

Definition restoreKnownGoodLocked (lkg : string) (r : option Runtime) : M unit :=
  if bool_decide (lkg = "") then throw (Errorf "no last-known-good available for interrupted transaction")
  else
    c ← read_config lkg;
    content ← lift c;
    _ ← writeAtomic ActiveConfig content;
    _ ← writePointer "active" lkg;
    apply_and_check r id id.

(** The decision both recoveries share, once the pointers are read. *)
Definition reconcile (active lkg : string) (r : option Runtime) : M unit :=
  if bool_decide (active = "") then mret ()
  else
    x ← attempt (readManifest active);
    match x with
    | inl _ => restoreKnownGoodLocked lkg r
    | inr manifest =>
        if bool_decide (active = lkg) then
          if bool_decide (mf_Status manifest = RevisionKnownGood) then mret ()
          else throw (Errorf ("last-known-good pointer references non-known-good revision " +:+ active
                              +:+ " (" +:+ status_string (mf_Status manifest) +:+ ")"))
        else if bool_decide (mf_Status manifest = RevisionKnownGood) then
          _ ← when (negb (bool_decide (lkg = "")) && negb (bool_decide (lkg = active)))
                (writePointer "previous-known-good" lkg);
          writePointer "last-known-good" active
        else if bool_decide (mf_Status manifest = RevisionCandidate) || bool_decide (mf_Status manifest = RevisionValidating)
             || bool_decide (mf_Status manifest = RevisionFailed)
        then restoreKnownGoodLocked lkg r
        else mret ()
    end.

Definition RecoverInterrupted (r : option Runtime) : M unit :=
  _ ← lock;
  active ← pointer_or_empty "active";
  lkg ← pointer_or_empty "last-known-good";
  reconcile active lkg r.

(** Whether a revision's files bear its manifest out. *)
Definition verified (manifest : Manifest) : M bool :=
  c ← read_config (mf_RevisionID manifest);
  mret match c with inl _ => false | inr content => contentMatches manifest content end.

Fixpoint first_verified (revisions : list Manifest) : M string :=
  match revisions with
  | [] => mret ""
  | revision :: revisions =>
      ok ← verified revision;
      if ok : bool then mret (mf_RevisionID revision) else first_verified revisions
  end.

(** The test of the pointer [knownGoodForRepair] begins with. *)
Definition pointer_usable (lkg : string) : M bool :=
  x ← attempt (readManifest lkg);
  match x with
  | inl _ => mret false
  | inr manifest =>
      if bool_decide (mf_Status manifest = RevisionKnownGood) then
        c ← read_config lkg;
        mret match c with inl _ => false | inr content => contentMatches manifest content end
      else mret false
  end.

Definition knownGoodForRepair : M string :=
  lkg ← pointer_or_empty "last-known-good";
  usable ← (if bool_decide (lkg = "") then mret false else pointer_usable lkg);
  if usable : bool then mret lkg
  else
    revisions ← attempt KnownGoodRevisions;
    match revisions with
    | inl _ => mret ""
    | inr revisions => first_verified revisions
    end.

Definition repairKnownGoodLocked (r : option Runtime) (cause : error) : M unit :=
  lkg ← knownGoodForRepair;
  if bool_decide (lkg = "")
  then throw (Errorf (err_msg cause +:+ "; no verified known-good revision is available for startup repair"))
  else
    _ ← wrap_err (err_msg cause +:+ "; restore verified known-good " +:+ lkg +:+ ": ") (restoreKnownGoodLocked lkg r);
    wrap_err (err_msg cause +:+ "; repaired active revision but could not repair last-known-good pointer: ")
      (writePointer "last-known-good" lkg).

(** [lkg] of [recoverInterruptedLocked], with the repair of a damaged pointer. *)
Definition last_known_good_for_recovery : M string :=
  x ← attempt (readPointer "last-known-good");
  match x with
  | inr lkg => mret lkg
  | inl e =>
      lkg ← knownGoodForRepair;
      if bool_decide (lkg = "")
      then throw (Wrapf "last-known-good pointer damaged and no verified known-good revision is available: " e "")
      else _ ← wrap_err ("repair last-known-good pointer after " +:+ err_msg e +:+ ": ") (writePointer "last-known-good" lkg); mret lkg
  end.

Definition recoverInterruptedLocked (r : option Runtime) : M unit :=
  x ← attempt (readPointer "active");
  match x with
  | inl e => repairKnownGoodLocked r (Wrapf "active pointer damaged: " e "")
  | inr active =>
      lkg ← last_known_good_for_recovery;
      reconcile active lkg r
  end.

(** The part of [RecoverForStartup] after the reconciliation. *)
Definition check_active (r : option Runtime) : M unit :=
  x ← attempt (readPointer "active");
  match x with
  | inl e => repairKnownGoodLocked r (Wrapf "active pointer damaged: " e "")
  | inr active =>
      if bool_decide (active = "") then mret ()
      else
        y ← attempt (readManifest active);
        match y with
        | inl e => repairKnownGoodLocked r (Wrapf "active revision metadata invalid: " e "")
        | inr manifest =>
            c ← read_file ActiveConfig;
            match c with
            | inl e => repairKnownGoodLocked r (Wrapf "read active config: " e "")
            | inr content =>
                if contentMatches manifest content then mret ()
                else repairKnownGoodLocked r (Errorf ("active config does not match revision " +:+ active))
            end
        end
  end.

Definition RecoverForStartup (held : bool) (r : option Runtime) : M unit :=
  acquired ← tryLock held;
  if acquired : bool then _ ← recoverInterruptedLocked r; check_active r
  else mret ().

(** ** Rollback by the operator *)

(** [restoreAfterManualRollbackFailure]; its caller has a runtime. *)
Definition restore_previous (oldActive oldLKG : string) (r : Runtime) (cause : error) : M unit :=
  c ← read_config oldActive;
  content ← wrap_err ("rollback target failed (" +:+ err_msg cause +:+ ") and previous revision could not be read: ") (lift c);
  _ ← wrap_err ("rollback target failed (" +:+ err_msg cause +:+ ") and previous config restore failed: ")
        (writeAtomic ActiveConfig content);
  _ ← attempt (writePointer "active" oldActive);
  _ ← when (negb (bool_decide (oldLKG = ""))) (_ ← attempt (writePointer "last-known-good" oldLKG); mret ());
  apply_and_check (Some r)
    (wrapped ("rollback target failed (" +:+ err_msg cause +:+ "); restoring previous runtime also failed: "))
    (wrapped ("rollback target failed (" +:+ err_msg cause +:+ "); restored previous runtime unhealthy: ")).

Definition restoreAfterManualRollbackFailure (oldActive oldLKG : string) (r : Runtime) (cause : error) : M error :=
  if bool_decide (oldActive = "")
  then mret (Wrapf "rollback target failed and no previous active revision exists: " cause "")
  else
    done ← attempt (restore_previous oldActive oldLKG r cause);
    mret match done with
    | inl e => e
    | inr _ => Wrapf "rollback target rejected; previous revision restored: " cause ""
    end.

Definition Rollback (target : string) (r : option Runtime) : M unit :=
  _ ← lock;
  manifest ← readManifest target;
  if negb (bool_decide (mf_Status manifest = RevisionKnownGood))
  then throw (Errorf ("revision " +:+ target +:+ " is not known-good"))
  else
    c ← read_config target;
    content ← lift c;
    if negb (contentMatches manifest content)
    then throw (Errorf "rollback target content hash does not match manifest")
    else
      _ ← lift (Parse content);
      oldActive ← pointer_or_empty "active";
      oldLKG ← pointer_or_empty "last-known-good";
      _ ← writeAtomic ActiveConfig content;
      _ ← writePointer "active" target;
      tried ← attempt (apply_and_check r id id);
      match tried, r with
      | inl cause, Some r => e ← restoreAfterManualRollbackFailure oldActive oldLKG r cause; throw e
      | inl cause, None => throw cause
      | inr _, _ =>
          _ ← when (negb (bool_decide (oldLKG = "")) && negb (bool_decide (oldLKG = target)))
                (writePointer "previous-known-good" oldLKG);
          writePointer "last-known-good" target
      end.

(** ** Bootstrap *)

Definition BootstrapKnownGood (m : Manager) (source content : string) : M Manifest :=
  let m := defaults m in
  _ ← lock;
  _ ← lift (Parse content);
  lkg ← readPointer "last-known-good";
  if negb (bool_decide (lkg = "")) then
    manifest ← wrap_err "read existing last-known-good: " (readManifest lkg);
    if negb (bool_decide (mf_Status manifest = RevisionKnownGood))
    then throw (Errorf ("last-known-good " +:+ lkg +:+ " has invalid status " +:+ status_string (mf_Status manifest)))
    else if negb (contentMatches manifest content)
    then throw (Errorf ("active configuration differs from existing last-known-good " +:+ lkg
                        +:+ "; use a transactional configuration change"))
    else _ ← writePointer "active" lkg; mret manifest
  else
    manifest ← beginLocked m source content;
    promoteLocked m manifest.

End manager.
End revision.
