(* ===== verification/RevisionFacts.v ===== *)
(** * Facts about the revision manager

    The pure readings of the history's files, the rules of the manager's
    reads and writes in the crash logic of [DiskFacts], and what they say of
    names, pointers and pruning. *)

From Stdlib Require Import Ascii.
From S2P Require Import Prelude StableSort GoStrings GoStringFacts GoTime.
From S2P Require Import ConfigModel Disk DiskFacts Revision.

Import revision.

(** ** Names *)

Lemma hex_visible c : is_hex_digit c = true → visible c.
Proof.
  unfold is_hex_digit, is_digit, visible. rewrite orb_true_iff, !andb_true_iff, !Nat.leb_le. lia.
Qed.

Lemma digit_visible c : is_digit c = true → visible c.
Proof. unfold is_digit, visible. rewrite andb_true_iff, !Nat.leb_le. lia. Qed.

Lemma strip_prefix_app p l l' : strip_prefix p l = Some l' → l = p ++ l'.
Proof.
  revert l. induction p as [|a p IH]; intros l; simpl; [by intros [= ->]|].
  destruct l as [|b l]; [done|]. destruct (Ascii.eqb_spec a b) as [<-|]; [|done].
  intros H%IH. by rewrite H.
Qed.

Lemma take_class_app n f l l' : take_class n f l = Some l' → ∃ p, l = p ++ l' ∧ Forall (λ c, f c = true) p ∧ length p = n.
Proof.
  revert l. induction n as [|n IH]; intros [|c l]; simpl; intros Hl; try done.
  - injection Hl as <-. by exists [].
  - injection Hl as <-. by exists [].
  - destruct (f c) eqn:Hc; [|done]. apply IH in Hl as (p & -> & Hp & <-). exists (c :: p). auto.
Qed.

Lemma id_suffix_visible l : id_suffix l = true → Forall visible l.
Proof.
  destruct l as [|c [|d l]]; simpl; intros H; [constructor|done|].
  apply andb_true_iff in H as [Hc H]. apply Ascii.eqb_eq in Hc as ->. constructor; [by vm_compute; lia|].
  apply andb_true_iff in H as [Hd H]. constructor; [by apply digit_visible|].
  rewrite forallb_forall in H. apply Forall_forall. intros c Hc. by apply digit_visible, H, list_elem_of_In.
Qed.

Section names.
#[local] Arguments take_class : simpl never.
#[local] Arguments strip_prefix : simpl never.

(** A valid name consists of visible characters and begins with a c. *)
Lemma valid_id_visible id :
  ValidateRevisionID id = None →
  Forall visible (String.list_ascii_of_string id) ∧ ∃ l, String.list_ascii_of_string id = "c"%char :: l.
Proof.
  unfold ValidateRevisionID. destruct (revisionIDPattern id) eqn:Hp; [|done]. intros _. revert Hp.
  unfold revisionIDPattern, id_rest, take_lit. generalize (String.list_ascii_of_string id). intros l.
  destruct (strip_prefix _ l) as [l1|] eqn:H1; [|done]. apply strip_prefix_app in H1 as ->. simpl.
  destruct (take_class 8 is_digit l1) as [l2|] eqn:H2; [|done]. apply take_class_app in H2 as (p2 & -> & F2 & _). simpl.
  destruct (strip_prefix _ l2) as [l3|] eqn:H3; [|done]. apply strip_prefix_app in H3 as ->. simpl.
  destruct (take_class 6 is_digit l3) as [l4|] eqn:H4; [|done]. apply take_class_app in H4 as (p4 & -> & F4 & _). simpl.
  destruct (strip_prefix _ l4) as [l5|] eqn:H5; [|done]. apply strip_prefix_app in H5 as ->. simpl.
  destruct (take_class 8 is_hex_digit l5) as [l6|] eqn:H6; [|done]. apply take_class_app in H6 as (p6 & -> & F6 & _). simpl.
  intros Hs%id_suffix_visible. split; [|by eexists].
  repeat (constructor; [vm_compute; lia|]).
  apply Forall_app. split; [eapply Forall_impl; [done|]; apply digit_visible|].
  repeat (constructor; [vm_compute; lia|]).
  apply Forall_app. split; [eapply Forall_impl; [done|]; apply digit_visible|].
  repeat (constructor; [vm_compute; lia|]).
  apply Forall_app. split; [eapply Forall_impl; [done|]; apply hex_visible|]. done.
Qed.

End names.

(** ** Trimming *)

Lemma TrimSpace_line id : ValidateRevisionID id = None → TrimSpace (id +:+ newline_text) = id.
Proof.
  intros (Hall & l & Hl)%valid_id_visible. unfold TrimSpace. rewrite list_of_append, Hl.
  rewrite Hl in Hall. simpl String.list_ascii_of_string. rewrite trim_list_newline by done.
  rewrite <-Hl. apply String.string_of_list_ascii_of_string.
Qed.

Lemma valid_id_nonempty id : ValidateRevisionID id = None → id ≠ "".
Proof. intros (_ & l & Hl)%valid_id_visible ->. done. Qed.

(** ** What the files say

    The readings as functions of a tree, without faults. *)

Section facts.
Context `{RevisionCodecLaws encodable} `{LeafOrder}.
Implicit Types (φ : Log → Tree → Prop) (ψ : Tree → Prop) (t v : Tree).

Definition parse_pointer (name : string) (o : option string) : result string :=
  match o with
  | None => inr ""
  | Some b =>
      let value := TrimSpace b in
      if bool_decide (value = "") then inr ""
      else match ValidateRevisionID value with
           | Some e => inl (Wrapf ("read " +:+ name +:+ " pointer: ") e "")
           | None => inr value
           end
  end.

Definition pointer (name : string) t : result string := parse_pointer name (t_read t (PointerFile name)).

Definition parse_manifest (o : option string) : result Manifest :=
  match o with None => inl ErrNotExist | Some b => manifest_Unmarshal b end.

Definition manifest_of (id : string) t : result Manifest :=
  match ValidateRevisionID id with
  | Some e => inl e
  | None => parse_manifest (t_read t (RevisionFile id ManifestJson))
  end.

Definition config_of (id : string) t : option string := t_read t (RevisionFile id ConfigYaml).

Definition or_empty (r : result string) : string := match r with inl _ => "" | inr value => value end.

Lemma pointer_valid name t id : pointer name t = inr id → id = "" ∨ ValidateRevisionID id = None.
Proof.
  unfold pointer, parse_pointer. destruct (t_read _ _); [|intros [= <-]; auto].
  case_bool_decide; [intros [= <-]; auto|]. destruct (ValidateRevisionID _) eqn:Hv; [done|]. intros [= <-]. auto.
Qed.

(** A pointer file holds the name that was written to it. *)
Lemma parse_written_pointer name id :
  ValidateRevisionID id = None → parse_pointer name (Some (id +:+ newline_text)) = inr id.
Proof.
  intros Hid. unfold parse_pointer. rewrite TrimSpace_line by done.
  rewrite bool_decide_eq_false_2 by (by apply valid_id_nonempty). by rewrite Hid.
Qed.

(** ** Rules

    A failing read has seen a fault or damage. *)

Definition read_failed {A} ff φ l v ψ (pure : result A) (dk : Disk Event) : Prop :=
  (ff = false ∨ ∃ e, pure = inl e) ∧ at_disk ff φ l v ψ dk.

Lemma throw_opt_spec (e : option error) (P E : Disk Event → Prop) :
  (e ≠ None → ∀ dk, P dk → E dk) → spec P (throw_opt e) (λ _ dk, e = None ∧ P dk) E.
Proof. intros HE dk Hdk. destruct e; simpl; [by apply HE|done]. Qed.

Lemma lift_spec {A} (r : result A) (P E : Disk Event → Prop) :
  (∀ e, r = inl e → ∀ dk, P dk → E dk) → spec P (lift r) (λ a dk, r = inr a ∧ P dk) E.
Proof. intros HE dk Hdk. destruct r; simpl; [by eapply HE|done]. Qed.

Lemma readPointer_at ff φ l v ψ name :
  (∀ t, ψ t → φ l t) →
  spec (at_disk ff φ l v ψ) (readPointer name)
    (λ value dk, pointer name v = inr value ∧ at_disk ff φ l v ψ dk)
    (read_failed ff φ l v ψ (pointer name v)).
Proof.
  intros Hφ. unfold readPointer, read_failed. eapply spec_bind; [by apply read_file_at|]. intros r. apply spec_pure. intros Hr.
  unfold pointer. destruct r as [e|b]; simpl in Hr.
  - destruct (errors_is _ e) eqn:He.
    + destruct Hr as [[-> ->]|[? ?]]; [|congruence]. by intros dk Hdk.
    + destruct Hr as [[_ ->]|[-> _]]; [done|]. apply spec_throw. auto.
  - rewrite Hr. simpl. case_bool_decide; [by intros dk Hdk|].
    destruct (ValidateRevisionID _) as [e|]; simpl; [intros dk Hdk|by intros dk Hdk]. simpl. eauto.
Qed.

Lemma pointer_or_empty_at ff φ l v ψ name E :
  (∀ t, ψ t → φ l t) →
  spec (at_disk ff φ l v ψ) (pointer_or_empty name)
    (λ value dk, (value = or_empty (pointer name v) ∨ ff = false ∧ value = "") ∧ at_disk ff φ l v ψ dk) E.
Proof.
  intros Hφ. unfold pointer_or_empty. eapply spec_bind; [by eapply spec_attempt, readPointer_at|].
  intros [e|value] dk; simpl; [intros [[->|[? ->]] Hdk]; auto|]. intros [-> Hdk]. auto.
Qed.

Lemma readManifest_at ff φ l v ψ id :
  (∀ t, ψ t → φ l t) →
  spec (at_disk ff φ l v ψ) (readManifest id)
    (λ m dk, manifest_of id v = inr m ∧ at_disk ff φ l v ψ dk)
    (read_failed ff φ l v ψ (manifest_of id v)).
Proof.
  intros Hφ. unfold readManifest, manifest_of, read_failed.
  destruct (ValidateRevisionID id) as [e|]; simpl; [intros dk Hdk; simpl; eauto|].
  eapply (spec_bind _ _ _ (λ _, at_disk ff φ l v ψ)); [by intros dk Hdk|]. intros [].
  eapply spec_bind; [by apply read_file_at|]. intros r. apply spec_pure. intros Hr.
  destruct r as [e|b]; simpl in Hr; simpl.
  - apply spec_throw. intros dk Hdk. destruct Hr as [[-> _]|[-> _]]; simpl; eauto.
  - rewrite Hr. simpl. eapply (spec_bind _ _ _ (λ b' dk, b' = b ∧ at_disk ff φ l v ψ dk)); [by intros dk Hdk|].
    intros b' dk [-> Hdk]. destruct (manifest_Unmarshal b) as [e|m]; simpl; eauto.
Qed.

Lemma read_config_at ff φ l v ψ id E :
  (∀ t, ψ t → φ l t) →
  spec (at_disk ff φ l v ψ) (read_config id) (λ r dk, read_result ff (config_of id v) r ∧ at_disk ff φ l v ψ dk) E.
Proof. intros. by apply read_file_at. Qed.

(** Writing a pointer. *)
Definition pointer_written (name id : string) : Tree → Tree := set_file (KPointer name) (Some (id +:+ newline_text)).

Lemma writePointer_at ff φ l v ψ name id :
  ValidateRevisionID id = None →
  (∀ t, ψ t → φ l t) → (∀ t, ψ t → φ l (pointer_written name id t)) →
  spec (at_disk ff φ l v ψ) (writePointer name id)
    (λ _, at_disk ff φ l (pointer_written name id v) (after_set (KPointer name) (Some (id +:+ newline_text)) ψ))
    (fails ff (half_written ff φ l v ψ (KPointer name) (id +:+ newline_text))).
Proof.
  intros Hid Hφ Hφ'. unfold writePointer. rewrite Hid.
  eapply (spec_bind _ _ _ (λ _, at_disk ff φ l v ψ)); [by intros dk Hdk|]. intros [].
  apply writeAtomic_at; [done..|]. intros t (t0 & Ht0 & ->). by apply Hφ'.
Qed.

(** Writing a manifest. *)
Definition manifest_bytes (m : Manifest) : string :=
  match manifest_MarshalIndent m with inl _ => "" | inr b => b +:+ newline_text end.

Definition manifest_written (g : nat) (m : Manifest) : Tree → Tree :=
  set_file (KRevision (mf_RevisionID m) g ManifestJson) (Some (manifest_bytes m)).

Lemma manifest_bytes_decode m : encodable m → ∃ m', manifest_Unmarshal (manifest_bytes m) = inr m' ∧ core m' = core m.
Proof.
  intros Hm. unfold manifest_bytes. destruct (mj_total m Hm) as [b Hb]. rewrite Hb. by apply mj_roundtrip.
Qed.

Lemma writeManifest_at ff φ l v ψ m g :
  ValidateRevisionID (mf_RevisionID m) = None → encodable m → t_dirs v !! mf_RevisionID m = Some g →
  (∀ t, ψ t → φ l t) → (∀ t, ψ t → φ l (manifest_written g m t)) →
  spec (at_disk ff φ l v ψ) (writeManifest m)
    (λ _, at_disk ff φ l (manifest_written g m v)
            (after_set (KRevision (mf_RevisionID m) g ManifestJson) (Some (manifest_bytes m)) ψ))
    (fails ff (half_written ff φ l v ψ (KRevision (mf_RevisionID m) g ManifestJson) (manifest_bytes m))).
Proof.
  intros Hid Hm Hg Hφ Hφ'. destruct (mj_total m Hm) as [b Hb]. unfold writeManifest. rewrite Hid.
  unfold manifest_written, manifest_bytes in *. rewrite Hb in *. simpl throw_opt. simpl lift.
  eapply (spec_bind _ _ _ (λ _, at_disk ff φ l v ψ)); [by intros dk Hdk|]. intros [].
  eapply (spec_bind _ _ _ (λ b' dk, b' = b ∧ at_disk ff φ l v ψ dk)); [by intros dk Hdk|].
  intros b'. apply spec_pure. intros ->.
  apply writeAtomic_at; [|done|].
  - simpl. by rewrite Hg.
  - intros t (t0 & Ht0 & ->). by apply Hφ'.
Qed.

Definition active_written (content : string) : Tree → Tree := set_file KActive (Some content).

(** ** What the writes change *)

Lemma pointer_after_pointer name id name' t :
  ValidateRevisionID id = None →
  pointer name' (pointer_written name id t) = if bool_decide (name' = name) then inr id else pointer name' t.
Proof.
  intros Hid. unfold pointer, pointer_written. rewrite (t_read_write t (PointerFile name)) by done.
  case_bool_decide as Hn.
  - subst. rewrite decide_True by done. by apply parse_written_pointer.
  - rewrite decide_False by congruence. done.
Qed.

Lemma pointer_after_other name id name' t :
  name' ≠ name → pointer name' (pointer_written name id t) = pointer name' t.
Proof.
  intros Hn. unfold pointer, pointer_written. rewrite (t_read_write t (PointerFile name)) by done.
  by rewrite decide_False by congruence.
Qed.

Lemma pointer_after_active name c t : pointer name (active_written c t) = pointer name t.
Proof. unfold pointer, active_written. by rewrite (t_read_write t ActiveConfig), decide_False by done. Qed.

Lemma pointer_after_manifest name g m t : pointer name (manifest_written g m t) = pointer name t.
Proof. unfold pointer, manifest_written. by rewrite t_read_set_file_ne. Qed.

Lemma active_after_pointer name id t : t_read (pointer_written name id t) ActiveConfig = t_read t ActiveConfig.
Proof. unfold pointer_written. by rewrite t_read_set_file_ne. Qed.

Lemma active_after_active c t : t_read (active_written c t) ActiveConfig = Some c.
Proof. unfold active_written. by rewrite (t_read_write t ActiveConfig), decide_True by done. Qed.

Lemma active_after_manifest g m t : t_read (manifest_written g m t) ActiveConfig = t_read t ActiveConfig.
Proof. unfold manifest_written. by rewrite t_read_set_file_ne. Qed.

Lemma revision_after_pointer name id p leaf t :
  t_read (pointer_written name id t) (RevisionFile p leaf) = t_read t (RevisionFile p leaf).
Proof. unfold pointer_written. by rewrite (t_read_write t (PointerFile name)), decide_False by done. Qed.

Lemma revision_after_active c p leaf t :
  t_read (active_written c t) (RevisionFile p leaf) = t_read t (RevisionFile p leaf).
Proof. unfold active_written. by rewrite (t_read_write t ActiveConfig), decide_False by done. Qed.

Lemma manifest_after_pointer name id p t : manifest_of p (pointer_written name id t) = manifest_of p t.
Proof. unfold manifest_of. by rewrite revision_after_pointer. Qed.
Lemma manifest_after_active c p t : manifest_of p (active_written c t) = manifest_of p t.
Proof. unfold manifest_of. by rewrite revision_after_active. Qed.
Lemma config_after_pointer name id p t : config_of p (pointer_written name id t) = config_of p t.
Proof. apply revision_after_pointer. Qed.
Lemma config_after_active c p t : config_of p (active_written c t) = config_of p t.
Proof. apply revision_after_active. Qed.

Lemma manifest_after_manifest g m p t :
  t_dirs t !! mf_RevisionID m = Some g → p ≠ mf_RevisionID m →
  manifest_of p (manifest_written g m t) = manifest_of p t.
Proof.
  intros Hg Hp. unfold manifest_of, manifest_written.
  rewrite (t_read_write t (RevisionFile (mf_RevisionID m) ManifestJson)) by (simpl; by rewrite Hg).
  rewrite decide_False by congruence. done.
Qed.

Lemma own_manifest_after_manifest g m t :
  ValidateRevisionID (mf_RevisionID m) = None → encodable m → t_dirs t !! mf_RevisionID m = Some g →
  ∃ m', manifest_of (mf_RevisionID m) (manifest_written g m t) = inr m' ∧ core m' = core m.
Proof.
  intros Hid Hm Hg. unfold manifest_of, manifest_written. rewrite Hid.
  rewrite (t_read_write t (RevisionFile (mf_RevisionID m) ManifestJson)) by (simpl; by rewrite Hg).
  rewrite decide_True by done. by apply manifest_bytes_decode.
Qed.

Lemma config_after_manifest g m p t : t_dirs t !! mf_RevisionID m = Some g →
  config_of p (manifest_written g m t) = config_of p t.
Proof.
  intros Hg. unfold config_of, manifest_written.
  by rewrite (t_read_write t (RevisionFile (mf_RevisionID m) ManifestJson)), decide_False by (simpl; by rewrite ?Hg).
Qed.
End facts.

(** What a write leaves of the readings. *)
Create Rewrite HintDb disk_obs.
#[export] Hint Rewrite @pointer_after_active @pointer_after_manifest @active_after_pointer @active_after_active
  @active_after_manifest @manifest_after_pointer @manifest_after_active @config_after_pointer @config_after_active : disk_obs.
