(* ===== verification/RevisionStartup.v ===== *)
(** * Reconciliation when the agent starts

    [RecoverForStartup] on any history: what it means that it succeeded, and
    when it must.  [sees] is the crash logic without the crashes: it tracks
    the visible tree only. *)

From S2P Require Import Prelude StableSort GoStrings.
From S2P Require Import ConfigModel Disk DiskFacts Revision RevisionFacts.

Import revision.

(** ** Tracking the visible tree *)

Abbreviation always := (λ (_ : Log) (_ : Tree), True).
Abbreviation anything := (λ _ : Tree, True).

Definition sees (ff : bool) (v : Tree) (dk : Disk Event) : Prop :=
  ∃ l, at_disk ff always l v anything dk.

Lemma sees_lift {A} ff v (m : M A) Q E :
  (∀ l, spec (at_disk ff always l v anything) m Q E) → spec (sees ff v) m Q E.
Proof. intros Hm dk [l Hdk]. exact (Hm l dk Hdk). Qed.

Lemma sees_intro ff l v ψ dk : at_disk ff always l v ψ dk → sees ff v dk.
Proof. intros Hdk. exists l. by eapply at_disk_weaken. Qed.

Lemma spec_E {S A} (P : S → Prop) (m : GoM S A) Q (E E' : S → Prop) :
  spec P m Q E → (∀ s, E s → E' s) → spec P m Q E'.
Proof. intros. by eapply spec_conseq. Qed.

Lemma spec_ex {S A B} (P : B → S → Prop) (m : GoM S A) Q E :
  (∀ b, spec (P b) m Q E) → spec (λ s, ∃ b, P b s) m Q E.
Proof. intros Hm s [b Hs]. by apply (Hm b). Qed.

Lemma spec_or {S A} (P P' : S → Prop) (m : GoM S A) Q E :
  spec P m Q E → spec P' m Q E → spec (λ s, P s ∨ P' s) m Q E.
Proof. intros H1 H2 s [Hs|Hs]; [by apply H1|by apply H2]. Qed.

Lemma spec_now {S A} (a : A) (P : S → Prop) (Q : A → S → Prop) E : (∀ s, P s → Q a s) → spec P (mret a) Q E.
Proof. intros HQ s Hs. by apply HQ. Qed.

Lemma spec_attempt_bind {S A B} (m : GoM S A) (f : result A → GoM S B) P Q E R E' :
  spec P m Q E → (∀ a, spec (Q a) (f (inr a)) R E') → (∀ e, spec E (f (inl e)) R E') →
  spec P (r ← attempt m; f r) R E'.
Proof.
  intros Hm Ha He s Hs. specialize (Hm s Hs). unfold mbind, GoM_bind, attempt.
  destruct (m s) as [s' [e|a]]; [by apply He|by apply Ha].
Qed.

Section startup.
Context `{RevisionCodecLaws encodable} `{LeafOrder}.
Implicit Types (v t : Tree) (E : Disk Event → Prop).

Lemma sees_quiet name ff v : spec (sees ff v) (sys_quiet name) (λ _, sees ff v) (fails ff (sees ff v)).
Proof.
  apply sees_lift. intros l. eapply spec_conseq; [by apply (at_disk_quiet name ff always l v anything)|done| |].
  - intros [] dk. apply sees_intro.
  - intros dk [? Hdk]. split; [done|]. by eapply sees_intro.
Qed.

Lemma sees_readPointer ff v name :
  spec (sees ff v) (readPointer name) (λ value dk, pointer name v = inr value ∧ sees ff v dk)
    (λ dk, (ff = false ∨ ∃ e, pointer name v = inl e) ∧ sees ff v dk).
Proof.
  apply sees_lift. intros l. eapply spec_conseq; [by apply (readPointer_at ff always l v anything name)|done| |].
  - intros value dk [? ?]. split; [done|by eapply sees_intro].
  - intros dk [? ?]. split; [done|by eapply sees_intro].
Qed.

Lemma sees_pointer_or_empty ff v name E :
  spec (sees ff v) (pointer_or_empty name)
    (λ value dk, (value = or_empty (pointer name v) ∨ ff = false ∧ value = "") ∧ sees ff v dk) E.
Proof.
  apply sees_lift. intros l. eapply spec_conseq; [by apply (pointer_or_empty_at ff always l v anything name E)|done| |done].
  intros value dk [? ?]. split; [done|by eapply sees_intro].
Qed.

Lemma sees_readManifest ff v id :
  spec (sees ff v) (readManifest id) (λ m dk, manifest_of id v = inr m ∧ sees ff v dk)
    (λ dk, (ff = false ∨ ∃ e, manifest_of id v = inl e) ∧ sees ff v dk).
Proof.
  apply sees_lift. intros l. eapply spec_conseq; [by apply (readManifest_at ff always l v anything id)|done| |].
  - intros value dk [? ?]. split; [done|by eapply sees_intro].
  - intros dk [? ?]. split; [done|by eapply sees_intro].
Qed.

Lemma sees_read_file ff v p E :
  spec (sees ff v) (read_file p) (λ r dk, read_result ff (t_read v p) r ∧ sees ff v dk) E.
Proof.
  apply sees_lift. intros l. eapply spec_conseq; [by apply (read_file_at ff always l v anything p E)|done| |done].
  intros r dk [? ?]. split; [done|by eapply sees_intro].
Qed.

Lemma sees_writeActive ff v c :
  spec (sees ff v) (writeAtomic ActiveConfig c) (λ _, sees ff (active_written c v))
    (fails ff (λ dk, sees ff v dk ∨ sees ff (active_written c v) dk)).
Proof.
  apply sees_lift. intros l. eapply spec_conseq; [by apply (writeAtomic_at ff always l v anything ActiveConfig KActive c)|done| |].
  - intros [] dk. apply sees_intro.
  - intros dk [? [Hdk|Hdk]]; (split; [done|]); [left|right]; by eapply sees_intro.
Qed.

Lemma sees_writePointer ff v name id :
  ValidateRevisionID id = None →
  spec (sees ff v) (writePointer name id) (λ _, sees ff (pointer_written name id v))
    (fails ff (λ dk, sees ff v dk ∨ sees ff (pointer_written name id v) dk)).
Proof.
  intros Hid. apply sees_lift. intros l. eapply spec_conseq; [by apply (writePointer_at ff always l v anything name id)|done| |].
  - intros [] dk. apply sees_intro.
  - intros dk [? [Hdk|Hdk]]; (split; [done|]); [left|right]; by eapply sees_intro.
Qed.

Lemma sees_writeManifest ff v m g :
  ValidateRevisionID (mf_RevisionID m) = None → encodable m → t_dirs v !! mf_RevisionID m = Some g →
  spec (sees ff v) (writeManifest m) (λ _, sees ff (manifest_written g m v))
    (fails ff (λ dk, sees ff v dk ∨ sees ff (manifest_written g m v) dk)).
Proof.
  intros Hid Hm Hg. apply sees_lift. intros l. eapply spec_conseq; [by apply (writeManifest_at ff always l v anything m g)|done| |].
  - intros [] dk. apply sees_intro.
  - intros dk [? [Hdk|Hdk]]; (split; [done|]); [left|right]; by eapply sees_intro.
Qed.

Lemma sees_outside {A} (ask : Log → A) event ff v E :
  spec (sees ff v) (outside ask event) (λ _, sees ff v) E.
Proof.
  apply sees_lift. intros l. eapply spec_conseq; [by apply (outside_at ask event ff always l v anything E)|done| |done].
  intros a dk [_ Hdk]. by eapply sees_intro.
Qed.

Lemma sees_Ensure ff v : spec (sees ff v) Ensure (λ _, sees ff v) (fails ff (sees ff v)).
Proof. unfold Ensure. eapply spec_bind; [apply sees_quiet|]. intros []. apply sees_quiet. Qed.

Lemma sees_lock ff v : spec (sees ff v) lock (λ _, sees ff v) (fails ff (sees ff v)).
Proof.
  unfold lock. eapply spec_bind; [apply sees_Ensure|]. intros [].
  eapply spec_bind; [apply sees_quiet|]. intros []. apply sees_quiet.
Qed.

Lemma sees_tryLock ff v held :
  spec (sees ff v) (tryLock held) (λ b dk, b = negb held ∧ sees ff v dk) (fails ff (sees ff v)).
Proof.
  unfold tryLock. eapply spec_bind; [apply sees_Ensure|]. intros [].
  eapply spec_bind; [apply sees_quiet|]. intros []. destruct held; [by apply spec_now|].
  eapply spec_bind; [apply sees_quiet|]. intros []. by apply spec_now.
Qed.

(** The runtime does not touch the files. *)
Lemma sees_apply_and_check ff v r p1 p2 :
  spec (sees ff v) (apply_and_check r p1 p2) (λ _, sees ff v) (λ dk, r ≠ None ∧ sees ff v dk).
Proof.
  destruct r as [r|]; simpl; [|by apply spec_now].
  eapply spec_bind; [apply sees_outside|]. intros [e|].
  - apply (spec_bind _ _ _ (λ _ _, False)); [by apply spec_throw|by intros [] dk []].
  - eapply (spec_bind _ _ _ (λ _, sees ff v)); [by apply spec_now|]. intros [].
    eapply spec_bind; [apply sees_outside|]. intros [e|]; [by apply spec_throw|by apply spec_now].
Qed.

(** ** The known-good revisions *)

Fixpoint known_good_in (v : Tree) (names : list string) : list Manifest :=
  match names with
  | [] => []
  | name :: names =>
      match manifest_of name v with
      | inl _ => known_good_in v names
      | inr m => if bool_decide (mf_Status m = RevisionKnownGood) then m :: known_good_in v names else known_good_in v names
      end
  end.

(** Newest first; the directory is listed by name. *)
Definition known_good_revisions (v : Tree) : list Manifest :=
  SliceStable newer (known_good_in v (SliceStable string_less (map_keys (t_dirs v)))).

Definition is_known_good (v : Tree) (m : Manifest) : Prop :=
  mf_Status m = RevisionKnownGood ∧ ∃ name, is_Some (t_dirs v !! name) ∧ manifest_of name v = inr m.

Lemma elem_known_good_in v names m :
  m ∈ known_good_in v names ↔ mf_Status m = RevisionKnownGood ∧ ∃ name, name ∈ names ∧ manifest_of name v = inr m.
Proof.
  induction names as [|name names IH]; simpl.
  { split; [by intros ?%not_elem_of_nil|]. intros (_ & ? & ?%not_elem_of_nil & _). done. }
  destruct (manifest_of name v) as [e|m'] eqn:Hm; [|case_bool_decide]; rewrite ?elem_of_cons, IH.
  - split; [intros (? & n & ? & ?)|intros (? & n & [->|?]%elem_of_cons & ?)]; try congruence;
      (split; [done|]; exists n; rewrite ?elem_of_cons; auto).
  - split.
    + intros [->|(? & n & ? & ?)]; (split; [done|]); [exists name|exists n]; rewrite elem_of_cons; auto.
    + intros (? & n & [->|?]%elem_of_cons & ?); [left; congruence|right]. split; [done|]. by exists n.
  - split; [intros (? & n & ? & ?)|intros (? & n & [->|?]%elem_of_cons & ?)]; try congruence;
      (split; [done|]; exists n; rewrite ?elem_of_cons; auto).
Qed.

Lemma elem_known_good_revisions v m : m ∈ known_good_revisions v ↔ is_known_good v m.
Proof.
  unfold known_good_revisions, is_known_good. rewrite SliceStable_elem, elem_known_good_in.
  split; intros (Hs & name & Hn & Hm); (split; [done|]; exists name; split; [|done]).
  - by rewrite SliceStable_elem, elem_map_keys in Hn.
  - by rewrite SliceStable_elem, elem_map_keys.
Qed.

Lemma sees_known_good_of ff v names E :
  spec (sees ff v) (known_good_of names)
    (λ ms dk, (∀ m, m ∈ ms → m ∈ known_good_in v names) ∧ (ff = true → ms = known_good_in v names) ∧ sees ff v dk) E.
Proof.
  induction names as [|name names IH]; simpl; [by apply spec_now|].
  eapply spec_attempt_bind; [apply sees_readManifest| |].
  - intros m. apply spec_pure. intros ->. eapply spec_bind; [apply IH|]. intros out dk (Hsub & Hff & Hdk). simpl.
    case_bool_decide; [|done]. split_and!; [|by intros ->; rewrite Hff|done].
    intros m' [->|Hm]%elem_of_cons; [left|right; auto].
  - intros e. apply spec_pure. intros He. eapply spec_bind; [apply IH|]. intros out dk (Hsub & Hff & Hdk). simpl.
    split_and!; [|intros ->; destruct He as [|[e' ->]]; [done|by apply Hff]|done].
    intros m Hm%Hsub. destruct (manifest_of name v) as [|m']; [done|]. case_bool_decide; [by right|done].
Qed.

Lemma known_good_in_sub v names m : m ∈ known_good_in v names → (∀ n, n ∈ names → is_Some (t_dirs v !! n)) → is_known_good v m.
Proof. intros (Hs & n & Hn & Hm)%elem_known_good_in Hall. split; [done|]. exists n. auto. Qed.

Lemma sees_KnownGoodRevisions ff v :
  spec (sees ff v) KnownGoodRevisions
    (λ ms dk, Forall (is_known_good v) ms ∧ (ff = true → ms = known_good_revisions v) ∧ sees ff v dk)
    (fails ff (sees ff v)).
Proof.
  unfold KnownGoodRevisions, ReadDir. eapply spec_bind; [apply sees_Ensure|]. intros [].
  eapply (spec_bind _ _ _ (λ names dk, names = SliceStable string_less (map_keys (t_dirs v)) ∧ sees ff v dk)).
  { eapply spec_bind; [apply sees_quiet|]. intros []. intros dk Hdk. unfold mbind, GoM_bind, gets. simpl. split; [|done].
    destruct Hdk as [l Hdk]. by rewrite (at_view _ _ _ _ _ _ _ Hdk). }
  intros names. apply spec_pure. intros ->. eapply spec_bind; [apply sees_known_good_of|].
  intros out. apply spec_now. intros dk (Hsub & Hff & Hdk). split_and!; [|by intros ?; rewrite Hff|done].
  apply Forall_forall. intros m Hm%SliceStable_elem%Hsub. eapply known_good_in_sub; [done|].
  intros n. by rewrite SliceStable_elem, elem_map_keys.
Qed.

(** ** The revision to fall back to *)

(** Every manifest is in the directory of its name. *)
Definition named (v : Tree) : Prop := ∀ id m, manifest_of id v = inr m → mf_RevisionID m = id.

(** A known-good revision whose configuration is the one its manifest names. *)
Definition good_revision (v : Tree) (id : string) : Prop :=
  ∃ m c, manifest_of id v = inr m ∧ mf_Status m = RevisionKnownGood ∧
         config_of id v = Some c ∧ contentMatches m c = true.

Lemma manifest_of_valid id v m : manifest_of id v = inr m → ValidateRevisionID id = None.
Proof. unfold manifest_of. by destruct (ValidateRevisionID id). Qed.

Lemma good_revision_valid v id : good_revision v id → ValidateRevisionID id = None.
Proof. intros (m & c & Hm & _). by eapply manifest_of_valid. Qed.

Lemma manifest_of_dir id v m : manifest_of id v = inr m → is_Some (t_dirs v !! id).
Proof.
  unfold manifest_of, parse_manifest, t_read. destruct (ValidateRevisionID id); [done|]. simpl.
  destruct (t_dirs v !! id); [by eexists|done].
Qed.

Lemma good_revision_listed v id : named v → good_revision v id ↔
  ∃ m, m ∈ known_good_revisions v ∧ mf_RevisionID m = id ∧ ∃ c, config_of id v = Some c ∧ contentMatches m c = true.
Proof.
  intros Hn. split.
  - intros (m & c & Hm & Hs & Hc & Hmt). exists m. split_and!; [|by apply Hn|by exists c].
    apply elem_known_good_revisions. split; [done|]. exists id. split; [by eapply manifest_of_dir|done].
  - intros (m & (Hs & name & _ & Hm)%elem_known_good_revisions & Hid & c & Hc & Hmt).
    pose proof (Hn _ _ Hm) as <-. subst id. by exists m, c.
Qed.

Lemma sees_matches ff v (m : Manifest) (id : string) E :
  spec (sees ff v) (c ← read_config id; mret match c with inl _ => false | inr content => contentMatches m content end)
    (λ (b : bool) dk, ((b = true → ∃ c, config_of id v = Some c ∧ contentMatches m c = true) ∧
                (ff = true → ∀ c, config_of id v = Some c → contentMatches m c = true → b = true)) ∧ sees ff v dk) E.
Proof.
  eapply spec_bind; [by apply sees_read_file|]. intros r. apply spec_pure. intros Hr.
  apply spec_now. intros dk Hdk. split; [|done]. destruct r as [e|c]; simpl in Hr; unfold config_of; split; try done.
  - intros -> c' Hc'. destruct Hr as [[? _]|[? _]]; congruence.
  - eauto.
  - intros _ c'. by rewrite Hr; intros [= ->].
Qed.

(** A known-good manifest that its configuration bears out. *)
Definition borne_out (v : Tree) (m : Manifest) : Prop :=
  ∃ c, config_of (mf_RevisionID m) v = Some c ∧ contentMatches m c = true.

Lemma sees_first_verified ff v ms E :
  Forall (λ m, mf_RevisionID m ≠ "") ms →
  spec (sees ff v) (first_verified ms)
    (λ id dk, ((id = "" ∧ (ff = true → Forall (λ m, ¬ borne_out v m) ms)) ∨ ∃ m, m ∈ ms ∧ mf_RevisionID m = id ∧ borne_out v m) ∧
              sees ff v dk) E.
Proof.
  induction 1 as [|m ms Hm _ IH]; simpl; [apply spec_now; auto|].
  eapply spec_bind; [apply sees_matches|]. intros b. apply spec_pure. intros [Hb Hff]. destruct b.
  - apply spec_now. intros dk Hdk. split; [|done]. right. exists m. rewrite elem_of_cons. unfold borne_out. auto.
  - eapply spec_conseq; [apply IH|done| |done]. intros id dk [[[-> Hno]|(m' & ? & ? & ?)] Hdk]; (split; [|done]).
    + left. split; [done|]. intros ->. constructor; [|auto]. intros (c & Hc & Hmt). by eapply Hff in Hc.
    + right. exists m'. rewrite elem_of_cons. auto.
Qed.

Lemma sees_pointer_usable ff v id E :
  spec (sees ff v) (pointer_usable id)
    (λ b dk, ((b = true → good_revision v id) ∧ (ff = true → good_revision v id → b = true)) ∧ sees ff v dk) E.
Proof.
  unfold pointer_usable. eapply spec_attempt_bind; [apply sees_readManifest| |].
  - intros m. apply spec_pure. intros Hm. case_bool_decide as Hs.
    + eapply spec_conseq; [apply sees_matches|done| |done]. intros b dk [[Hb Hff] Hdk]. split; [|done]. split.
      * intros (c & ? & ?)%Hb. by exists m, c.
      * intros -> (m' & c & Hm' & _ & Hc & Hmt). assert (m' = m) as -> by congruence. eauto.
    + apply spec_now. intros dk Hdk. split; [|done]. split; [done|]. intros _ (m' & c & Hm' & Hs' & _). congruence.
  - intros e. apply spec_pure. intros He. apply spec_now. intros dk Hdk. split; [|done]. split; [done|].
    intros -> (m' & c & Hm' & _). destruct He as [|[e' He]]; [done|congruence].
Qed.

(** [knownGoodForRepair] finds a good revision, the one last-known-good names
    if it is one; only a fault makes it miss all of them. *)
Lemma sees_knownGoodForRepair ff v E :
  named v →
  spec (sees ff v) knownGoodForRepair
    (λ id dk, ((id = "" ∧ (ff = true → ∀ id', ¬ good_revision v id')) ∨ good_revision v id) ∧
              (ff = true → ∀ lkg, pointer "last-known-good" v = inr lkg → good_revision v lkg → id = lkg) ∧
              sees ff v dk) E.
Proof.
  intros Hn. unfold knownGoodForRepair. eapply spec_bind; [apply sees_pointer_or_empty|].
  intros lkg. apply spec_pure. intros Hlkg.
  eapply (spec_bind _ _ _ (λ b dk, ((b = true → good_revision v lkg) ∧ (ff = true → good_revision v lkg → b = true)) ∧ sees ff v dk)).
  { case_bool_decide as He; [|apply sees_pointer_usable]. apply spec_now. intros dk Hdk. split; [|done].
    split; [done|]. intros _ Hg%good_revision_valid. by apply valid_id_nonempty in Hg. }
  intros b. apply spec_pure. intros [Hb Hff].
  assert (Hptr : ff = true → ∀ lkg', pointer "last-known-good" v = inr lkg' → lkg' = lkg).
  { intros -> lkg' Hp. rewrite Hp in Hlkg. destruct Hlkg as [->|[? _]]; done. }
  destruct b.
  { apply spec_now. intros dk Hdk. split_and!; [auto| |done]. intros ? lkg' ? _. symmetry. by apply Hptr. }
  assert (Hno : ff = true → ∀ lkg', pointer "last-known-good" v = inr lkg' → good_revision v lkg' → False).
  { intros Ht lkg' Hp Hg. rewrite (Hptr Ht lkg' Hp) in Hg. by specialize (Hff Ht Hg). }
  eapply spec_attempt_bind; [apply sees_KnownGoodRevisions| |].
  - intros ms dk (Hall & Hms & Hdk). rewrite Forall_forall in Hall.
    assert (Hne : Forall (λ m, mf_RevisionID m ≠ "") ms).
    { apply Forall_forall. intros m (_ & name & _ & Hm)%Hall. rewrite (Hn _ _ Hm).
      eapply valid_id_nonempty, manifest_of_valid, Hm. }
    pose proof (sees_first_verified ff v ms E Hne dk Hdk) as Hf.
    destruct (first_verified ms dk) as [dk' [e|id]]; [done|]. destruct Hf as [Hid Hdk'].
    split_and!; [|intros Ht lkg' Hp Hg; exfalso; eauto|done].
    destruct Hid as [[-> Hnone]|(m & Hin & <- & c & Hc & Hmt)].
    + left. split; [done|]. intros Ht id' (m & Hin & <- & c & Hc & Hmt)%good_revision_listed; [|done].
      specialize (Hnone Ht). rewrite Forall_forall in Hnone. rewrite (Hms Ht) in Hnone. apply (Hnone m Hin). by exists c.
    + right. apply good_revision_listed; [done|]. exists m. split_and!; [|done|by exists c].
      by apply elem_known_good_revisions, Hall.
  - intros e. apply spec_now. intros dk [-> Hdk]. split_and!; [by left|done|done].
Qed.

(** ** Restoring and reconciling *)

Definition restored (c lkg : string) (v : Tree) : Tree := pointer_written "active" lkg (active_written c v).

Lemma sees_restore ff v lkg r :
  lkg = "" ∨ ValidateRevisionID lkg = None →
  spec (sees ff v) (restoreKnownGoodLocked lkg r)
    (λ _ dk, ∃ c, ValidateRevisionID lkg = None ∧ config_of lkg v = Some c ∧ sees ff (restored c lkg v) dk)
    (λ _, ff = false ∨ r ≠ None ∨ lkg = "" ∨ config_of lkg v = None).
Proof.
  intros Hv. unfold restoreKnownGoodLocked. case_bool_decide as He; [apply spec_throw; auto|].
  destruct Hv as [|Hv]; [done|].
  eapply spec_bind; [apply sees_read_file|]. intros rc. apply spec_pure. intros Hrc.
  eapply spec_bind; [apply (lift_spec rc)|].
  { intros e -> dk Hdk. destruct Hrc as [[? _]|[? _]]; auto. }
  intros c. apply spec_pure. intros ->. simpl in Hrc.
  eapply spec_bind; [eapply spec_E; [apply sees_writeActive|]|].
  { intros dk [? _]. auto. }
  intros []. eapply spec_bind; [eapply spec_E; [by apply sees_writePointer|]|].
  { intros dk [? _]. auto. }
  intros []. eapply spec_conseq; [apply sees_apply_and_check|done| |].
  - intros [] dk Hdk. by exists c.
  - intros dk [? _]. auto.
Qed.

(** The repair puts a good revision in force, the one last-known-good names
    if it is good. *)
Definition repaired (ff : bool) (v v' : Tree) : Prop :=
  ∃ id c, good_revision v id ∧ config_of id v = Some c ∧ v' = pointer_written "last-known-good" id (restored c id v) ∧
          (ff = true → ∀ lkg, pointer "last-known-good" v = inr lkg → good_revision v lkg → id = lkg).

Lemma sees_repair ff v r cause :
  named v →
  spec (sees ff v) (repairKnownGoodLocked r cause)
    (λ _ dk, ∃ v', repaired ff v v' ∧ sees ff v' dk)
    (λ _, ff = false ∨ r ≠ None ∨ ∀ id, ¬ good_revision v id).
Proof.
  intros Hn. unfold repairKnownGoodLocked. eapply spec_bind; [by apply sees_knownGoodForRepair|].
  intros id. apply spec_pure. intros Hid. case_bool_decide as He.
  { apply spec_throw. intros dk _. destruct Hid as [[_ Hno]|Hg]; [destruct ff; auto|].
    apply good_revision_valid, valid_id_nonempty in Hg. done. }
  destruct Hid as [[? _]|Hg]; [done|]. pose proof (good_revision_valid _ _ Hg) as Hv.
  apply spec_pure. intros Hptr.
  eapply spec_bind; [apply wrap_err_spec; eapply spec_E; [by apply sees_restore; auto|]|].
  { intros dk [?|[?|[->|Hc]]]; auto. destruct Hg as (m & c & _ & _ & Hc' & _). congruence. }
  intros []. apply spec_ex. intros c. apply spec_pure. intros _. apply spec_pure. intros Hc.
  eapply spec_conseq; [by apply wrap_err_spec, sees_writePointer|done| |by intros dk [? _]; auto].
  intros [] dk Hdk. eexists. split; [by exists id, c|done].
Qed.

Definition interrupted (s : RevisionStatus) : Prop :=
  s = RevisionCandidate ∨ s = RevisionValidating ∨ s = RevisionFailed.

(** [reconcile] by cases. *)
Inductive reconciled (ff : bool) (active lkg : string) (v : Tree) : Tree → Prop :=
  | rec_unmanaged : active = "" → reconciled ff active lkg v v
  | rec_settled m : manifest_of active v = inr m → mf_Status m ≠ RevisionKnownGood → ¬ interrupted (mf_Status m) →
      active ≠ lkg → reconciled ff active lkg v v
  | rec_known_good m : manifest_of active v = inr m → mf_Status m = RevisionKnownGood → active = lkg →
      reconciled ff active lkg v v
  | rec_promoted m : manifest_of active v = inr m → mf_Status m = RevisionKnownGood → active ≠ lkg →
      reconciled ff active lkg v (pointer_written "last-known-good" active
        (if bool_decide (lkg = "") then v else pointer_written "previous-known-good" lkg v))
  | rec_restored c : ff = false ∨ (∃ e, manifest_of active v = inl e) ∨
        (∃ m, manifest_of active v = inr m ∧ interrupted (mf_Status m) ∧ active ≠ lkg) →
      config_of lkg v = Some c → ValidateRevisionID lkg = None → reconciled ff active lkg v (restored c lkg v).

Lemma sees_reconcile ff v active lkg r :
  lkg = "" ∨ ValidateRevisionID lkg = None →
  spec (sees ff v) (reconcile active lkg r)
    (λ _ dk, ∃ v', reconciled ff active lkg v v' ∧ sees ff v' dk)
    (λ _, ff = false ∨ r ≠ None ∨ lkg = "" ∨ config_of lkg v = None ∨
          (active = lkg ∧ ∀ m, manifest_of lkg v = inr m → mf_Status m ≠ RevisionKnownGood)).
Proof.
  intros Hl. unfold reconcile. case_bool_decide as Ha.
  { apply spec_now. intros dk Hdk. eexists. split; [by apply rec_unmanaged|done]. }
  assert (Hrestore : ff = false ∨ (∃ e, manifest_of active v = inl e) ∨
      (∃ m, manifest_of active v = inr m ∧ interrupted (mf_Status m) ∧ active ≠ lkg) →
    spec (sees ff v) (restoreKnownGoodLocked lkg r) (λ _ dk, ∃ v', reconciled ff active lkg v v' ∧ sees ff v' dk)
    (λ _, ff = false ∨ r ≠ None ∨ lkg = "" ∨ config_of lkg v = None ∨
          (active = lkg ∧ ∀ m, manifest_of lkg v = inr m → mf_Status m ≠ RevisionKnownGood))).
  { intros Hwhy. eapply spec_conseq; [by apply sees_restore|done| |].
    - intros [] dk (c & ? & ? & ?). eexists. split; [by eapply rec_restored|done].
    - intros dk [?|[?|[?|?]]]; auto. }
  eapply spec_attempt_bind; [apply sees_readManifest| |].
  - intros m. apply spec_pure. intros Hm.
    destruct (bool_decide_reflect (active = lkg)) as [Heq|Hne];
      destruct (bool_decide_reflect (mf_Status m = RevisionKnownGood)) as [Hk|Hk].
    + apply spec_now. intros dk Hdk. eexists. split; [by eapply rec_known_good|done].
    + apply spec_throw. intros dk _. do 4 right. split; [done|]. intros m' Hm'. congruence.
    + pose proof (manifest_of_valid _ _ _ Hm) as Hav.
      apply (spec_bind _ _ _ (λ _, sees ff (if bool_decide (lkg = "") then v else pointer_written "previous-known-good" lkg v))).
      * unfold when. case_bool_decide as Hlkg; simpl; [by apply spec_now|].
        rewrite bool_decide_eq_false_2 by congruence. simpl. destruct Hl as [|Hl]; [done|].
        eapply spec_E; [by apply sees_writePointer|]. intros dk [? _]. auto.
      * intros []. eapply spec_conseq; [by apply sees_writePointer|done| |by intros dk [? _]; auto].
        intros [] dk Hdk. eexists. split; [by eapply rec_promoted|done].
    + destruct (decide (interrupted (mf_Status m))) as [Hi|Hi].
      * assert (Hb : bool_decide (mf_Status m = RevisionCandidate) || bool_decide (mf_Status m = RevisionValidating)
                  || bool_decide (mf_Status m = RevisionFailed) = true).
        { rewrite !orb_true_iff, !bool_decide_eq_true. unfold interrupted in Hi. tauto. }
        rewrite Hb. apply Hrestore. right. right. by exists m.
      * assert (Hb : bool_decide (mf_Status m = RevisionCandidate) || bool_decide (mf_Status m = RevisionValidating)
                  || bool_decide (mf_Status m = RevisionFailed) = false).
        { rewrite !orb_false_iff, !bool_decide_eq_false. unfold interrupted in Hi. tauto. }
        rewrite Hb. apply spec_now. intros dk Hdk. eexists. split; [by eapply rec_settled|done].
  - intros e. apply spec_pure. intros He. apply Hrestore. tauto.
Qed.

(** The second half: the active file agrees with the active revision, or a
    good revision is put in its place. *)
Inductive checked (ff : bool) (v : Tree) : Tree → Prop :=
  | chk_unmanaged : pointer "active" v = inr "" → checked ff v v
  | chk_matches id m c : pointer "active" v = inr id → manifest_of id v = inr m →
      t_read v ActiveConfig = Some c → contentMatches m c = true → checked ff v v
  | chk_repaired v' : (ff = true → ∀ id m c, pointer "active" v = inr id → manifest_of id v = inr m →
        t_read v ActiveConfig = Some c → contentMatches m c = false) → repaired ff v v' → checked ff v v'.

Lemma sees_check_active ff v r :
  named v →
  spec (sees ff v) (check_active r) (λ _ dk, ∃ v', checked ff v v' ∧ sees ff v' dk)
    (λ _, ff = false ∨ r ≠ None ∨ ∀ id, ¬ good_revision v id).
Proof.
  intros Hn. unfold check_active.
  assert (Hrep : ∀ cause, (ff = true → ∀ id m c, pointer "active" v = inr id → manifest_of id v = inr m →
        t_read v ActiveConfig = Some c → contentMatches m c = false) →
    spec (sees ff v) (repairKnownGoodLocked r cause) (λ _ dk, ∃ v', checked ff v v' ∧ sees ff v' dk)
      (λ _, ff = false ∨ r ≠ None ∨ ∀ id, ¬ good_revision v id)).
  { intros cause Hwhy. eapply spec_conseq; [by apply sees_repair|done| |done].
    intros [] dk (v' & Hrep & Hdk). exists v'. split; [by apply chk_repaired|done]. }
  eapply spec_attempt_bind; [apply sees_readPointer| |].
  2: { intros e. apply spec_pure. intros He. apply Hrep. intros -> id m c Hp. destruct He as [|[e' He]]; congruence. }
  intros active. apply spec_pure. intros Ha. case_bool_decide as Hae; [subst active|].
  { apply spec_now. intros dk Hdk. exists v. split; [by apply chk_unmanaged|done]. }
  eapply spec_attempt_bind; [apply sees_readManifest| |].
  2: { intros e. apply spec_pure. intros He. apply Hrep. intros -> id m c Hp Hm. destruct He as [|[e' He]]; congruence. }
  intros m. apply spec_pure. intros Hm.
  eapply spec_bind; [apply sees_read_file|]. intros [e|c]; apply spec_pure; intros Hc; simpl in Hc.
  - apply Hrep. intros -> id m' c Hp Hm' Hc'. destruct Hc as [[? _]|[? _]]; congruence.
  - destruct (contentMatches m c) eqn:Hmt.
    + apply spec_now. intros dk Hdk. exists v. split; [by eapply chk_matches|done].
    + apply Hrep. intros _ id m' c' Hp Hm' Hc'. congruence.
Qed.

(** ** The whole start *)

Lemma sees_last_known_good_for_recovery ff v :
  named v →
  spec (sees ff v) last_known_good_for_recovery
    (λ lkg dk, ∃ v', (pointer "last-known-good" v = inr lkg ∧ v' = v ∨
                      good_revision v lkg ∧ v' = pointer_written "last-known-good" lkg v ∧
                      (ff = true → ∃ e, pointer "last-known-good" v = inl e)) ∧ sees ff v' dk)
    (λ _, ff = false ∨ ∀ id, ¬ good_revision v id).
Proof.
  intros Hn. unfold last_known_good_for_recovery. eapply spec_attempt_bind; [apply sees_readPointer| |].
  - intros lkg. apply spec_pure. intros Hp. apply spec_now. intros dk Hdk. exists v. auto.
  - intros e. apply spec_pure. intros He. eapply spec_bind; [by apply sees_knownGoodForRepair|].
    intros id. apply spec_pure. intros Hid. apply spec_pure. intros _. case_bool_decide as Hie.
    { apply spec_throw. intros dk _. destruct Hid as [[_ Hno]|Hg]; [destruct ff; auto|].
      apply good_revision_valid, valid_id_nonempty in Hg. done. }
    destruct Hid as [[? _]|Hg]; [done|].
    eapply spec_bind; [apply wrap_err_spec; eapply spec_E; [apply sees_writePointer; by eapply good_revision_valid|]|].
    { intros dk [? _]. auto. }
    intros []. apply spec_now. intros dk Hdk. eexists. split; [|done]. right. split_and!; [done..|].
    intros ->. by destruct He.
Qed.

(** The tree after the first half. *)
Inductive recovered (ff : bool) (v : Tree) : Tree → Prop :=
  | rcv_repaired v' : (ff = true → ∃ e, pointer "active" v = inl e) → repaired ff v v' → recovered ff v v'
  | rcv_reconciled active lkg v' : pointer "active" v = inr active → pointer "last-known-good" v = inr lkg →
      reconciled ff active lkg v v' → recovered ff v v'
  | rcv_pointer active lkg v' : pointer "active" v = inr active → good_revision v lkg →
      (ff = true → ∃ e, pointer "last-known-good" v = inl e) →
      reconciled ff active lkg (pointer_written "last-known-good" lkg v) v' → recovered ff v v'.

Lemma sees_recoverInterruptedLocked ff v r :
  named v →
  spec (sees ff v) (recoverInterruptedLocked r) (λ _ dk, ∃ v', recovered ff v v' ∧ sees ff v' dk)
    (λ _, ff = false ∨ r ≠ None ∨ (∀ id, ¬ good_revision v id) ∨
      ∃ active lkg, pointer "active" v = inr active ∧ pointer "last-known-good" v = inr lkg ∧ ¬ good_revision v lkg).
Proof.
  intros Hn. unfold recoverInterruptedLocked. eapply spec_attempt_bind; [apply sees_readPointer| |].
  - intros active. apply spec_pure. intros Ha. eapply spec_bind.
    { eapply spec_E; [by apply sees_last_known_good_for_recovery|]. intros dk [?|?]; auto. }
    intros lkg. apply spec_ex. intros v1. apply spec_pure. intros Hv1.
    assert (Hlv : lkg = "" ∨ ValidateRevisionID lkg = None).
    { destruct Hv1 as [[Hp _]|[Hg _]]; [by eapply pointer_valid|right; by eapply good_revision_valid]. }
    eapply spec_conseq; [by apply (sees_reconcile ff v1 active lkg r)|done| |].
    + intros [] dk (v' & Hrec & Hdk). exists v'. split; [|done].
      destruct Hv1 as [[Hp ->]|(Hg & -> & Hbad)]; [by eapply rcv_reconciled|by eapply rcv_pointer].
    + intros dk [?|[?|Hbad]]; [auto..|].
      destruct Hv1 as [[Hp ->]|(Hg & -> & _)].
      * do 3 right. exists active, lkg. split_and!; [done..|]. intros (m & c & Hm & Hs & Hc & _).
        destruct Hbad as [->|[Hb|[-> Hb]]]; [done|congruence|]. by eapply Hb.
      * exfalso. destruct Hg as (m & c & Hm & Hs & Hc & _).
        rewrite config_after_pointer in Hbad. destruct Hbad as [->|[Hb|[-> Hb]]]; [done|congruence|].
        eapply Hb; [by rewrite manifest_after_pointer|done].
  - intros e. apply spec_pure. intros He. eapply spec_conseq; [by apply sees_repair|done| |].
    + intros [] dk (v' & Hrep & Hdk). exists v'. split; [|done]. apply rcv_repaired; [|done]. intros ->. by destruct He.
    + intros dk [?|[?|?]]; auto.
Qed.

(** Reconciliation writes no revision. *)
Definition same_revisions (v v' : Tree) : Prop :=
  ∀ id leaf, t_read v' (RevisionFile id leaf) = t_read v (RevisionFile id leaf).

Lemma same_manifest v v' id : same_revisions v v' → manifest_of id v' = manifest_of id v.
Proof. intros Hs. unfold manifest_of. by rewrite Hs. Qed.

Lemma same_config v v' id : same_revisions v v' → config_of id v' = config_of id v.
Proof. intros Hs. apply Hs. Qed.

Lemma same_good v v' id : same_revisions v v' → good_revision v' id ↔ good_revision v id.
Proof. intros Hs. unfold good_revision. by setoid_rewrite (same_manifest v v' id Hs); setoid_rewrite (same_config v v' id Hs). Qed.

Lemma same_named v v' : same_revisions v v' → named v → named v'.
Proof. intros Hs Hn id m. rewrite (same_manifest v v' id Hs). apply Hn. Qed.

Lemma same_pointer_written name id v v' : same_revisions v v' → same_revisions v (pointer_written name id v').
Proof. intros Hs p leaf. by rewrite revision_after_pointer. Qed.

Lemma same_restored c lkg v v' : same_revisions v v' → same_revisions v (restored c lkg v').
Proof. intros Hs. apply same_pointer_written. intros p leaf. by rewrite revision_after_active. Qed.

Lemma repaired_same ff v v' : repaired ff v v' → same_revisions v v'.
Proof. intros (id & c & _ & _ & -> & _). by apply same_pointer_written, same_restored. Qed.

Lemma reconciled_same ff active lkg v v1 v' : same_revisions v v1 → reconciled ff active lkg v1 v' → same_revisions v v'.
Proof.
  intros Hs [| | | |]; try done; [|by apply same_restored].
  apply same_pointer_written. case_bool_decide; [done|]. by apply same_pointer_written.
Qed.

Lemma recovered_same ff v v' : recovered ff v v' → same_revisions v v'.
Proof.
  intros [? _ Hr|??? _ _ Hr|??? _ _ _ Hr]; [by eapply repaired_same|by eapply reconciled_same|].
  eapply reconciled_same, Hr. by apply same_pointer_written.
Qed.

Lemma checked_same ff v v' : checked ff v v' → same_revisions v v'.
Proof. intros [| |? _ Hr]; [done..|by eapply repaired_same]. Qed.

Lemma sees_RecoverForStartup ff v held r :
  named v →
  spec (sees ff v) (RecoverForStartup held r)
    (λ _ dk, ∃ v', (held = true ∧ v' = v ∨ held = false ∧ ∃ v1, recovered ff v v1 ∧ checked ff v1 v') ∧ sees ff v' dk)
    (λ _, ff = false ∨ r ≠ None ∨ (∀ id, ¬ good_revision v id) ∨
      ∃ active lkg, pointer "active" v = inr active ∧ pointer "last-known-good" v = inr lkg ∧ ¬ good_revision v lkg).
Proof.
  intros Hn. unfold RecoverForStartup. eapply spec_bind.
  { eapply spec_E; [apply sees_tryLock|]. intros dk [? _]. auto. }
  intros acquired. apply spec_pure. intros ->. destruct held; simpl.
  { apply spec_now. intros dk Hdk. exists v. auto. }
  eapply spec_bind; [by apply sees_recoverInterruptedLocked|].
  intros []. apply spec_ex. intros v1. apply spec_pure. intros Hrec. pose proof (recovered_same _ _ _ Hrec) as Hs.
  eapply spec_conseq; [apply (sees_check_active ff v1 r); by eapply same_named|done| |].
  - intros [] dk (v' & Hc & Hdk). exists v'. split; [|done]. right. split; [done|]. by exists v1.
  - intros dk [?|[?|Hno]]; [auto..|]. do 2 right. left. intros id Hg. apply (Hno id). by apply (same_good v v1).
Qed.

(** *** What a successful start has established *)

Lemma pointer_restored name c lkg v :
  ValidateRevisionID lkg = None → pointer name (restored c lkg v) = if bool_decide (name = "active") then inr lkg else pointer name v.
Proof. intros Hl. unfold restored. rewrite pointer_after_pointer by done. by rewrite pointer_after_active. Qed.

Lemma active_restored c lkg v : t_read (restored c lkg v) ActiveConfig = Some c.
Proof. unfold restored. by rewrite active_after_pointer, active_after_active. Qed.

(** The active revision is not one of an unfinished transaction. *)
Definition settled (v : Tree) : Prop :=
  ∀ id m, pointer "active" v = inr id → manifest_of id v = inr m → ¬ interrupted (mf_Status m).

(** A revision is active, and the active file is its configuration. *)
Definition in_force (v : Tree) (id : string) : Prop :=
  pointer "active" v = inr id ∧ ∃ m c, manifest_of id v = inr m ∧ ¬ interrupted (mf_Status m) ∧
    t_read v ActiveConfig = Some c ∧ contentMatches m c = true.

Lemma known_good_settled s : s = RevisionKnownGood → ¬ interrupted s.
Proof. by intros -> [|[|]]. Qed.

Lemma repaired_in_force ff v v' : repaired ff v v' → ∃ id, in_force v' id ∧ good_revision v id ∧ pointer "last-known-good" v' = inr id ∧
    (ff = true → ∀ lkg, pointer "last-known-good" v = inr lkg → good_revision v lkg → id = lkg).
Proof.
  intros Hr. pose proof (repaired_same _ _ _ Hr) as Hs. destruct Hr as (id & c & Hg & Hc & -> & Hff).
  pose proof (good_revision_valid _ _ Hg) as Hv. destruct Hg as (m & c' & Hm & Hk & Hc' & Hmt).
  exists id. split_and!; [split; [|exists m, c; split_and!]|by exists m, c'| |].
  - rewrite pointer_after_pointer, pointer_restored by done. done.
  - by rewrite (same_manifest v).
  - by apply known_good_settled.
  - by rewrite active_after_pointer, active_restored.
  - congruence.
  - by rewrite pointer_after_pointer.
  - done.
Qed.

Lemma reconciled_settled ff active lkg v v' :
  pointer "active" v = inr active →
  (∀ m, manifest_of lkg v = inr m → mf_Status m = RevisionKnownGood) →
  reconciled ff active lkg v v' → settled v'.
Proof.
  intros Ha Hl Hr id m. destruct Hr as [He|m' Hm' Hk Hi Hne|m' Hm' Hk Heq|m' Hm' Hk Hne|c _ Hc Hv].
  - rewrite Ha. intros [= <-]. by rewrite He.
  - rewrite Ha. intros [= <-] ?. congruence.
  - rewrite Ha. intros [= <-] ?. apply known_good_settled. congruence.
  - rewrite pointer_after_other, manifest_after_pointer by done.
    case_bool_decide; [|rewrite pointer_after_other, manifest_after_pointer by done];
      rewrite Ha; intros [= <-] ?; apply known_good_settled; congruence.
  - rewrite pointer_restored, (same_manifest v) by (done || by apply same_restored). simpl. intros [= <-] ?.
    apply known_good_settled. auto.
Qed.

(** The revision last-known-good names is a known-good one, if it is there. *)
Definition last_known_good_sound (v : Tree) : Prop :=
  ∀ id m, pointer "last-known-good" v = inr id → manifest_of id v = inr m → mf_Status m = RevisionKnownGood.

Lemma recovered_settled ff v v' : last_known_good_sound v → recovered ff v v' → settled v'.
Proof.
  intros Hl [v1 _ Hr|active lkg v1 Ha Hp Hr|active lkg v1 Ha Hg _ Hr].
  - apply repaired_in_force in Hr as (id & (Hp & m & c & Hm & Hi & _) & _ & _). intros id' m' Hp' Hm'. congruence.
  - eapply reconciled_settled; eauto.
  - eapply reconciled_settled, Hr; [by rewrite pointer_after_other|].
    intros m. rewrite manifest_after_pointer. destruct Hg as (m' & c & Hm' & Hk & _). congruence.
Qed.

Lemma checked_in_force ff v v' :
  settled v → checked ff v v' → pointer "active" v' = inr "" ∨ ∃ id, in_force v' id.
Proof.
  intros Hs [Hu|id m c Hp Hm Hc Hmt|v1 _ Hr]; [by left|right..].
  - exists id. split; [done|]. exists m, c. split_and!; eauto.
  - apply repaired_in_force in Hr as (id & Hf & _). by exists id.
Qed.

(** Whatever the disk holds and whichever calls fail, when the start-up
    reconciliation reports success and it was not left to a running
    transaction, then either no revision manager has been set up or the
    active revision has a readable manifest, is not an unfinished or failed
    candidate, and the configuration the agent is about to read is the one
    that manifest names.  It changes no revision. *)
Theorem startup_runs_recorded_revision held r t faults dk :
  named t → last_known_good_sound t →
  RecoverForStartup held r (boot t faults) = (dk, inr ()) →
  same_revisions t (dk_view dk) ∧
  (held = true ∧ dk_view dk = t ∨
   held = false ∧ (pointer "active" (dk_view dk) = inr "" ∨ ∃ id, in_force (dk_view dk) id)).
Proof.
  intros Hn Hl Hrun.
  pose proof (sees_RecoverForStartup false t held r Hn (boot t faults)) as Hspec.
  ospecialize (Hspec _); [eexists; by apply boot_at|]. rewrite Hrun in Hspec.
  destruct Hspec as (v' & Hcase & l & Hdk). rewrite (at_view _ _ _ _ _ _ _ Hdk).
  destruct Hcase as [[-> ->]|(-> & v1 & Hr & Hc)]; [split; [done|by left]|].
  split.
  - intros id leaf. rewrite (checked_same _ _ _ Hc), (recovered_same _ _ _ Hr). done.
  - right. split; [done|]. eapply checked_in_force, Hc. by eapply recovered_settled.
Qed.

(** A start on which no call fails. *)
Lemma startup_run t lkg :
  named t → pointer "last-known-good" t = inr lkg → good_revision t lkg →
  ∃ dk v1, RecoverForStartup false None (boot t []) = (dk, inr ()) ∧ recovered true t v1 ∧ checked true v1 (dk_view dk).
Proof.
  intros Hn Hp Hg.
  pose proof (sees_RecoverForStartup true t false None Hn (boot t [])) as Hspec.
  ospecialize (Hspec _); [eexists; by apply boot_at|].
  destruct (RecoverForStartup false None (boot t [])) as [dk [e|[]]]; [exfalso|].
  - destruct Hspec as [?|[?|[Hno|(active & lkg' & _ & Hp' & Hbad)]]]; [done..|by apply (Hno lkg)|].
    rewrite Hp in Hp'. injection Hp' as <-. done.
  - destruct Hspec as (v' & [[? _]|(_ & v1 & Hr & Hc)] & l & Hdk); [done|]. exists dk, v1.
    by rewrite (at_view _ _ _ _ _ _ _ Hdk).
Qed.

(** The second half, when the pointers agree on a good revision. *)
Lemma checked_agreed v v' x :
  pointer "active" v = inr x → pointer "last-known-good" v = inr x → good_revision v x → checked true v v' →
  in_force v' x ∧ pointer "last-known-good" v' = inr x ∧ good_revision v' x.
Proof.
  intros Ha Hl Hg Hc. pose proof (checked_same _ _ _ Hc) as Hs.
  destruct Hc as [Hu|id m c Hp Hm Hc Hmt|v1 _ Hr].
  - apply good_revision_valid, valid_id_nonempty in Hg. congruence.
  - split; [|done]. split; [done|]. destruct Hg as (m' & c' & Hm' & Hk & _). exists m, c.
    split_and!; [congruence| |done..]. apply known_good_settled. congruence.
  - apply repaired_in_force in Hr as (y & Hf & Hgy & Hly & Hy). rewrite (Hy eq_refl x Hl Hg) in *.
    split_and!; [done..|by apply (same_good v)].
Qed.

(** C27: When no call fails, the start cannot get stuck on metadata: if the
    last-known-good pointer names a known-good revision whose configuration
    matches its manifest, reconciliation succeeds, whatever state the active
    pointer, the active manifest and the active file are in. *)
Theorem startup_succeeds_with_last_known_good t lkg :
  named t → pointer "last-known-good" t = inr lkg → good_revision t lkg →
  ∃ dk, RecoverForStartup false None (boot t []) = (dk, inr ()).
Proof. intros Hn Hp Hg. destruct (startup_run t lkg Hn Hp Hg) as (dk & v1 & Hrun & _). by exists dk. Qed.

(** The start does not fall back beyond last-known-good: when the active
    revision is unreadable or unfinished and the configuration of
    last-known-good is missing, it fails without any call failing, even though
    other verified known-good revisions may be on disk. *)
Theorem startup_gives_up_without_last_known_good t active lkg :
  named t → active ≠ "" → active ≠ lkg →
  pointer "active" t = inr active → pointer "last-known-good" t = inr lkg →
  (∀ m, manifest_of active t = inr m → interrupted (mf_Status m)) → config_of lkg t = None →
  ∃ dk e, RecoverForStartup false None (boot t []) = (dk, inl e).
Proof.
  intros Hn Hne Hal Ha Hl Hm Hc.
  pose proof (sees_RecoverForStartup true t false None Hn (boot t [])) as Hspec.
  ospecialize (Hspec _); [eexists; by apply boot_at|].
  destruct (RecoverForStartup false None (boot t [])) as [dk [e|[]]]; [by exists dk, e|]. exfalso.
  destruct Hspec as (v' & [[? _]|(_ & v1 & Hr & _)] & _); [done|].
  destruct Hr as [v2 He _|a' l' v2 Ha' Hl' Hr|a' l' v2 Ha' _ He _].
  - destruct (He eq_refl) as [e He']. congruence.
  - simplify_eq. rewrite Ha in Ha'. rewrite Hl in Hl'. simplify_eq.
    destruct Hr as [?|m Hm' _ Hi _|m Hm' Hk _|m Hm' Hk _|c _ Hc' _]; [done|..|congruence].
    + by apply Hi, Hm.
    + by eapply known_good_settled, Hm.
    + by eapply known_good_settled, Hm.
  - destruct (He eq_refl) as [e He']. congruence.
Qed.
End startup.
