(* ===== verification/RevisionCrash.v ===== *)
(** * Activation under power loss

    Wherever the power is lost while [ActivateAndValidate] runs, whichever
    calls fail and however the agent under validation behaves, the next start
    puts either the previous known-good configuration in force or the
    candidate, and the candidate only if it was applied, found healthy and
    survived the whole probation before the power was lost. *)

From S2P Require Import Prelude StableSort GoStrings.
From S2P Require Import ConfigModel Disk DiskFacts Revision RevisionFacts RevisionStartup.

Import revision.

(** ** A passed probation, in the log *)

(** The rounds of the probation, latest first. *)
Inductive rounds (m : Manager) (deadline : Time) : Log → Prop :=
  | rounds_nil : rounds m deadline []
  | rounds_slept l t1 t2 d : rounds m deadline l → (t1 < deadline)%Z → (0 < d ≤ mg_HealthInterval m)%Z →
      rounds m deadline (EvHealthy None :: EvSleep d None :: EvNow t2 :: EvNow t1 :: l)
  | rounds_late l t1 t2 : rounds m deadline l → (t1 < deadline ≤ t2)%Z →
      rounds m deadline (EvHealthy None :: EvNow t2 :: EvNow t1 :: l).

(** Applied, healthy at once, and healthy after every pause until the clock
    had passed the end of the probation. *)
Definition accepted (m : Manager) (l : Log) : Prop :=
  ∃ t1 ls ts l0, l = EvNow t1 :: ls ++ EvNow ts :: EvHealthy None :: EvApply None :: l0 ∧
    rounds m (ts + mg_Probation m) ls ∧ (ts + mg_Probation m ≤ t1)%Z.

(** ** Keeping a predicate through writes *)

Section keeping.
Context `{RevisionCodecLaws encodable} `{LeafOrder}.
Implicit Types (φ : Log → Tree → Prop) (ψ : Tree → Prop) (t v : Tree).

Definition safe φ (l : Log) ψ (dk : Disk Event) : Prop := ∃ v, at_disk false φ l v ψ dk.

Definition traced φ (dk : Disk Event) : Prop := Forall (point_ok φ) (dk_trace dk).

Lemma safe_traced φ l ψ dk : safe φ l ψ dk → traced φ dk.
Proof. intros [v Hdk]. apply Hdk. Qed.

Lemma safe_weaken φ l ψ ψ' dk : (∀ t, ψ t → ψ' t) → safe φ l ψ dk → safe φ l ψ' dk.
Proof. intros Hw [v Hdk]. exists v. by eapply at_disk_weaken. Qed.

Lemma safe_lift {A} φ l ψ (m : M A) Q E :
  (∀ v, ψ v → spec (at_disk false φ l v ψ) m Q E) → spec (safe φ l ψ) m Q E.
Proof. intros Hm dk [v Hdk]. eapply Hm; [by eapply at_disk_view|done]. Qed.

Lemma half_written_safe φ l v ψ ψ' k b dk :
  (∀ t, ψ t → ψ' (set_file k (Some b) t)) → fails false (half_written false φ l v ψ k b) dk →
  safe φ l (λ t, ψ t ∨ ψ' t) dk.
Proof.
  intros Hc [_ [Hdk|Hdk]]; eexists; (eapply at_disk_weaken, Hdk); [by left|].
  intros t [?|(t0 & ? & ->)]; auto.
Qed.

(** A write leads from [ψ] to [ψ'], or somewhere between when it fails. *)
Lemma step_writeActive φ l ψ ψ' c :
  (∀ t, ψ t → φ l t) → (∀ t, ψ' t → φ l t) → (∀ t, ψ t → ψ' (active_written c t)) →
  spec (safe φ l ψ) (writeAtomic ActiveConfig c) (λ _, safe φ l ψ') (safe φ l (λ t, ψ t ∨ ψ' t)).
Proof.
  intros Hφ Hφ' Hc. apply safe_lift. intros v _. eapply spec_conseq.
  - apply (writeAtomic_at false φ l v ψ ActiveConfig KActive c); [done..|].
    intros t (t0 & Ht & ->). by apply Hφ', Hc.
  - done.
  - intros [] dk Hdk. eexists. eapply at_disk_weaken, Hdk. intros t (t0 & Ht & ->). by apply Hc.
  - intros dk. by apply half_written_safe.
Qed.

Lemma step_writePointer φ l ψ ψ' name id :
  ValidateRevisionID id = None →
  (∀ t, ψ t → φ l t) → (∀ t, ψ' t → φ l t) → (∀ t, ψ t → ψ' (pointer_written name id t)) →
  spec (safe φ l ψ) (writePointer name id) (λ _, safe φ l ψ') (safe φ l (λ t, ψ t ∨ ψ' t)).
Proof.
  intros Hid Hφ Hφ' Hc. apply safe_lift. intros v _. eapply spec_conseq.
  - apply (writePointer_at false φ l v ψ name id); [done..|]. intros t Ht. by apply Hφ', Hc.
  - done.
  - intros [] dk Hdk. eexists. eapply at_disk_weaken, Hdk. intros t (t0 & Ht & ->). by apply Hc.
  - intros dk. by apply half_written_safe.
Qed.

Lemma step_writeManifest φ l ψ ψ' m g :
  ValidateRevisionID (mf_RevisionID m) = None → encodable m → (∀ t, ψ t → t_dirs t !! mf_RevisionID m = Some g) →
  (∀ t, ψ t → φ l t) → (∀ t, ψ' t → φ l t) → (∀ t, ψ t → ψ' (manifest_written g m t)) →
  spec (safe φ l ψ) (writeManifest m) (λ _, safe φ l ψ') (safe φ l (λ t, ψ t ∨ ψ' t)).
Proof.
  intros Hid Hm Hg Hφ Hφ' Hc. apply safe_lift. intros v Hv. eapply spec_conseq.
  - apply (writeManifest_at false φ l v ψ m g); auto.
  - done.
  - intros [] dk Hdk. eexists. eapply at_disk_weaken, Hdk. intros t (t0 & Ht & ->). by apply Hc.
  - intros dk. by apply half_written_safe.
Qed.

(** The same with an invariant. *)
Lemma keep {A} φ l ψ (m : M A) :
  spec (safe φ l ψ) m (λ _, safe φ l ψ) (safe φ l (λ t, ψ t ∨ ψ t)) → spec (safe φ l ψ) m (λ _, safe φ l ψ) (safe φ l ψ).
Proof. intros Hm. eapply spec_E; [exact Hm|]. intros dk. apply safe_weaken. by intros t [?|?]. Qed.

Lemma safe_quiet name φ l ψ :
  (∀ t, ψ t → φ l t) → spec (safe φ l ψ) (sys_quiet name) (λ _, safe φ l ψ) (safe φ l ψ).
Proof.
  intros Hφ. apply safe_lift. intros v _. eapply spec_conseq; [by apply (at_disk_quiet name false φ l v ψ)|done| |].
  - intros [] dk Hdk. by exists v.
  - intros dk [_ Hdk]. by exists v.
Qed.

Lemma safe_Ensure φ l ψ : (∀ t, ψ t → φ l t) → spec (safe φ l ψ) Ensure (λ _, safe φ l ψ) (safe φ l ψ).
Proof. intros Hφ. unfold Ensure. eapply spec_bind; [by apply safe_quiet|]. intros []. by apply safe_quiet. Qed.

(** Reads give what some tree satisfying [ψ] holds. *)
Lemma safe_pointer_or_empty φ l ψ name (P : string → Prop) E :
  (∀ t, ψ t → φ l t) → P "" → (∀ t, ψ t → P (or_empty (pointer name t))) →
  spec (safe φ l ψ) (pointer_or_empty name) (λ value dk, P value ∧ safe φ l ψ dk) E.
Proof.
  intros Hφ He HP. apply safe_lift. intros v Hv.
  eapply spec_conseq; [by apply (pointer_or_empty_at false φ l v ψ name E)|done| |done].
  intros value dk [[->|[_ ->]] Hdk]; (split; [by auto|by exists v]).
Qed.

Lemma safe_readPointer φ l ψ name (P : string → Prop) :
  (∀ t, ψ t → φ l t) → (∀ t value, ψ t → pointer name t = inr value → P value) →
  spec (safe φ l ψ) (readPointer name) (λ value dk, P value ∧ safe φ l ψ dk) (safe φ l ψ).
Proof.
  intros Hφ HP. apply safe_lift. intros v Hv.
  eapply spec_conseq; [by apply (readPointer_at false φ l v ψ name)|done| |].
  - intros value dk [Hp Hdk]. split; [by eapply HP|by exists v].
  - intros dk [_ Hdk]. by exists v.
Qed.

Lemma safe_read_file φ l ψ p E :
  (∀ t, ψ t → φ l t) → spec (safe φ l ψ) (read_file p) (λ _, safe φ l ψ) E.
Proof.
  intros Hφ. apply safe_lift. intros v Hv.
  eapply spec_conseq; [by apply (read_file_at false φ l v ψ p E)|done| |done].
  intros r dk [_ Hdk]. by exists v.
Qed.

Lemma safe_readManifest φ l ψ id :
  (∀ t, ψ t → φ l t) → spec (safe φ l ψ) (readManifest id) (λ _, safe φ l ψ) (safe φ l ψ).
Proof.
  intros Hφ. apply safe_lift. intros v Hv.
  eapply spec_conseq; [by apply (readManifest_at false φ l v ψ id)|done| |].
  - intros m dk [_ Hdk]. by exists v.
  - intros dk [_ Hdk]. by exists v.
Qed.

Lemma safe_outside {A} (ask : Log → A) event φ l ψ E :
  (∀ t l', ψ t → φ l' t) →
  spec (safe φ l ψ) (outside ask event) (λ a dk, a = ask l ∧ safe φ (event a :: l) ψ dk) E.
Proof.
  intros Hφ. apply safe_lift. intros v Hv.
  eapply spec_conseq; [apply (outside_at ask event false φ l v ψ E); auto|done| |done].
  intros a dk [-> Hdk]. split; [done|]. by exists v.
Qed.

Lemma safe_remove_all φ l ψ id :
  (∀ t, ψ t → φ l t) → removable id ψ →
  spec (safe φ l ψ) (sys_remove_all id) (λ _, safe φ l ψ) (safe φ l ψ).
Proof.
  intros Hφ Hrm. apply safe_lift. intros v Hv.
  eapply spec_conseq; [by apply (remove_all_at false φ l v ψ id)|done| |].
  - intros [] dk (v' & _ & Hdk). by exists v'.
  - intros dk [_ (v' & _ & Hdk)]. by exists v'.
Qed.

Lemma safe_attempt_bind {A B} (m : M A) (f : result A → M B) P Q R E' :
  spec P m (λ _, Q) Q → (∀ r, spec Q (f r) R E') → spec P (r ← attempt m; f r) R E'.
Proof. intros Hm Hf. eapply spec_attempt_bind; [done|..]; intros; apply Hf. Qed.

(** ** Pruning keeps what it protects *)

Lemma safe_known_good_of φ l ψ names E :
  (∀ t, ψ t → φ l t) → spec (safe φ l ψ) (known_good_of names) (λ _, safe φ l ψ) E.
Proof.
  intros Hφ. induction names as [|name names IH]; simpl; [by apply spec_now|].
  eapply safe_attempt_bind; [by apply safe_readManifest|]. intros x.
  eapply spec_bind; [apply IH|]. intros out. by apply spec_now.
Qed.

Lemma safe_KnownGoodRevisions φ l ψ :
  (∀ t, ψ t → φ l t) → spec (safe φ l ψ) KnownGoodRevisions (λ _, safe φ l ψ) (safe φ l ψ).
Proof.
  intros Hφ. unfold KnownGoodRevisions, ReadDir. eapply spec_bind; [by apply safe_Ensure|]. intros [].
  apply (spec_bind _ _ _ (λ _, safe φ l ψ)).
  { eapply spec_bind; [by apply safe_quiet|]. intros []. by intros dk Hdk. }
  intros names. eapply spec_bind; [by apply safe_known_good_of|]. intros out. by apply spec_now.
Qed.

Lemma safe_protected φ l ψ names id :
  (∀ t, ψ t → φ l t) → id ≠ "" → (∀ t, ψ t → pointer "active" t = inr id) → "active" ∈ names →
  spec (safe φ l ψ) (protected_revisions names) (λ ids dk, id ∈ ids ∧ safe φ l ψ dk) (safe φ l ψ).
Proof.
  intros Hφ Hne Ha Hin.
  assert (Hgen : spec (safe φ l ψ) (protected_revisions names) (λ ids dk, ("active" ∈ names → id ∈ ids) ∧ safe φ l ψ dk) (safe φ l ψ)).
  { clear Hin. induction names as [|name names IH]; simpl.
    { apply spec_now. intros dk Hdk. split; [by intros ?%not_elem_of_nil|done]. }
    eapply spec_bind.
    { apply wrap_err_spec, (safe_readPointer φ l ψ name (λ value, name = "active" → value = id)); [done|].
      intros t value Ht Hp ->. rewrite Ha in Hp by done. by injection Hp. }
    intros value. apply spec_pure. intros Hv. eapply spec_bind; [apply IH|].
    intros rest. apply spec_pure. intros Hr. apply spec_now. intros dk Hdk. split; [|done].
    intros [<-|Hin]%elem_of_cons.
    - rewrite Hv by done. rewrite bool_decide_eq_false_2 by done. set_solver.
    - case_bool_decide; set_solver. }
  eapply spec_conseq; [exact Hgen|done| |done]. intros ids dk [Hi Hdk]. auto.
Qed.

Lemma safe_prune_loop φ l ψ keepSet ms removed :
  (∀ t, ψ t → φ l t) → (∀ id, id ∉ keepSet → removable id ψ) →
  spec (safe φ l ψ) (prune_loop keepSet ms removed) (λ _, safe φ l ψ) (safe φ l ψ).
Proof.
  intros Hφ Hrm. revert removed. induction ms as [|m ms IH]; intros removed; simpl; [by apply spec_now|].
  case_bool_decide as Hin; [apply IH|].
  apply (spec_bind _ _ _ (λ _, safe φ l ψ)).
  { eapply spec_conseq; [by apply (throw_opt_spec _ (safe φ l ψ) (safe φ l ψ)); auto|done| |done]. by intros [] dk [_ Hdk]. }
  intros []. eapply spec_bind; [apply wrap_err_spec, safe_remove_all; auto|]. intros []. apply IH.
Qed.

Lemma safe_prune φ l ψ keep id :
  (∀ t, ψ t → φ l t) → id ≠ "" → (∀ t, ψ t → pointer "active" t = inr id) → (∀ p, p ≠ id → removable p ψ) →
  spec (safe φ l ψ) (pruneRevisionsLocked keep) (λ _, safe φ l ψ) (safe φ l ψ).
Proof.
  intros Hφ Hne Ha Hrm. unfold pruneRevisionsLocked. destruct (keep <? 1)%Z; [by apply spec_throw|].
  eapply spec_bind; [apply (safe_protected φ l ψ pointer_names id); [done..|by left]|].
  intros ids. apply spec_pure. intros Hids. eapply spec_bind; [by apply safe_KnownGoodRevisions|].
  intros ms. eapply spec_bind.
  { apply safe_prune_loop; [done|]. intros p Hp. apply Hrm. intros ->. apply Hp. unfold keep_set. set_solver. }
  intros removed. destruct removed; simpl; [|by apply spec_now].
  eapply spec_bind; [by apply safe_quiet|]. intros []. apply safe_lift. intros v Hv.
  eapply spec_conseq; [by apply (sync_revisions_at false φ l v ψ)|done| |].
  - intros [] dk Hdk. by exists v.
  - intros dk [_ Hdk]. by exists v.
Qed.
End keeping.

(** ** The trees an activation goes through *)

Section activation.
Context `{RevisionCodecLaws encodable} `{LeafOrder}.
Context (mgr : Manager) (id lkg : string) (g : nat) (m0 : Manifest) (c : string).
Hypothesis Hname : mf_RevisionID m0 = id.
Hypothesis Hid : ValidateRevisionID id = None.
Hypothesis Hlkg : ValidateRevisionID lkg = None.
Hypothesis Hne : id ≠ lkg.
Hypothesis Henc : encodable m0.
Hypothesis Hmatch : contentMatches m0 c = true.
Hypothesis Hinterval : (0 < mg_HealthInterval mgr)%Z.
Implicit Types (t v : Tree).

Definition candidate_in (P : RevisionStatus → Prop) t : Prop :=
  t_dirs t !! id = Some g ∧ config_of id t = Some c ∧
  ∃ m, manifest_of id t = inr m ∧ mf_ContentSHA256 m = mf_ContentSHA256 m0 ∧ P (mf_Status m).

(** The candidate may be active, but not yet as a known-good revision. *)
Definition unpromoted t : Prop :=
  named t ∧ good_revision t lkg ∧ candidate_in interrupted t ∧
  (pointer "active" t = inr lkg ∨ pointer "active" t = inr id) ∧ pointer "last-known-good" t = inr lkg.

(** The old revision is active again. *)
Definition rolled_back t : Prop :=
  named t ∧ good_revision t lkg ∧ candidate_in (λ s, s ≠ RevisionKnownGood) t ∧
  pointer "active" t = inr lkg ∧ pointer "last-known-good" t = inr lkg.

(** The candidate is active and known-good; the pointer may lag behind. *)
Definition in_promotion t : Prop :=
  named t ∧ good_revision t lkg ∧ candidate_in (λ s, s = RevisionKnownGood) t ∧
  pointer "active" t = inr id ∧ (pointer "last-known-good" t = inr lkg ∨ pointer "last-known-good" t = inr id) ∧
  t_read t ActiveConfig = Some c.

Definition promoted t : Prop :=
  named t ∧ candidate_in (λ s, s = RevisionKnownGood) t ∧
  pointer "active" t = inr id ∧ pointer "last-known-good" t = inr id ∧ t_read t ActiveConfig = Some c.

(** What may be on disk at any moment. *)
Definition possible (l : Log) t : Prop :=
  unpromoted t ∨ rolled_back t ∨ (accepted mgr l ∧ (in_promotion t ∨ promoted t)).

(** *** Closure under the writes *)

Lemma named_manifest m t : mf_RevisionID m = id → encodable m → t_dirs t !! id = Some g → named t → named (manifest_written g m t).
Proof.
  intros Hm He Hg Hn p m' Hm'. destruct (decide (p = id)) as [->|Hp].
  - destruct (own_manifest_after_manifest g m t) as (m2 & Hm2 & Hcore); [by rewrite Hm..|done|by rewrite Hm|].
    rewrite Hm in Hm2. rewrite Hm2 in Hm'. injection Hm' as <-. unfold core in Hcore. congruence.
  - apply Hn. rewrite <-Hm'. symmetry. apply manifest_after_manifest; by rewrite Hm.
Qed.

Lemma candidate_manifest P Q s reason t :
  candidate_in P t → (∀ raw, s ≠ OtherStatus raw) → Q s →
  candidate_in Q (manifest_written g (set_status s reason m0) t).
Proof.
  intros (Hg & Hc & m & Hm & Hsha & _) Hs HQ.
  assert (He : encodable (set_status s reason m0)) by by apply mj_set_status.
  destruct (own_manifest_after_manifest g (set_status s reason m0) t) as (m2 & Hm2 & Hcore);
    [simpl; by rewrite Hname|done|simpl; by rewrite Hname|].
  simpl in Hm2. rewrite Hname in Hm2. unfold core in Hcore. simpl in Hcore. injection Hcore as ? ? ? ? Hst Hh.
  split_and!; [done|rewrite config_after_manifest; [done|simpl; by rewrite Hname]|].
  exists m2. split_and!; [done|done|by rewrite Hst].
Qed.

Lemma candidate_pointer P name p t : candidate_in P t → candidate_in P (pointer_written name p t).
Proof.
  intros (Hg & Hc & m & Hm & ?). split_and!; [done|by rewrite config_after_pointer|].
  exists m. by rewrite manifest_after_pointer.
Qed.

Lemma candidate_active P c' t : candidate_in P t → candidate_in P (active_written c' t).
Proof.
  intros (Hg & Hc & m & Hm & ?). split_and!; [done|by rewrite config_after_active|].
  exists m. by rewrite manifest_after_active.
Qed.

Lemma good_manifest s reason t :
  t_dirs t !! id = Some g → good_revision t lkg → good_revision (manifest_written g (set_status s reason m0) t) lkg.
Proof.
  intros Hg (m & c' & Hm & Hk & Hc & Hmt). exists m, c'. split_and!; [|done| |done].
  - rewrite manifest_after_manifest; simpl; rewrite ?Hname; done.
  - rewrite config_after_manifest; simpl; rewrite ?Hname; done.
Qed.

Lemma same_pointer name p t : same_revisions t (pointer_written name p t).
Proof. by apply same_pointer_written. Qed.
Lemma same_active c' t : same_revisions t (active_written c' t).
Proof. intros p leaf. by rewrite revision_after_active. Qed.

Lemma good_pointer name p q t : good_revision t q → good_revision (pointer_written name p t) q.
Proof. apply same_good, same_pointer. Qed.
Lemma good_active c' q t : good_revision t q → good_revision (active_written c' t) q.
Proof. apply same_good, same_active. Qed.
Lemma named_pointer name p t : named t → named (pointer_written name p t).
Proof. apply same_named, same_pointer. Qed.
Lemma named_active c' t : named t → named (active_written c' t).
Proof. apply same_named, same_active. Qed.

Lemma interrupted_not_other s : interrupted s → ∀ raw, s ≠ OtherStatus raw.
Proof. intros [->|[->| ->]]; done. Qed.
Lemma interrupted_not_known_good s : interrupted s → s ≠ RevisionKnownGood.
Proof. intros [->|[->| ->]]; done. Qed.

Lemma candidate_weaken (P Q : RevisionStatus → Prop) t : (∀ s, P s → Q s) → candidate_in P t → candidate_in Q t.
Proof. intros HPQ (? & ? & m & ? & ? & ?). split_and!; [done..|]. exists m. auto. Qed.

Lemma candidate_dir P t : candidate_in P t → t_dirs t !! id = Some g.
Proof. by intros [? _]. Qed.

Lemma named_status s reason t :
  (∀ raw, s ≠ OtherStatus raw) → t_dirs t !! id = Some g → named t → named (manifest_written g (set_status s reason m0) t).
Proof. intros Hs. apply named_manifest; [done|]. by apply mj_set_status. Qed.

Lemma unpromoted_manifest s reason t :
  interrupted s → unpromoted t → unpromoted (manifest_written g (set_status s reason m0) t).
Proof.
  intros Hs (Hn & Hg & Hc & Ha & Hl). pose proof (interrupted_not_other s Hs) as Ho. pose proof (candidate_dir _ _ Hc) as Hd.
  split_and!; [by apply named_status|by apply good_manifest|by eapply candidate_manifest|..]; by rewrite !pointer_after_manifest.
Qed.

Lemma unpromoted_active c' t : unpromoted t → unpromoted (active_written c' t).
Proof.
  intros (Hn & Hg & Hc & Ha & Hl).
  split_and!; [by apply named_active|by apply good_active|by apply candidate_active|..]; by rewrite !pointer_after_active.
Qed.

Lemma unpromoted_pointer p t : p = id ∨ p = lkg → unpromoted t → unpromoted (pointer_written "active" p t).
Proof.
  intros Hp (Hn & Hg & Hc & Ha & Hl). assert (Hv : ValidateRevisionID p = None) by (destruct Hp as [-> | ->]; done).
  split_and!; [by apply named_pointer|by apply good_pointer|by apply candidate_pointer|..];
    rewrite pointer_after_pointer by done; simpl; [|done]. destruct Hp as [-> | ->]; auto.
Qed.

Lemma unpromoted_rolled_back t : unpromoted t → rolled_back (pointer_written "active" lkg t).
Proof.
  intros Hu. pose proof (unpromoted_pointer lkg t (or_intror eq_refl) Hu) as (Hn & Hg & Hc & _ & Hl).
  split_and!; try done; [eapply candidate_weaken, Hc; apply interrupted_not_known_good|].
  by rewrite pointer_after_pointer.
Qed.

Lemma rolled_back_manifest s reason t :
  s = RevisionFailed ∨ s = RevisionRolledBack → rolled_back t → rolled_back (manifest_written g (set_status s reason m0) t).
Proof.
  intros Hs (Hn & Hg & Hc & Ha & Hl). pose proof (candidate_dir _ _ Hc) as Hd.
  assert (Ho : ∀ raw, s ≠ OtherStatus raw) by (destruct Hs as [-> | ->]; done).
  split_and!; [by apply named_status|by apply good_manifest| |by rewrite pointer_after_manifest..].
  eapply candidate_manifest; [done..|]. destruct Hs as [-> | ->]; done.
Qed.

Lemma in_promotion_manifest reason t :
  unpromoted t → pointer "active" t = inr id → t_read t ActiveConfig = Some c →
  in_promotion (manifest_written g (set_status RevisionKnownGood reason m0) t).
Proof.
  intros (Hn & Hg & Hc & _ & Hl) Ha Hcc. pose proof (candidate_dir _ _ Hc) as Hd.
  split_and!; [by apply named_status|by apply good_manifest|by eapply candidate_manifest|..];
    rewrite ?pointer_after_manifest, ?active_after_manifest; auto.
Qed.

Lemma in_promotion_previous p t : in_promotion t → in_promotion (pointer_written "previous-known-good" p t).
Proof.
  intros (Hn & Hg & Hc & Ha & Hl & Hcc).
  split_and!; [by apply named_pointer|by apply good_pointer|by apply candidate_pointer|..];
    rewrite ?pointer_after_other, ?active_after_pointer by done; done.
Qed.

Lemma in_promotion_last t : in_promotion t → promoted (pointer_written "last-known-good" id t).
Proof.
  intros (Hn & Hg & Hc & Ha & Hl & Hcc). unfold promoted.
  rewrite !(pointer_after_pointer "last-known-good" id) by done. simpl. rewrite active_after_pointer.
  split_and!; auto using named_pointer, good_pointer, candidate_pointer.
Qed.

Lemma promoted_active t : promoted t → promoted (pointer_written "active" id t).
Proof.
  intros (Hn & Hc & Ha & Hl & Hcc). unfold promoted.
  rewrite !(pointer_after_pointer "active" id) by done. simpl. rewrite active_after_pointer.
  split_and!; auto using named_pointer, candidate_pointer.
Qed.

(** Removing another revision. *)
Lemma manifest_of_unlinked p g' leaf q t m :
  manifest_of q (set_file (KRevision p g' leaf) None t) = inr m → manifest_of q t = inr m.
Proof.
  unfold manifest_of, parse_manifest. destruct (ValidateRevisionID q); [done|].
  unfold t_read. simpl. destruct (t_dirs t !! q) as [gq|]; simpl; [|done].
  destruct (decide (KRevision p g' leaf = KRevision q gq ManifestJson)) as [->|Hk];
    [by rewrite lookup_partial_alter_eq|by rewrite lookup_partial_alter_ne].
Qed.

Lemma manifest_of_rmdir p q t m : manifest_of q (set_dir p None t) = inr m → manifest_of q t = inr m.
Proof.
  unfold manifest_of, parse_manifest. destruct (ValidateRevisionID q); [done|].
  unfold t_read. simpl. destruct (decide (p = q)) as [->|Hk];
    [by rewrite lookup_partial_alter_eq|by rewrite lookup_partial_alter_ne].
Qed.

Lemma promoted_removable p : p ≠ id → removable p promoted.
Proof.
  intros Hp. split; [intros g' leaf t (Hn & (Hg & Hc & m & Hm & Hx) & Ha & Hl & Hcc)|
                     intros t (Hn & (Hg & Hc & m & Hm & Hx) & Ha & Hl & Hcc)].
  - assert (Hr : ∀ leaf', t_read (set_file (KRevision p g' leaf) None t) (RevisionFile id leaf') = t_read t (RevisionFile id leaf')).
    { intros leaf'. apply t_read_set_file_ne. simpl. rewrite Hg. simpl. congruence. }
    split_and!.
    + intros q m' Hq%manifest_of_unlinked. by apply Hn.
    + split_and!; [done|unfold config_of; by rewrite Hr|]. exists m. split; [|done]. unfold manifest_of. by rewrite Hr.
    + unfold pointer. by rewrite t_read_set_file_ne.
    + unfold pointer. by rewrite t_read_set_file_ne.
    + by rewrite t_read_set_file_ne.
  - assert (Hr : ∀ leaf', t_read (set_dir p None t) (RevisionFile id leaf') = t_read t (RevisionFile id leaf')).
    { intros leaf'. unfold t_read. simpl. by rewrite lookup_partial_alter_ne. }
    split_and!; [|split_and!|done..].
    + intros q m' Hq%manifest_of_rmdir. by apply Hn.
    + simpl. by rewrite lookup_partial_alter_ne.
    + unfold config_of. by rewrite Hr.
    + exists m. split; [|done]. unfold manifest_of. by rewrite Hr.
Qed.

(** *** The operations *)

Lemma unpromoted_possible l t : unpromoted t → possible l t.
Proof. by left. Qed.
Lemma rolled_back_possible l t : rolled_back t → possible l t.
Proof. by right; left. Qed.

Lemma unpromoted_dir m t : mf_RevisionID m = id → unpromoted t → t_dirs t !! mf_RevisionID m = Some g.
Proof. intros -> (_ & _ & [Hg _] & _). done. Qed.

(** A manifest of the candidate that is not known-good. *)
Lemma safe_write_unpromoted l s reason :
  interrupted s →
  spec (safe possible l unpromoted) (writeManifest (set_status s reason m0))
    (λ _, safe possible l unpromoted) (safe possible l unpromoted).
Proof.
  intros Hs. apply keep, (step_writeManifest possible l _ _ _ g).
  - simpl. by rewrite Hname.
  - apply mj_set_status; [done|by apply interrupted_not_other].
  - intros t. by apply unpromoted_dir.
  - intros t. apply unpromoted_possible.
  - intros t. apply unpromoted_possible.
  - intros t. by apply unpromoted_manifest.
Qed.

Lemma failLocked_safe l cause E :
  spec (safe possible l unpromoted) (failLocked m0 cause) (λ _, traced possible) E.
Proof.
  unfold failLocked. eapply safe_attempt_bind; [apply safe_write_unpromoted; right; by right|].
  intros r. apply spec_now. intros dk. apply safe_traced.
Qed.

(** The runtime changes only the log. *)
Lemma apply_and_check_safe ψ l r p1 p2 :
  (∀ t l', ψ t → possible l' t) →
  spec (safe possible l ψ) (apply_and_check r p1 p2) (λ _ dk, ∃ l', safe possible l' ψ dk) (λ dk, ∃ l', safe possible l' ψ dk).
Proof.
  intros Hψ. destruct r as [r|]; simpl; [|apply spec_now; eauto].
  eapply spec_bind; [by apply safe_outside|]. intros [e|]; apply spec_pure; intros _.
  - apply (spec_bind _ _ _ (λ _ _, False)); [apply spec_throw; eauto|by intros [] dk []].
  - apply (spec_bind _ _ _ (λ _ dk, ∃ l', safe possible l' ψ dk)); [apply spec_now; eauto|]. intros [].
    apply spec_ex. intros l'. eapply spec_bind; [by apply safe_outside|]. intros [e|]; apply spec_pure; intros _.
    + apply spec_throw. eauto.
    + apply spec_now. eauto.
Qed.

Lemma rollback_to_safe l r :
  spec (safe possible l unpromoted) (rollback_to lkg r)
    (λ _ dk, ∃ l', safe possible l' rolled_back dk) (traced possible).
Proof.
  unfold rollback_to. pose proof unpromoted_possible as Hu.
  eapply spec_bind; [apply (safe_read_file possible l unpromoted (RevisionFile lkg ConfigYaml)), Hu|]. intros rc.
  apply (spec_bind _ _ _ (λ _, safe possible l unpromoted)).
  { apply wrap_err_spec. eapply spec_conseq; [apply lift_spec|done|by intros a dk [_ Hdk]|intros dk Hdk; exact Hdk].
    intros e _ dk. apply safe_traced. }
  intros content. apply (spec_bind _ _ _ (λ _, safe possible l unpromoted)).
  { apply wrap_err_spec. eapply spec_E; [apply keep, step_writeActive; [apply Hu..|apply unpromoted_active]|].
    intros dk. apply safe_traced. }
  intros []. eapply spec_bind.
  { eapply spec_E; [apply (step_writePointer possible l unpromoted rolled_back "active" lkg Hlkg)|].
    - apply Hu.
    - apply rolled_back_possible.
    - apply unpromoted_rolled_back.
    - intros dk. apply safe_traced. }
  intros []. eapply spec_conseq; [apply (apply_and_check_safe rolled_back l)| | |].
  - intros t l'. apply rolled_back_possible.
  - done.
  - by intros [] dk.
  - intros dk [l' Hdk]. by eapply safe_traced.
Qed.

Lemma rollbackLocked_safe l m cause r E :
  (∃ s reason, m = set_status s reason m0) →
  spec (safe possible l unpromoted) (rollbackLocked m cause r) (λ _, traced possible) E.
Proof.
  intros (s0 & reason0 & ->). unfold rollbackLocked. pose proof unpromoted_possible as Hu.
  eapply safe_attempt_bind; [apply safe_write_unpromoted; right; by right|]. intros _.
  eapply spec_bind.
  { apply (safe_pointer_or_empty possible l unpromoted "last-known-good" (λ value, value = "" ∨ value = lkg)); [apply Hu|auto|].
    intros t (_ & _ & _ & _ & ->). by right. }
  intros value. apply spec_pure. intros Hvalue. case_bool_decide as Hv; [apply spec_now; intros dk; apply safe_traced|].
  destruct Hvalue as [| ->]; [done|].
  eapply spec_attempt_bind; [apply rollback_to_safe| |].
  - intros []. apply spec_ex. intros l'.
    assert (Hw : spec (safe possible l' rolled_back)
      (writeManifest (set_status RevisionRolledBack (err_msg cause) (set_status RevisionFailed (err_msg cause) (set_status s0 reason0 m0))))
      (λ _, safe possible l' rolled_back) (safe possible l' rolled_back)).
    { change (set_status RevisionRolledBack (err_msg cause) (set_status RevisionFailed (err_msg cause) (set_status s0 reason0 m0)))
        with (set_status RevisionRolledBack (err_msg cause) m0).
      apply keep, (step_writeManifest possible l' _ _ _ g).
      - simpl. by rewrite Hname.
      - by apply mj_set_status.
      - simpl. rewrite Hname. by intros t (_ & _ & [? _] & _).
      - intros t. apply rolled_back_possible.
      - intros t. apply rolled_back_possible.
      - intros t. apply rolled_back_manifest. auto. }
    eapply safe_attempt_bind; [exact Hw|]. intros x. apply spec_now. intros dk. apply safe_traced.
  - intros e. by apply spec_now.
Qed.

(** *** The probation *)

(** One pause: the log it leaves becomes a round when the agent is healthy. *)
Lemma pause_safe (ψ : Tree → Prop) (l ls : Log) (deadline t1 t2 : Time) :
  (∀ t l', ψ t → possible l' t) → rounds mgr deadline ls → (t1 < deadline)%Z →
  let remaining := time_sub deadline t2 in
  let wait := if (remaining <? mg_HealthInterval mgr)%Z then remaining else mg_HealthInterval mgr in
  spec (safe possible (EvNow t2 :: EvNow t1 :: ls ++ l) ψ) (if (0 <? wait)%Z then Sleep mgr wait else mret None)
    (λ slept dk, ∃ ls', (slept = None → rounds mgr deadline (EvHealthy None :: ls')) ∧ safe possible (ls' ++ l) ψ dk)
    (traced possible).
Proof.
  intros Hψ Hls Ht1 remaining wait. destruct (Z.ltb_spec 0 wait) as [Hd|Hd].
  - eapply spec_conseq; [by apply (safe_outside (λ l, mg_Sleep mgr l wait) (EvSleep wait) possible (EvNow t2 :: EvNow t1 :: ls ++ l) ψ (traced possible))|done| |done].
    intros slept dk [_ Hdk]. exists (EvSleep wait slept :: EvNow t2 :: EvNow t1 :: ls). split; [|done].
    intros ->. apply rounds_slept; [done..|]. split; [done|]. unfold wait.
    destruct (Z.ltb_spec remaining (mg_HealthInterval mgr)); lia.
  - apply spec_now. intros dk Hdk. exists (EvNow t2 :: EvNow t1 :: ls). split; [|done]. intros _.
    apply rounds_late; [done|]. split; [done|]. unfold wait, remaining, time_sub in Hd.
    destruct (Z.ltb_spec (Z.max min_int64 (Z.min max_int64 (deadline - t2))) (mg_HealthInterval mgr)) in Hd; [|lia].
    unfold min_int64, max_int64 in Hd. lia.
Qed.

Lemma probation_safe (ψ : Tree → Prop) fuel r (deadline : Time) (l ls : Log) :
  (∀ t l', ψ t → possible l' t) → rounds mgr deadline ls →
  spec (safe possible (ls ++ l) ψ) (probation fuel mgr r deadline)
    (λ verdict dk, ∃ l', (verdict = Passed → ∃ (t1 : Time) ls', l' = EvNow t1 :: ls' ++ l ∧ rounds mgr deadline ls' ∧ (deadline ≤ t1)%Z) ∧
                         safe possible l' ψ dk) (traced possible).
Proof.
  intros Hψ. revert ls. induction fuel as [|fuel IH]; intros ls Hls; simpl.
  { apply spec_now. intros dk Hdk. eexists. split; [done|exact Hdk]. }
  eapply spec_bind; [by apply safe_outside|]. intros t1. apply spec_pure. intros _.
  unfold Before. destruct (Z.ltb_spec t1 deadline) as [Ht1|Ht1]; simpl.
  2: { apply spec_now. intros dk Hdk. eexists. split; [|exact Hdk]. intros _. by exists t1, ls. }
  eapply spec_bind; [by apply safe_outside|]. intros t2. apply spec_pure. intros _.
  eapply spec_bind; [by apply pause_safe|]. intros [e|]; apply spec_ex; intros ls'; apply spec_pure; intros Hls'.
  { apply spec_now. intros dk Hdk. eexists. split; [done|exact Hdk]. }
  eapply spec_bind; [by apply safe_outside|]. intros [e|]; apply spec_pure; intros _.
  { apply spec_now. intros dk Hdk. eexists. split; [done|exact Hdk]. }
  apply (IH (EvHealthy None :: ls')). auto.
Qed.

Lemma validate_runtime_safe (ψ : Tree → Prop) fuel r l :
  (∀ t l', ψ t → possible l' t) →
  spec (safe possible l ψ) (validate_runtime fuel mgr r)
    (λ verdict dk, ∃ l', (verdict = Passed → accepted mgr l') ∧ safe possible l' ψ dk) (traced possible).
Proof.
  intros Hψ. unfold validate_runtime. destruct r as [r|]; [|apply spec_now; intros dk Hdk; by exists l].
  assert (Hrej : ∀ e l', spec (safe possible l' ψ) (mret (Rejected e) : M Verdict)
    (λ verdict dk, ∃ l', (verdict = Passed → accepted mgr l') ∧ safe possible l' ψ dk) (traced possible)).
  { intros e l'. apply spec_now. intros dk Hdk. by exists l'. }
  eapply spec_bind; [by apply safe_outside|]. intros [e|]; apply spec_pure; intros _; [apply Hrej|].
  eapply spec_bind; [by apply safe_outside|]. intros [e|]; apply spec_pure; intros _; [apply Hrej|].
  eapply spec_bind; [by apply safe_outside|]. intros ts. apply spec_pure. intros _.
  eapply spec_conseq; [apply (probation_safe ψ fuel r (time_add ts (mg_Probation mgr)) (EvNow ts :: EvHealthy None :: EvApply None :: l) [])|done| |done]; [done|constructor|].
  intros verdict dk (l' & Hl' & Hdk). exists l'. split; [|done]. intros Hp.
  destruct (Hl' Hp) as (t1 & ls & -> & Hls & Ht1). by exists t1, ls, ts, l.
Qed.

(** *** Promotion *)

(** The candidate is in place and waits for the verdict. *)
Definition on_probation t : Prop := unpromoted t ∧ pointer "active" t = inr id ∧ t_read t ActiveConfig = Some c.

(** A successful activation is durable. *)
Definition success (mf : Manifest) (dk : Disk Event) : Prop :=
  mf = set_status RevisionKnownGood "" m0 ∧ accepted mgr (dk_log dk) ∧ safe possible (dk_log dk) promoted dk.

Lemma success_traced mf dk : success mf dk → traced possible dk.
Proof. intros (_ & _ & Hs). by eapply safe_traced. Qed.

Lemma promoteLocked_safe l :
  accepted mgr l →
  spec (safe possible l on_probation) (promoteLocked mgr (set_status RevisionValidating "" m0)) success (traced possible).
Proof.
  intros Hl. unfold promoteLocked.
  change (set_status RevisionKnownGood "" (set_status RevisionValidating "" m0)) with (set_status RevisionKnownGood "" m0).
  assert (Hpp : ∀ t, in_promotion t → possible l t) by (right; right; auto).
  assert (Hpr : ∀ t, promoted t → possible l t) by (right; right; auto).
  assert (Hob : ∀ t, on_probation t → possible l t) by (intros t [Hu _]; by left).
  eapply spec_bind; [eapply spec_E; [apply (step_writeManifest possible l on_probation in_promotion _ g)|]|].
  { simpl. by rewrite Hname. }
  { by apply mj_set_status. }
  { simpl. rewrite Hname. by intros t [(_ & _ & [? _] & _) _]. }
  { done. } { done. }
  { intros t (Hu & Ha & Hc). by apply in_promotion_manifest. }
  { intros dk. apply safe_traced. }
  intros []. eapply spec_bind.
  { apply (safe_pointer_or_empty possible l in_promotion "last-known-good" (λ p, p = "" ∨ ValidateRevisionID p = None)); [done|auto|].
    intros t _. destruct (pointer "last-known-good" t) eqn:Hp; [by left|]. by eapply pointer_valid. }
  intros old. apply spec_pure. intros Hold.
  apply (spec_bind _ _ _ (λ _, safe possible l in_promotion)).
  { unfold when. case_bool_decide as Ho; simpl; [by apply spec_now|]. case_bool_decide; simpl; [by apply spec_now|].
    destruct Hold as [|Hold]; [done|].
    eapply spec_E; [apply keep, step_writePointer; [done..|]; apply in_promotion_previous|]. intros dk. apply safe_traced. }
  intros []. simpl mf_RevisionID. rewrite Hname. eapply spec_bind.
  { eapply spec_E; [apply (step_writePointer possible l in_promotion promoted); [done..|]; apply in_promotion_last|].
    intros dk. apply safe_traced. }
  intros []. eapply spec_bind.
  { eapply spec_E; [apply keep, step_writePointer; [done..|]; apply promoted_active|]. intros dk. apply safe_traced. }
  intros []. eapply safe_attempt_bind.
  { apply (safe_prune possible l promoted _ id); [done|by apply valid_id_nonempty| |apply promoted_removable].
    by intros t (_ & _ & ? & _). }
  intros x. apply spec_now. intros dk [v Hdk]. pose proof (at_log _ _ _ _ _ _ _ Hdk) as Hlog.
  split; [done|]. rewrite Hlog. split; [done|]. by exists v.
Qed.

(** *** The activation *)

Lemma activate_safe fuel l r :
  spec (safe possible l unpromoted) (activate fuel mgr id m0 c r) success (traced possible).
Proof.
  unfold activate. pose proof unpromoted_possible as Hu.
  set (ready t := unpromoted t ∧ t_read t ActiveConfig = Some c).
  assert (Hready : ∀ t, ready t → possible l t) by (intros t [? _]; by left).
  assert (Hob : ∀ l' t, on_probation t → possible l' t) by (intros l' t [? _]; by left).
  assert (Hrb : ∀ m l' (ψ : Tree → Prop) cause, (∀ t, ψ t → unpromoted t) → (∃ s reason, m = set_status s reason m0) →
    spec (safe possible l' ψ) (e ← rollbackLocked m cause r; (throw e : M Manifest)) success (traced possible)).
  { intros m l' ψ cause Hψ Hm. apply (spec_bind _ _ _ (λ _, traced possible)); [|intros e; by apply spec_throw].
    eapply spec_conseq; [by apply (rollbackLocked_safe l' m cause r (traced possible))| |done|done].
    intros dk. by apply safe_weaken. }
  eapply spec_attempt_bind.
  { apply (step_writeActive possible l unpromoted ready c); [apply Hu|done|].
    intros t Ht. split; [by apply unpromoted_active|apply active_after_active]. }
  2: { intros e. apply (spec_bind _ _ _ (λ _, traced possible)); [|intros e'; by apply spec_throw].
    eapply spec_conseq; [by apply (failLocked_safe l e (traced possible))| |done|done].
    intros dk. apply safe_weaken. by intros t [?|[? _]]. }
  intros []. eapply spec_attempt_bind.
  { apply (step_writePointer possible l ready on_probation "active" id Hid); [done|apply Hob|].
    intros t [Ht Hc]. split_and!; [by apply unpromoted_pointer; auto|by rewrite pointer_after_pointer|by rewrite active_after_pointer]. }
  2: { intros e. apply Hrb; [by intros t [[? _]|[? _]]|]. exists (mf_Status m0), (mf_FailureReason m0). by destruct m0. }
  intros []. eapply spec_bind.
  { eapply spec_E; [apply keep, (step_writeManifest possible l on_probation on_probation _ g)|].
    - simpl. by rewrite Hname.
    - by apply mj_set_status.
    - simpl. rewrite Hname. by intros t [(_ & _ & [? _] & _) _].
    - apply Hob.
    - apply Hob.
    - intros t (Ht & Ha & Hc). split_and!; [apply unpromoted_manifest; [right; by left|done]|by rewrite pointer_after_manifest|by rewrite active_after_manifest].
    - intros dk. apply safe_traced. }
  intros []. eapply spec_bind; [apply validate_runtime_safe; intros t l'; apply Hob|].
  intros verdict. apply spec_ex. intros l'. apply spec_pure. intros Hl'. destruct verdict as [|cause|].
  - apply promoteLocked_safe. auto.
  - apply Hrb; [by intros t [? _]|]. by exists RevisionValidating, "".
  - apply spec_throw. intros dk. apply safe_traced.
Qed.

(** *** The start after the power loss *)

Lemma candidate_good t : candidate_in (λ s, s = RevisionKnownGood) t → good_revision t id.
Proof.
  intros (_ & Hc & m & Hm & Hsha & Hk). exists m, c. split_and!; [done..|].
  revert Hmatch. unfold contentMatches. by rewrite Hsha.
Qed.

Lemma recovered_agreed t v x :
  ValidateRevisionID x = None → pointer "active" t = inr x → pointer "last-known-good" t = inr x → good_revision t x →
  recovered true t v → v = t.
Proof.
  intros Hx Ha Hl (m & c' & Hm & Hk & _) Hr.
  destruct Hr as [v1 He _|a l v1 Ha' Hl' Hr|a l v1 _ _ He _]; [by destruct (He eq_refl); congruence| |by destruct (He eq_refl); congruence].
  assert (a = x) as -> by congruence. assert (l = x) as -> by congruence.
  destruct Hr as [|m' Hm' _ _ Hn|m' _ _ _|m' _ _ Hn|c2 Hwhy _ _]; try done.
  destruct Hwhy as [|[[e He]|(m' & Hm' & _ & Hn)]]; [done|congruence|done].
Qed.

(** The start that follows. *)
Definition starts_with (t : Tree) (x : string) : Prop :=
  ∃ dk, RecoverForStartup false None (boot t []) = (dk, inr ()) ∧
    in_force (dk_view dk) x ∧ pointer "last-known-good" (dk_view dk) = inr x ∧ good_revision (dk_view dk) x.

Lemma start_agreed t x :
  named t → pointer "active" t = inr x → pointer "last-known-good" t = inr x → good_revision t x → starts_with t x.
Proof.
  intros Hn Ha Hl Hg. destruct (startup_run t x Hn Hl Hg) as (dk & v1 & Hrun & Hr & Hc). exists dk. split; [done|].
  apply (recovered_agreed _ _ x) in Hr as ->; [|by eapply good_revision_valid|done..]. by apply (checked_agreed t).
Qed.

(** A candidate that was interrupted is replaced by last-known-good. *)
Lemma start_unpromoted t : unpromoted t → starts_with t lkg.
Proof.
  intros (Hn & Hg & Hc & Ha & Hl). destruct Ha as [Ha|Ha]; [by apply start_agreed|].
  destruct (startup_run t lkg Hn Hl Hg) as (dk & v1 & Hrun & Hr & Hck). exists dk. split; [done|].
  destruct Hc as (_ & _ & m & Hm & _ & Hi).
  assert (∃ c', v1 = restored c' lkg t) as [c' ->].
  { destruct Hr as [v2 He _|a l v2 Ha' Hl' Hr|a l v2 _ _ He _]; [by destruct (He eq_refl); congruence| |by destruct (He eq_refl); congruence].
    assert (a = id) as -> by congruence. assert (l = lkg) as -> by congruence.
    destruct Hr as [?|m' Hm' _ Hni _|m' _ _ Heq|m' Hm' Hk _|c2 _ _ _]; [..|by exists c2]; exfalso.
    - by apply (valid_id_nonempty id Hid).
    - apply Hni. congruence.
    - by apply Hne.
    - apply (interrupted_not_known_good _ Hi). congruence. }
  eapply checked_agreed; [..|exact Hck].
  - by rewrite pointer_restored.
  - by rewrite pointer_restored.
  - eapply same_good; [by apply same_restored|done].
Qed.

(** A promotion that was interrupted is completed. *)
Lemma start_in_promotion t : in_promotion t → starts_with t id.
Proof.
  intros (Hn & Hg & Hc & Ha & Hl & _). pose proof (candidate_good t Hc) as Hgi.
  destruct Hl as [Hl|Hl]; [|by apply start_agreed].
  destruct (startup_run t lkg Hn Hl Hg) as (dk & v1 & Hrun & Hr & Hck). exists dk. split; [done|].
  destruct Hc as (_ & _ & m & Hm & _ & Hk).
  assert (∃ v2, v1 = pointer_written "last-known-good" id v2 ∧ same_revisions t v2 ∧ pointer "active" v2 = inr id) as (v2 & -> & Hs & Ha2).
  { destruct Hr as [v2 He _|a l v2 Ha' Hl' Hr|a l v2 _ _ He _]; [by destruct (He eq_refl); congruence| |by destruct (He eq_refl); congruence].
    assert (a = id) as -> by congruence. assert (l = lkg) as -> by congruence.
    destruct Hr as [?|m' Hm' Hnk _ _|m' _ _ ?|m' _ _ _|c2 Hwhy _ _].
    - by destruct (valid_id_nonempty id Hid).
    - congruence.
    - done.
    - eexists. split; [done|]. rewrite bool_decide_eq_false_2 by (by apply valid_id_nonempty).
      split; [by apply same_pointer_written|by rewrite pointer_after_other].
    - destruct Hwhy as [|[[e He]|(m' & Hm' & Hi & _)]]; [done|congruence|].
      exfalso. eapply known_good_settled, Hi. congruence. }
  eapply checked_agreed; [..|exact Hck].
  - by rewrite pointer_after_other.
  - by rewrite pointer_after_pointer.
  - eapply same_good; [by apply same_pointer_written|done].
Qed.

Lemma start_possible l t : possible l t → ∃ x, starts_with t x ∧ (x = lkg ∨ x = id ∧ accepted mgr l).
Proof.
  intros [Hu|[(Hn & Hg & _ & Ha & Hl)|[Hl [Hp|(Hn & Hc & Ha & Hl' & _)]]]].
  - exists lkg. split; [by apply start_unpromoted|by left].
  - exists lkg. split; [by apply start_agreed|by left].
  - exists id. split; [by apply start_in_promotion|by right].
  - exists id. split; [|by right]. apply start_agreed; [done..|by apply candidate_good].
Qed.
End activation.

(** ** Any power loss, then a start *)

Section theorem.
Context `{RevisionCodecLaws encodable} `{LeafOrder}.

(** A candidate as [Begin] leaves it, beside the revision in force. *)
Record ready_to_activate (t : Tree) (id lkg : string) (m0 : Manifest) (c : string) : Prop := {
  ra_named : named t;
  ra_active : pointer "active" t = inr lkg;
  ra_last : pointer "last-known-good" t = inr lkg;
  ra_good : good_revision t lkg;
  ra_manifest : manifest_of id t = inr m0;
  ra_status : activatable (mf_Status m0) = true;
  ra_config : config_of id t = Some c;
  ra_matches : contentMatches m0 c = true;
}.

Lemma activatable_interrupted s : activatable s = true → interrupted s.
Proof. unfold activatable, interrupted. rewrite orb_true_iff, !bool_decide_eq_true. tauto. Qed.

Lemma defaults_interval m : (0 < mg_HealthInterval (defaults m))%Z.
Proof. simpl. destruct (Z.leb_spec (mg_HealthInterval m) 0); unfold Second; lia. Qed.

Lemma manifest_encodable id t m : manifest_of id t = inr m → encodable m.
Proof.
  unfold manifest_of, parse_manifest. destruct (ValidateRevisionID id); [done|].
  destruct (t_read _ _); [|done]. apply mj_decoded.
Qed.

Lemma lock_at ff φ l v ψ :
  (∀ t, ψ t → φ l t) → spec (at_disk ff φ l v ψ) lock (λ _, at_disk ff φ l v ψ) (at_disk ff φ l v ψ).
Proof.
  intros Hφ. unfold lock, Ensure.
  assert (Hq : ∀ name, spec (at_disk ff φ l v ψ) (sys_quiet name) (λ _, at_disk ff φ l v ψ) (at_disk ff φ l v ψ)).
  { intros name. eapply spec_E; [by apply at_disk_quiet|]. by intros dk [_ ?]. }
  apply (spec_bind _ _ _ (λ _, at_disk ff φ l v ψ)).
  { eapply spec_bind; [apply Hq|]. intros []. apply Hq. }
  intros []. eapply spec_bind; [apply Hq|]. intros []. apply Hq.
Qed.

Section run.
Context (m : Manager) (t : Tree) (id lkg : string) (m0 : Manifest) (c : string).
Hypothesis Hready : ready_to_activate t id lkg m0 c.

Lemma ready_distinct : id ≠ lkg.
Proof.
  destruct Hready as [_ _ _ (m' & c' & Hm' & Hk & _) Hm Hs _ _]. intros ->.
  apply activatable_interrupted in Hs. eapply known_good_settled, Hs. congruence.
Qed.

Lemma ready_unpromoted g : t_dirs t !! id = Some g → unpromoted id lkg g m0 c t.
Proof.
  destruct Hready as [Hn Ha Hl Hg Hm Hs Hc Hmt]. intros Hgen.
  split_and!; [done|done| |by left|done].
  split_and!; [done|done|]. exists m0. split_and!; [done|done|]. by apply activatable_interrupted.
Qed.

Lemma ActivateAndValidate_safe fuel r faults :
  ∃ g, match ActivateAndValidate fuel m id r (boot t faults) with
       | (dk, inl _) => traced (possible (defaults m) id lkg g m0 c) dk
       | (dk, inr mf) => success (defaults m) id lkg g m0 c mf dk
       end.
Proof.
  destruct (manifest_of_dir id t m0 (ra_manifest _ _ _ _ _ Hready)) as [g Hg]. exists g.
  pose proof (ready_unpromoted g Hg) as Hu. pose proof ready_distinct as Hne.
  destruct Hready as [Hn Ha Hl Hgood Hm Hs Hc Hmt].
  pose proof (manifest_of_valid _ _ _ Hm) as Hid. pose proof (Hn _ _ Hm) as Hname.
  pose proof (good_revision_valid _ _ Hgood) as Hlv. pose proof (manifest_encodable _ _ _ Hm) as Henc.
  set (φ := possible (defaults m) id lkg g m0 c). set (ψ t' := t' = t).
  assert (Hφ : ∀ t', ψ t' → φ [] t') by (intros t' ->; by left).
  assert (Htr : ∀ dk, at_disk false φ [] t ψ dk → traced φ dk) by (intros dk Hdk; apply Hdk).
  assert (Hsafe : ∀ dk, at_disk false φ [] t ψ dk → safe φ [] (unpromoted id lkg g m0 c) dk).
  { intros dk Hdk. exists t. eapply at_disk_weaken, Hdk. by intros t' ->. }
  assert (Hfail : ∀ e, spec (at_disk false φ [] t ψ) (e' ← failLocked m0 e; (throw e' : M Manifest)) (success (defaults m) id lkg g m0 c) (traced φ)).
  { intros e. apply (spec_bind _ _ _ (λ _, traced φ)); [|intros e'; by apply spec_throw].
    eapply spec_conseq; [by eapply (failLocked_safe (defaults m) id lkg g m0 c); auto using defaults_interval|exact Hsafe|done|done]. }
  pose proof (boot_at false φ t faults ψ) as Hboot. ospecialize (Hboot _ eq_refl); [done|].
  enough (Hspec : spec (at_disk false φ [] t ψ) (ActivateAndValidate fuel m id r) (success (defaults m) id lkg g m0 c) (traced φ)).
  { specialize (Hspec _ Hboot). by destruct (ActivateAndValidate _ _ _ _ _) as [dk [e|x]]. }
  unfold ActivateAndValidate. eapply spec_bind; [eapply spec_E; [by apply lock_at|exact Htr]|]. intros [].
  eapply spec_bind; [eapply spec_E; [by apply readManifest_at|by intros dk [_ Hdk]; apply Htr]|].
  intros m1. apply spec_pure. intros Hm1. assert (m1 = m0) as -> by congruence. rewrite Hs. simpl negb.
  eapply spec_bind; [by apply read_config_at|]. intros rc. apply spec_pure. intros Hrc.
  eapply spec_bind; [apply lift_spec; intros e _; exact Htr|]. intros c1. apply spec_pure. intros ->.
  simpl in Hrc. assert (c1 = c) as -> by congruence. rewrite Hmt. simpl negb.
  destruct (Parse c); [apply Hfail|].
  eapply spec_conseq; [by apply (activate_safe (defaults m) id lkg g m0 c); auto using defaults_interval|exact Hsafe|done|done].
Qed.
End run.


End theorem.
