(* ===== verification/RevisionRuns.v ===== *)
(** * What each operation of the revision manager does

    Termination of the probation, and the outcome of every operation when no
    call fails: a new revision, a rejected activation, an operator's rollback,
    pruning, the bootstrap of a first revision. *)

From S2P Require Import Prelude StableSort GoStrings GoTime.
From S2P Require Import ConfigModel Disk DiskFacts Revision RevisionFacts RevisionStartup RevisionCrash.

Import revision.

(** ** The probation ends *)

(** What a reader of the log knows of the clock. *)
Fixpoint clock_bound (m : Manager) (l : Log) : Time :=
  match l with
  | [] => mg_Now m []
  | EvNow t :: _ => t
  | EvSleep d None :: l => (clock_bound m l + d)%Z
  | _ :: l => clock_bound m l
  end.

(** The clock does not go back, and a sleep that succeeds lasts as long as it should. *)
Definition clock_advances (m : Manager) : Prop := ∀ l, (clock_bound m l ≤ mg_Now m l)%Z.

(** Pauses until the probation is over, and one more turn to see it. *)
Definition enough_fuel (m : Manager) : nat :=
  S (Z.to_nat ((mg_Probation m + mg_HealthInterval m - 1) / mg_HealthInterval m)).

Section termination.
Context (m : Manager) (r : Runtime).
Hypothesis Hclock : clock_advances m.
Hypothesis Hinterval : (0 < mg_HealthInterval m ≤ max_int64)%Z.

Definition logged (P : Log → Prop) (dk : Disk Event) : Prop := P (dk_log dk).

Lemma logged_outside {A} (ask : Log → A) event (P : Log → Prop) (E : Disk Event → Prop) :
  spec (logged P) (outside ask event) (λ a, logged (λ l, ∃ l0, l = event a :: l0 ∧ a = ask l0 ∧ P l0)) E.
Proof. intros dk Hdk. unfold outside, logged in *. simpl. eauto. Qed.

Lemma time_sub_wait deadline t : (t < deadline)%Z → (0 < time_sub deadline t ≤ deadline - t)%Z.
Proof. unfold time_sub, min_int64, max_int64. lia. Qed.

(** One turn brings the clock an interval nearer, or past the deadline. *)
Lemma probation_terminates k fuel deadline :
  (k < fuel)%nat →
  spec (logged (λ l, deadline - clock_bound m l ≤ Z.of_nat k * mg_HealthInterval m)%Z)
    (probation fuel m r deadline) (λ verdict _, verdict ≠ OutOfFuel) (λ _, False).
Proof.
  revert fuel. induction k as [|k IH]; intros [|fuel] Hk; try lia; simpl.
  - eapply spec_bind; [apply logged_outside|]. intros t1 dk (l0 & Hl & -> & Hb).
    pose proof (Hclock l0). unfold Before. destruct (Z.ltb_spec (mg_Now m l0) deadline); [lia|]. done.
  - eapply spec_bind; [apply logged_outside|]. intros t1.
    eapply (spec_conseq _ _ (logged (λ l, ∃ l0, l = EvNow t1 :: l0 ∧ (deadline - t1 ≤ Z.of_nat (S k) * mg_HealthInterval m)%Z)));
      [|intros dk (l0 & Hl & -> & Hb); exists l0; pose proof (Hclock l0); split; [done|lia]|intros v dk Hv; exact Hv|intros dk Hdk; exact Hdk].
    destruct (Before t1 deadline) eqn:Hbf; simpl; [|by intros dk Hdk].
    eapply spec_bind; [apply logged_outside|]. intros t2.
    eapply (spec_conseq _ _ (logged (λ l, ∃ l0, l = EvNow t2 :: l0 ∧ (deadline - t2 ≤ Z.of_nat (S k) * mg_HealthInterval m)%Z)));
      [|intros dk (l0 & Hl & -> & l1 & -> & Hb); exists (EvNow t1 :: l1); pose proof (Hclock (EvNow t1 :: l1)) as Hc2; simpl in Hc2; split; [done|lia]|intros v dk Hv; exact Hv|intros dk Hdk; exact Hdk].
    set (wait := if (time_sub deadline t2 <? mg_HealthInterval m)%Z then time_sub deadline t2 else mg_HealthInterval m).
    apply (spec_bind _ _ _ (λ slept, logged (λ l, slept = None → deadline - clock_bound m l ≤ Z.of_nat k * mg_HealthInterval m)%Z)).
    { destruct (Z.ltb_spec 0 wait) as [Hw|Hw].
      - eapply spec_conseq; [apply logged_outside|intros dk Hdk; exact Hdk| |intros dk Hdk; exact Hdk].
        intros slept dk (l0 & Hl & _ & l1 & -> & Hb) ->. rewrite Hl. simpl.
        revert Hw. unfold wait. destruct (Z.ltb_spec (time_sub deadline t2) (mg_HealthInterval m)); [|lia].
        unfold time_sub, min_int64, max_int64 in *. lia.
      - apply spec_now. intros dk (l1 & Hl & Hb) _. unfold logged. rewrite Hl. simpl.
        revert Hw. unfold wait. destruct (Z.ltb_spec (time_sub deadline t2) (mg_HealthInterval m)); [|lia].
        unfold time_sub, min_int64, max_int64 in *. lia. }
    intros [e|]; [by apply spec_now|].
    eapply spec_bind; [apply logged_outside|]. intros [e|]; [by apply spec_now|].
    eapply spec_conseq; [apply (IH fuel); lia| |intros v dk Hv; exact Hv|intros dk Hdk; exact Hdk].
    intros dk (l0 & Hl & _ & Hb). unfold logged. rewrite Hl. simpl. auto.
Qed.

(** More fuel makes no difference. *)
Lemma probation_more_fuel fuel fuel' deadline dk :
  (fuel ≤ fuel')%nat → (probation fuel m r deadline dk).2 ≠ inr OutOfFuel →
  probation fuel' m r deadline dk = probation fuel m r deadline dk.
Proof.
  revert fuel' dk. induction fuel as [|fuel IH]; intros [|fuel'] dk Hle; simpl; try done; [lia|].
  unfold mbind, GoM_bind. destruct (Now m dk) as [dk1 [e|t1]]; [done|].
  destruct (negb (Before t1 deadline)); [done|].
  destruct (Now m dk1) as [dk2 [e|t2]]; [done|].
  match goal with |- context [(if ?b then Sleep m ?w else mret None) dk2] => generalize (if b then Sleep m w else mret None) end.
  intros pause. destruct (pause dk2) as [dk3 [e|[e|]]]; [done..|].
  destruct (Healthy r dk3) as [dk4 [e|[e|]]]; [done..|]. apply IH. lia.
Qed.
End termination.

Lemma bind_ext {S A B} (x : GoM S A) (f f' : A → GoM S B) s :
  (∀ a s, f a s = f' a s) → (x ≫= f) s = (x ≫= f') s.
Proof. intros Hf. unfold mbind, GoM_bind. destruct (x s) as [s' [e|a]]; [done|apply Hf]. Qed.

Section enough.
Context `{RevisionCodec} `{LeafOrder}.
Context (m : Manager).
Hypothesis Hclock : clock_advances m.
Hypothesis Hinterval : (0 < mg_HealthInterval m ≤ max_int64)%Z.

Lemma enough_turns : (mg_Probation m ≤ Z.of_nat (pred (enough_fuel m)) * mg_HealthInterval m)%Z.
Proof.
  unfold enough_fuel. simpl pred. set (i := mg_HealthInterval m) in *. set (p := mg_Probation m).
  destruct (Z.le_gt_cases p 0) as [Hp|Hp]; [lia|].
  rewrite Z2Nat.id by (apply Z.div_pos; lia).
  pose proof (Z.mul_succ_div_gt (p + i - 1) i). lia.
Qed.

Lemma validate_runtime_terminates fuel r dk :
  (enough_fuel m ≤ fuel)%nat → (validate_runtime fuel m r dk).2 ≠ inr OutOfFuel.
Proof.
  intros Hf. unfold validate_runtime. destruct r as [r|]; [|done].
  unfold mbind, GoM_bind. destruct (Apply r dk) as [dk1 [e|[e|]]]; [done..|].
  destruct (Healthy r dk1) as [dk2 [e|[e|]]]; [done..|].
  unfold Now, outside. set (dk3 := dk_record _).
  pose proof (probation_terminates m r Hclock Hinterval (pred (enough_fuel m)) fuel (time_add (mg_Now m (dk_log dk2)) (mg_Probation m))) as Hp.
  ospecialize (Hp _ dk3 _).
  - unfold enough_fuel in *. simpl in *. lia.
  - unfold logged. unfold dk3. cbn [dk_log dk_record add_event clock_bound]. pose proof enough_turns. unfold time_add. lia.
  - by destruct (probation _ _ _ _ dk3) as [dk4 [e|v]]; intros ?; simplify_eq/=.
Qed.

Lemma validate_runtime_more_fuel fuel r dk :
  (enough_fuel m ≤ fuel)%nat → validate_runtime fuel m r dk = validate_runtime (enough_fuel m) m r dk.
Proof.
  intros Hf. pose proof (validate_runtime_terminates (enough_fuel m) r dk (le_n _)) as Hn. revert Hn.
  unfold validate_runtime. destruct r as [r|]; [|done].
  unfold mbind, GoM_bind. destruct (Apply r dk) as [dk1 [e|[e|]]]; [done..|].
  destruct (Healthy r dk1) as [dk2 [e|[e|]]]; [done..|].
  destruct (Now m dk2) as [dk3 [e|t]]; [done|]. intros Hn. by apply probation_more_fuel.
Qed.
End enough.

Section activation_ends.
Context `{RevisionCodec} `{LeafOrder}.

(** Every activation ends: while the clock advances by at least the
    pauses slept, the probation loop takes at most one turn per interval of
    the probation and one more, so the verdict is never cut short, and the
    activation is the same for any larger bound on the loop. *)
Theorem activation_terminates fuel m id r :
  clock_advances (defaults m) → (mg_HealthInterval m ≤ max_int64)%Z → (enough_fuel (defaults m) ≤ fuel)%nat →
  (∀ dk, (validate_runtime fuel (defaults m) r dk).2 ≠ inr OutOfFuel) ∧
  (∀ dk, ActivateAndValidate fuel m id r dk = ActivateAndValidate (enough_fuel (defaults m)) m id r dk).
Proof.
  intros Hc Hi Hf.
  assert (Hi' : (0 < mg_HealthInterval (defaults m) ≤ max_int64)%Z).
  { simpl. destruct (Z.leb_spec (mg_HealthInterval m) 0); unfold Second, max_int64 in *; lia. }
  split; [intros dk; by apply validate_runtime_terminates|]. intros dk.
  unfold ActivateAndValidate. apply bind_ext. intros [] dk1. apply bind_ext. intros mf dk2.
  destruct (negb _); [done|]. apply bind_ext. intros rc dk3. apply bind_ext. intros c dk4.
  destruct (negb _); [done|]. destruct (Parse c); [done|].
  unfold activate. apply bind_ext. intros [e|[]] dk5; [done|]. apply bind_ext. intros [e|[]] dk6; [done|].
  apply bind_ext. intros [] dk7. unfold mbind, GoM_bind. by rewrite (validate_runtime_more_fuel (defaults m)).
Qed.
End activation_ends.

(** ** A rejected activation *)

Section rejected.
Context `{RevisionCodecLaws encodable} `{LeafOrder}.
Implicit Types (t v : Tree).

Section parts.
Context (t : Tree) (id lkg : string) (m0 : Manifest) (c : string) (g : nat).
Hypothesis Hready : ready_to_activate t id lkg m0 c.
Hypothesis Hgen : t_dirs t !! id = Some g.

Lemma ready_facts :
  mf_RevisionID m0 = id ∧ ValidateRevisionID id = None ∧ ValidateRevisionID lkg = None ∧ encodable m0 ∧
  pointer "last-known-good" t = inr lkg.
Proof.
  destruct Hready as [Hn Ha Hl Hg Hm Hs Hc Hmt].
  split_and!; [by apply Hn|by eapply manifest_of_valid|by eapply good_revision_valid|by eapply manifest_encodable|done].
Qed.

(** Nothing but the active file, the active pointer and the candidate's
    manifest differs. *)
Definition elsewhere v : Prop :=
  t_dirs v = t_dirs t ∧ pointer "last-known-good" v = inr lkg ∧
  (∀ p, p ≠ id → manifest_of p v = manifest_of p t) ∧ ∀ p, config_of p v = config_of p t.

Definition candidate_status (P : RevisionStatus → Prop) v : Prop :=
  ∃ m, manifest_of id v = inr m ∧ P (mf_Status m).

Lemma elsewhere_active c' v : elsewhere v → elsewhere (active_written c' v).
Proof.
  intros (Hd & Hl & Hm & Hc). split_and!; [done|by rewrite pointer_after_active| |].
  - intros p. rewrite manifest_after_active. apply Hm.
  - intros p. by rewrite config_after_active.
Qed.

Lemma elsewhere_pointer p' v : elsewhere v → elsewhere (pointer_written "active" p' v).
Proof.
  intros (Hd & Hl & Hm & Hc). split_and!; [done|by rewrite pointer_after_other| |].
  - intros p. rewrite manifest_after_pointer. apply Hm.
  - intros p. by rewrite config_after_pointer.
Qed.

Lemma elsewhere_manifest s reason v :
  (∀ raw, s ≠ OtherStatus raw) → elsewhere v →
  elsewhere (manifest_written g (set_status s reason m0) v) ∧
  candidate_status (λ s', s' = s) (manifest_written g (set_status s reason m0) v).
Proof.
  destruct ready_facts as (Hname & Hid & _ & Henc & _). intros Hs (Hd & Hl & Hm & Hc).
  assert (Hg : t_dirs v !! mf_RevisionID (set_status s reason m0) = Some g) by (simpl; by rewrite Hname, Hd).
  split; [split_and!; [done|by rewrite pointer_after_manifest| |]|].
  - intros p Hp. rewrite manifest_after_manifest; [by apply Hm|done|simpl; by rewrite Hname].
  - intros p. by rewrite config_after_manifest.
  - destruct (own_manifest_after_manifest g (set_status s reason m0) v) as (m' & Hm' & Hcore);
      [simpl; by rewrite Hname|by apply mj_set_status|done|].
    simpl in Hm'. rewrite Hname in Hm'. exists m'. split; [done|]. unfold core in Hcore. simpl in Hcore. congruence.
Qed.

Lemma sees_candidate_manifest v s reason E :
  (∀ raw, s ≠ OtherStatus raw) → elsewhere v →
  spec (sees true v) (writeManifest (set_status s reason m0))
    (λ _, sees true (manifest_written g (set_status s reason m0) v)) E.
Proof.
  destruct ready_facts as (Hname & Hid & _ & Henc & _). intros Hs (Hd & _).
  eapply spec_E; [apply sees_writeManifest|by intros dk [? _]].
  - simpl. by rewrite Hname.
  - by apply mj_set_status.
  - simpl. by rewrite Hname, Hd.
Qed.

(** The candidate is out, the old configuration is back. *)
Definition put_back v : Prop :=
  elsewhere v ∧ pointer "active" v = inr lkg ∧ t_read v ActiveConfig = config_of lkg t ∧
  candidate_status (λ s, s = RevisionFailed ∨ s = RevisionRolledBack) v.

Lemma sees_rollback_to v r :
  elsewhere v →
  let back c' := pointer_written "active" lkg (active_written c' v) in
  spec (sees true v) (rollback_to lkg r)
    (λ _ dk, ∃ c', config_of lkg t = Some c' ∧ sees true (back c') dk) (λ dk, ∃ c', config_of lkg t = Some c' ∧ sees true (back c') dk).
Proof.
  destruct ready_facts as (_ & _ & Hlv & _). intros (Hd & Hl & Hm & Hc) back. unfold rollback_to.
  destruct (ra_good _ _ _ _ _ Hready) as (ml & cl & _ & _ & Hcl & _).
  eapply spec_bind; [apply sees_read_file|]. intros rc. apply spec_pure. intros Hrc.
  assert (rc = inr cl) as ->.
  { specialize (Hc lkg). unfold config_of in Hc, Hcl. rewrite Hc, Hcl in Hrc. destruct rc as [e|x]; simpl in Hrc; [|congruence].
    destruct Hrc as [[? _]|[? _]]; congruence. }
  eapply (spec_bind _ _ _ (λ x dk, x = cl ∧ sees true v dk)); [by intros dk Hdk|]. intros x. apply spec_pure. intros ->.
  eapply spec_bind; [apply wrap_err_spec; eapply spec_E; [apply sees_writeActive|by intros dk [? _]]|]. intros [].
  eapply spec_bind; [eapply spec_E; [by apply sees_writePointer|by intros dk [? _]]|]. intros [].
  eapply spec_conseq; [apply sees_apply_and_check|done| |].
  - intros [] dk Hdk. by exists cl.
  - intros dk [_ Hdk]. by exists cl.
Qed.

Lemma sees_rollbackLocked v m cause r E :
  (∃ s reason, m = set_status s reason m0) → elsewhere v →
  spec (sees true v) (rollbackLocked m cause r) (λ _ dk, ∃ v', put_back v' ∧ sees true v' dk) E.
Proof.
  destruct ready_facts as (Hname & Hid & Hlv & Henc & Hlk). intros (s0 & reason0 & ->) Hv. unfold rollbackLocked.
  change (set_status RevisionFailed (err_msg cause) (set_status s0 reason0 m0)) with (set_status RevisionFailed (err_msg cause) m0).
  change (set_status RevisionRolledBack (err_msg cause) (set_status RevisionFailed (err_msg cause) m0))
    with (set_status RevisionRolledBack (err_msg cause) m0).
  eapply spec_attempt_bind; [by apply (sees_candidate_manifest v _ _ (λ _, False))| |by intros e dk []].
  intros []. destruct (elsewhere_manifest RevisionFailed (err_msg cause) v) as [Hv1 Hc1]; [done..|].
  set (v1 := manifest_written g (set_status RevisionFailed (err_msg cause) m0) v) in *.
  eapply spec_bind; [apply sees_pointer_or_empty|]. intros value. apply spec_pure. intros Hvalue.
  assert (value = lkg) as ->.
  { destruct Hv1 as (_ & Hl & _). rewrite Hl in Hvalue. by destruct Hvalue as [->|[? _]]. }
  rewrite bool_decide_eq_false_2 by (by apply valid_id_nonempty).
  assert (Hback : ∀ c', config_of lkg t = Some c' → put_back (pointer_written "active" lkg (active_written c' v1))).
  { intros c' Hc'. split_and!; [by apply elsewhere_pointer, elsewhere_active|by rewrite pointer_after_pointer| |].
    - by rewrite active_after_pointer, active_after_active.
    - destruct Hc1 as (m & Hm & Hst). exists m. rewrite manifest_after_pointer, manifest_after_active. auto. }
  eapply spec_attempt_bind; [by apply sees_rollback_to| |].
  - intros []. apply spec_ex. intros c'. apply spec_pure. intros Hc'. destruct (Hback c' Hc') as (He & Ha & Hac & _).
    eapply spec_attempt_bind; [by apply (sees_candidate_manifest _ _ _ (λ _, False))| |by intros e dk []].
    intros []. apply spec_now. intros dk Hdk. eexists. split; [|exact Hdk].
    destruct (elsewhere_manifest RevisionRolledBack (err_msg cause) _ ltac:(done) He) as [He2 (m & Hm & Hst)].
    split_and!; [done|by rewrite pointer_after_manifest|by rewrite active_after_manifest|]. exists m. auto.
  - intros e. apply spec_now. intros dk (c' & Hc' & Hdk). eauto.
Qed.

Lemma sees_probation ff v fuel m r deadline E : spec (sees ff v) (probation fuel m r deadline) (λ _, sees ff v) E.
Proof.
  induction fuel as [|fuel IH]; simpl; [by apply spec_now|].
  eapply spec_bind; [apply sees_outside|]. intros t1. destruct (negb _); [by apply spec_now|].
  eapply spec_bind; [apply sees_outside|]. intros t2.
  apply (spec_bind _ _ _ (λ _, sees ff v)); [destruct (0 <? _)%Z; [apply sees_outside|by apply spec_now]|].
  intros [e|]; [by apply spec_now|]. eapply spec_bind; [apply sees_outside|]. intros [e|]; [by apply spec_now|apply IH].
Qed.

Lemma sees_validate_runtime ff v fuel m r E : spec (sees ff v) (validate_runtime fuel m r) (λ _, sees ff v) E.
Proof.
  unfold validate_runtime. destruct r as [r|]; [|by apply spec_now].
  eapply spec_bind; [apply sees_outside|]. intros [e|]; [by apply spec_now|].
  eapply spec_bind; [apply sees_outside|]. intros [e|]; [by apply spec_now|].
  eapply spec_bind; [apply sees_outside|]. intros ts. apply sees_probation.
Qed.

(** Without faults a promotion cannot fail. *)
Lemma sees_promoteLocked v m s reason :
  elsewhere v → spec (sees true v) (promoteLocked m (set_status s reason m0)) (λ _ _, True) (λ _, False).
Proof.
  destruct ready_facts as (Hname & Hid & Hlv & Henc & Hlk). intros Hv. unfold promoteLocked.
  change (set_status RevisionKnownGood "" (set_status s reason m0)) with (set_status RevisionKnownGood "" m0).
  eapply spec_bind; [by apply sees_candidate_manifest|]. intros [].
  eapply spec_bind; [apply sees_pointer_or_empty|]. intros old. apply spec_pure. intros Hold.
  apply (spec_bind _ _ _ (λ _ dk, ∃ v', sees true v' dk)).
  { destruct (elsewhere_manifest RevisionKnownGood "" v) as [(_ & Hl & _) _]; [done..|].
    assert (old = lkg) as -> by (rewrite Hl in Hold; by destruct Hold as [->|[? _]]). unfold when.
    destruct (negb _ && negb _); [|apply spec_now; eauto].
    eapply spec_conseq; [by apply sees_writePointer|done|intros [] dk Hdk; eauto|by intros dk [? _]]. }
  intros []. apply spec_ex. intros v'. simpl mf_RevisionID. rewrite Hname.
  eapply spec_bind; [eapply spec_E; [by apply sees_writePointer|by intros dk [? _]]|]. intros [].
  eapply spec_bind; [eapply spec_E; [by apply sees_writePointer|by intros dk [? _]]|]. intros [].
  eapply (spec_attempt_bind _ _ _ (λ _ _, True) (λ _, True)); [|intros []; by apply spec_now|intros e; by apply spec_now].
  intros dk _. by destruct (pruneRevisionsLocked _ dk) as [? [?|?]].
Qed.

(** The tree during the probation. *)
Definition on_trial : Tree :=
  manifest_written g (set_status RevisionValidating "" m0) (pointer_written "active" id (active_written c t)).

Lemma elsewhere_on_trial : elsewhere on_trial.
Proof.
  apply elsewhere_manifest; [done|]. apply elsewhere_pointer, elsewhere_active. by destruct ready_facts as (_ & _ & _ & _ & ?).
Qed.

(** [Q]: what a promotion is known to achieve. *)
Lemma sees_activate fuel m r Q :
  (∀ dk, (validate_runtime fuel m r dk).2 ≠ inr OutOfFuel) →
  spec (sees true on_trial) (promoteLocked m (set_status RevisionValidating "" m0)) Q (λ _, False) →
  spec (sees true t) (activate fuel m id m0 c r) Q (λ dk, ∃ v', put_back v' ∧ sees true v' dk).
Proof.
  intros Hfuel Hpromote. destruct ready_facts as (Hname & Hid & Hlv & Henc & Hlk). unfold activate.
  assert (Hv : elsewhere (pointer_written "active" id (active_written c t))) by (by apply elsewhere_pointer, elsewhere_active).
  eapply (spec_attempt_bind _ _ _ _ (λ _, False)); [eapply spec_E; [apply sees_writeActive|by intros dk [? _]]| |by intros e dk []].
  intros []. eapply (spec_attempt_bind _ _ _ _ (λ _, False)); [eapply spec_E; [by apply sees_writePointer|by intros dk [? _]]| |by intros e dk []].
  intros []. eapply spec_bind; [by apply sees_candidate_manifest|]. intros [].
  apply (spec_bind _ _ _ (λ verdict dk, verdict ≠ OutOfFuel ∧ sees true on_trial dk)).
  { intros dk Hdk. pose proof (sees_validate_runtime true on_trial fuel m r (λ _, False) dk Hdk) as Hs. specialize (Hfuel dk).
    destruct (validate_runtime fuel m r dk) as [dk' [e|verdict]]; [done|]. split; [|done]. by intros ->. }
  intros verdict. apply spec_pure. intros Hverdict. destruct verdict as [|cause|]; [|clear Hverdict|done].
  - by eapply spec_E.
  - apply (spec_bind _ _ _ (λ _ dk, ∃ v', put_back v' ∧ sees true v' dk)); [|intros e; by apply spec_throw].
    apply sees_rollbackLocked; [by eexists _, _|apply elsewhere_on_trial].
Qed.
End parts.

Lemma sees_ActivateAndValidate fuel m t id lkg m0 c g r Q :
  clock_advances (defaults m) → (mg_HealthInterval m ≤ max_int64)%Z → (enough_fuel (defaults m) ≤ fuel)%nat →
  ready_to_activate t id lkg m0 c → (∃ cfg, Parse c = inr cfg) → t_dirs t !! id = Some g →
  spec (sees true (on_trial t id m0 c g)) (promoteLocked (defaults m) (set_status RevisionValidating "" m0)) Q (λ _, False) →
  spec (sees true t) (ActivateAndValidate fuel m id r) Q (λ dk, ∃ v', put_back t id lkg v' ∧ sees true v' dk).
Proof.
  intros Hclock Hi Hf Hready [cfg Hparse] Hg Hpromote.
  assert (Hi' : (0 < mg_HealthInterval (defaults m) ≤ max_int64)%Z).
  { pose proof (defaults_interval m). simpl in *. destruct (Z.leb_spec (mg_HealthInterval m) 0); unfold Second, max_int64 in *; lia. }
  assert (Hfuel : ∀ dk, (validate_runtime fuel (defaults m) r dk).2 ≠ inr OutOfFuel).
  { intros dk'. by apply validate_runtime_terminates. }
  pose proof Hready as [_ _ _ _ Hm Hs Hc Hmt]. unfold ActivateAndValidate.
  eapply spec_bind; [eapply spec_E; [apply sees_lock|by intros ? [? _]]|]. intros [].
  eapply spec_bind; [eapply spec_E; [apply sees_readManifest|]|].
  { intros ? [[?|[e' He']] _]; congruence. }
  intros m1. apply spec_pure. intros Hm1. assert (m1 = m0) as -> by congruence. rewrite Hs. simpl negb.
  eapply spec_bind; [by apply sees_read_file|]. intros rc. apply spec_pure. intros Hrc. unfold config_of in Hc. rewrite Hc in Hrc.
  destruct rc as [e'|c1]; simpl in Hrc; [destruct Hrc as [[? _]|[? _]]; congruence|]. injection Hrc as <-.
  eapply (spec_bind _ _ _ (λ x dk, x = c ∧ sees true t dk)); [by intros ? ?|]. intros x. apply spec_pure. intros ->.
  rewrite Hmt, Hparse. simpl negb. by apply (sees_activate t id lkg m0 c g Hready Hg).
Qed.

(** C24: A candidate the running agent rejects is taken back: when no system
    call fails and the activation of a valid candidate reports an error, the
    old revision is active and last-known-good, the active file has its
    configuration again, the candidate is marked failed or rolled back, and
    every other revision is as it was, whatever the runtime answered. *)
Theorem rejected_activation_restores fuel m t id lkg m0 c r dk e :
  clock_advances (defaults m) → (mg_HealthInterval m ≤ max_int64)%Z → (enough_fuel (defaults m) ≤ fuel)%nat →
  ready_to_activate t id lkg m0 c → (∃ cfg, Parse c = inr cfg) →
  ActivateAndValidate fuel m id r (boot t []) = (dk, inl e) →
  put_back t id lkg (dk_view dk).
Proof.
  intros Hclock Hi Hf Hready Hparse Hrun.
  destruct (manifest_of_dir id t m0 (ra_manifest _ _ _ _ _ Hready)) as [g Hg].
  pose proof (sees_ActivateAndValidate fuel m t id lkg m0 c g r (λ _ _, True) Hclock Hi Hf Hready Hparse Hg) as Hspec.
  ospecialize (Hspec _ (boot t []) _); [apply (sees_promoteLocked t id lkg m0 c g Hready Hg); by apply elsewhere_on_trial|eexists; by apply boot_at|].
  rewrite Hrun in Hspec. destruct Hspec as (v' & Hv' & l & Hdk). by rewrite (at_view _ _ _ _ _ _ _ Hdk).
Qed.
End rejected.
