(* ===== verification/RevisionNames.v ===== *)
(** * New revision names

    [uniqueRevisionID] builds names that [ValidateRevisionID] accepts, from
    the clock and the digest, and finds a free one. *)

From Stdlib Require Import Ascii.
From S2P Require Import Prelude StableSort GoStrings GoStringFacts GoTime.
From S2P Require Import ConfigModel Disk DiskFacts Revision RevisionFacts.

Import revision.

Abbreviation chars := String.list_ascii_of_string.

(** ** Digits *)

Definition digits (n : nat) (l : list ascii) : Prop := length l = n ∧ Forall (λ c, is_digit c = true) l.

Definition digitsb (n : nat) (l : list ascii) : bool := (length l =? n)%nat && forallb is_digit l.

Lemma digitsb_digits n l : digitsb n l = true → digits n l.
Proof.
  unfold digitsb. rewrite andb_true_iff, Nat.eqb_eq, forallb_forall. intros [? Hall]. split; [done|].
  apply Forall_forall. intros c Hc. by apply Hall, list_elem_of_In.
Qed.

(** A check of [n] numbers from [z] on. *)
Fixpoint check_from (P : Z → bool) (n : nat) (z : Z) : bool :=
  match n with O => true | S n => P z && check_from P n (z + 1) end.

Lemma check_from_spec P n z k : check_from P n z = true → (z ≤ k < z + Z.of_nat n)%Z → P k = true.
Proof.
  revert z. induction n as [|n IH]; intros z; cbn [check_from]; [lia|]. rewrite andb_true_iff. intros [Hz Hn] Hk.
  destruct (decide (k = z)) as [->|]; [done|]. apply (IH (z + 1)%Z); [done|lia].
Qed.

Lemma below_check (P : Z → bool) n z : check_from P (Z.to_nat n) 0 = true → (0 ≤ z < n)%Z → P z = true.
Proof. intros Hc Hz. eapply check_from_spec; [exact Hc|lia]. Qed.

Lemma pad2_digits z : (0 ≤ z < 100)%Z → digits 2 (chars (pad 2 z)).
Proof.
  intros Hz. apply digitsb_digits, (below_check (λ z, digitsb 2 (chars (pad 2 z))) 100); [|done].
  vm_compute. reflexivity.
Qed.

Lemma pad4_digits z : (0 ≤ z < 10000)%Z → digits 4 (chars (pad 4 z)).
Proof.
  intros Hz. apply digitsb_digits.
  apply (below_check (λ z, digitsb 4 (chars (pad 4 z))) 10000); [|done]. vm_compute. reflexivity.
Qed.

(** ** The calendar *)

(** The clock is between the years 1 and 9600. *)
Definition clock_limit : Time := (3506022 * 86400 * Second)%Z.
Definition in_calendar (t : Time) : Prop := (0 ≤ t < clock_limit)%Z.

(** Year of the era, month and day of a day of the era. *)
Definition day_fits (doe : Z) : bool :=
  let yoe := ((doe - doe / 1460 + doe / 36524 - doe / 146096) / 365)%Z in
  let doy := (doe - (365 * yoe + yoe / 4 - yoe / 100))%Z in
  let mp := ((5 * doy + 2) / 153)%Z in
  let d := (doy - (153 * mp + 2) / 5 + 1)%Z in
  let m := if (mp <? 10)%Z then (mp + 3)%Z else (mp - 9)%Z in
  (0 <=? yoe)%Z && (yoe <=? 399)%Z && (1 <=? m)%Z && (m <=? 12)%Z && (1 <=? d)%Z && (d <=? 31)%Z.

Lemma days_fit doe : (0 ≤ doe < 146097)%Z → day_fits doe = true.
Proof. intros Hd. apply (below_check day_fits 146097); [|done]. vm_compute. reflexivity. Qed.

Lemma civil_bounds days :
  (0 ≤ days < 3506022)%Z → let '(y, m, d) := civil days in (0 ≤ y ≤ 9600 ∧ 1 ≤ m ≤ 12 ∧ 1 ≤ d ≤ 31)%Z.
Proof.
  intros Hd. unfold civil.
  pose proof (Z.mod_pos_bound (days + 306) 146097 ltac:(lia)) as Hm.
  pose proof (days_fit _ Hm) as Hf. unfold day_fits in Hf.
  set (doe := ((days + 306) mod 146097)%Z) in *.
  assert (Hera : (0 ≤ (days + 306) / 146097 ≤ 23)%Z).
  { split; [apply Z.div_pos; lia|]. apply Z.lt_succ_r, Z.div_lt_upper_bound; lia. }
  set (era := ((days + 306) / 146097)%Z) in *.
  rewrite !andb_true_iff, !Z.leb_le in Hf. case_match; case_match; lia.
Qed.

(** The fields of a day's second. *)
Lemma second_bounds s : (0 ≤ s < 86400)%Z → (0 ≤ s / 3600 < 100 ∧ 0 ≤ s / 60 mod 60 < 100 ∧ 0 ≤ s mod 60 < 100)%Z.
Proof.
  intros Hs. pose proof (Z.mod_pos_bound (s / 60) 60 ltac:(lia)). pose proof (Z.mod_pos_bound s 60 ltac:(lia)).
  split; [split; [apply Z.div_pos; lia|apply Z.div_lt_upper_bound; lia]|lia].
Qed.

Lemma digits_app n n' l l' : digits n l → digits n' l' → digits (n + n') (l ++ l').
Proof. intros [Hl Ha] [Hl' Ha']. split; [by rewrite length_app, Hl, Hl'|by apply Forall_app]. Qed.

Lemma FormatCompact_shape t :
  in_calendar t → ∃ date time, digits 8 date ∧ digits 6 time ∧ chars (FormatCompact t) = date ++ ["T"%char] ++ time ++ ["Z"%char].
Proof.
  intros Ht. unfold FormatCompact. set (secs := (t / Second)%Z).
  assert (Hsecs : (0 ≤ secs < 3506022 * 86400)%Z).
  { unfold secs, in_calendar, clock_limit, Second in *. split; [apply Z.div_pos; lia|apply Z.div_lt_upper_bound; lia]. }
  assert (Hdays : (0 ≤ secs / 86400 < 3506022)%Z) by (split; [apply Z.div_pos; lia|apply Z.div_lt_upper_bound; lia]).
  pose proof (civil_bounds _ Hdays) as Hc. destruct (civil (secs / 86400)) as [[y m] d].
  pose proof (second_bounds _ (Z.mod_pos_bound secs 86400 ltac:(lia))) as (Hh & Hmi & Hse).
  exists (chars (pad 4 y) ++ chars (pad 2 m) ++ chars (pad 2 d)).
  eexists (chars (pad 2 _) ++ chars (pad 2 _) ++ chars (pad 2 _)).
  split_and!; [| |rewrite !list_of_append; rewrite <-!app_assoc; reflexivity].
  - apply (digits_app 4 4); [apply pad4_digits; lia|apply (digits_app 2 2); apply pad2_digits; lia].
  - apply (digits_app 2 4); [by apply pad2_digits|apply (digits_app 2 2); by apply pad2_digits].
Qed.

(** ** Accepted names *)

Lemma take_class_ok n f p l : length p = n → Forall (λ c, f c = true) p → take_class n f (p ++ l) = Some l.
Proof.
  revert p. induction n as [|n IH]; intros [|c p]; simpl; intros Hl Hp; try done.
  apply Forall_cons in Hp as [Hc Hp]. rewrite Hc. apply IH; [lia|done].
Qed.

Lemma chars_substring n s : chars (String.substring 0 n s) = take n (chars s).
Proof. revert s. induction n as [|n IH]; intros [|c s]; simpl; [done..|]. by rewrite IH. Qed.

Lemma append_empty s : s +:+ "" = s.
Proof. induction s as [|c s IH]; [done|]. exact (f_equal (String.String c) IH). Qed.

Lemma suffix_ok n : (n < 100)%nat → id_suffix ("-"%char :: chars (pretty (Z.of_nat n))) = true.
Proof.
  intros Hn. apply (below_check (λ z, id_suffix ("-"%char :: chars (pretty z))) 100); [vm_compute; reflexivity|lia].
Qed.

Section names.
Context `{RevisionCodecLaws encodable}.

Lemma hash_prefix b : length (chars (first_bytes 8 (sha256_hex b))) = 8%nat ∧
  Forall (λ c, is_hex_digit c = true) (chars (first_bytes 8 (sha256_hex b))).
Proof.
  destruct (sha256_hex_shape b) as [Hl Ha]. unfold first_bytes. rewrite chars_substring. split.
  - rewrite length_take, length_chars. lia.
  - by apply Forall_take.
Qed.

(** A name built from the clock and a digest is valid. *)
Lemma nth_id_valid t b n : in_calendar t → (n < 100)%nat → ValidateRevisionID (nth_id (base_id t (sha256_hex b)) n) = None.
Proof.
  intros Ht Hn. destruct (FormatCompact_shape t Ht) as (date & time & [Hd Fd] & [Htm Ftm] & Hf).
  destruct (hash_prefix b) as [Hh Fh].
  assert (Hrest : ∀ tail, id_suffix (chars tail) = true → ValidateRevisionID (base_id t (sha256_hex b) +:+ tail) = None).
  { intros tail Htail. unfold ValidateRevisionID, revisionIDPattern, id_rest, take_lit, base_id.
    rewrite !list_of_append, Hf. rewrite <-!app_assoc. cbn [String.list_ascii_of_string app strip_prefix Ascii.eqb Bool.eqb mbind option_bind].
    rewrite (take_class_ok 8 is_digit date) by done. cbn [mbind option_bind strip_prefix Ascii.eqb Bool.eqb].
    rewrite (take_class_ok 6 is_digit time) by done. cbn [mbind option_bind strip_prefix Ascii.eqb Bool.eqb].
    rewrite (take_class_ok 8 is_hex_digit) by done. by rewrite Htail. }
  unfold nth_id. case_match.
  - rewrite <-(append_empty (base_id _ _)). by apply Hrest.
  - apply Hrest. rewrite list_of_append. by apply suffix_ok.
Qed.

(** ** A free name *)

Lemma nth_id_inj base i j : nth_id base i = nth_id base j → i = j.
Proof.
  assert (Hne : ∀ k, base ≠ base +:+ "-" +:+ pretty (Z.of_nat k)).
  { intros k Hk. apply (f_equal chars) in Hk. rewrite !list_of_append in Hk. apply (f_equal length) in Hk.
    rewrite !length_app in Hk. simpl in Hk. lia. }
  unfold nth_id. destruct (Nat.eqb_spec i 0) as [->|Hi], (Nat.eqb_spec j 0) as [->|Hj]; intros Heq; [done| | |].
  - by destruct (Hne j).
  - by destruct (Hne i).
  - apply (inj (String.append base)), (inj (String.append "-")), (inj pretty) in Heq. lia.
Qed.

Lemma free_id base (dirs : gmap string nat) n :
  (size dirs < n)%nat → ¬ (∀ j, (j < n)%nat → is_Some (dirs !! nth_id base j)).
Proof.
  intros Hs Hall. set (ids := nth_id base <$> seq 0 n).
  assert (Hnd : NoDup ids) by (apply NoDup_fmap_2; [intros i j; apply nth_id_inj|apply NoDup_seq]).
  assert (Hsub : list_to_set ids ⊆ dom dirs).
  { intros id Hid. apply elem_of_list_to_set, list_elem_of_fmap in Hid as (j & -> & Hj%elem_of_seq).
    apply elem_of_dom, Hall. lia. }
  apply subseteq_size in Hsub. rewrite size_list_to_set, size_dom in Hsub by done.
  unfold ids in Hsub. rewrite length_fmap, length_seq in Hsub. lia.
Qed.
End names.
