(* ===== verification/RevisionHistory.v ===== *)
(** * The history's operations

    New revisions, round trips through the files, pruning, bootstrap and the
    operator's rollback, when no call fails. *)

From Stdlib Require Import Ascii.
From S2P Require Import Prelude StableSort GoStrings GoStringFacts GoTime.
From S2P Require Import ConfigModel Disk DiskFacts Revision RevisionFacts RevisionStartup RevisionCrash RevisionNames.

Import revision.

Section history.
Context `{RevisionCodecLaws encodable} `{LeafOrder}.
Implicit Types (t v : Tree) (E : Disk Event → Prop).

(** Run on a machine that has just started, with no fault. *)
Lemma sees_boot t : sees true t (boot t []).
Proof. eexists. by apply boot_at. Qed.

Lemma sees_run {A} t (m : M A) Q :
  spec (sees true t) m (λ a dk, ∃ v, Q a v ∧ sees true v dk) (λ _, False) →
  ∃ dk a, m (boot t []) = (dk, inr a) ∧ Q a (dk_view dk).
Proof.
  intros Hm. specialize (Hm _ (sees_boot t)). destruct (m (boot t [])) as [dk [e|a]]; [done|].
  destruct Hm as (v & HQ & l & Hdk). exists dk, a. by rewrite (at_view _ _ _ _ _ _ _ Hdk).
Qed.

(** ** Round trips *)

(** What the manager writes it reads back: a pointer file yields the
    name written to it, and a manifest file the manifest, up to the texts that
    JSON may have to repair. *)
Theorem files_read_back t name id m g :
  ValidateRevisionID id = None → ValidateRevisionID (mf_RevisionID m) = None → encodable m →
  t_dirs t !! mf_RevisionID m = Some g →
  (∃ dk, (_ ← writePointer name id; readPointer name) (boot t []) = (dk, inr id)) ∧
  (∃ dk m', (_ ← writeManifest m; readManifest (mf_RevisionID m)) (boot t []) = (dk, inr m') ∧ core m' = core m).
Proof.
  intros Hid Hm Henc Hg. split.
  - destruct (sees_run t (_ ← writePointer name id; readPointer name) (λ a _, a = id)) as (dk & a & Hrun & ->); [|by exists dk].
    eapply spec_bind; [eapply spec_E; [by apply sees_writePointer|by intros dk [? _]]|]. intros [].
    eapply spec_conseq; [apply sees_readPointer|done| |]; rewrite pointer_after_pointer, bool_decide_eq_true_2 by done.
    + intros a dk [[= ->] Hdk]. eauto.
    + intros dk [[?|[? ?]] _]; done.
  - destruct (own_manifest_after_manifest g m t) as (m' & Hm' & Hcore); [done..|].
    destruct (sees_run t (_ ← writeManifest m; readManifest (mf_RevisionID m)) (λ a _, a = m')) as (dk & a & Hrun & ->); [|by exists dk, m'].
    eapply spec_bind; [eapply spec_E; [by apply sees_writeManifest|by intros dk [? _]]|]. intros [].
    eapply spec_conseq; [apply sees_readManifest|done| |]; rewrite Hm'.
    + intros a dk [[= ->] Hdk]. eauto.
    + intros dk [[?|[? ?]] _]; done.
Qed.

(** ** A new revision *)

Lemma sees_unique_from v base n k :
  spec (sees true v) (unique_from base n k)
    (λ id dk, (t_dirs v !! id = None ∧ ∃ j, (n ≤ j < n + k)%nat ∧ id = nth_id base j) ∧ sees true v dk)
    (λ _, ∀ j, (n ≤ j < n + k)%nat → is_Some (t_dirs v !! nth_id base j)).
Proof.
  revert n. induction k as [|k IH]; intros n; simpl; [apply spec_throw; intros dk _ j Hj; lia|].
  eapply (spec_bind _ _ _ (λ r dk, match r with
             | inr _ => is_Some (t_dirs v !! nth_id base n)
             | inl e => errors_is "os.ErrNotExist" e = true ∧ t_dirs v !! nth_id base n = None
             end ∧ sees true v dk)).
  { apply sees_lift. intros l. eapply spec_conseq; [by apply (stat_at true always l v anything (nth_id base n) (λ _, False))|done| |done].
    intros [e|[]] dk [Hr Hdk]; (split; [|by eapply sees_intro]); [|done]. by destruct Hr as [?|[? _]]. }
  intros [e|[]]; apply spec_pure.
  - intros [He Hn]. rewrite He. apply spec_now. intros dk Hdk. split; [|done]. split; [done|]. exists n. split; [lia|done].
  - intros Hn. eapply spec_conseq; [apply IH|done| |].
    + intros id dk [(Hfree & j & Hj & ->) Hdk]. split; [|done]. split; [done|]. exists j. split; [lia|done].
    + intros dk Hall j Hj. destruct (decide (j = n)) as [->|]; [done|]. apply Hall. lia.
Qed.

Lemma sees_mkdir v id :
  t_dirs v !! id = None →
  spec (sees true v) (sys_mkdir id)
    (λ _ dk, ∃ n, (∀ leaf, t_files v !! KRevision id n leaf = None) ∧ sees true (set_dir id (Some n) v) dk) (λ _, False).
Proof.
  intros Hid. apply sees_lift. intros l. eapply spec_conseq; [by apply (mkdir_at true always l v anything id)|done| |by intros dk [? _]].
  intros [] dk (n & Hn & Hdk). exists n. split; [done|]. by eapply sees_intro.
Qed.

Lemma sees_write_config v id g c :
  t_dirs v !! id = Some g →
  spec (sees true v) (writeAtomic (RevisionFile id ConfigYaml) c)
    (λ _, sees true (set_file (KRevision id g ConfigYaml) (Some c) v)) (λ _, False).
Proof.
  intros Hg. apply sees_lift. intros l. eapply spec_conseq.
  - apply (writeAtomic_at true always l v anything (RevisionFile id ConfigYaml) (KRevision id g ConfigYaml) c); [simpl; by rewrite Hg|done..].
  - done.
  - intros [] dk. apply sees_intro.
  - by intros dk [? _].
Qed.

(** The tree after a new revision's directory and configuration are there. *)
Lemma read_new_dir v id n c q :
  t_dirs v !! id = None → (∀ leaf, t_files v !! KRevision id n leaf = None) →
  t_read (set_file (KRevision id n ConfigYaml) (Some c) (set_dir id (Some n) v)) q =
  if decide (q = RevisionFile id ConfigYaml) then Some c
  else t_read v q.
Proof.
  intros Hid Hfresh. rewrite (t_read_write _ (RevisionFile id ConfigYaml)); [|simpl; by rewrite lookup_partial_alter_eq].
  case_decide as Hq; [done|]. destruct q as [|name|p leaf]; [done..|]. unfold t_read. simpl.
  destruct (decide (p = id)) as [->|Hp].
  - rewrite lookup_partial_alter_eq, Hid. simpl. apply Hfresh.
  - by rewrite lookup_partial_alter_ne.
Qed.

Lemma ascii_visible c : visible c → (nat_of_ascii c < 128)%nat.
Proof. unfold visible. lia. Qed.

Lemma digits_ascii n l : digits n l → Forall (λ c, (nat_of_ascii c < 128)%nat) l.
Proof. intros [_ Hl]. eapply Forall_impl; [done|]. intros c Hc. by apply ascii_visible, digit_visible. Qed.

Lemma RFC3339_ascii (t : Time) : in_calendar t → Forall (λ c, (nat_of_ascii c < 128)%nat) (chars (FormatRFC3339 t)).
Proof.
  intros Ht. unfold FormatRFC3339. set (secs := (t / Second)%Z).
  assert (Hsecs : (0 ≤ secs < 3506022 * 86400)%Z).
  { unfold secs, in_calendar, clock_limit, Second in *. split; [apply Z.div_pos; lia|apply Z.div_lt_upper_bound; lia]. }
  assert (Hdays : (0 ≤ secs / 86400 < 3506022)%Z) by (split; [apply Z.div_pos; lia|apply Z.div_lt_upper_bound; lia]).
  pose proof (civil_bounds _ Hdays) as Hc. destruct (civil (secs / 86400)) as [[y m] d].
  pose proof (second_bounds _ (Z.mod_pos_bound secs 86400 ltac:(lia))) as (Hh & Hmi & Hse).
  rewrite !list_of_append. rewrite !Forall_app.
  assert (Hlit : ∀ s, forallb (λ c, (nat_of_ascii c <? 128)%nat) (chars s) = true → Forall (λ c, (nat_of_ascii c < 128)%nat) (chars s)).
  { intros s. rewrite forallb_forall. intros Hs. apply Forall_forall. intros c Hin. by apply Nat.ltb_lt, Hs, list_elem_of_In. }
  split_and!; try (by apply Hlit); eapply digits_ascii; try (apply pad2_digits; lia). apply pad4_digits; lia.
Qed.

Lemma valid_id_ascii id : ValidateRevisionID id = None → Forall (λ c, (nat_of_ascii c < 128)%nat) (chars id).
Proof. intros [Hv _]%valid_id_visible. eapply Forall_impl; [done|]. apply ascii_visible. Qed.

Lemma hash_ascii b : Forall (λ c, (nat_of_ascii c < 128)%nat) (chars (sha256_hex b)).
Proof. destruct (sha256_hex_shape b) as [_ Ha]. eapply Forall_impl; [exact Ha|]. intros c Hc. by apply ascii_visible, hex_visible. Qed.

Lemma contentMatches_own m c : mf_ContentSHA256 m = sha256_hex c → contentMatches m c = true.
Proof. unfold contentMatches, EqualFold. intros ->. by apply bool_decide_eq_true. Qed.

(** What a new revision adds. *)
Record began (v : Tree) (source content parent : string) (mf : Manifest) (g : nat) (v' : Tree) : Prop := {
  bg_fresh : t_dirs v !! mf_RevisionID mf = None;
  bg_valid : ValidateRevisionID (mf_RevisionID mf) = None;
  bg_encodable : encodable mf;
  bg_status : mf_Status mf = RevisionCandidate;
  bg_source : mf_Source mf = source;
  bg_parent : mf_ParentRevision mf = parent;
  bg_hash : mf_ContentSHA256 mf = sha256_hex content;
  bg_dir : t_dirs v' !! mf_RevisionID mf = Some g;
  bg_config : config_of (mf_RevisionID mf) v' = Some content;
  bg_manifest : ∃ m', manifest_of (mf_RevisionID mf) v' = inr m' ∧ core m' = core mf;
  bg_rest q : (∀ leaf, q ≠ RevisionFile (mf_RevisionID mf) leaf) → t_read v' q = t_read v q;
}.

Lemma manifest_read_ne v v' p :
  t_read v' (RevisionFile p ManifestJson) = t_read v (RevisionFile p ManifestJson) → manifest_of p v' = manifest_of p v.
Proof. intros Hr. unfold manifest_of. by rewrite Hr. Qed.

Lemma sees_Now v m E : (∀ l, in_calendar (mg_Now m l)) → spec (sees true v) (Now m) (λ (now : Time) dk, in_calendar now ∧ sees true v dk) E.
Proof.
  intros Hcal. apply sees_lift. intros l. eapply spec_conseq; [by apply (outside_at (mg_Now m) EvNow true always l v anything E)|done| |done].
  intros a dk [-> Hdk]. split; [done|by eapply sees_intro].
Qed.

Lemma began_written v id n now source parent content :
  t_dirs v !! id = None → (∀ leaf, t_files v !! KRevision id n leaf = None) →
  ValidateRevisionID id = None → in_calendar now → (parent = "" ∨ ValidateRevisionID parent = None) →
  let mf := mkManifest id (FormatRFC3339 now) source 1 parent RevisionCandidate (sha256_hex content) "" in
  let v1 := set_file (KRevision id n ConfigYaml) (Some content) (set_dir id (Some n) v) in
  began v source content parent mf n (manifest_written n mf v1).
Proof.
  intros Hid Hfresh Hvalid Hnow Hparent mf v1.
  assert (Henc : encodable mf).
  { apply mj_ascii. rewrite !list_of_append, !Forall_app. split_and!.
    - by apply valid_id_ascii.
    - by apply RFC3339_ascii.
    - destruct Hparent as [->|Hp]; [constructor|by apply valid_id_ascii].
    - apply hash_ascii. }
  assert (Hdir : t_dirs v1 !! id = Some n) by (simpl; by rewrite lookup_partial_alter_eq).
  split; try done.
  - rewrite config_after_manifest by done. unfold config_of, v1. by rewrite read_new_dir, decide_True by done.
  - by apply own_manifest_after_manifest.
  - intros q Hq. unfold manifest_written. rewrite (t_read_write v1 (RevisionFile id ManifestJson)) by (simpl; by rewrite lookup_partial_alter_eq).
    rewrite decide_False by apply Hq. unfold v1. rewrite read_new_dir, decide_False by (done || apply Hq). done.
Qed.

Lemma sees_beginLocked v m source content parent cfg :
  Parse content = inr cfg → pointer "active" v = inr parent → (∀ l, in_calendar (mg_Now m l)) → (size (t_dirs v) < 100)%nat →
  spec (sees true v) (beginLocked m source content)
    (λ mf dk, ∃ v', (∃ g, began v source content parent mf g v') ∧ sees true v' dk) (λ _, False).
Proof.
  intros Hparse Hptr Hcal Hsize. unfold beginLocked. rewrite Hparse.
  apply (spec_bind _ _ _ (λ _, sees true v)); [by apply spec_now|]. intros _.
  eapply (spec_bind _ _ _ (λ id dk, (t_dirs v !! id = None ∧ ValidateRevisionID id = None) ∧ sees true v dk)).
  { unfold uniqueRevisionID. destruct (sha256_hex_shape content) as [Hlen _]. rewrite Hlen. simpl (64 <? 8)%nat.
    eapply spec_bind; [by apply sees_Now|]. intros t1. apply spec_pure. intros Ht1.
    eapply spec_conseq; [apply sees_unique_from|done| |].
    - intros id dk [(Hfree & j & Hj & ->) Hdk]. split; [|done]. split; [done|]. apply nth_id_valid; [done|unfold maxRevisionIDAttempts in Hj; lia].
    - intros dk Hall. eapply free_id; [exact Hsize|]. intros j Hj. apply Hall. unfold maxRevisionIDAttempts. lia. }
  intros id. apply spec_pure. intros [Hfree Hvalid].
  eapply spec_bind; [apply sees_pointer_or_empty|]. intros p. apply spec_pure. rewrite Hptr. intros Hp.
  assert (p = parent) as -> by (by destruct Hp as [->|[? _]]).
  eapply spec_bind; [by apply sees_mkdir|]. intros []. apply spec_ex. intros n. apply spec_pure. intros Hfresh.
  eapply spec_bind; [apply sees_write_config; simpl; by rewrite lookup_partial_alter_eq|]. intros [].
  eapply spec_bind; [by apply sees_Now|]. intros now. apply spec_pure. intros Hnow.
  pose proof (began_written v id n now source parent content Hfree Hfresh Hvalid Hnow (pointer_valid _ _ _ Hptr)) as Hb.
  eapply spec_bind; [eapply spec_E; [apply (sees_writeManifest true _ _ n); [done|by apply (bg_encodable _ _ _ _ _ _ _ Hb)|]|by intros dk [? _]]|].
  { simpl. by rewrite lookup_partial_alter_eq. }
  intros []. apply spec_now. intros dk Hdk. eexists. split; [exists n; exact Hb|exact Hdk].
Qed.

Lemma began_ready t source content lkg mf g v :
  named t → pointer "active" t = inr lkg → pointer "last-known-good" t = inr lkg → good_revision t lkg →
  began t source content lkg mf g v →
  ∃ m', core m' = core mf ∧ ready_to_activate v (mf_RevisionID mf) lkg m' content.
Proof.
  intros Hn Ha Hl Hg Hb. destruct (bg_manifest _ _ _ _ _ _ _ Hb) as (m' & Hm' & Hcore). exists m'. split; [done|].
  destruct Hb as [Hfresh Hvalid _ Hst _ _ Hh _ Hc _ Hrest].
  assert (Hcs : mf_RevisionID m' = mf_RevisionID mf ∧ mf_Status m' = mf_Status mf ∧ mf_ContentSHA256 m' = mf_ContentSHA256 mf).
  { unfold core in Hcore. by simplify_eq. }
  destruct Hcs as (Hid & Hst' & Hh').
  assert (Hne : lkg ≠ mf_RevisionID mf).
  { intros ->. destruct Hg as (mg & cg & Hmg & _). apply manifest_of_dir in Hmg as [? Hd]. congruence. }
  split.
  - intros p mp Hp. destruct (decide (p = mf_RevisionID mf)) as [->|Hpn]; [congruence|].
    apply Hn. rewrite <-Hp. symmetry. apply manifest_read_ne, Hrest. congruence.
  - unfold pointer. rewrite Hrest by done. done.
  - unfold pointer. rewrite Hrest by done. done.
  - destruct Hg as (mg & cg & Hmg & Hk & Hcg & Hmt). exists mg, cg. split_and!; [|done| |done].
    + rewrite <-Hmg. apply manifest_read_ne, Hrest. congruence.
    + rewrite <-Hcg. apply Hrest. congruence.
  - done.
  - by rewrite Hst', Hst.
  - done.
  - apply contentMatches_own. congruence.
Qed.

(** [Begin] records a candidate without touching what is in force: it
    takes a fresh valid name, stores the content and a manifest that says
    candidate, names the active revision as its parent and matches the
    content, and changes no other file; the result is what
    [ActivateAndValidate] starts from.  It succeeds for every accepted
    content as long as fewer than 100 revisions exist. *)
Theorem Begin_prepares_candidate m source content t lkg cfg :
  named t → pointer "active" t = inr lkg → pointer "last-known-good" t = inr lkg → good_revision t lkg →
  Parse content = inr cfg → (∀ l, in_calendar (mg_Now m l)) → (size (t_dirs t) < 100)%nat →
  ∃ dk mf m' g, Begin m source content (boot t []) = (dk, inr mf) ∧ core m' = core mf ∧
    began t source content lkg mf g (dk_view dk) ∧
    ready_to_activate (dk_view dk) (mf_RevisionID mf) lkg m' content.
Proof.
  intros Hn Ha Hl Hg Hparse Hcal Hsize.
  destruct (sees_run t (Begin m source content) (λ mf v', ∃ g, began t source content lkg mf g v')) as (dk & mf & Hrun & g & Hb).
  { unfold Begin. eapply spec_bind; [eapply spec_E; [apply sees_lock|by intros ? [? _]]|]. intros [].
    by eapply (sees_beginLocked t (defaults m)). }
  destruct (began_ready t source content lkg mf g (dk_view dk)) as (m' & Hcore & Hready); [done..|]. by exists dk, mf, m', g.
Qed.

(** ** Pruning *)

#[local] Instance newer_swo : StrictWeakOrder newer.
Proof.
  split; unfold newer.
  - intros x. apply swo_irrefl.
  - intros x y z H1' H2'. by eapply (swo_trans (less := string_less)).
  - intros x y z H1' H2'. by eapply (swo_ntrans (less := string_less)).
Qed.

(** [v'] is [v] without the directories in [gone]. *)
Record without (gone : gset string) (v v' : Tree) : Prop := {
  wo_gone id : id ∈ gone → t_dirs v' !! id = None;
  wo_kept id : id ∉ gone → t_dirs v' !! id = t_dirs v !! id;
  wo_read q : (∀ id leaf, id ∈ gone → q ≠ RevisionFile id leaf) → t_read v' q = t_read v q;
}.

Lemma removed_dirs id v v' : removed id v v' → t_dirs v' = delete id (t_dirs v).
Proof. intros (v1 & Ht & ->). simpl. by rewrite (thin_dirs _ _ _ Ht). Qed.

Lemma without_remove gone v v1 v2 id :
  without gone v v1 → (removed id v1 v2 ∨ t_dirs v1 !! id = None ∧ v2 = v1) → without ({[id]} ∪ gone) v v2.
Proof.
  intros [Hg Hk Hr] [Hrm|[Hnone ->]].
  - pose proof (removed_dirs _ _ _ Hrm) as Hd. split.
    + intros p [->%elem_of_singleton|Hp]%elem_of_union; rewrite Hd; [apply lookup_delete_eq|].
      destruct (decide (p = id)) as [->|]; [apply lookup_delete_eq|]. rewrite lookup_delete_ne by done. auto.
    + intros p [Hp1 Hp2]%not_elem_of_union. rewrite Hd, lookup_delete_ne by set_solver. auto.
    + intros q Hq. rewrite (removed_read id v1 v2); [|done|intros leaf; apply Hq; set_solver].
      apply Hr. intros p leaf Hp. apply Hq. set_solver.
  - split.
    + intros p [->%elem_of_singleton|Hp]%elem_of_union; auto.
    + intros p [Hp1 Hp2]%not_elem_of_union. auto.
    + intros q Hq. apply Hr. intros p leaf Hp. apply Hq. set_solver.
Qed.

Lemma sees_prune_loop v K ms removed gone :
  Forall (λ m, ValidateRevisionID (mf_RevisionID m) = None) ms →
  spec (λ dk, ∃ v1, without gone v v1 ∧ sees true v1 dk) (prune_loop K ms removed)
    (λ _ dk, ∃ v1, without (list_to_set (mf_RevisionID <$> filter (λ m, mf_RevisionID m ∉ K) ms) ∪ gone) v v1 ∧ sees true v1 dk)
    (λ _, False).
Proof.
  intros Hall. revert removed gone. induction Hall as [|m ms Hm Hall IH]; intros removed gone; simpl.
  { rewrite union_empty_l_L. by apply spec_now. }
  rewrite filter_cons. case_bool_decide as HK.
  - rewrite decide_False by (intros Hn; by apply Hn). apply IH.
  - rewrite decide_True by done. rewrite Hm. simpl. 
    apply (spec_bind _ _ _ (λ _ dk, ∃ v1, without gone v v1 ∧ sees true v1 dk)); [by apply spec_now|]. intros [].
    apply (spec_bind _ _ _ (λ _ dk, ∃ v1, without ({[mf_RevisionID m]} ∪ gone) v v1 ∧ sees true v1 dk)).
    { apply wrap_err_spec, spec_ex. intros v1. apply spec_pure. intros Hw. apply sees_lift. intros l.
      eapply spec_conseq; [apply (remove_all_at true always l v1 anything (mf_RevisionID m)); [done|by split]|done| |by intros dk [? _]].
      intros [] dk (v2 & Hv2 & Hdk). exists v2. split; [by eapply without_remove|by eapply sees_intro]. }
    intros []. eapply spec_conseq; [apply (IH true ({[mf_RevisionID m]} ∪ gone))|done| |done].
    intros b dk (v1 & Hw & Hdk). exists v1. split; [|done].
    rewrite (assoc_L (∪)), (comm_L (∪) (list_to_set _)) in Hw. exact Hw.
Qed.

(** The names the three pointers hold. *)
Definition pointed (names : list string) (v : Tree) : gset string :=
  list_to_set (filter (λ id, id ≠ "") ((λ name, or_empty (pointer name v)) <$> names)).

Lemma sees_protected v names :
  Forall (λ name, ∃ id, pointer name v = inr id) names →
  spec (sees true v) (protected_revisions names) (λ ids dk, ids = pointed names v ∧ sees true v dk) (λ _, False).
Proof.
  induction 1 as [|name names [id Hid] _ IH]; simpl; [by apply spec_now|].
  eapply spec_bind.
  { apply wrap_err_spec. eapply spec_E; [apply sees_readPointer|]. intros dk [[?|[e He]] _]; congruence. }
  intros x. apply spec_pure. intros Hx. assert (x = id) as -> by congruence.
  eapply spec_bind; [apply IH|]. intros rest. apply spec_pure. intros ->. apply spec_now. intros dk Hdk. split; [|done].
  unfold pointed. simpl. rewrite Hid. simpl. rewrite filter_cons. case_bool_decide as He.
  - rewrite decide_False by (intros Hn; by apply Hn). done.
  - by rewrite decide_True.
Qed.

(** The known-good revisions that are neither in use nor among the newest. *)
Definition prunable (t : Tree) (keep : Z) : gset string :=
  list_to_set (mf_RevisionID <$> filter (λ m, mf_RevisionID m ∉ keep_set (pointed pointer_names t) (known_good_revisions t) keep)
                                   (known_good_revisions t)).

Lemma sees_prune v keep :
  (1 ≤ keep)%Z → named v → Forall (λ name, ∃ id, pointer name v = inr id) pointer_names →
  spec (sees true v) (pruneRevisionsLocked keep)
    (λ _ dk, ∃ v', without (prunable v keep) v v' ∧ sees true v' dk) (λ _, False).
Proof.
  intros Hk Hn Hp. unfold pruneRevisionsLocked. destruct (Z.ltb_spec keep 1); [lia|].
  eapply spec_bind; [by apply sees_protected|]. intros ids. apply spec_pure. intros ->.
  eapply spec_bind; [eapply spec_E; [apply sees_KnownGoodRevisions|by intros ? [? _]]|].
  intros ms. apply spec_pure. intros Hall. apply spec_pure. intros Hms. specialize (Hms eq_refl) as ->.
  eapply (spec_bind _ _ _ (λ _ dk, ∃ v1, without (prunable v keep) v v1 ∧ sees true v1 dk)).
  { eapply spec_conseq; [apply (sees_prune_loop v _ _ false ∅)| | |done].
    - eapply Forall_impl; [exact Hall|]. intros m (_ & name & _ & Hm). rewrite (Hn _ _ Hm). by eapply manifest_of_valid.
    - intros dk Hdk. exists v. split; [|done]. split; [set_solver|done..].
    - intros b dk (v1 & Hw & Hdk). rewrite union_empty_r_L in Hw. by exists v1. }
  intros removed. apply spec_ex. intros v1. apply spec_pure. intros Hw.
  destruct removed; simpl; [|apply spec_now; by exists v1].
  eapply spec_bind; [eapply spec_E; [apply sees_quiet|by intros ? [? _]]|]. intros [].
  apply sees_lift. intros l. eapply spec_conseq; [by apply (sync_revisions_at true always l v1 anything)|done| |by intros ? [? _]].
  intros [] dk Hdk. exists v1. split; [done|by eapply sees_intro].
Qed.

(** What a pointer names is not prunable. *)
Lemma pointed_not_prunable t keep name id :
  name ∈ pointer_names → pointer name t = inr id → id ≠ "" → id ∉ prunable t keep.
Proof.
  intros Hin Hp Hid Hpr. unfold prunable in Hpr. apply elem_of_list_to_set, list_elem_of_fmap in Hpr as (m & -> & [Hm _]%list_elem_of_filter).
  apply Hm. unfold keep_set. apply elem_of_union_l. unfold pointed. apply elem_of_list_to_set, list_elem_of_filter. split; [done|].
  apply list_elem_of_fmap. exists name. by rewrite Hp.
Qed.


(** ** Bootstrap *)

(** A later install never blesses a drifted configuration: when a
    last-known-good revision exists, [BootstrapKnownGood] succeeds only if
    that revision is known-good and its manifest matches the offered content,
    and whatever calls fail, the only thing it can change is to make the
    active pointer name that revision; if the content differs it changes
    nothing. *)
Theorem bootstrap_never_blesses_drift m source content t lkg faults :
  pointer "last-known-good" t = inr lkg → lkg ≠ "" →
  let '(dk, res) := BootstrapKnownGood m source content (boot t faults) in
  let matching := ∃ mf, manifest_of lkg t = inr mf ∧ mf_Status mf = RevisionKnownGood ∧ contentMatches mf content = true in
  match res with
  | inr mf => manifest_of lkg t = inr mf ∧ matching ∧ dk_view dk = pointer_written "active" lkg t
  | inl _ => dk_view dk = t ∨ matching ∧ dk_view dk = pointer_written "active" lkg t
  end.
Proof.
  intros Hp Hne. set (matching := ∃ mf, _).
  assert (Hspec : spec (sees false t) (BootstrapKnownGood m source content)
    (λ mf dk, manifest_of lkg t = inr mf ∧ matching ∧ sees false (pointer_written "active" lkg t) dk)
    (λ dk, sees false t dk ∨ matching ∧ sees false (pointer_written "active" lkg t) dk)).
  { unfold BootstrapKnownGood. eapply spec_bind; [eapply spec_E; [apply sees_lock|intros ? [_ ?]; by left]|]. intros [].
    apply (spec_bind _ _ _ (λ _, sees false t)); [intros dk Hdk; destruct (Parse content); simpl; auto|]. intros _.
    eapply spec_bind; [eapply spec_E; [apply sees_readPointer|intros dk [_ ?]; by left]|].
    intros x. apply spec_pure. intros Hx. assert (x = lkg) as -> by congruence.
    rewrite bool_decide_eq_false_2 by done. simpl negb.
    eapply spec_bind; [apply wrap_err_spec; eapply spec_E; [apply sees_readManifest|intros dk [_ ?]; by left]|].
    intros mf. apply spec_pure. intros Hmf.
    case_bool_decide as Hk; simpl; [|apply spec_throw; by left].
    destruct (contentMatches mf content) eqn:Hmt; simpl; [|apply spec_throw; by left].
    assert (matching) as Hmm by (by exists mf).
    eapply spec_bind; [eapply spec_E; [apply sees_writePointer; by eapply manifest_of_valid|]|].
    { intros dk [_ [Hdk|Hdk]]; auto. }
    intros []. by apply spec_now. }
  specialize (Hspec (boot t faults)). ospecialize (Hspec _); [eexists; by apply boot_at|].
  destruct (BootstrapKnownGood m source content (boot t faults)) as [dk [e|mf]].
  - destruct Hspec as [[l Hdk]|[Hmm [l Hdk]]]; [left|right; split; [done|]]; apply (at_view _ _ _ _ _ _ _ Hdk).
  - destruct Hspec as (Hmf & Hmm & l & Hdk). split_and!; [done..|]. apply (at_view _ _ _ _ _ _ _ Hdk).
Qed.

(** What a promotion leaves: [old] is the revision it replaces. *)
Record promoted_in (v : Tree) (mf : Manifest) (content old prev : string) (v' : Tree) : Prop := {
  pi_active : pointer "active" v' = inr (mf_RevisionID mf);
  pi_last : pointer "last-known-good" v' = inr (mf_RevisionID mf);
  pi_previous : pointer "previous-known-good" v' = inr (if bool_decide (old = "") || bool_decide (old = mf_RevisionID mf) then prev else old);
  pi_good : good_revision v' (mf_RevisionID mf);
  pi_config : config_of (mf_RevisionID mf) v' = Some content;
  pi_file : t_read v' ActiveConfig = t_read v ActiveConfig;
}.

Lemma promoted_pruned v mf content old prev v1 v' keep :
  promoted_in v mf content old prev v1 → ValidateRevisionID (mf_RevisionID mf) = None →
  without (prunable v1 keep) v1 v' → promoted_in v mf content old prev v'.
Proof.
  intros [Ha Hl Hp Hg Hc Hf] Hid [_ _ Hr]. set (id := mf_RevisionID mf) in *.
  assert (Hnp : id ∉ prunable v1 keep).
  { apply (pointed_not_prunable v1 _ "active"); [by left|done|by apply valid_id_nonempty]. }
  assert (Hrid : ∀ leaf, t_read v' (RevisionFile id leaf) = t_read v1 (RevisionFile id leaf)).
  { intros leaf. apply Hr. intros p leaf' Hp'. congruence. }
  assert (Hptr : ∀ name, pointer name v' = pointer name v1) by (intros name; unfold pointer; by rewrite Hr).
  split; rewrite ?Hptr; try done; fold id.
  - destruct Hg as (m' & c' & Hm' & Hk & Hc' & Hmt'). exists m', c'. split_and!; [|done| |done].
    + unfold manifest_of. by rewrite Hrid.
    + unfold config_of. by rewrite Hrid.
  - unfold config_of. by rewrite Hrid.
  - by rewrite Hr.
Qed.

(** The tree before pruning. *)
Definition promotion_written (g : nat) (mf : Manifest) (old : string) (v : Tree) : Tree :=
  let v1 := manifest_written g (set_status RevisionKnownGood "" mf) v in
  let v2 := if bool_decide (old = "") || bool_decide (old = mf_RevisionID mf) then v1 else pointer_written "previous-known-good" old v1 in
  pointer_written "active" (mf_RevisionID mf) (pointer_written "last-known-good" (mf_RevisionID mf) v2).

Lemma promotion_read g mf old v q :
  (∀ name, q ≠ PointerFile name) → t_read (promotion_written g mf old v) q = t_read (manifest_written g (set_status RevisionKnownGood "" mf) v) q.
Proof.
  intros Hq. unfold promotion_written. destruct q as [|name|p leaf]; [|by destruct (Hq name)|].
  - rewrite !active_after_pointer. destruct (_ || _); by rewrite ?active_after_pointer.
  - rewrite !revision_after_pointer. destruct (_ || _); by rewrite ?revision_after_pointer.
Qed.

Lemma promotion_promotes v mf g content old prev :
  ValidateRevisionID (mf_RevisionID mf) = None → encodable mf → t_dirs v !! mf_RevisionID mf = Some g →
  pointer "last-known-good" v = inr old → (old = "" ∨ old = mf_RevisionID mf → pointer "previous-known-good" v = inr prev) →
  config_of (mf_RevisionID mf) v = Some content → contentMatches mf content = true →
  promoted_in v mf content old prev (promotion_written g mf old v).
Proof.
  intros Hid Henc Hg Hl Hp Hc Hmt. set (id := mf_RevisionID mf) in *. set (mk := set_status RevisionKnownGood "" mf).
  pose proof (pointer_valid _ _ _ Hl) as Hov.
  assert (Hc2 : config_of id (promotion_written g mf old v) = Some content).
  { unfold config_of. rewrite promotion_read by done. fold mk. fold (config_of id (manifest_written g mk v)).
    rewrite config_after_manifest; done. }
  split; fold id; try done.
  - unfold promotion_written. by rewrite pointer_after_pointer.
  - unfold promotion_written. by rewrite pointer_after_other, pointer_after_pointer.
  - unfold promotion_written. rewrite !pointer_after_other by done. fold mk id.
    destruct (_ || _) eqn:Ho.
    + rewrite pointer_after_manifest. apply Hp. apply orb_true_iff in Ho. by rewrite !bool_decide_eq_true in Ho.
    + rewrite pointer_after_pointer; [done|]. apply orb_false_iff in Ho as [Ho _]. apply bool_decide_eq_false in Ho. by destruct Hov.
  - destruct (own_manifest_after_manifest g mk v) as (m' & Hm' & Hcore); [done|by apply mj_set_status|done|]. exists m', content.
    unfold core in Hcore. simpl in Hcore. split_and!; [|congruence|done|].
    + rewrite <-Hm'. apply manifest_read_ne. by rewrite promotion_read.
    + revert Hmt. unfold contentMatches. by replace (mf_ContentSHA256 m') with (mf_ContentSHA256 mf) by congruence.
  - rewrite promotion_read by done. by rewrite active_after_manifest.
Qed.

Lemma sees_promote v m mf g content old prev :
  (1 ≤ mg_RevisionKeep m)%Z → named v → ValidateRevisionID (mf_RevisionID mf) = None → encodable mf →
  t_dirs v !! mf_RevisionID mf = Some g →
  pointer "last-known-good" v = inr old → (old = "" ∨ old = mf_RevisionID mf → pointer "previous-known-good" v = inr prev) →
  config_of (mf_RevisionID mf) v = Some content → contentMatches mf content = true →
  spec (sees true v) (promoteLocked m mf)
    (λ mf' dk, ∃ v', (mf' = set_status RevisionKnownGood "" mf ∧ promoted_in v mf content old prev v') ∧ sees true v' dk) (λ _, False).
Proof.
  intros Hkeep Hn Hid Henc Hg Hl Hp Hc Hmt. unfold promoteLocked.
  pose proof (promotion_promotes v mf g content old prev Hid Henc Hg Hl Hp Hc Hmt) as Hpr.
  set (mk := set_status RevisionKnownGood "" mf). set (id := mf_RevisionID mf) in *.
  assert (Hek : encodable mk) by by apply mj_set_status.
  eapply spec_bind; [eapply spec_E; [by apply (sees_writeManifest true v mk g)|by intros ? [? _]]|]. intros [].
  set (v1 := manifest_written g mk v).
  eapply spec_bind; [apply sees_pointer_or_empty|]. intros old'. apply spec_pure. unfold v1 at 1. rewrite pointer_after_manifest, Hl.
  intros Hold. assert (old' = old) as -> by (by destruct Hold as [->|[? _]]).
  set (v2 := if bool_decide (old = "") || bool_decide (old = id) then v1 else pointer_written "previous-known-good" old v1).
  apply (spec_bind _ _ _ (λ _, sees true v2)).
  { unfold when, v2. change (mf_RevisionID mk) with id. case_bool_decide as Ho; simpl; [by apply spec_now|].
    case_bool_decide; simpl; [by apply spec_now|]. destruct (pointer_valid _ _ _ Hl) as [|Hv]; [done|].
    eapply spec_E; [by apply sees_writePointer|by intros ? [? _]]. }
  intros []. eapply spec_bind; [eapply spec_E; [by apply sees_writePointer|by intros ? [? _]]|]. intros [].
  eapply spec_bind; [eapply spec_E; [by apply sees_writePointer|by intros ? [? _]]|]. intros [].
  change (mf_RevisionID mk) with id. change (pointer_written "active" id _) with (promotion_written g mf old v).
  assert (Hn2 : named (promotion_written g mf old v)).
  { assert (Hn1 : named v1) by (by apply (named_manifest id g)).
    intros p mp Hmp. apply Hn1. rewrite <-Hmp. symmetry. apply manifest_read_ne. by rewrite promotion_read. }
  eapply (spec_attempt_bind _ _ _ _ (λ _, False)).
  - apply sees_prune; [done..|]. destruct Hpr as [Ha Hlk Hpk _ _ _]. repeat constructor; eauto.
  - intros []. apply spec_ex. intros v3. apply spec_pure. intros Hw.
    apply spec_now. intros dk Hdk. exists v3. split; [|done]. split; [done|]. by eapply promoted_pruned.
  - by intros e dk [].
Qed.

(** The first install records what runs: without a last-known-good
    revision, [BootstrapKnownGood] makes the installed content a fresh
    known-good revision that is active and last-known-good, and leaves the
    configuration file alone. *)
Theorem bootstrap_records_first_revision m source content t cfg active prev :
  named t → pointer "active" t = inr active → pointer "last-known-good" t = inr "" → pointer "previous-known-good" t = inr prev →
  Parse content = inr cfg → (∀ l, in_calendar (mg_Now m l)) → (size (t_dirs t) < 100)%nat →
  ∃ dk mf, BootstrapKnownGood m source content (boot t []) = (dk, inr mf) ∧
    let id := mf_RevisionID mf in let v := dk_view dk in
    t_dirs t !! id = None ∧ mf_Status mf = RevisionKnownGood ∧
    pointer "active" v = inr id ∧ pointer "last-known-good" v = inr id ∧ good_revision v id ∧
    config_of id v = Some content ∧ t_read v ActiveConfig = t_read t ActiveConfig.
Proof.
  intros Hn Ha Hl Hp Hparse Hcal Hsize.
  destruct (sees_run t (BootstrapKnownGood m source content) (λ mf v, t_dirs t !! mf_RevisionID mf = None ∧ mf_Status mf = RevisionKnownGood ∧
    pointer "active" v = inr (mf_RevisionID mf) ∧ pointer "last-known-good" v = inr (mf_RevisionID mf) ∧ good_revision v (mf_RevisionID mf) ∧
    config_of (mf_RevisionID mf) v = Some content ∧ t_read v ActiveConfig = t_read t ActiveConfig)) as (dk & mf & Hrun & Hpost); [|by exists dk, mf].
  unfold BootstrapKnownGood. eapply spec_bind; [eapply spec_E; [apply sees_lock|by intros ? [? _]]|]. intros [].
  rewrite Hparse. apply (spec_bind _ _ _ (λ _, sees true t)); [by apply spec_now|]. intros _.
  eapply spec_bind; [eapply spec_E; [apply sees_readPointer|]|].
  { intros dk [[?|[e He]] _]; congruence. }
  intros x. apply spec_pure. intros Hx. assert (x = "") as -> by congruence. rewrite bool_decide_eq_true_2 by done. simpl negb. cbn iota.
  eapply spec_bind; [by apply (sees_beginLocked t (defaults m) source content active cfg)|].
  intros mf. apply spec_ex. intros v1. apply spec_pure. intros [g Hb].
  destruct Hb as [Hfresh Hvalid Henc Hst _ _ Hh Hdir Hc Hm Hrest].
  eapply spec_conseq; [apply (sees_promote v1 (defaults m) mf g content "" prev)|done| |done]; try done.
  - simpl. destruct (Z.leb_spec (mg_RevisionKeep m) 0); unfold defaultRevisionKeep; lia.
  - intros p mp Hmp. destruct (decide (p = mf_RevisionID mf)) as [->|Hpn].
    + destruct Hm as (m' & Hm' & Hcore). unfold core in Hcore. congruence.
    + apply Hn. rewrite <-Hmp. symmetry. apply manifest_read_ne, Hrest. congruence.
  - unfold pointer. by rewrite Hrest.
  - intros _. unfold pointer. by rewrite Hrest.
  - by apply contentMatches_own.
  - intros mf' dk (v' & (-> & [Hpa Hpl _ Hg Hcc Hac]) & Hdk). exists v'. split; [|done].
    split_and!; try done. rewrite Hac. by apply Hrest.
Qed.

(** ** The operator's rollback *)

(** The state of the pointers and of the active file. *)
Definition in_place (v : Tree) (active lkg previous content : string) : Prop :=
  pointer "active" v = inr active ∧ pointer "last-known-good" v = inr lkg ∧
  pointer "previous-known-good" v = inr previous ∧ t_read v ActiveConfig = Some content.

Lemma in_place_last v a l prev c x :
  ValidateRevisionID x = None → in_place v a l prev c → in_place (pointer_written "last-known-good" x v) a x prev c.
Proof.
  intros Hx (Ha & Hl & Hp & Hc). unfold in_place.
  rewrite (pointer_after_pointer "last-known-good" x "last-known-good"), !pointer_after_other, active_after_pointer by done. done.
Qed.

Lemma in_place_previous v a l prev c x :
  ValidateRevisionID x = None → in_place v a l prev c → in_place (pointer_written "previous-known-good" x v) a l x c.
Proof.
  intros Hx (Ha & Hl & Hp & Hc). unfold in_place.
  rewrite (pointer_after_pointer "previous-known-good" x "previous-known-good"), !pointer_after_other, active_after_pointer by done. done.
Qed.

Lemma in_place_restored v l prev c x :
  ValidateRevisionID x = None → pointer "last-known-good" v = inr l → pointer "previous-known-good" v = inr prev →
  in_place (restored c x v) x l prev c.
Proof. intros Hx Hl Hp. unfold in_place. rewrite !pointer_restored, active_restored by done. done. Qed.

(** A configuration that is there is read, when no call fails. *)
Lemma sees_read_present v p c E (A : Type) (f : string → M A) Q wrap :
  t_read v p = Some c → spec (sees true v) (f c) Q E →
  spec (sees true v) (r ← read_file p; x ← wrap_err wrap (lift r); f x) Q E.
Proof.
  intros Hc Hf. eapply spec_bind; [apply sees_read_file|]. intros r. apply spec_pure. rewrite Hc. intros Hr.
  destruct r as [e|c']; simpl in Hr; [destruct Hr as [[? _]|[? _]]; congruence|]. injection Hr as <-.
  eapply (spec_bind _ _ _ (λ x dk, x = c ∧ sees true v dk)); [by intros ? ?|]. intros x. by apply spec_pure; intros ->.
Qed.

Lemma sees_restore_previous v a l ca prev r cause :
  ValidateRevisionID a = None → (l = "" ∨ ValidateRevisionID l = None) → config_of a v = Some ca →
  pointer "last-known-good" v = inr l → pointer "previous-known-good" v = inr prev →
  spec (sees true v) (restoreAfterManualRollbackFailure a l r cause)
    (λ _ dk, ∃ v', (same_revisions v v' ∧ in_place v' a l prev ca) ∧ sees true v' dk) (λ _, False).
Proof.
  intros Ha Hl Hc Hpl Hpp. unfold restoreAfterManualRollbackFailure.
  rewrite bool_decide_eq_false_2 by (by apply valid_id_nonempty).
  set (v1 := restored ca a v).
  assert (Hdone : ∀ v', v' = v1 ∨ l ≠ "" ∧ v' = pointer_written "last-known-good" l v1 → same_revisions v v' ∧ in_place v' a l prev ca).
  { pose proof (in_place_restored v l prev ca a Ha Hpl Hpp) as Hi.
    assert (Hs : same_revisions v v1) by (by apply (same_restored ca a)).
    intros v' [->|[Hne ->]]; [done|]. destruct Hl as [|Hl]; [done|].
    split; [by apply same_pointer_written|by eapply in_place_last]. }
  assert (Hrest : spec (sees true v) (restore_previous a l r cause)
    (λ _ dk, ∃ v', (v' = v1 ∨ l ≠ "" ∧ v' = pointer_written "last-known-good" l v1) ∧ sees true v' dk)
    (λ dk, ∃ v', (v' = v1 ∨ l ≠ "" ∧ v' = pointer_written "last-known-good" l v1) ∧ sees true v' dk)).
  { unfold restore_previous. eapply sees_read_present; [exact Hc|].
    eapply spec_bind; [apply wrap_err_spec; eapply spec_E; [apply sees_writeActive|by intros ? [? _]]|]. intros [].
    eapply (spec_attempt_bind _ _ _ _ (λ _, False)); [eapply spec_E; [by apply sees_writePointer|by intros ? [? _]]| |by intros e dk []].
    intros []. apply (spec_bind _ _ _ (λ _ dk, ∃ v', (v' = v1 ∨ l ≠ "" ∧ v' = pointer_written "last-known-good" l v1) ∧ sees true v' dk)).
    { unfold when. case_bool_decide as He; simpl; [apply spec_now; intros dk Hdk; exists v1; auto|].
      destruct Hl as [|Hl]; [done|].
      eapply (spec_attempt_bind _ _ _ _ (λ _, False)); [eapply spec_E; [by apply sees_writePointer|by intros ? [? _]]| |by intros e dk []].
      intros []. apply spec_now. intros dk Hdk. eexists. split; [by right|exact Hdk]. }
    intros []. apply spec_ex. intros v'. apply spec_pure. intros Hv'.
    eapply spec_conseq; [apply sees_apply_and_check|done| |].
    - intros [] dk Hdk. by exists v'.
    - intros dk [_ Hdk]. by exists v'. }
  eapply spec_attempt_bind; [exact Hrest| |].
  - intros []. apply spec_now. intros dk (v' & Hv' & Hdk). eauto.
  - intros e. apply spec_now. intros dk (v' & Hv' & Hdk). eauto.
Qed.

Lemma sees_Rollback t target a l prev c ca cfg r :
  good_revision t target → config_of target t = Some c → Parse c = inr cfg →
  pointer "active" t = inr a → a ≠ "" → config_of a t = Some ca →
  pointer "last-known-good" t = inr l → pointer "previous-known-good" t = inr prev →
  spec (sees true t) (Rollback target r)
    (λ _ dk, ∃ v, (same_revisions t v ∧ in_place v target target (if bool_decide (l = "") || bool_decide (l = target) then prev else l) c) ∧ sees true v dk)
    (λ dk, r ≠ None ∧ ∃ v, (same_revisions t v ∧ in_place v a l prev ca) ∧ sees true v dk).
Proof.
  intros Hg Hct Hparse Ha Hane Hca Hl Hp. pose proof (good_revision_valid _ _ Hg) as Htv.
  destruct (pointer_valid _ _ _ Ha) as [|Hav]; [done|]. pose proof (pointer_valid _ _ _ Hl) as Hlv.
  destruct Hg as (mt & c' & Hmt & Hk & Hc' & Hmm). assert (c' = c) as -> by congruence.
  unfold Rollback. eapply spec_bind; [eapply spec_E; [apply sees_lock|by intros ? [? _]]|]. intros [].
  eapply spec_bind; [eapply spec_E; [apply sees_readManifest|]|].
  { intros dk [[?|[e He]] _]; congruence. }
  intros m1. apply spec_pure. intros Hm1. assert (m1 = mt) as -> by congruence.
  rewrite bool_decide_eq_true_2 by done. simpl negb. cbn iota.
  eapply spec_bind; [apply sees_read_file|]. intros rc. apply spec_pure. intros Hrc.
  unfold config_of in Hct. rewrite Hct in Hrc. destruct rc as [e|c1]; simpl in Hrc; [destruct Hrc as [[? _]|[? _]]; congruence|]. injection Hrc as <-.
  eapply (spec_bind _ _ _ (λ x dk, x = c ∧ sees true t dk)); [by intros ? ?|]. intros x. apply spec_pure. intros ->.
  rewrite Hmm, Hparse. simpl negb. cbn iota.
  apply (spec_bind _ _ _ (λ _, sees true t)); [by apply spec_now|]. intros _.
  eapply spec_bind; [apply sees_pointer_or_empty|]. intros oa. apply spec_pure. rewrite Ha. intros Hoa.
  assert (oa = a) as -> by (by destruct Hoa as [->|[? _]]).
  eapply spec_bind; [apply sees_pointer_or_empty|]. intros ol. apply spec_pure. rewrite Hl. intros Hol.
  assert (ol = l) as -> by (by destruct Hol as [->|[? _]]).
  eapply spec_bind; [eapply spec_E; [apply sees_writeActive|by intros ? [? _]]|]. intros [].
  eapply spec_bind; [eapply spec_E; [by apply sees_writePointer|by intros ? [? _]]|]. intros [].
  set (v1 := restored c target t).
  pose proof (in_place_restored t l prev c target Htv Hl Hp) as Hi. fold v1 in Hi.
  assert (Hs : same_revisions t v1) by (by apply (same_restored c target)).
  eapply spec_attempt_bind; [apply sees_apply_and_check| |].
  - intros []. set (vp := if bool_decide (l = "") || bool_decide (l = target) then v1 else pointer_written "previous-known-good" l v1).
    apply (spec_bind _ _ _ (λ _, sees true vp)).
    { unfold when, vp. case_bool_decide as He; simpl; [by apply spec_now|]. case_bool_decide; simpl; [by apply spec_now|].
      destruct Hlv as [|Hlv]; [done|]. eapply spec_E; [by apply sees_writePointer|by intros ? [? _]]. }
    intros []. eapply spec_conseq; [by apply sees_writePointer|done| |by intros ? [? _]].
    intros [] dk Hdk. eexists. split; [|exact Hdk].
    assert (Hvp : same_revisions t vp ∧ in_place vp target l (if bool_decide (l = "") || bool_decide (l = target) then prev else l) c).
    { unfold vp. case_bool_decide as He; simpl; [done|]. case_bool_decide as Ht; simpl; [done|].
      destruct Hlv as [|Hlv]; [done|]. split; [by apply same_pointer_written|by eapply in_place_previous]. }
    destruct Hvp as [Hsv Hvi]. split; [by apply same_pointer_written|by eapply in_place_last].
  - intros cause. apply spec_pure. intros Hr. destruct r as [r|]; [|done].
    apply (spec_bind _ _ _ (λ _ dk, ∃ v, (same_revisions t v ∧ in_place v a l prev ca) ∧ sees true v dk)).
    { eapply spec_conseq; [apply (sees_restore_previous v1 a l ca prev); try done|done| |done].
      - by rewrite <-Hca; apply same_config.
      - apply Hi.
      - apply Hi.
      - intros e dk (v & [Hsv Hi'] & Hdk). exists v. split; [|done]. split; [|done]. intros p leaf. by rewrite Hsv, Hs. }
    intros e. apply spec_throw. auto.
Qed.

(** C28: A rollback ordered by the operator either takes effect or leaves no
    trace: without failing calls, when it reports success the target is active
    and last-known-good, the old last-known-good is remembered as previous and
    the target's configuration is in the active file; when it reports an error
    because the running agent rejected the target, all three pointers and the
    active configuration are back as they were.  No revision changes. *)
Theorem operator_rollback_outcome t target a l prev c ca cfg r :
  good_revision t target → config_of target t = Some c → Parse c = inr cfg →
  pointer "active" t = inr a → a ≠ "" → config_of a t = Some ca →
  pointer "last-known-good" t = inr l → pointer "previous-known-good" t = inr prev →
  let '(dk, res) := Rollback target r (boot t []) in
  same_revisions t (dk_view dk) ∧
  match res with
  | inr _ => in_place (dk_view dk) target target (if bool_decide (l = "") || bool_decide (l = target) then prev else l) c
  | inl _ => r ≠ None ∧ in_place (dk_view dk) a l prev ca
  end.
Proof.
  intros Hg Hct Hparse Ha Hane Hca Hl Hp.
  pose proof (sees_Rollback t target a l prev c ca cfg r Hg Hct Hparse Ha Hane Hca Hl Hp _ (sees_boot t)) as Hs.
  destruct (Rollback target r (boot t [])) as [dk [e|[]]].
  - destruct Hs as (Hr & v & [? ?] & l' & Hdk). by rewrite (at_view _ _ _ _ _ _ _ Hdk).
  - destruct Hs as (v & [? ?] & l' & Hdk). by rewrite (at_view _ _ _ _ _ _ _ Hdk).
Qed.
End history.
