(* ===== verification/RevisionExample.v ===== *)
(** * A concrete configuration history

    A codec that satisfies the interface, a history grown by the manager's
    own operations, and the theorems at work on it. *)

From Stdlib Require Import Ascii.
From S2P Require Import Prelude StableSort GoStrings GoTime StoreExample.
From S2P Require Import ConfigModel ConfigValidate ConfigExample.
From S2P Require Import Disk DiskFacts Revision RevisionFacts RevisionStartup RevisionCrash RevisionRuns RevisionNames RevisionHistory.

Import revision.

(** ** A codec *)

Definition status_code (s : RevisionStatus) : nat * string :=
  match s with
  | RevisionCandidate => (0, "")
  | RevisionValidating => (1, "")
  | RevisionKnownGood => (2, "")
  | RevisionFailed => (3, "")
  | RevisionRolledBack => (4, "")
  | OtherStatus raw => (5, raw)
  end%nat.

Definition status_of (c : nat * string) : RevisionStatus :=
  match c.1 with
  | 0 => RevisionCandidate
  | 1 => RevisionValidating
  | 2 => RevisionKnownGood
  | 3 => RevisionFailed
  | 4 => RevisionRolledBack
  | _ => OtherStatus c.2
  end%nat.

Lemma status_of_code s : status_of (status_code s) = s.
Proof. by destruct s. Qed.

Definition fields (m : Manifest) : string * string * string * Z * string * (nat * string) * string * string :=
  (mf_RevisionID m, mf_CreatedAt m, mf_Source m, mf_SchemaVersion m, mf_ParentRevision m,
   status_code (mf_Status m), mf_ContentSHA256 m, mf_FailureReason m).

Definition of_fields (x : string * string * string * Z * string * (nat * string) * string * string) : Manifest :=
  let '(id, created, source, schema, parent, status, hash, reason) := x in
  mkManifest id created source schema parent (status_of status) hash reason.

Lemma of_fields_fields m : of_fields (fields m) = m.
Proof. destruct m as [? ? ? ? ? [] ? ?]; done. Qed.

(** Drop the newline at the end. *)
Fixpoint chomp (s : string) : string :=
  match s with
  | EmptyString => EmptyString
  | String.String c EmptyString => if Ascii.eqb c newline then EmptyString else s
  | String.String c s' => String.String c (chomp s')
  end.

Lemma chomp_line s : chomp (s +:+ newline_text) = s.
Proof.
  induction s as [|c s IH]; [done|]. change ((String.String c s) +:+ newline_text) with (String.String c (s +:+ newline_text)).
  cbn [chomp]. rewrite IH. by destruct s.
Qed.

(** A digest: 64 hexadecimal digits of a number made from the bytes. *)
Definition hex_char (z : Z) : ascii :=
  ascii_of_nat (Z.to_nat (if (z <? 10)%Z then 48 + z else 87 + z)).

Fixpoint hex_digits (n : nat) (z : Z) : string :=
  match n with O => EmptyString | S n => String.String (hex_char (z mod 16)) (hex_digits n (z / 16)) end.

Fixpoint sum_of (s : string) (acc : Z) : Z :=
  match s with
  | EmptyString => acc
  | String.String c s => sum_of s ((acc * 257 + Z.of_nat (nat_of_ascii c)) mod 2 ^ 256)%Z
  end.

Definition toy_sha256 (s : string) : string := hex_digits 64 (sum_of s 7).

Lemma hex_char_ok z : (0 ≤ z < 16)%Z → is_hex_digit (hex_char z) = true.
Proof. apply (below_check (λ z, is_hex_digit (hex_char z)) 16). reflexivity. Qed.

Lemma hex_digits_shape n z : String.length (hex_digits n z) = n ∧ Forall (λ c, is_hex_digit c = true) (chars (hex_digits n z)).
Proof.
  revert z. induction n as [|n IH]; intros z; simpl; [by split; [|constructor]|].
  destruct (IH (z / 16)%Z) as [-> Hall]. split; [done|]. constructor; [|done].
  apply hex_char_ok, Z.mod_pos_bound. lia.
Qed.

(** Any text of the form home... decodes to the sample configuration. *)
#[local] Instance toy_codec : RevisionCodec := {
  yaml_decode s := (if HasPrefix s "home" then inr home else inl (Errorf "yaml"), TrailingEOF);
  manifest_MarshalIndent m := inr (bits (encode (fields m)));
  manifest_Unmarshal b :=
    match decode (of_bits (chomp b)) with Some x => inr (of_fields x) | None => inl (Errorf "json") end;
  sha256_hex := toy_sha256;
}.

#[local] Instance toy_codec_laws : RevisionCodecLaws (λ _, True).
Proof.
  split; try done.
  - intros m _. by eexists.
  - intros m b _ [= <-]. exists m. cbn. by rewrite chomp_line, of_bits_bits, decode_encode, of_fields_fields.
  - intros b. exact (hex_digits_shape 64 (sum_of b 7)).
Qed.

#[local] Instance toy_order : LeafOrder := λ _, [ConfigYaml; ManifestJson].

(** ** A history *)

(** The clock: a second later at every event. *)
Definition start_time : Time := (62135596800 + 1750000000) * Second.
Fixpoint toy_now (l : Log) : Time :=
  match l with
  | [] => start_time
  | EvNow t :: _ => (t + Second)%Z
  | EvSleep d None :: l => (toy_now l + d)%Z
  | _ :: l => toy_now l
  end.

Definition manager : Manager := mkManager (10 * Second) (5 * Second) 2 toy_now (λ _ _, None).

Definition empty_tree : Tree := mkTree {[KActive := "home 1"]} ∅.

Definition installed : Tree := dk_view (BootstrapKnownGood manager "installer" "home 1" (boot empty_tree [])).1.
Definition first : string := "cfg-20250615T150640Z-" +:+ first_bytes 8 (toy_sha256 "home 1").

Example bootstrap_names : pointer "active" installed = inr first ∧ pointer "last-known-good" installed = inr first.
Proof. vm_compute. done. Qed.

Definition proposal : Disk Event * result Manifest := Begin manager "operator" "home 2" (boot installed []).
Definition proposed : Tree := dk_view proposal.1.
Definition second : string := "cfg-20250615T150640Z-" +:+ first_bytes 8 (toy_sha256 "home 2").
Definition manifest2 : Manifest :=
  mkManifest second "2025-06-15T15:06:41Z" "operator" 1 first RevisionCandidate (toy_sha256 "home 2") "".

Definition manifest1 : Manifest :=
  mkManifest first "2025-06-15T15:06:41Z" "installer" 1 "" RevisionKnownGood (toy_sha256 "home 1") "".

(** A runtime that accepts everything, and one that is never healthy. *)
Definition fine : Runtime := mkRuntime (λ _, None) (λ _, None).
Definition sick : Runtime := mkRuntime (λ _, None) (λ _, Some (Errorf "unhealthy")).

Definition named_check (t : Tree) : bool :=
  forallb (λ id, match manifest_of id t with inl _ => true | inr m => bool_decide (mf_RevisionID m = id) end)
    (map_keys (t_dirs t)).

Lemma named_of_check t : named_check t = true → named t.
Proof.
  unfold named_check. rewrite forallb_forall. intros Hall id m Hm. pose proof (manifest_of_dir _ _ _ Hm) as Hd.
  apply elem_map_keys, list_elem_of_In in Hd. specialize (Hall id Hd). rewrite Hm in Hall. by apply bool_decide_eq_true in Hall.
Qed.

Lemma good_of_run t id m c :
  manifest_of id t = inr m → bool_decide (mf_Status m = RevisionKnownGood) = true →
  config_of id t = Some c → contentMatches m c = true → good_revision t id.
Proof. intros ? ?%bool_decide_eq_true ? ?. by exists m, c. Qed.

Lemma proposed_ready : ready_to_activate proposed second first manifest2 "home 2".
Proof.
  split; [apply named_of_check| | |apply (good_of_run _ _ manifest1 "home 1")| | | |]; vm_compute; reflexivity.
Qed.

(** ** The theorems *)

Abbreviation activation := (ActivateAndValidate 4 manager second (Some fine) (boot proposed [])).

Example activation_succeeds : activation.2 = inr (set_status RevisionKnownGood "" manifest2).
Proof. vm_compute. reflexivity. Qed.

(** A moment in the middle of the probation. *)
Definition nowhere : Point Event := mkPoint empty_tree [] [].
Definition midway : Point Event := default nowhere (dk_trace activation.1 !! 50%nat).

Lemma default_elem {A} (d : A) l i : (i <? length l)%nat = true → default d (l !! i) ∈ l.
Proof.
  intros Hi%Nat.ltb_lt. destruct (lookup_lt_is_Some_2 l i Hi) as [x Hx]. rewrite Hx. by eapply list_elem_of_lookup_2.
Qed.

Example midway_is_on_probation :
  pointer "active" (pt_durable midway) = inr second ∧ pt_log midway ≠ [].
Proof. vm_compute. done. Qed.


Lemma run_pair {A} (x : Disk Event * result A) a : x.2 = inr a → x = (x.1, inr a).
Proof. by destruct x as [dk r]; simpl; intros ->. Qed.

Lemma run_error {A} (x : Disk Event * result A) : match x.2 with inl _ => true | inr _ => false end = true → ∃ e, x = (x.1, inl e).
Proof. destruct x as [dk [e|a]]; simpl; [by exists e|done]. Qed.

Lemma sound_of_run t id m :
  pointer "last-known-good" t = inr id → manifest_of id t = inr m → bool_decide (mf_Status m = RevisionKnownGood) = true →
  last_known_good_sound t.
Proof. intros Hp Hm Hs%bool_decide_eq_true id' m' Hp' Hm'. congruence. Qed.


(** The power fails during the probation: the old revision starts. *)
Definition interrupted_tree : Tree := pt_durable midway.
Abbreviation restart := (RecoverForStartup false None (boot interrupted_tree [])).

Example restart_goes_back :
  restart.2 = inr () ∧ pointer "active" (dk_view restart.1) = inr first ∧
  t_read (dk_view restart.1) ActiveConfig = Some "home 1".
Proof. vm_compute. done. Qed.

Lemma interrupted_named : named interrupted_tree.
Proof. apply named_of_check. vm_compute. reflexivity. Qed.

Lemma interrupted_good : good_revision interrupted_tree first.
Proof. apply (good_of_run _ _ manifest1 "home 1"); vm_compute; reflexivity. Qed.

Lemma startup_runs_recorded_revision_witness :
  same_revisions interrupted_tree (dk_view restart.1) ∧
  (false = true ∧ dk_view restart.1 = interrupted_tree ∨
   false = false ∧ (pointer "active" (dk_view restart.1) = inr "" ∨ ∃ id, in_force (dk_view restart.1) id)).
Proof.
  apply (startup_runs_recorded_revision false None interrupted_tree [] restart.1).
  - exact interrupted_named.
  - apply (sound_of_run _ first manifest1); vm_compute; reflexivity.
  - exact (run_pair _ _ (proj1 restart_goes_back)).
Defined.

Lemma startup_succeeds_with_last_known_good_witness :
  ∃ dk, RecoverForStartup false None (boot interrupted_tree []) = (dk, inr ()).
Proof.
  apply (startup_succeeds_with_last_known_good interrupted_tree first);
    [exact interrupted_named|vm_compute; reflexivity|exact interrupted_good].
Defined.

(** The same, when the old configuration file was lost. *)
Definition damaged_tree : Tree := set_file (KRevision first 1 ConfigYaml) None interrupted_tree.

Lemma startup_gives_up_without_last_known_good_witness :
  ∃ dk e, RecoverForStartup false None (boot damaged_tree []) = (dk, inl e).
Proof.
  apply (startup_gives_up_without_last_known_good damaged_tree second first).
  - apply named_of_check. vm_compute. reflexivity.
  - vm_compute. discriminate.
  - vm_compute. discriminate.
  - vm_compute. reflexivity.
  - vm_compute. reflexivity.
  - assert (Hm : manifest_of second damaged_tree = inr (set_status RevisionValidating "" manifest2)) by (vm_compute; reflexivity).
    intros m Hm'. assert (m = set_status RevisionValidating "" manifest2) as -> by congruence. right. by left.
  - vm_compute. reflexivity.
Defined.

(** A promoted revision whose directory entry was never synced: [Begin] and
    [ActivateAndValidate] report success, the power fails, and the agent does
    not start, although the previous known-good revision is intact. *)
Definition same_boot : Disk Event * result Manifest := ActivateAndValidate 4 manager second (Some fine) proposal.1.
Definition lost_tree : Tree := dk_durable same_boot.1.

(** A successful activation can be lost with the power, and the agent
    with it: no call syncs the directory that holds the revisions' names, so
    after [Begin] and [ActivateAndValidate] have both succeeded a power loss
    may leave pointers to a revision that is not there, and then the start
    fails although the previous known-good revision is intact. *)
Theorem promoted_revision_may_vanish :
  proposal.2 = inr manifest2 ∧ same_boot.2 = inr (set_status RevisionKnownGood "" manifest2) ∧
  crash (dk_pending same_boot.1) (dk_durable same_boot.1) lost_tree ∧
  pointer "active" lost_tree = inr second ∧ t_dirs lost_tree !! second = None ∧
  good_revision lost_tree first ∧ ∃ e, (RecoverForStartup false None (boot lost_tree [])).2 = inl e.
Proof.
  split; [vm_compute; reflexivity|]. split; [vm_compute; reflexivity|]. split; [apply crash_durable|].
  split; [vm_compute; reflexivity|]. split; [vm_compute; reflexivity|].
  split; [apply (good_of_run _ _ manifest1 "home 1"); vm_compute; reflexivity|].
  destruct (run_error (RecoverForStartup false None (boot lost_tree []))) as [e He]; [vm_compute; reflexivity|].
  exists e. by rewrite He.
Qed.

(** *** Rejection *)

Lemma toy_clock_advances m : mg_Now m = toy_now → clock_advances m.
Proof.
  intros Hm. assert (Hb : ∀ l, clock_bound m l = toy_now l ∨ (clock_bound m l + Second = toy_now l)%Z).
  { induction l as [|[t|d [e|]|e|e] l IH]; simpl in *; rewrite ?Hm; auto. destruct IH as [IH|IH]; [left|right]; lia. }
  intros l. rewrite Hm. destruct (Hb l) as [->|Heq]; [lia|]. unfold Second in *. lia.
Qed.

Abbreviation rejection := (ActivateAndValidate 4 manager second (Some sick) (boot proposed [])).

Lemma rejected_activation_restores_witness : put_back proposed second first (dk_view rejection.1).
Proof.
  destruct (run_error rejection) as [e He]; [vm_compute; reflexivity|].
  apply (rejected_activation_restores 4 manager proposed second first manifest2 "home 2" (Some sick) rejection.1 e).
  - by apply toy_clock_advances.
  - vm_compute. discriminate.
  - vm_compute. lia.
  - exact proposed_ready.
  - exists parsed. vm_compute. reflexivity.
  - exact He.
Defined.

Lemma activation_terminates_witness :
  (∀ dk, (validate_runtime 7 (defaults manager) (Some sick) dk).2 ≠ inr OutOfFuel) ∧
  (∀ dk, ActivateAndValidate 7 manager second (Some sick) dk =
         ActivateAndValidate (enough_fuel (defaults manager)) manager second (Some sick) dk).
Proof.
  apply activation_terminates; [by apply toy_clock_advances|vm_compute; discriminate|vm_compute; lia].
Defined.

(** *** The history *)

Lemma files_read_back_witness :
  (∃ dk, (_ ← writePointer "active" first; readPointer "active") (boot proposed []) = (dk, inr first)) ∧
  (∃ dk m', (_ ← writeManifest manifest2; readManifest second) (boot proposed []) = (dk, inr m') ∧ core m' = core manifest2).
Proof.
  apply (files_read_back proposed "active" first manifest2 2); [vm_compute; reflexivity|vm_compute; reflexivity|done|vm_compute; reflexivity].
Defined.

(** A clock that stands still, inside the calendar. *)
Definition still : Manager := mkManager (10 * Second) (5 * Second) 2 (λ _, start_time) (λ _ _, None).

Lemma still_in_calendar : ∀ l, in_calendar (mg_Now still l).
Proof. intros l. vm_compute. done. Qed.

Lemma installed_good : good_revision installed first.
Proof. apply (good_of_run _ _ manifest1 "home 1"); vm_compute; reflexivity. Qed.

Lemma Begin_prepares_candidate_witness :
  ∃ dk mf m' g, Begin still "operator" "home 3" (boot installed []) = (dk, inr mf) ∧ core m' = core mf ∧
    began (encodable := λ _, True) installed "operator" "home 3" first mf g (dk_view dk) ∧
    ready_to_activate (dk_view dk) (mf_RevisionID mf) first m' "home 3".
Proof.
  apply (Begin_prepares_candidate still "operator" "home 3" installed first parsed).
  - apply named_of_check. vm_compute. reflexivity.
  - vm_compute. reflexivity.
  - vm_compute. reflexivity.
  - exact installed_good.
  - vm_compute. reflexivity.
  - exact still_in_calendar.
  - vm_compute. lia.
Defined.

Lemma bootstrap_records_first_revision_witness :
  ∃ dk mf, BootstrapKnownGood still "installer" "home 1" (boot empty_tree []) = (dk, inr mf) ∧
    let id := mf_RevisionID mf in let v := dk_view dk in
    t_dirs empty_tree !! id = None ∧ mf_Status mf = RevisionKnownGood ∧
    pointer "active" v = inr id ∧ pointer "last-known-good" v = inr id ∧ good_revision v id ∧
    config_of id v = Some "home 1" ∧ t_read v ActiveConfig = t_read empty_tree ActiveConfig.
Proof.
  apply (bootstrap_records_first_revision still "installer" "home 1" empty_tree parsed "" "").
  - apply named_of_check. vm_compute. reflexivity.
  - vm_compute. reflexivity.
  - vm_compute. reflexivity.
  - vm_compute. reflexivity.
  - vm_compute. reflexivity.
  - exact still_in_calendar.
  - vm_compute. lia.
Defined.

(** A drifted configuration is refused. *)
Lemma bootstrap_never_blesses_drift_witness :
  let '(dk, res) := BootstrapKnownGood manager "installer" "home 2" (boot installed []) in
  let matching := ∃ mf, manifest_of first installed = inr mf ∧ mf_Status mf = RevisionKnownGood ∧ contentMatches mf "home 2" = true in
  match res with
  | inr mf => manifest_of first installed = inr mf ∧ matching ∧ dk_view dk = pointer_written "active" first installed
  | inl _ => dk_view dk = installed ∨ matching ∧ dk_view dk = pointer_written "active" first installed
  end.
Proof. apply (bootstrap_never_blesses_drift manager "installer" "home 2" installed first []); [vm_compute; reflexivity|vm_compute; discriminate]. Defined.

(** Three known-good revisions, a day apart. *)
Definition at_day (n : Z) : Manager :=
  mkManager (10 * Second) (5 * Second) 10 (λ l, toy_now l + n * 86400 * Second)%Z (λ _ _, None).

Definition grow (n : Z) (content : string) (t : Tree) : Tree :=
  match Begin (at_day n) "operator" content (boot t []) with
  | (dk, inr mf) => dk_view (ActivateAndValidate 9 (at_day n) (mf_RevisionID mf) (Some fine) (boot (dk_view dk) [])).1
  | (dk, inl _) => dk_view dk
  end.

Definition grown : Tree := grow 2 "home 3" (grow 1 "home 2" installed).

Example grown_revisions : map (λ m, mf_ContentSHA256 m) (known_good_revisions grown) = [toy_sha256 "home 3"; toy_sha256 "home 2"; toy_sha256 "home 1"].
Proof. vm_compute. reflexivity. Qed.


Example prune_takes_the_oldest : elements (prunable grown 1) = [first].
Proof. vm_compute. reflexivity. Qed.

(** *** The operator goes back *)

Lemma operator_rollback_outcome_witness :
  let '(dk, res) := Rollback first (Some sick) (boot (dk_view activation.1) []) in
  same_revisions (dk_view activation.1) (dk_view dk) ∧
  match res with
  | inr _ => in_place (dk_view dk) first first (if bool_decide (second = "") || bool_decide (second = first) then first else second) "home 1"
  | inl _ => Some sick ≠ None ∧ in_place (dk_view dk) second second first "home 2"
  end.
Proof.
  apply (operator_rollback_outcome (dk_view activation.1) first second second first "home 1" "home 2" parsed (Some sick)).
  - apply (good_of_run _ _ manifest1 "home 1"); vm_compute; reflexivity.
  - vm_compute. reflexivity.
  - vm_compute. reflexivity.
  - vm_compute. reflexivity.
  - vm_compute. discriminate.
  - vm_compute. reflexivity.
  - vm_compute. reflexivity.
  - vm_compute. reflexivity.
Defined.
