(* ===== verification/SystemHealth.v ===== *)
(** * The health program ([agent/internal/health/systemd.go])

    The checks and repairs of systemd units, and the program
    cmd/cockpit-ups-wol-health that runs them from a timer and leaves the
    snapshot the armed agent reads before it commits a recovery.

    [systemctl] answers according to the events of the run so far; the
    deadline of its context is an argument of the answer. *)

From S2P Require Import Prelude StableSort GoStrings PowerStateModel Store Health.
From S2P Require Import ConfigModel ConfigValidate Armed Disk Revision.

Module systemd.

(** ** Units ([health/systemd.go]) *)

(** [CommandRunner]: the combined output, and the error of the command. *)
Definition Runner : Type := health.Log → Duration → string → list string → string * option error.

Record SystemdUnitCheck : Type := mkUnitCheck { uc_Unit : string; uc_Critical : bool; uc_Timeout : Duration }.

Record SystemdUnitRepair : Type := mkUnitRepair { ur_Unit : string; ur_Timeout : Duration }.

(** [Name] of both *)
Definition unit_name (unit : string) : string := "systemd:" +:+ unit.

(** [err == nil && strings.TrimSpace(string(out)) == word] *)
Definition answered (run : Runner) (l : health.Log) (timeout : Duration) (verb unit word : string) : bool :=
  match run l timeout "systemctl" [verb; unit] with
  | (_, Some _) => false
  | (out, None) => bool_decide (TrimSpace out = word)
  end.

Definition SystemdUnitCheck_Run (run : Runner) (c : SystemdUnitCheck) (l : health.Log) : health.Result :=
  let r ok msg := health.mkResult (unit_name (uc_Unit c)) ok (uc_Critical c) true msg in
  let timeout := duration_or (uc_Timeout c) (5 * Second)%Z in
  if negb (answered run l timeout "is-enabled" (uc_Unit c) "enabled") then r false "service is not enabled"
  else if negb (answered run l timeout "is-active" (uc_Unit c) "active") then r false "service is not active"
  else r true "".

Definition SystemdUnitRepair_Repair (run : Runner) (r : SystemdUnitRepair) (l : health.Log) : option error :=
  match run l (duration_or (ur_Timeout r) (15 * Second)%Z) "systemctl" ["enable"; "--now"; ur_Unit r] with
  | (_, None) => None
  | (out, Some e) => Some (Wrapf ("systemctl enable --now " +:+ ur_Unit r +:+ ": ") e (": " +:+ TrimSpace out))
  end.

(** ** The program ([cmd/cockpit-ups-wol-health]) *)

Definition safetyCriticalUnit (unit : string) : bool := negb (bool_decide (unit = "cockpit.socket")).

Definition requiredUnitsForConfig (cfg : Config) : list string :=
  ["cockpit-ups-wol-agent.service"; "cockpit.socket"] ++
  (if bool_decide (nc_Profile (cf_NUT cfg) = "local-server") then ["nut-server.service"; "nut-monitor.service"] else []) ++
  (if bool_decide (nn_Mode (nc_Network (cf_NUT cfg)) = "restricted") then ["cockpit-ups-wol-firewall.service"] else []).

Record Flags : Type := mkFlags {
  fl_state : string;
  fl_repair : bool;
  fl_maxAttempts : Z;
  fl_units : list string;
}.

(** How a program ends: its exit status and what it printed. *)
Record Exit : Type := mkExit { ex_status : Z; ex_stdout : string; ex_stderr : string }.

Definition exits {A} (prefix : string) (r : result A) : Exit + A :=
  match r with inl e => inl (mkExit 1 "" (prefix +:+ err_msg e +:+ health.newline_text)) | inr a => inr a end.

Section program.
Context `{health.SnapshotCodec} `{revision.RevisionCodec}.
Context (run : Runner) (clock : health.Log → Time).

(** The units to check; [file] is what reading the configuration returns. *)
Definition units_of (flags : Flags) (file : result string) : Exit + list string :=
  match fl_units flags with
  | [] =>
      match exits "cockpit-ups-wol-health: read config: " file with
      | inl ex => inl ex
      | inr data =>
          match exits "cockpit-ups-wol-health: parse config: " (revision.Parse data) with
          | inl ex => inl ex
          | inr cfg => inr (requiredUnitsForConfig cfg)
          end
      end
  | units => inr units
  end.

Definition unit_check (unit : string) : SystemdUnitCheck := mkUnitCheck unit (safetyCriticalUnit unit) 0.

(** The loop that registers checks and repairers. *)
Definition supervisor_of (flags : Flags) (units : list string) : health.Supervisor :=
  health.mkSupervisor
    ((λ unit, health.mkCheck (unit_name unit) (SystemdUnitCheck_Run run (unit_check unit))) <$> units)
    (foldl (λ m unit, <[unit_name unit := SystemdUnitRepair_Repair run (mkUnitRepair unit 0)]> m) ∅ units)
    (fl_state flags) (fl_maxAttempts flags) 0 0 clock.

Definition summary (snap : health.Snapshot) : string :=
  health.State_string (health.sn_State snap) +:+ " generation=" +:+ pretty (health.sn_Generation snap)
  +:+ " checks=" +:+ pretty (Z.of_nat (length (health.sn_Results snap)))
  +:+ " repairs=" +:+ pretty (Z.of_nat (length (health.sn_Repairs snap))) +:+ health.newline_text.

Definition main (flags : Flags) (file : result string) (w : health.World) : health.World * Exit :=
  match units_of flags file with
  | inl ex => (w, ex)
  | inr units =>
      match health.Run (supervisor_of flags units) (fl_repair flags) w with
      | (w, inl e) => (w, mkExit 1 "" ("cockpit-ups-wol-health: " +:+ err_msg e +:+ health.newline_text))
      | (w, inr snap) =>
          (w, mkExit (if bool_decide (health.sn_State snap = health.FailedSafe) then 2 else 0) (summary snap) "")
      end
  end.
End program.
End systemd.
