(* ===== verification/SystemHealthFacts.v ===== *)
(** * What the health program promises the armed agent

    The snapshot the program leaves opens the agent's recovery gate exactly
    when every safety-critical unit was found enabled and active, and the
    management plane never closes it. *)

From S2P Require Import Prelude StableSort GoStrings PowerStateModel Store Health HealthFacts.
From S2P Require Import ConfigModel ConfigValidate Armed Revision SystemHealth.
Import health systemd.

(** ** One run of a supervisor *)

(** The result of a check, with its name filled in. *)
Definition result_of (c : Check) (l : Log) : Result :=
  let r := ck_Run c l in
  if bool_decide (rs_Name r = "") then mkResult (ck_Name c) (rs_OK r) (rs_Critical r) (rs_Repairable r) (rs_Message r) else r.

Definition silent (ev : Event) : Prop := match ev with EvCheck _ _ => False | _ => True end.

(** [snap'] follows from [snap] by steps that add no result and reach
    FAILED_SAFE only when [cause]. *)
Definition follows (cause : bool) (snap snap' : Snapshot) : Prop :=
  sn_Results snap' = sn_Results snap ∧ sn_Version snap' = sn_Version snap ∧ sn_CheckedAt snap' = sn_CheckedAt snap ∧
  (sn_State snap' = FailedSafe → sn_State snap = FailedSafe ∨ cause = true).

Lemma follows_refl cause snap : follows cause snap snap.
Proof. unfold follows. tauto. Qed.

Lemma follows_trans cause snap1 snap2 snap3 : follows cause snap1 snap2 → follows cause snap2 snap3 → follows cause snap1 snap3.
Proof. intros (H1 & H2 & H3 & H4) (G1 & G2 & G3 & G4). unfold follows. rewrite G1, G2, G3. tauto. Qed.

Lemma recovering_follows cause snap : follows cause snap (recovering snap).
Proof. unfold recovering. case_bool_decide; [apply follows_refl|]. unfold follows. simpl. by split_and!. Qed.

Lemma degrade_follows cause r snap : follows cause snap (degrade r snap).
Proof. unfold degrade. destruct (rs_Critical r); [|case_bool_decide]; unfold follows; simpl; split_and!; tauto || done. Qed.

Lemma exhausted_follows name snap : follows true snap (exhausted name snap).
Proof. unfold follows. simpl. tauto. Qed.

#[local] Hint Resolve follows_refl recovering_follows degrade_follows exhausted_follows : core.

Section outcome.
Context (s : Supervisor).

Lemma attempt_repair_outcome r repair snap w :
  ∃ snap' w' evs, attempt_repair s r repair snap w = (w', inr snap') ∧ hw_fs w' = hw_fs w ∧ hw_log w' = evs ++ hw_log w ∧
    Forall silent evs ∧ follows (rs_Critical r) snap snap'.
Proof.
  unfold attempt_repair, run_repair, Now, mbind, GoM_bind. simpl.
  set (n := (attempts_of snap (rs_Name r) + 1)%Z).
  eexists _, _, [EvNow; EvRepair (rs_Name r)]. split; [reflexivity|]. split_and!; [done|done|by repeat constructor|].
  assert (Hmk : ∀ c rr, follows (rs_Critical r) snap
    (mkSnapshot (sn_Version snap) (sn_State snap) (sn_CheckedAt snap) (sn_Results snap) rr c (sn_Generation snap))).
  { intros c rr. unfold follows. simpl. tauto. }
  destruct (repair (hw_log w)) as [e|]; simpl.
  - destruct (rs_Critical r); rewrite ?andb_true_r, ?andb_false_r; [destruct (_ <=? n)%Z|];
      (eapply follows_trans; [|first [apply exhausted_follows|apply recovering_follows]]; apply Hmk).
  - eapply follows_trans; [|apply recovering_follows]. apply Hmk.
Qed.

Lemma check_one_outcome autofix snap c w :
  let r := result_of c (hw_log w) in
  ∃ snap' w' evs, check_one s autofix snap c w = (w', inr snap') ∧ hw_fs w' = hw_fs w ∧
    hw_log w' = evs ++ EvCheck (rs_Name r) (rs_OK r) :: hw_log w ∧ Forall silent evs ∧
    follows (critical_failure r) (sn_add_Result r snap) snap'.
Proof.
  intros r. unfold check_one, run_check, mbind at 1, GoM_bind at 1. fold (result_of c (hw_log w)). fold r.
  set (w1 := log _ w).
  assert (Hnow : ∀ snap', follows (critical_failure r) (sn_add_Result r snap) snap' →
    ∃ snap'' w' evs, (mret snap' : GoM World Snapshot) w1 = (w', inr snap'') ∧ hw_fs w' = hw_fs w ∧
      hw_log w' = evs ++ EvCheck (rs_Name r) (rs_OK r) :: hw_log w ∧ Forall silent evs ∧
      follows (critical_failure r) (sn_add_Result r snap) snap'').
  { intros snap' Hf. eexists _, _, []. by split_and!. }
  unfold critical_failure in *. destruct (rs_OK r) eqn:Hok.
  { apply Hnow. unfold follows. simpl. tauto. }
  rewrite andb_true_r in *. set (snap1 := degrade r (sn_add_Result r snap)).
  assert (Hd : follows (rs_Critical r) (sn_add_Result r snap) snap1) by apply degrade_follows.
  destruct (negb autofix || negb (rs_Repairable r)); [by apply Hnow|].
  destruct (sp_Repairers s !! rs_Name r) as [repair|]; [|by apply Hnow].
  destruct (sp_MaxRepairAttempts s <=? attempts_of snap1 (rs_Name r))%Z.
  { apply Hnow. destruct (rs_Critical r); [|done]. eapply follows_trans; [exact Hd|auto]. }
  unfold must_wait. destruct (IsZero (next_of snap1 (rs_Name r))).
  - unfold mbind, GoM_bind. simpl.
    destruct (attempt_repair_outcome r repair snap1 w1) as (snap' & w' & evs & Hr & Hfs & Hl & Hs & Hf).
    rewrite Hr. eexists _, _, evs. split_and!; [done|done|done|done|]. by eapply follows_trans.
  - unfold mbind, GoM_bind, Now. simpl. destruct (Before _ _).
    + eexists _, _, [EvNow]. split_and!; [done|done|done|by repeat constructor|]. eapply follows_trans; [exact Hd|auto].
    + destruct (attempt_repair_outcome r repair snap1 (log EvNow w1)) as (snap' & w' & evs & Hr & Hfs & Hl & Hs & Hf).
      rewrite Hr. eexists _, _, (evs ++ [EvNow]). split_and!; [done|done| |by apply Forall_app; split; [|repeat constructor]|].
      * rewrite Hl, <- app_assoc. done.
      * by eapply follows_trans.
Qed.
End outcome.

(** The results of a run are those of the checks it logged since [l0]. *)
Record recorded (l0 new : Log) (snap : Snapshot) (cs : list Check) : Prop := {
  event_result name ok n1 n2 : new = n1 ++ EvCheck name ok :: n2 →
    ∃ c, c ∈ cs ∧ result_of c (n2 ++ l0) ∈ sn_Results snap ∧
         name = rs_Name (result_of c (n2 ++ l0)) ∧ ok = rs_OK (result_of c (n2 ++ l0));
  result_event r : r ∈ sn_Results snap → ∃ c l, c ∈ cs ∧ r = result_of c l ∧ EvCheck (rs_Name r) (rs_OK r) ∈ new;
  check_event c : c ∈ cs → ∃ l, result_of c l ∈ sn_Results snap;
  failed_safe_cause : sn_State snap = FailedSafe → ∃ r, r ∈ sn_Results snap ∧ critical_failure r = true;
}.

Lemma silent_prefix (evs : Log) (ev : Event) (l : Log) name ok n1 n2 :
  Forall silent evs → evs ++ ev :: l = n1 ++ EvCheck name ok :: n2 →
  (ev = EvCheck name ok ∧ n2 = l) ∨ ∃ n3, l = n3 ++ EvCheck name ok :: n2.
Proof.
  intros Hs. revert n1. induction Hs as [|e evs He Hs IH]; intros n1; simpl.
  - destruct n1 as [|x n1]; simpl; intros [= -> ->]; eauto.
  - destruct n1 as [|x n1]; simpl; intros [= -> Heq]; [done|by eauto].
Qed.

Lemma record_one l0 new evs snap snap' cs c :
  let r := result_of c (new ++ l0) in
  recorded l0 new snap cs → Forall silent evs → follows (critical_failure r) (sn_add_Result r snap) snap' →
  recorded l0 (evs ++ EvCheck (rs_Name r) (rs_OK r) :: new) snap' (cs ++ [c]).
Proof.
  intros r Hrec Hs (Hres & _ & _ & Hst). simpl in Hres, Hst.
  assert (Hin : ∀ x, x ∈ sn_Results snap' ↔ x ∈ sn_Results snap ∨ x = r).
  { intros x. rewrite Hres, elem_of_app, list_elem_of_singleton. done. }
  split.
  - intros name ok n1 n2 Heq. destruct (silent_prefix _ _ _ _ _ _ _ Hs Heq) as [[[= <- <-] ->]|[n3 ->]].
    + exists c. fold r. rewrite Hin. split_and!; auto. set_solver.
    + destruct (event_result _ _ _ _ Hrec name ok n3 n2 eq_refl) as (c' & ? & ? & ? & ?).
      exists c'. rewrite Hin. split_and!; auto. set_solver.
  - intros x [Hx| ->]%Hin.
    + destruct (result_event _ _ _ _ Hrec x Hx) as (c' & l & ? & ? & ?). exists c', l. set_solver.
    + exists c, (new ++ l0). set_solver.
  - intros c' [Hc|Hc]%elem_of_app.
    + destruct (check_event _ _ _ _ Hrec c' Hc) as [l Hl]. exists l. rewrite Hin. auto.
    + apply list_elem_of_singleton in Hc as ->. exists (new ++ l0). rewrite Hin. auto.
  - intros [Hf|Hf]%Hst; [|exists r; rewrite Hin; auto].
    destruct (failed_safe_cause _ _ _ _ Hrec Hf) as (x & Hx & Hc). exists x. rewrite Hin. auto.
Qed.

Lemma check_all_recorded s autofix checks : ∀ snap w cs l0 new,
  hw_log w = new ++ l0 → recorded l0 new snap cs →
  ∃ snap' w' new', check_all s autofix snap checks w = (w', inr snap') ∧ hw_fs w' = hw_fs w ∧ hw_log w' = new' ++ l0 ∧
    recorded l0 new' snap' (cs ++ checks) ∧ sn_Version snap' = sn_Version snap ∧ sn_CheckedAt snap' = sn_CheckedAt snap.
Proof.
  induction checks as [|c checks IH]; intros snap w cs l0 new Hl Hrec.
  - eexists _, _, _. rewrite app_nil_r. by split_and!.
  - destruct (check_one_outcome s autofix snap c w) as (snap1 & w1 & evs & Hone & Hfs1 & Hl1 & Hs1 & Hf1).
    rewrite Hl in Hl1, Hf1.
    destruct (IH snap1 w1 (cs ++ [c]) l0 (evs ++ EvCheck (rs_Name (result_of c (new ++ l0))) (rs_OK (result_of c (new ++ l0))) :: new))
      as (snap' & w' & new' & Hall & Hfs' & Hl' & Hrec' & Hv & Hc).
    { rewrite Hl1. by rewrite <- app_assoc. }
    { by apply record_one with (snap := snap). }
    exists snap', w', new'. destruct Hf1 as (_ & Hv1 & Hc1 & _). simpl in Hv1, Hc1. split_and!; [|congruence|done| |congruence..].
    + cbn [check_all]. unfold mbind, GoM_bind. by rewrite Hone.
    + by rewrite <- app_assoc in Hrec'.
Qed.

(** ** The snapshot file *)

Section saved.
Context `{SnapshotCodec}.

(** The file a reader would find now. *)
Definition snapshot_file (w : World) : option string := d_current (fs_view (hw_fs w)).

Lemma spec_syscall name (eff : FS → FS) (P Q : FS → Prop) :
  (∀ fs, P fs → Q (fs_record (eff fs))) → (∀ fs f, P fs → P (mkFS (fs_durable fs) (fs_pending fs) (fs_tmp fs) f (fs_trace fs))) →
  spec P (syscall name eff) (λ _, Q) (λ _, True).
Proof.
  intros HQ Hf fs HP. unfold syscall. destruct (fs_faults fs) as [|[] faults]; [by apply HQ|done|].
  apply HQ. by apply (Hf fs faults).
Qed.

Lemma Save_view s snap b :
  sp_StatePath s ≠ "" → hj_MarshalIndent snap = inr b →
  spec (λ _, True) (Save s snap) (λ _ fs, d_current (fs_view fs) = Some (b +:+ newline_text)) (λ _, True).
Proof.
  intros Hp Hb. unfold Save. rewrite bool_decide_false by done. rewrite Hb.
  apply (spec_bind _ _ _ (λ a _, a = b ∧ True) _ _); [by intros fs _|]. intros b'. apply spec_pure. intros ->.
  set (tmp fs := ∃ synced, fs_tmp fs = Some (b +:+ newline_text, synced)).
  set (active fs := d_current (fs_view fs) = Some (b +:+ newline_text)).
  do 3 (eapply spec_bind; [apply (spec_syscall _ _ (λ _, True) (λ _, True)); done|intros []]).
  eapply spec_bind; [apply (spec_syscall _ _ (λ _, True) tmp); [by eexists|done]|intros []].
  eapply spec_bind; [apply (spec_syscall _ _ tmp tmp); [intros fs [sy Ht]; simpl; rewrite Ht; by eexists|done]|intros []].
  eapply spec_bind; [apply (spec_syscall _ _ tmp tmp); done|intros []].
  eapply spec_bind; [apply (spec_syscall _ _ tmp active)|intros []]; [|done|].
  { intros fs [sy Ht]. rewrite Ht. unfold active, fs_view. simpl. by rewrite fold_left_app. }
  eapply spec_bind; [apply (spec_syscall _ _ active active); done|intros []].
  apply (spec_syscall _ _ active active); done.
Qed.
End saved.

Section run.
Context `{SnapshotCodec} (s : Supervisor).
Hypothesis Hpath : sp_StatePath s ≠ "".

Lemma Load_version : spec (λ _, True) (Load (defaults s)) (λ snap _, sn_Version snap = 1%Z) (λ _, True).
Proof.
  unfold Load. rewrite bool_decide_false by done.
  apply (spec_bind _ _ _ (λ _ _, True)); [intros fs _; unfold read_file; by destruct (sys_quiet _ fs) as [fs' [e|[]]]|].
  intros [e|b] fs _; [by destruct (errors_is _ e)|].
  destruct (hj_Unmarshal b) as [e|snap]; [done|]. destruct (sn_Version snap =? 1)%Z eqn:Hv; simpl; [lia|done].
Qed.

Lemma Run_recorded autofix w w' snap :
  Run s autofix w = (w', inr snap) →
  ∃ new b, hw_log w' = new ++ hw_log w ∧ recorded (hw_log w) new snap (SliceStable (less_id ck_Name) (sp_Checks s)) ∧
    sn_Version snap = 1%Z ∧ sn_CheckedAt snap = sp_Now s (hw_log w) ∧
    hj_MarshalIndent snap = inr b ∧ snapshot_file w' = Some (b +:+ newline_text).
Proof.
  unfold Run, mbind, GoM_bind, attempt, on_fs at 1.
  pose proof (Load_version (hw_fs w) I) as Hload. destruct (Load (defaults s) (hw_fs w)) as [fs r].
  cbn -[check_all Save SliceStable defaults].
  set (loaded := match r with inl _ => zeroSnapshot | inr sn => sn end).
  assert (Hv : sn_Version (if (sn_Version loaded =? 0)%Z then NewSnapshot else loaded) = 1%Z).
  { unfold loaded. destruct r as [e|sn]; [done|]. rewrite Hload. simpl. exact Hload. }
  rewrite Hv. set (snap0 := mkSnapshot _ _ _ _ _ _ _).
  destruct (check_all_recorded (defaults s) autofix (SliceStable (less_id ck_Name) (sp_Checks (defaults s))) snap0
              (log EvNow (mkWorld fs (hw_log w))) [] (hw_log w) [EvNow]) as (snap1 & w1 & new & Hall & _ & Hl & Hrec & Hv1 & Hc1).
  { done. }
  { split; [|simpl; set_solver..|done]. intros name ok n1 n2 Heq. by destruct n1 as [|? [|]]. }
  rewrite Hall. unfold on_fs. destruct (Save (defaults s) snap1 (hw_fs w1)) as [fs2 [e|[]]] eqn:Hsave; [done|].
  intros [= <- <-]. assert (Hm : ∃ b, hj_MarshalIndent snap1 = inr b).
  { revert Hsave. unfold Save. rewrite bool_decide_false by done. destruct (hj_MarshalIndent snap1); [done|by eexists]. }
  destruct Hm as [b Hb]. pose proof (Save_view (defaults s) snap1 b Hpath Hb (hw_fs w1) I) as Hview.
  rewrite Hsave in Hview. exists new, b. by split_and!.
Qed.
End run.

(** ** The gate *)

(** What [systemctl] said of a unit. *)
Definition unit_ok (run : Runner) (l : Log) (unit : string) : bool :=
  answered run l (5 * Second)%Z "is-enabled" unit "enabled" && answered run l (5 * Second)%Z "is-active" unit "active".

Lemma result_of_unit run unit l :
  let r := result_of (mkCheck (unit_name unit) (SystemdUnitCheck_Run run (unit_check unit))) l in
  rs_Name r = unit_name unit ∧ rs_OK r = unit_ok run l unit ∧ rs_Critical r = safetyCriticalUnit unit.
Proof.
  unfold result_of, SystemdUnitCheck_Run, unit_ok. simpl.
  destruct (answered _ _ _ "is-enabled" _ _); [destruct (answered _ _ _ "is-active" _ _)|]; by simpl.
Qed.

Section gate.
Context `{SnapshotCodecLaws encodable} `{revision.RevisionCodec}.
Context (run : Runner) (clock : Log → Time).

Lemma gate_opens snap contents maxAge now :
  hj_Unmarshal contents = inr snap → sn_Version snap = 1%Z → sn_CheckedAt snap ≠ 0%Z →
  (0 ≤ time_sub now (sn_CheckedAt snap) ≤ maxAge)%Z →
  (systemHealthSafe (inr contents) maxAge now).1 = true ↔
  sn_State snap ≠ FailedSafe ∧ ∀ r, r ∈ sn_Results snap → critical_failure r = false.
Proof.
  intros Hu Hv Ht Ha. unfold systemHealthSafe. rewrite Hu, Hv. simpl. unfold IsZero.
  rewrite (proj2 (Z.eqb_neq _ _) Ht), (proj2 (Z.ltb_ge _ 0)), (proj2 (Z.ltb_ge maxAge _)), !andb_false_r by lia.
  case_bool_decide as Hs; simpl; [by split; [|intros []]|].
  destruct (find critical_failure (sn_Results snap)) as [r|] eqn:Hf; simpl.
  - apply find_some in Hf as [Hin Hc]. split; [done|]. intros [_ Hall].
    rewrite (Hall r) in Hc by by apply list_elem_of_In. done.
  - split; [|done]. intros _. split; [done|]. intros r Hr%list_elem_of_In. by apply (find_none _ _ Hf).
Qed.

(** The results of a run of the program, by unit. *)
Lemma unit_of_check flags units c :
  c ∈ SliceStable (less_id ck_Name) (sp_Checks (supervisor_of run clock flags units)) ↔
  ∃ unit, unit ∈ units ∧ c = mkCheck (unit_name unit) (SystemdUnitCheck_Run run (unit_check unit)).
Proof. rewrite SliceStable_elem. simpl. rewrite list_elem_of_fmap. naive_solver. Qed.

Lemma unit_name_inj u v : unit_name u = unit_name v → u = v.
Proof. intros Heq. injection Heq as Heq. exact Heq. Qed.

Lemma critical_units_healthy flags units l0 new snap :
  recorded l0 new snap (SliceStable (less_id ck_Name) (sp_Checks (supervisor_of run clock flags units))) →
  sn_State snap ≠ FailedSafe ∧ (∀ r, r ∈ sn_Results snap → critical_failure r = false) ↔
  ∀ unit, unit ∈ units → unit ≠ "cockpit.socket" → EvCheck (unit_name unit) false ∉ new.
Proof.
  intros Hrec. split.
  - intros [_ Hall] unit Hu Hne Hev. apply list_elem_of_split in Hev as (n1 & n2 & ->).
    destruct (event_result _ _ _ _ Hrec _ _ n1 n2 eq_refl) as (c & Hc & Hr & Hn & Hok).
    apply unit_of_check in Hc as (u & Hu' & ->). specialize (Hall _ Hr). revert Hall Hn Hok.
    destruct (result_of_unit run u (n2 ++ l0)) as (-> & Hok' & Hcr).
    intros Hall <-%unit_name_inj Hok. revert Hall. unfold critical_failure. rewrite <- Hok, Hcr.
    unfold safetyCriticalUnit. by rewrite bool_decide_false.
  - intros Hall. assert (Hres : ∀ r, r ∈ sn_Results snap → critical_failure r = false).
    { intros r Hr. destruct (result_event _ _ _ _ Hrec r Hr) as (c & l & Hc & -> & Hev).
      apply unit_of_check in Hc as (u & Hu & ->). revert Hev. unfold critical_failure.
      destruct (result_of_unit run u l) as (-> & -> & ->). unfold safetyCriticalUnit.
      case_bool_decide as Hsock; [done|]. destruct (unit_ok run l u); [done|]. intros Hev. by destruct (Hall u Hu Hsock). }
    split; [|done]. intros (r & Hr & Hc)%(failed_safe_cause _ _ _ _ Hrec). by rewrite Hres in Hc.
Qed.

(** C14: The snapshot the health program leaves opens the agent's recovery
    gate exactly when it should.  When the program has recorded its run, it
    asked [systemctl] about every required unit, each answer it noted is what
    [systemctl] said, and an agent that reads the file within its maximal age
    finds the control stack healthy if and only if no safety-critical unit
    was found disabled or inactive; Cockpit's socket never closes the gate.
    The exit status 2 implies a closed gate. *)
Theorem recovery_gate_follows_critical_units flags file units w w' ex maxAge now :
  fl_state flags ≠ "" → units_of flags file = inr units →
  main run clock flags file w = (w', ex) → ex_status ex ≠ 1%Z →
  (∀ snap, Run (supervisor_of run clock flags units) (fl_repair flags) w = (w', inr snap) → encodable snap) →
  clock (hw_log w) ≠ 0%Z → (0 ≤ time_sub now (clock (hw_log w)) ≤ maxAge)%Z →
  ∃ new contents, hw_log w' = new ++ hw_log w ∧ snapshot_file w' = Some contents ∧
    (∀ unit, unit ∈ units → ∃ ok, EvCheck (unit_name unit) ok ∈ new) ∧
    (∀ unit ok n1 n2, new = n1 ++ EvCheck (unit_name unit) ok :: n2 → ok = unit_ok run (n2 ++ hw_log w) unit) ∧
    ((systemHealthSafe (inr contents) maxAge now).1 = true ↔
       ∀ unit, unit ∈ units → unit ≠ "cockpit.socket" → EvCheck (unit_name unit) false ∉ new) ∧
    (ex_status ex = 2%Z → (systemHealthSafe (inr contents) maxAge now).1 = false).
Proof.
  intros Hpath Hunits Hmain Hex Henc Hclock Hage.
  unfold main in Hmain. rewrite Hunits in Hmain.
  destruct (Run _ _ w) as [w1 [e|snap]] eqn:Hrun; [by injection Hmain as <- <-|].
  injection Hmain as -> <-. specialize (Henc snap eq_refl).
  destruct (Run_recorded (supervisor_of run clock flags units) Hpath _ _ _ _ Hrun)
    as (new & b & Hl & Hrec & Hv & Hat & Hb & Hfile).
  pose proof (hj_roundtrip snap b Henc Hb) as Hdec. simpl in Hat.
  assert (Hgate := gate_opens snap (b +:+ newline_text) maxAge now Hdec Hv).
  rewrite Hat in Hgate. specialize (Hgate Hclock Hage).
  exists new, (b +:+ newline_text). split_and!; [done|done| | | |].
  - intros unit Hu. destruct (check_event _ _ _ _ Hrec (mkCheck (unit_name unit) (SystemdUnitCheck_Run run (unit_check unit)))) as [l Hr].
    { apply unit_of_check. by exists unit. }
    destruct (result_event _ _ _ _ Hrec _ Hr) as (_ & _ & _ & _ & Hev).
    destruct (result_of_unit run unit l) as (Hn & _ & _). rewrite Hn in Hev. by eexists.
  - intros unit ok n1 n2 Heq. destruct (event_result _ _ _ _ Hrec _ _ _ _ Heq) as (c & Hc & _ & Hn & Hok).
    apply unit_of_check in Hc as (u & _ & ->). revert Hn Hok.
    by destruct (result_of_unit run u (n2 ++ hw_log w)) as (-> & -> & _); intros <-%unit_name_inj.
  - rewrite Hgate. by eapply critical_units_healthy.
  - simpl. case_bool_decide as Hs; [|done]. intros _. apply not_true_iff_false.
    rewrite Hgate. by intros [? _].
Qed.
End gate.
