(* ===== verification/SystemHealthExample.v ===== *)
(** * The health program, concretely

    A local NUT server whose units all run except Cockpit's socket, checked
    once: the management plane is reported and the recovery gate stays open.
    With the NUT server down and repairs used up, the program ends with
    status 2 and the gate is closed. *)

From S2P Require Import Prelude GoStrings PowerStateModel Store Health HealthFacts HealthExample.
From S2P Require Import ConfigModel ConfigExample Armed Revision RevisionExample SystemHealth SystemHealthFacts.
Import health systemd.

(** [systemctl] when the units of [down] are not active. *)
Definition systemctl (down : list string) : Runner := λ _ _ _ args,
  match args with
  | ["is-enabled"; _] => ("enabled" +:+ newline_text, None)
  | ["is-active"; unit] =>
      if bool_decide (unit ∈ down) then ("inactive" +:+ newline_text, Some (Errorf "exit status 3"))
      else ("active" +:+ newline_text, None)
  | _ => ("", Some (Errorf "exit status 1"))
  end.

Definition clock (l : Log) : Time := (start_time + Z.of_nat (length l) * Second)%Z.

Definition flags : Flags := mkFlags "/var/lib/cockpit-ups-wol/system-health.json" true 1 [].
Definition config_file : result string := inr "home".
Definition units : list string := ["cockpit-ups-wol-agent.service"; "cockpit.socket"; "nut-server.service"; "nut-monitor.service"].

Example home_units : @units_of toy_codec flags config_file = inr units.
Proof. vm_compute. reflexivity. Qed.

Abbreviation program tbl down := (@main (snapshot_codec tbl) toy_codec (systemctl down) clock flags config_file).
Abbreviation recorded_by tbl down w :=
  (@Run (snapshot_codec tbl) (supervisor_of (systemctl down) clock flags units) (fl_repair flags) w).

Definition snapshot_of (r : World * result Snapshot) : Snapshot := match r.2 with inr s => s | inl _ => zeroSnapshot end.

Definition no_socket : Snapshot := Eval vm_compute in snapshot_of (recorded_by [] ["cockpit.socket"] empty).
Definition no_server : Snapshot := Eval vm_compute in snapshot_of (recorded_by [] ["nut-server.service"] empty).

Example statuses :
  ((program [no_socket] ["cockpit.socket"] empty).2, ex_status (program [no_server] ["nut-server.service"] empty).2)
  = (mkExit 0 ("RECOVERING generation=1 checks=4 repairs=1" +:+ newline_text) "", 2%Z).
Proof. vm_compute. reflexivity. Qed.

Definition after : World := Eval vm_compute in (program [no_socket] ["cockpit.socket"] empty).1.

Lemma recovery_gate_follows_critical_units_witness :
  ∃ new contents, hw_log after = new ++ hw_log empty ∧ snapshot_file after = Some contents ∧
    (∀ unit, unit ∈ units → ∃ ok, EvCheck (unit_name unit) ok ∈ new) ∧
    (∀ unit ok n1 n2, new = n1 ++ EvCheck (unit_name unit) ok :: n2 →
       ok = unit_ok (systemctl ["cockpit.socket"]) (n2 ++ hw_log empty) unit) ∧
    ((@systemHealthSafe (snapshot_codec [no_socket]) (inr contents) (3 * Minute) (start_time + Minute)).1 = true ↔
       ∀ unit, unit ∈ units → unit ≠ "cockpit.socket" → EvCheck (unit_name unit) false ∉ new) ∧
    (0 = 2 → (@systemHealthSafe (snapshot_codec [no_socket]) (inr contents) (3 * Minute) (start_time + Minute)).1 = false)%Z.
Proof.
  apply (@recovery_gate_follows_critical_units (snapshot_codec [no_socket]) (listed [no_socket]) (snapshot_codec_laws [no_socket])
           toy_codec (systemctl ["cockpit.socket"]) clock flags config_file units empty after
           (mkExit 0 ("RECOVERING generation=1 checks=4 repairs=1" +:+ newline_text) "") (3 * Minute) (start_time + Minute)).
  - discriminate.
  - vm_compute. reflexivity.
  - vm_compute. reflexivity.
  - discriminate.
  - intros snap Hrun. assert (Hsnap : snapshot_of (recorded_by [no_socket] ["cockpit.socket"] empty) = no_socket) by (vm_compute; reflexivity).
    unfold snapshot_of in Hsnap. rewrite Hrun in Hsnap. simpl in Hsnap. subst snap. left.
  - discriminate.
  - vm_compute. split; discriminate.
Defined.
