(* ===== verification/Report.v ===== *)
(** * Reports for the operator ([agent/internal/report/report.go])

    The plan that cockpit-ups-wolctl prints for review before a configuration
    is armed, and the state of the configuration history. *)

From S2P Require Import Prelude StableSort.
From S2P Require Import ConfigModel Disk Revision.

Module report.

(** ** The plan *)

Record UPSPlan : Type := mkUPSPlan {
  up_Profile : string;
  up_Target : string;
  up_PowerCycleCapability : string;
  up_SynologyCompatibility : bool;
}.

Record OutagePlan : Type := mkOutagePlan {
  op_GracePeriodSeconds : Z;
  op_CriticalBatteryPercent : option Z;
  op_CriticalRuntimeSeconds : option Z;
  op_MaxOnBatterySeconds : option Z;
}.

Record RecoveryPlan : Type := mkRecoveryPlan {
  ry_Enabled : bool;
  ry_UtilityStableSeconds : Z;
  ry_BatteryChargeMin : option Z;
  ry_RuntimeMinSeconds : option Z;
  ry_RechargeTimeSeconds : option Z;
  ry_NetworkWaitSeconds : Z;
}.

Record DependencyPlan : Type := mkDependencyPlan {
  dl_ID : string;
  dl_Name : string;
  dl_Startup : string;
  dl_Priority : Z;
  dl_Status : string;
}.

Record ShutdownPlan : Type := mkShutdownPlan {
  sl_ID : string;
  sl_Name : string;
  sl_Method : string;
  sl_Priority : Z;
  sl_DependsOn : list string;
}.

Record RestorePlan : Type := mkRestorePlan {
  rl_ID : string;
  rl_Name : string;
  rl_RestorePolicy : string;
  rl_WakeEnabled : bool;
  rl_WakePriority : Z;
  rl_DependsOn : list string;
}.

Record Plan : Type := mkPlan {
  pl_Mode : string;
  pl_UPS : UPSPlan;
  pl_Outage : OutagePlan;
  pl_Recovery : RecoveryPlan;
  pl_Dependencies : list DependencyPlan;
  pl_Shutdown : list ShutdownPlan;
  pl_Restore : list RestorePlan;
}.

Definition dependency_entry (d : DependencyConfig) : DependencyPlan :=
  mkDependencyPlan (dp_ID d) (dp_Name d) (dp_Startup d) (dp_Priority d) (sc_Method (dp_Status d)).

Definition shutdown_entry (h : HostConfig) : ShutdownPlan :=
  mkShutdownPlan (h_ID h) (h_Name h) (sd_Method (h_Shutdown h)) (sd_Priority (h_Shutdown h)) (h_DependsOn h).

Definition restore_entry (h : HostConfig) : RestorePlan :=
  mkRestorePlan (h_ID h) (h_Name h) (h_RestorePolicy h) (wk_Enabled (h_Wake h)) (wk_Priority (h_Wake h)) (h_DependsOn h).

Definition ups_plan (n : NUTConfig) : UPSPlan :=
  mkUPSPlan (nc_Profile n) (nc_UPSName n +:+ "@" +:+ nc_Host n +:+ ":" +:+ pretty (nc_Port n))
    (nc_PowerCycleCapability n) (sy_Enabled (nc_Synology n)).

Definition outage_plan (o : OutageConfig) : OutagePlan :=
  mkOutagePlan (oc_GracePeriodSeconds o) (oc_CriticalBatteryPercent o) (oc_CriticalRuntimeSeconds o) (oc_MaxOnBatterySeconds o).

Definition recovery_plan (r : RecoveryConfig) : RecoveryPlan :=
  mkRecoveryPlan (rc_Enabled r) (rc_UtilityStableSeconds r) (rc_BatteryChargeMin r) (rc_RuntimeMinSeconds r)
    (rc_RechargeTimeSeconds r) (rc_NetworkWaitSeconds r).

Definition BuildPlan (cfg : Config) : Plan :=
  mkPlan (cf_Mode cfg) (ups_plan (cf_NUT cfg)) (outage_plan (cf_Outage cfg)) (recovery_plan (cf_Recovery cfg))
    (SliceStable (less_key dl_Priority) (dependency_entry <$> cf_Dependencies cfg))
    (SliceStable (less_key sl_Priority) (shutdown_entry <$> cf_Hosts cfg))
    (SliceStable (less_key rl_WakePriority) (restore_entry <$> cf_Hosts cfg)).

(** ** The history *)

Record ConfigStatus : Type := mkConfigStatus {
  cs_Active : string;
  cs_LastKnownGood : string;
  cs_PreviousKnownGood : string;
  cs_ActiveManifest : option revision.Manifest;
  cs_LKGManifest : option revision.Manifest;
  cs_KnownGood : list revision.Manifest;
}.

Section status.
Context `{revision.RevisionCodec}.

(** The manifest a pointer names, if it names one. *)
Definition pointed_manifest (prefix id : string) : revision.M (option revision.Manifest) :=
  if bool_decide (id = "") then mret None
  else manifest ← wrap_err prefix (revision.readManifest id); mret (Some manifest).

Definition ReadConfigStatus : revision.M ConfigStatus :=
  active ← revision.ActiveRevision;
  lkg ← revision.LastKnownGood;
  prev ← revision.PreviousKnownGood;
  known ← revision.KnownGoodRevisions;
  activeManifest ← pointed_manifest "active manifest: " active;
  lkgManifest ← pointed_manifest "last-known-good manifest: " lkg;
  mret (mkConfigStatus active lkg prev activeManifest lkgManifest known).
End status.
End report.
