(* ===== verification/ReportFacts.v ===== *)
(** * What the reports can be relied on for

    The reviewed plan against what the agent executes, and the reported state
    of the history against the disk. *)

From S2P Require Import Prelude StableSort PowerStateModel HostPlan HostPlanFacts ConfigModel.
From S2P Require Import Disk DiskFacts Revision RevisionFacts RevisionStartup Report.

Import report.

(** ** The reviewed plan *)

(** A host the shutdown stops directly. *)
Definition direct (method : string) : Prop := classify method = ClassDirect.

(** Where two hosts have the same priority the configuration lists them by
    identifier. *)
Definition listed_by_id (key : HostConfig → Z) (cfg : ConfigModel.Config) : Prop := ties_by_id key h_ID (cf_Hosts cfg).

(** A displayed host is restored after an outage that left [states]. *)
Definition entry_restorable (states : gmap string HostState) (e : RestorePlan) : Prop :=
  rl_WakeEnabled e = true ∧ rl_RestorePolicy e ≠ RestoreNever ∧
  ∃ st, states !! rl_ID e = Some st ∧
    (rl_RestorePolicy e = RestoreAlways ∨
     (rl_RestorePolicy e = RestorePrevious ∨ rl_RestorePolicy e = "") ∧ hs_WasOnline st = Some true).

#[export] Instance entry_restorable_dec states e : Decision (entry_restorable states e).
Proof.
  unfold entry_restorable. destruct (states !! rl_ID e) as [st|].
  - refine (cast_if (decide (rl_WakeEnabled e = true ∧ rl_RestorePolicy e ≠ RestoreNever ∧
      (rl_RestorePolicy e = RestoreAlways ∨
       (rl_RestorePolicy e = RestorePrevious ∨ rl_RestorePolicy e = "") ∧ hs_WasOnline st = Some true)))).
    + abstract (naive_solver).
    + abstract (naive_solver).
  - right. naive_solver.
Defined.

Lemma entry_restorable_iff states h : entry_restorable states (restore_entry h) ↔ restorable states (toHostConfig h).
Proof.
  unfold entry_restorable, restorable, EligibleForRestore. simpl.
  destruct (wk_Enabled (h_Wake h)); simpl; [|by split; [intros []|intros (? & _ & ?)]].
  split.
  - intros (_ & Hn & st & Hst & Hp). exists st. split; [done|].
    rewrite (bool_decide_eq_false_2 (_ = RestoreNever)) by done.
    case_bool_decide; [done|]. destruct Hp as [|[Hp Hw]]; [done|].
    rewrite Hw. by destruct Hp as [->| ->].
  - intros (st & Hst & He). case_bool_decide as H1; [rewrite H1; split_and!; [done|done|by exists st; auto]|].
    case_bool_decide as H2; [done|]. split_and!; [done|done|]. exists st. split; [done|]. right.
    revert He. repeat case_bool_decide; simpl; try done; destruct (hs_WasOnline st) as [[]|]; auto; done.
Qed.

Lemma displayed_filter {A} (entry : HostConfig → A) (P : A → Prop) (Q : HostPlan.Config → Prop)
    `{∀ x, Decision (P x), ∀ x, Decision (Q x)} less (less' : HostPlan.Config → HostPlan.Config → bool) key (id : A → string) hosts :
  (∀ x y, less (entry x) (entry y) = less_key key x y) →
  (∀ x y, less' (toHostConfig x) (toHostConfig y) = less_by key h_ID x y) → StrictWeakOrder less' →
  (∀ h, P (entry h) ↔ Q (toHostConfig h)) → (∀ h, id (entry h) = h_ID h) → ties_by_id key h_ID hosts →
  id <$> filter P (SliceStable less (entry <$> hosts)) =
  hc_ID <$> SliceStable less' (filter Q (toHostConfigs hosts)).
Proof.
  intros He Hc Hless' HPQ Hid Hties.
  rewrite <- (SliceStable_filter less' _ Q). unfold toHostConfigs.
  rewrite (SliceStable_fmap entry (less_key key)), (SliceStable_fmap toHostConfig (less_by key h_ID)) by done.
  rewrite (SliceStable_less_key key h_ID hosts Hties).
  generalize (SliceStable (less_by key h_ID) hosts). intros l. induction l as [|h l IH]; [done|].
  rewrite !fmap_cons, !filter_cons.
  destruct (decide (P (entry h))) as [HP|HP], (decide (Q (toHostConfig h))) as [HQ|HQ]; rewrite ?fmap_cons, ?Hid, IH; try done.
  - by destruct HQ; apply HPQ.
  - by destruct HP; apply HPQ.
Qed.


(** ** The reported history *)

Section status.
Context `{revision.RevisionCodecLaws encodable}.

(** What is reported of a pointer's manifest. *)
Definition manifest_reported (t : Tree) (id : string) (m : option revision.Manifest) : Prop :=
  match m with None => id = "" | Some m => manifest_of id t = inr m end.

Lemma sees_pointed_manifest ff v prefix id :
  spec (sees ff v) (pointed_manifest prefix id) (λ m dk, manifest_reported v id m ∧ sees ff v dk) (λ _, True).
Proof.
  unfold pointed_manifest. case_bool_decide as Hid; [by apply spec_now|].
  eapply spec_bind; [apply wrap_err_spec; eapply spec_E; [apply sees_readManifest|done]|].
  intros m. by apply spec_now.
Qed.

(** The reported history is the one on disk, whichever calls fail: a
    report that succeeds names the pointers as they are, shows the manifests
    they name, lists only known-good revisions and changes nothing. *)
Theorem status_is_truthful t faults dk st :
  ReadConfigStatus (boot t faults) = (dk, inr st) →
  dk_view dk = t ∧
  pointer "active" t = inr (cs_Active st) ∧ pointer "last-known-good" t = inr (cs_LastKnownGood st) ∧
  pointer "previous-known-good" t = inr (cs_PreviousKnownGood st) ∧
  manifest_reported t (cs_Active st) (cs_ActiveManifest st) ∧ manifest_reported t (cs_LastKnownGood st) (cs_LKGManifest st) ∧
  (∀ m, m ∈ cs_KnownGood st → is_known_good t m).
Proof.
  intros Hrun.
  enough (Hspec : spec (sees false t) ReadConfigStatus (λ st dk, sees false t dk ∧
    pointer "active" t = inr (cs_Active st) ∧ pointer "last-known-good" t = inr (cs_LastKnownGood st) ∧
    pointer "previous-known-good" t = inr (cs_PreviousKnownGood st) ∧
    manifest_reported t (cs_Active st) (cs_ActiveManifest st) ∧ manifest_reported t (cs_LastKnownGood st) (cs_LKGManifest st) ∧
    (∀ m, m ∈ cs_KnownGood st → is_known_good t m)) (λ _, True)).
  { ospecialize (Hspec (boot t faults) _); [eexists; by apply boot_at|]. rewrite Hrun in Hspec.
    destruct Hspec as [[l Hdk] Hst]. by rewrite (at_view _ _ _ _ _ _ _ Hdk). }
  unfold ReadConfigStatus, revision.ActiveRevision, revision.LastKnownGood, revision.PreviousKnownGood.
  do 3 (eapply spec_bind; [eapply spec_E; [apply sees_readPointer|done]|]; intros ?; apply spec_pure; intros ?).
  eapply spec_bind; [eapply spec_E; [apply sees_KnownGoodRevisions|done]|]. intros known.
  apply spec_pure. intros Hall. apply spec_pure. intros _.
  do 2 (eapply spec_bind; [apply sees_pointed_manifest|]; intros ?; apply spec_pure; intros ?).
  apply spec_now. intros dk' Hdk. simpl. rewrite Forall_forall in Hall. by split_and!.
Qed.
End status.
