(* ===== verification/ReportExample.v ===== *)
(** * A reviewed plan

    For the sample fleet the displayed orders are the executed ones; with the
    wake priorities exchanged the configuration is still accepted, and the
    displayed restore order is not the one in which hosts are woken. *)

From S2P Require Import Prelude StableSort PowerStateModel HostPlan HostPlanFacts.
From S2P Require Import ConfigModel ConfigValidate ConfigExample Report ReportFacts.

Import report.

Abbreviation fleet := (toHostConfigs (cf_Hosts parsed)).

(** Both hosts were up when the power failed. *)
Definition outage : gmap string HostState :=
  {["nas" := hs_set_WasOnline (Some true) zeroHostState; "desktop" := zeroHostState]}.

Abbreviation keys := (map_keys (eligible_map fleet outage)).

Lemma listed_by_id_two key h1 h2 cfg :
  cf_Hosts cfg = [h1; h2] → key h1 ≠ key h2 → listed_by_id key cfg.
Proof.
  intros Hh Hne. unfold listed_by_id. rewrite Hh. repeat constructor. intros Heq. by destruct Hne.
Qed.


(** The NAS, on which the workstation depends, with a later wake priority. *)
Definition with_wake_priority (p : Z) (h : HostConfig) : HostConfig :=
  mkHostConfig (h_ID h) (h_Name h) (h_Address h) (h_DependsOn h) (h_Status h) (h_Shutdown h)
    (wake "00:11:32:aa:bb:cc" p) (h_RestorePolicy h).

Definition late_nas : ConfigModel.Config :=
  mkConfig (cf_ConfigVersion home) (cf_Mode home) (cf_NUT home) (cf_Outage home) (cf_Controller home) (cf_Recovery home)
    (cf_Health home) (cf_Dependencies home) [with_wake_priority 30 nas; desktop].

(** An accepted configuration can be displayed with a restore order that is
    not executed: the report sorts by wake priority and leaves the
    dependencies between hosts out of the order. *)
Theorem displayed_restore_order_can_differ :
  let cfg := applyDefaults late_nas in
  Parse_decoded late_nas = inr cfg ∧
  rl_ID <$> filter (entry_restorable outage) (pl_Restore (BuildPlan cfg)) = ["desktop"; "nas"] ∧
  BuildRecoveryPlan (toHostConfigs (cf_Hosts cfg)) outage = inr ["nas"; "desktop"].
Proof. split_and!; vm_compute; reflexivity. Qed.
