(* ===== verification/Watchdog.v ===== *)
(** * Notifying systemd ([agent/internal/system/systemd_notify.go])

    The notification socket, the watchdog settings in the environment, and the
    goroutine that feeds the watchdog only while the event loop makes
    progress.  The goroutine is a step function on what its [select] receives,
    with the time at which it does; the environment, the process identifier,
    dialling and writing are arguments. *)

From S2P Require Import Prelude GoStrings.

Module system.

(** ** Notifications *)

(** [DialUnix] of the socket's name, and [Write] on the connection. *)
Record NotifySocket : Type := mkNotifySocket {
  ns_dial : string → option error;
  ns_write : string → option error;
}.

(** The abstract name space: a leading @ stands for a zero byte. *)
Definition socket_name (socket : string) : string :=
  match socket with
  | String.String c rest => if Ascii.eqb c (byte_of 64) then String.String Ascii.zero rest else socket
  | EmptyString => EmptyString
  end.

(** [Notify]; [NOTIFY_SOCKET] is the first argument. *)
Definition Notify (env : string) (net : NotifySocket) (message : string) : option error :=
  if bool_decide (env = "") then None
  else match ns_dial net (socket_name env) with
       | Some e => Some (Wrapf "systemd notify: " e "")
       | None => ns_write net message
       end.

Definition Ready (env : string) (net : NotifySocket) : option error := Notify env net "READY=1".
Definition Watchdog (env : string) (net : NotifySocket) : option error := Notify env net "WATCHDOG=1".
Definition Stopping (env : string) (net : NotifySocket) : option error := Notify env net "STOPPING=1".

(** ** Settings *)

Definition Microsecond : Duration := 1000.

(** [WatchdogInterval]: [WATCHDOG_USEC], [WATCHDOG_PID] and [os.Getpid]. *)
Definition WatchdogInterval (usec pidText : string) (pid : Z) : result (Duration * bool) :=
  if bool_decide (usec = "") then inr (0%Z, false)
  else
    let parsed :=
      match ParseInt usec with
      | None => inl (Errorf "invalid WATCHDOG_USEC")
      | Some v => if (v <=? 0)%Z then inl (Errorf "invalid WATCHDOG_USEC") else inr (duration_of v Microsecond, true)
      end in
    if bool_decide (pidText = "") then parsed
    else match ParseInt pidText with
         | None => inl (Errorf "invalid WATCHDOG_PID")
         | Some p => if (p =? pid)%Z then parsed else inr (0%Z, false)
         end.

(** What [StartWatchdog] starts: nothing, or a goroutine with these settings. *)
Record Settings : Type := mkSettings { wd_maxSilence : Duration; wd_period : Duration }.

Definition settings (interval maxSilence : Duration) : Settings :=
  mkSettings
    (if (maxSilence <=? 0)%Z || (interval <=? maxSilence)%Z then wrap64 (interval * 3) `quot` 4 else maxSilence)%Z
    (let period := (interval `quot` 2)%Z in if (period <=? 0)%Z then Millisecond else period).

Definition StartWatchdog (usec pidText : string) (pid : Z) (maxSilence : Duration) : result (option Settings) :=
  match WatchdogInterval usec pidText pid with
  | inl e => inl e
  | inr (_, false) => inr None
  | inr (interval, true) => inr (Some (settings interval maxSilence))
  end.

(** ** The goroutine *)

(** One turn of the [select], at time [t]: [Tick] carries the answer to the
    notification, should the goroutine send one. *)
Inductive Turn : Type :=
  | Done (t : Time)
  | Beat (t : Time) (ok : bool)
  | Tick (t : Time) (notify : option error).

Inductive Loop : Type :=
  | Running (lastProgress : Time)
  | Stopped (reported : option error).

(** The state after the turn, and the time of the notification it sent. *)
Definition turn (s : Settings) (l : Loop) (ev : Turn) : Loop * list Time :=
  match l with
  | Stopped _ => (l, [])
  | Running last =>
      match ev with
      | Done _ => (Stopped None, [])
      | Beat t ok => if ok then (Running t, []) else (Stopped None, [])
      | Tick t answer =>
          if (wd_maxSilence s <? time_sub t last)%Z then (l, [])
          else match answer with
               | Some e => (Stopped (Some e), [t])
               | None => (l, [t])
               end
      end
  end.

(** The loop from a start at [Running now]; the pings, oldest first. *)
Fixpoint turns (s : Settings) (l : Loop) (evs : list Turn) : Loop * list Time :=
  match evs with
  | [] => (l, [])
  | ev :: evs =>
      let '(l, sent) := turn s l ev in
      let '(l, more) := turns s l evs in
      (l, sent ++ more)
  end.
End system.

(** ** What systemd may rely on *)

Import system.

(** The ticks of a run, and the progress the event loop reported. *)
Definition tick_times (evs : list Turn) : list Time := omap (λ ev, match ev with Tick t _ => Some t | _ => None end) evs.
Definition beat_times (evs : list Turn) : list Time := omap (λ ev, match ev with Beat t true => Some t | _ => None end) evs.

(** The loop is alive: at every tick its last progress is at most [silence]
    old; nothing stops the goroutine and every notification is delivered. *)
Fixpoint alive (silence : Duration) (last : Time) (evs : list Turn) : Prop :=
  match evs with
  | [] => True
  | Beat t true :: evs => alive silence t evs
  | Tick t None :: evs => (t - last ≤ silence)%Z ∧ alive silence last evs
  | _ => False
  end.

Lemma silent_too_long s t last : (wd_maxSilence s < max_int64)%Z → (min_int64 ≤ wd_maxSilence s)%Z →
  (wd_maxSilence s <? time_sub t last)%Z = (wd_maxSilence s <? t - last)%Z.
Proof. unfold time_sub. intros H1 H2. destruct (Z.ltb_spec (wd_maxSilence s) (t - last)); lia. Qed.

Lemma stopped_silent s o evs : (turns s (Stopped o) evs).2 = [].
Proof. induction evs as [|ev evs IH]; simpl; [done|]. by destruct (turns s (Stopped o) evs). Qed.

Lemma pings_follow_progress s evs : (min_int64 ≤ wd_maxSilence s < max_int64)%Z → ∀ last n,
  n ∈ (turns s (Running last) evs).2 → ∃ p, (p = last ∨ p ∈ beat_times evs) ∧ (n - p ≤ wd_maxSilence s)%Z.
Proof.
  intros Hs. induction evs as [|ev evs IH]; intros last n; simpl; [by intros ?%not_elem_of_nil|].
  assert (Hrest : ∀ last', n ∈ (turns s (Running last') evs).2 →
    ∃ p, (p = last' ∨ p ∈ beat_times evs) ∧ (n - p ≤ wd_maxSilence s)%Z) by (intros; by apply IH).
  assert (Hstop : ∀ o, n ∉ (turns s (Stopped o) evs).2) by (intros o; rewrite stopped_silent; apply not_elem_of_nil).
  unfold beat_times in *. destruct ev as [t|t []|t answer]; simpl.
  - specialize (Hstop None). by destruct (turns s (Stopped None) evs).
  - specialize (Hrest t). destruct (turns s (Running t) evs) as [l more]. simpl. intros Hn.
    destruct (Hrest Hn) as (p & [->|Hp] & Hle); eauto using list_elem_of_here, list_elem_of_further.
  - specialize (Hstop None). by destruct (turns s (Stopped None) evs).
  - rewrite silent_too_long by lia. destruct (Z.ltb_spec (wd_maxSilence s) (t - last)).
    + specialize (Hrest last). by destruct (turns s (Running last) evs).
    + destruct answer as [e|].
      * specialize (Hstop (Some e)). destruct (turns s (Stopped (Some e)) evs). simpl in *.
        intros [->|?]%elem_of_cons; [|done]. eauto.
      * specialize (Hrest last). destruct (turns s (Running last) evs). simpl in *.
        intros [->|?]%elem_of_cons; eauto.
Qed.

Lemma alive_pings s evs : (min_int64 ≤ wd_maxSilence s < max_int64)%Z → ∀ last,
  alive (wd_maxSilence s) last evs → (turns s (Running last) evs).2 = tick_times evs.
Proof.
  intros Hs. unfold tick_times. induction evs as [|ev evs IH]; intros last; simpl; [done|].
  destruct ev as [t|t []|t [e|]]; simpl; try done.
  - intros Ha. specialize (IH t Ha). by destruct (turns s (Running t) evs).
  - intros [Ht Ha]. rewrite silent_too_long, (proj2 (Z.ltb_ge _ _)) by lia. simpl.
    specialize (IH last Ha). destruct (turns s (Running last) evs). simpl in *. by rewrite IH.
Qed.

Lemma settings_bounds interval maxSilence :
  (0 < interval)%Z → (interval * 3 ≤ max_int64)%Z →
  (0 ≤ wd_maxSilence (settings interval maxSilence) < interval)%Z ∧ (0 < wd_period (settings interval maxSilence))%Z ∧
  ((2 ≤ interval)%Z → (wd_period (settings interval maxSilence) ≤ interval / 2)%Z) ∧
  ((0 < maxSilence < interval)%Z → wd_maxSilence (settings interval maxSilence) = maxSilence).
Proof.
  intros Hi Hm. unfold settings. simpl. rewrite wrap64_id by (unfold int64_range, min_int64; lia).
  rewrite !Z.quot_div_nonneg by lia. pose proof (Z.div_mod interval 2) as H2.
  pose proof (Z.mod_pos_bound interval 2). pose proof (Z.mod_pos_bound (interval * 3) 4). pose proof (Z.div_mod (interval * 3) 4).
  split_and!.
  - destruct (maxSilence <=? 0)%Z eqn:H3, (interval <=? maxSilence)%Z eqn:H4; simpl; lia.
  - destruct (maxSilence <=? 0)%Z eqn:H3, (interval <=? maxSilence)%Z eqn:H4; simpl; lia.
  - case_match; unfold Millisecond; lia.
  - case_match; unfold Millisecond; lia.
  - intros [??]. rewrite (proj2 (Z.leb_gt _ _)), (proj2 (Z.leb_gt _ _)) by lia. done.
Qed.

(** The watchdog is fed exactly while the event loop lives.  With the
    settings systemd gives, the tolerated silence lies within systemd's
    window and the ticker is at least twice as fast; every notification
    follows some progress by less than the window, so a loop that stalls is
    restarted before two windows have passed; and a loop whose progress is
    never older than the tolerated silence has every tick answered, so it is
    not restarted. *)
Theorem watchdog_follows_progress usec pidText pid maxSilence s v start evs :
  StartWatchdog usec pidText pid maxSilence = inr (Some s) → ParseInt usec = Some v → (v * 3000 ≤ max_int64)%Z →
  let interval := (v * 1000)%Z in
  let pings := (turns s (Running start) evs).2 in
  (0 ≤ wd_maxSilence s < interval)%Z ∧ (0 < wd_period s ≤ interval / 2)%Z ∧
  (∀ n, n ∈ pings → ∃ p, (p = start ∨ p ∈ beat_times evs) ∧ (n - p < interval)%Z) ∧
  (alive (wd_maxSilence s) start evs → pings = tick_times evs).
Proof.
  intros Hstart Hv Hmax interval pings.
  assert (Hs : (0 < v)%Z ∧ s = settings interval maxSilence).
  { revert Hstart. unfold StartWatchdog, WatchdogInterval, duration_of, Microsecond. rewrite Hv.
    case_bool_decide; [done|]. destruct (Z.leb_spec v 0).
    - by case_bool_decide; [|destruct (ParseInt pidText) as [p|]; [destruct (p =? pid)%Z|]].
    - rewrite wrap64_id by (unfold int64_range, min_int64; lia).
      case_bool_decide; [|destruct (ParseInt pidText) as [p|]; [destruct (p =? pid)%Z|]]; by intros [= <-]. }
  destruct Hs as [Hpos ->].
  destruct (settings_bounds interval maxSilence) as (Hsil & Hp & Hp2 & _); [lia..|].
  assert (Hrange : (min_int64 ≤ wd_maxSilence (settings interval maxSilence) < max_int64)%Z).
  { unfold interval, min_int64 in *. lia. }
  split_and!; [lia..|apply Hp2; lia| |by apply alive_pings].
  intros n Hn. destruct (pings_follow_progress _ evs Hrange start n Hn) as (p & Hp' & Hle). exists p. split; [done|lia].
Qed.

(** Thirty seconds, as the unit file has it, and the twenty that the runtime
    tolerates: two ticks are answered, the loop stalls, and the third tick
    finds it silent for too long. *)
Definition stalls : list Turn :=
  [Beat (5 * Second) true; Tick (15 * Second) None; Beat (20 * Second) true; Tick (30 * Second) None;
   Tick (45 * Second) None; Tick (60 * Second) None]%Z.

Lemma watchdog_follows_progress_witness :
  let s := mkSettings (20 * Second) (15 * Second) in
  (0 ≤ wd_maxSilence s < 30000000 * 1000)%Z ∧ (0 < wd_period s ≤ 30000000 * 1000 / 2)%Z ∧
  (∀ n, n ∈ [15 * Second; 30 * Second]%Z → ∃ p, (p = 0%Z ∨ p ∈ beat_times stalls) ∧ (n - p < 30000000 * 1000)%Z) ∧
  (alive (20 * Second) 0 stalls → [15 * Second; 30 * Second]%Z = tick_times stalls).
Proof.
  apply (watchdog_follows_progress "30000000" "" 1 (20 * Second) (mkSettings (20 * Second) (15 * Second)) 30000000 0 stalls).
  - vm_compute. reflexivity.
  - vm_compute. reflexivity.
  - vm_compute. discriminate.
Defined.

Example overflowing_window : WatchdogInterval "9223372036854775807" "" 1 = inr (-1000, true)%Z.
Proof. vm_compute. reflexivity. Qed.
