(* ===== verification/Ipc.v ===== *)
(** * The agent's socket ([agent/internal/ipc])

    health.go and server.go: requests, the handler, one connection of the
    server and one call of a client.  A connection is the bytes the client
    sends and how the stream ends; accepting connections is in [Server], and a
    deadline ends the stream.  The JSON encoder and decoder are interfaces; the decoder's view
    of a result ([any]) is a type of theirs. *)

From S2P Require Import Prelude GoStrings PowerStateModel Store ConfigValidate Health.

Module ipc.

(** ** Messages ([health.go]) *)

Record Request : Type := mkRequest { rq_ID : string; rq_Method : string; rq_Params : string }.

Record Error : Type := mkError { er_Code : string; er_Message : string }.

(** [Result] is a snapshot when the server sends it and whatever the decoder
    makes of it when a client receives it. *)
Record Response (R : Type) : Type := mkResponse {
  rp_ID : string;
  rp_OK : bool;
  rp_Result : option R;
  rp_Error : option Error;
}.
Arguments mkResponse {R}.
Arguments rp_ID {R}.
Arguments rp_OK {R}.
Arguments rp_Result {R}.
Arguments rp_Error {R}.

Class IpcCodec : Type := {
  any : Type;
  request_Encode : Request → result string;
  request_Unmarshal : string → result Request;
  response_Encode : Response health.Snapshot → result string;
  response_Decode : string → option error → result (Response any);  (* the stream, and how it ends *)
  any_Marshal : any → result string;
}.

Definition failure {R} (id code msg : string) : Response R := mkResponse id false None (Some (mkError code msg)).

(** [Handler.Handle]; the provider is its answer at that time, or nil. *)
Definition Handle (provider : option (result health.Snapshot)) (req : Request) : Response health.Snapshot :=
  if bool_decide (rq_Method req = "GetHealth") then
    match provider with
    | None => failure (rq_ID req) "DEPENDENCY_UNAVAILABLE" "health provider unavailable"
    | Some (inl e) => failure (rq_ID req) "INTERNAL_ERROR" (err_msg e)
    | Some (inr snap) => mkResponse (rq_ID req) true (Some snap) None
    end
  else failure (rq_ID req) "UNKNOWN_METHOD" "unknown method".

(** [Supervisor.HealthSnapshot] (health/snapshot.go) *)
Definition HealthSnapshot `{health.SnapshotCodec} (s : health.Supervisor) : GoM FS health.Snapshot := health.Load s.

Section codec.
Context `{IpcCodec}.

Definition DecodeRequest (data : string) : result Request :=
  match request_Unmarshal data with
  | inl e => inl e
  | inr req =>
      if bool_decide (rq_ID req = "") || bool_decide (rq_Method req = "")
      then inl (Errorf "id and method are required") else inr req
  end.

(** ** A connection ([server.go]) *)

Definition MaxRequestBytes : Z := 2 ^ 20.

(** How [ReadBytes] on a limited stream ended. *)
Inductive LineEnd : Type := Newline | Limit | Exhausted.

(** [r.ReadBytes('\n')] with at most [limit] bytes to read. *)
Fixpoint read_line (limit : Z) (data : string) : string * LineEnd :=
  if (limit <=? 0)%Z then (EmptyString, Limit)
  else match data with
       | EmptyString => (EmptyString, Exhausted)
       | String.String c rest =>
           if Ascii.eqb c newline then (String.String c EmptyString, Newline)
           else let '(line, e) := read_line (limit - 1) rest in (String.String c line, e)
       end.

(** What a response encodes to; the error of [Encode] is dropped. *)
Definition written (resp : Response health.Snapshot) : option string :=
  match response_Encode resp with inl _ => None | inr b => Some b end.

(** [serveConn] with the line that was read. *)
Definition answer_line (provider : option (result health.Snapshot)) (cancelled : bool) (line : string) : option string :=
  if (MaxRequestBytes <? Z.of_nat (String.length line))%Z
  then written (failure "" "INVALID_REQUEST" "request too large")
  else if cancelled then None
  else match DecodeRequest line with
       | inl e => written (failure "" "INVALID_REQUEST" (err_msg e))
       | inr req => written (Handle provider req)
       end.

(** [ending]: the error the stream ends with, if it is not EOF;
    [cancelled]: the server's context is done.  The result is what is
    written. *)
Definition serveConn (provider : option (result health.Snapshot)) (cancelled : bool) (data : string) (ending : option error)
  : option string :=
  match read_line (MaxRequestBytes + 1) data, ending with
  | (_, Exhausted), Some _ => None
  | (line, _), _ => answer_line provider cancelled line
  end.

(** ** A call *)

(** The connection of a client: dialling, writing, and the stream read after
    what was written. *)
Record Conn : Type := mkConn {
  cn_dial : option error;
  cn_write : string → option error;
  cn_stream : string → string * option error;
}.

Definition first_bytes (limit : Z) (s : string) : string := String.substring 0 (Z.to_nat limit) s.

Definition limited (limit : Z) (stream : string * option error) : string * option error :=
  if (limit <=? Z.of_nat (String.length stream.1))%Z then (first_bytes limit stream.1, None) else stream.

Definition Call (conn : Conn) (req : Request) : result (Response any) :=
  match cn_dial conn with
  | Some e => inl e
  | None =>
  match request_Encode req with
  | inl e => inl e
  | inr b =>
  match cn_write conn b with
  | Some e => inl e
  | None =>
      let '(stream, ending) := limited MaxRequestBytes (cn_stream conn b) in
      match response_Decode stream ending with
      | inl e => inl e
      | inr resp =>
          if negb (bool_decide (rp_ID resp = rq_ID req)) && negb (bool_decide (rp_ID resp = ""))
          then inl (Errorf ("response id mismatch: got " +:+ Quote (rp_ID resp) +:+ " want " +:+ Quote (rq_ID req)))
          else inr resp
      end
  end end end.
End codec.
End ipc.

(** ** A client and a server *)

Import ipc.

(** What a client sees of a response. *)
Definition same_response `{IpcCodec, health.SnapshotCodec} (sent : Response health.Snapshot) (got : Response any) : Prop :=
  rp_ID got = rp_ID sent ∧ rp_OK got = rp_OK sent ∧ rp_Error got = rp_Error sent ∧
  match rp_Result sent, rp_Result got with
  | None, None => True
  | Some snap, Some a => ∃ t, any_Marshal a = inr t ∧ health.hj_Unmarshal t = inr snap
  | _, _ => False
  end.

(** [encodable]: valid UTF-8.  [transmissible]: moreover a snapshot whose
    numbers a float64 holds, because the decoder reads them as such. *)
Class IpcCodecLaws `{IpcCodec, health.SnapshotCodec} (encodable : Request → Prop) (transmissible : Response health.Snapshot → Prop)
  : Prop := {
  request_roundtrip req : encodable req → ∃ b, request_Encode req = inr (b +:+ health.newline_text) ∧
    newline ∉ String.list_ascii_of_string b ∧ request_Unmarshal (b +:+ health.newline_text) = inr req;
  response_roundtrip resp : transmissible resp → ∃ b, response_Encode resp = inr b ∧
    ∃ got, response_Decode b None = inr got ∧ same_response resp got;
}.

Lemma read_line_bound data : ∀ limit, (0 ≤ limit)%Z → (Z.of_nat (String.length (read_line limit data).1) ≤ limit)%Z.
Proof.
  induction data as [|c data IH]; intros limit Hl; simpl; destruct (Z.leb_spec limit 0); simpl; try lia.
  destruct (Ascii.eqb c newline); simpl; [lia|]. specialize (IH (limit - 1)%Z).
  destruct (read_line (limit - 1) data). simpl in *. lia.
Qed.

Lemma read_line_whole b : newline ∉ String.list_ascii_of_string b → ∀ limit, (Z.of_nat (String.length b) < limit)%Z →
  read_line limit (b +:+ health.newline_text) = (b +:+ health.newline_text, Newline).
Proof.
  induction b as [|c b IH]; intros Hn limit Hlen.
  - simpl in *. by destruct (Z.leb_spec limit 0); [lia|].
  - change ((String.String c b) +:+ health.newline_text) with (String.String c (b +:+ health.newline_text)).
    cbn [read_line]. simpl in Hn, Hlen. destruct (Z.leb_spec limit 0); [lia|].
    rewrite (proj2 (Ascii.eqb_neq c newline)) by (intros ->; apply Hn; left).
    rewrite IH; [done| |lia]. intros Hin. apply Hn. by right.
Qed.

(** A longer line is cut at the limit. *)
Lemma read_line_cut b : newline ∉ String.list_ascii_of_string b → ∀ limit, (0 ≤ limit ≤ Z.of_nat (String.length b))%Z →
  (read_line limit (b +:+ health.newline_text)).2 = Limit ∧
  Z.of_nat (String.length (read_line limit (b +:+ health.newline_text)).1) = limit.
Proof.
  induction b as [|c b IH]; intros Hn limit Hlen.
  - simpl in *. destruct (Z.leb_spec limit 0); simpl; [split; [done|lia]|lia].
  - change ((String.String c b) +:+ health.newline_text) with (String.String c (b +:+ health.newline_text)).
    cbn [read_line]. simpl in Hn, Hlen. destruct (Z.leb_spec limit 0); [split; [done|simpl; lia]|].
    rewrite (proj2 (Ascii.eqb_neq c newline)) by (intros ->; apply Hn; left).
    destruct (IH ltac:(intros Hin; apply Hn; by right) (limit - 1)%Z ltac:(lia)) as [He Hl].
    destruct (read_line (limit - 1) _). simpl in *. split; [done|lia].
Qed.

Lemma length_line b : String.length (b +:+ health.newline_text) = S (String.length b).
Proof. induction b as [|c b IH]; [done|]. simpl. by rewrite IH. Qed.

(** The agent, as a client's connection sees it. *)
Definition agent_socket `{IpcCodec} (provider : option (result health.Snapshot)) : Conn :=
  mkConn None (λ _, None) (λ sent, (default "" (serveConn provider false sent None), None)).

Section exchange.
Context `{IpcCodecLaws encodable transmissible}.

Lemma Call_agent provider req b resp :
  request_Encode req = inr b → serveConn provider false b None = written resp → transmissible resp →
  rp_ID resp = rq_ID req ∨ rp_ID resp = "" →
  (∀ out, response_Encode resp = inr out → (Z.of_nat (String.length out) < MaxRequestBytes)%Z) →
  ∃ got, Call (agent_socket provider) req = inr got ∧ same_response resp got.
Proof.
  intros Hb Hserve Ht Hid Hsize. destruct (response_roundtrip resp Ht) as (out & Hout & got & Hdec & Hsame).
  exists got. split; [|done]. unfold Call, agent_socket, limited. simpl. rewrite Hb, Hserve. unfold written. rewrite Hout. simpl.
  rewrite (proj2 (Z.leb_gt _ _)) by by apply Hsize. rewrite Hdec. destruct Hsame as (-> & _).
  destruct Hid as [->| ->]; rewrite ?(bool_decide_eq_true_2 (_ = _)) by done; [done|]. by rewrite andb_false_r.
Qed.

(** The exchange of one request with the agent. *)
Lemma Call_exchange provider req :
  encodable req → rq_ID req ≠ "" → rq_Method req ≠ "" →
  transmissible (Handle provider req) → transmissible (failure "" "INVALID_REQUEST" "request too large") →
  (∀ resp out, response_Encode resp = inr out → resp = Handle provider req ∨ resp = failure "" "INVALID_REQUEST" "request too large" →
     (Z.of_nat (String.length out) < MaxRequestBytes)%Z) →
  ∃ b got, request_Encode req = inr b ∧ Call (agent_socket provider) req = inr got ∧
    (if (Z.of_nat (String.length b) <=? MaxRequestBytes)%Z
     then same_response (Handle provider req) got ∧ rp_ID got = rq_ID req
     else same_response (failure "" "INVALID_REQUEST" "request too large") got).
Proof.
  intros Henc Hid Hmethod Ht Hlarge Hsize. destruct (request_roundtrip req Henc) as (b & Hb & Hn & Hun).
  assert (Hrid : rp_ID (Handle provider req) = rq_ID req).
  { unfold Handle. case_bool_decide; [|done]. by destruct provider as [[e|snap]|]. }
  exists (b +:+ health.newline_text). rewrite length_line.
  destruct (Z.leb_spec (Z.of_nat (S (String.length b))) MaxRequestBytes) as [Hfit|Hfit].
  - destruct (Call_agent provider req (b +:+ health.newline_text) (Handle provider req)) as (got & Hcall & Hsame); [done| |done|by left|by eauto|].
    { unfold serveConn. rewrite read_line_whole by (done || lia). unfold answer_line.
      rewrite (proj2 (Z.ltb_ge _ _)) by (rewrite length_line; lia).
      unfold DecodeRequest. rewrite Hun. by rewrite !bool_decide_eq_false_2 by done. }
    exists got. split_and!; [done|done|done|]. destruct Hsame as [-> _]. done.
  - destruct (Call_agent provider req (b +:+ health.newline_text) (failure "" "INVALID_REQUEST" "request too large"))
      as (got & Hcall & Hsame); [done| |done|by right|by eauto|by exists got].
    unfold serveConn. destruct (Z.eq_dec (Z.of_nat (String.length b)) MaxRequestBytes) as [Heq|Hne].
    + rewrite read_line_whole by (done || lia). unfold answer_line. by rewrite (proj2 (Z.ltb_lt _ _)) by (rewrite length_line; lia).
    + destruct (read_line_cut b Hn (MaxRequestBytes + 1)%Z) as [He Hl]; [unfold MaxRequestBytes in *; lia|].
      destruct (read_line _ _) as [line e]. simpl in He, Hl. subst e. unfold answer_line.
      by rewrite (proj2 (Z.ltb_lt _ _)) by lia.
Qed.
End exchange.
