(* ===== verification/Server.v ===== *)
(** * Serving the agent's socket ([agent/internal/ipc/server.go])

    [ListenAndServe]: how the socket is set up, the accept loop, which starts
    a goroutine for every connection, and what is left behind.  The path's
    entry and the listener are the state; what the system calls answer, the
    connections that arrive and the error that ends [Accept] are inputs. *)

From S2P Require Import Prelude GoStrings PowerStateModel Store ConfigValidate Health Ipc.

Module server.
Import ipc.

Record Server : Type := mkServer { sr_SocketPath : string; sr_SocketMode : Z }.

(** A mode of zero is the default. *)
Definition socket_mode (s : Server) : Z := if (sr_SocketMode s =? 0)%Z then 384%Z (* 0o600 *) else sr_SocketMode s.

(** What the calls answer: [os.MkdirAll]; whether removing the path works;
    [net.Listen] on a free path, and the mode of the entry it makes;
    [os.Chmod]. *)
Record System : Type := mkSystem {
  ss_MkdirAll : option error;
  ss_unlinks : bool;
  ss_Listen : option error;
  ss_created : Z;
  ss_Chmod : option error;
}.

(** A connection: what its client sends and how its stream ends; what the
    health provider answers and whether the context is done when its
    goroutine gets there. *)
Record Client : Type := mkClient {
  cl_data : string;
  cl_ending : option error;
  cl_provider : option (result health.Snapshot);
  cl_cancelled : bool;
}.

Inductive Accept : Type :=
  | AcceptConn (c : Client)
  | AcceptErr (e : error) (cancelled : bool).

(** The mode of the path's entry, if there is one; whether the listener is
    open; the connections so far, with that mode when they were accepted and
    the answer they get. *)
Record Endpoint : Type := mkEndpoint {
  ep_entry : option Z;
  ep_listening : bool;
  ep_served : list (option Z * Client * option string);
}.

Definition address_in_use : error := Errorf "bind: address already in use".

Section codec.
Context `{IpcCodec}.

Definition serve_client (c : Client) : option string := serveConn (cl_provider c) (cl_cancelled c) (cl_data c) (cl_ending c).

(** The loop; [None] while it waits for a connection. *)
Fixpoint accept_loop (accs : list Accept) (ep : Endpoint) : Endpoint * option (option error) :=
  match accs with
  | [] => (ep, None)
  | AcceptConn c :: accs =>
      accept_loop accs (mkEndpoint (ep_entry ep) (ep_listening ep) (ep_served ep ++ [(ep_entry ep, c, serve_client c)]))
  | AcceptErr e cancelled :: _ => (ep, Some (if cancelled then None else Some e))
  end.

Definition unlink (sys : System) (ep : Endpoint) : Endpoint :=
  mkEndpoint (if ss_unlinks sys then None else ep_entry ep) (ep_listening ep) (ep_served ep).

(** The deferred [ln.Close] and [os.Remove]. *)
Definition shut (sys : System) (ep : Endpoint) : Endpoint := unlink sys (mkEndpoint (ep_entry ep) false (ep_served ep)).

Definition Listen (sys : System) (ep : Endpoint) : result Endpoint :=
  match ep_entry ep, ss_Listen sys with
  | Some _, _ => inl address_in_use
  | None, Some e => inl e
  | None, None => inr (mkEndpoint (Some (ss_created sys)) true (ep_served ep))
  end.

Definition ListenAndServe (s : Server) (sys : System) (accs : list Accept) (ep : Endpoint) : Endpoint * option (option error) :=
  if bool_decide (sr_SocketPath s = "") then (ep, Some (Some (Errorf "socket path is required")))
  else match ss_MkdirAll sys with
  | Some e => (ep, Some (Some e))
  | None =>
  let ep := unlink sys ep in
  match Listen sys ep with
  | inl e => (ep, Some (Some e))
  | inr ep =>
  match ss_Chmod sys with
  | Some e => (shut sys ep, Some (Some e))
  | None =>
      match accept_loop accs (mkEndpoint (Some (socket_mode s)) (ep_listening ep) (ep_served ep)) with
      | (ep, None) => (ep, None)
      | (ep, Some ret) => (shut sys ep, Some ret)
      end
  end end end.
End codec.
End server.

Import ipc server.

(** ** What clients may rely on *)

Section clients.
Context `{IpcCodec}.

(** The connections of a run of the loop, up to the error that ends it. *)
Fixpoint connections (accs : list Accept) : list Client :=
  match accs with AcceptConn c :: accs => c :: connections accs | _ => [] end.

Lemma accept_loop_serves accs : ∀ ep,
  let '(ep', ret) := accept_loop accs ep in
  ep_entry ep' = ep_entry ep ∧ ep_listening ep' = ep_listening ep ∧
  ep_served ep' = ep_served ep ++ ((λ c, (ep_entry ep, c, serve_client c)) <$> connections accs) ∧
  (ret = Some None → ∃ e, AcceptErr e true ∈ accs) ∧ (∀ e, ret = Some (Some e) → AcceptErr e false ∈ accs).
Proof.
  induction accs as [|[c|e cancelled] accs IH]; intros ep; simpl.
  - by rewrite app_nil_r.
  - specialize (IH (mkEndpoint (ep_entry ep) (ep_listening ep) (ep_served ep ++ [(ep_entry ep, c, serve_client c)]))).
    destruct (accept_loop accs _) as [ep' ret]. simpl in IH. destruct IH as (-> & -> & -> & Hnone & Hsome). rewrite <-app_assoc.
    split_and!; [done..| |].
    + intros Hr. destruct (Hnone Hr) as [e He]. exists e. by right.
    + intros e He. right. auto.
  - rewrite app_nil_r. split_and!; [done..| |]; destruct cancelled; try done; intros; simplify_eq; eauto using list_elem_of_here.
Qed.

(** The socket is private and every client is served on its own.  From
    whatever entry an earlier process left at the path: a connection is only
    ever accepted once the entry has exactly the mode the server was given,
    and its answer is that of [serveConn] for its own bytes, whatever the
    other connections send; the server ends well only when its context is
    done, and with an error of a call or of [Accept] otherwise; and when it
    has ended, the listener is closed and the entry is gone, unless it cannot
    be removed. *)
Theorem server_contract s sys accs entry ep ret :
  ListenAndServe s sys accs (mkEndpoint entry false []) = (ep, ret) →
  (ep_served ep = [] ∨ ep_served ep = (λ c, (Some (socket_mode s), c, serve_client c)) <$> connections accs) ∧
  match ret with
  | None => ep_entry ep = Some (socket_mode s) ∧ ep_listening ep = true ∧ ep_served ep = (λ c, (Some (socket_mode s), c, serve_client c)) <$> connections accs
  | Some err =>
      ep_listening ep = false ∧
      (ss_unlinks sys = true → sr_SocketPath s ≠ "" → ss_MkdirAll sys = None → ep_entry ep = None) ∧
      match err with
      | None => ∃ e, AcceptErr e true ∈ accs
      | Some e => sr_SocketPath s = "" ∨ ss_MkdirAll sys = Some e ∨ ss_Listen sys = Some e ∨ ss_Chmod sys = Some e ∨
                  (e = address_in_use ∧ is_Some entry ∧ ss_unlinks sys = false) ∨ AcceptErr e false ∈ accs
      end
  end.
Proof.
  unfold ListenAndServe. case_bool_decide as Hpath. { intros [= <- <-]. simpl. split; [by left|]. split_and!; [done|done|by left]. }
  destruct (ss_MkdirAll sys) as [e|] eqn:Hmk. { intros [= <- <-]. simpl. split; [by left|]. split_and!; [done|done|by right; left]. }
  unfold unlink, Listen. simpl.
  destruct (ss_unlinks sys) eqn:Hun; [|destruct entry as [m|]]; simpl;
    try (intros [= <- <-]; simpl; split; [by left|]; split_and!; [done|done|by eauto 10]).
  all: destruct (ss_Listen sys) as [e|] eqn:Hl; simpl;
    [intros [= <- <-]; simpl; split; [by left|]; split_and!; [done|done|by eauto 10]|].
  all: destruct (ss_Chmod sys) as [e|] eqn:Hc; simpl;
    [intros [= <- <-]; unfold shut, unlink; simpl; rewrite Hun; split; [by left|]; split_and!; [done|done|by eauto 10]|].
  all: pose proof (accept_loop_serves accs (mkEndpoint (Some (socket_mode s)) true [])) as Hs;
    destruct (accept_loop accs _) as [ep' ret'] eqn:Hloop; simpl in Hs; destruct Hs as (He & Hli & Hserved & Hnone & Hsome);
    destruct ret' as [err|]; intros [= <- <-]; unfold shut, unlink; simpl; rewrite ?Hun; split; try by right.
  all: try (split_and!; done).
  all: split_and!; [done|done|]; destruct err as [e|]; [by eauto 10|by apply Hnone].
Qed.
End clients.

(** ** A client and a running server *)

Section exchange.
Context `{IpcCodecLaws encodable transmissible}.
Context (s : Server) (sys : System) (entry : option Z) (before after : list Client) (provider : option (result health.Snapshot)).

(** The server, when this client's connection comes after some and before
    other connections. *)
Definition serving (sent : string) : Endpoint :=
  (ListenAndServe s sys (AcceptConn <$> before ++ mkClient sent None provider false :: after) (mkEndpoint entry false [])).1.

(** Dialling fails if nothing listens at the path. *)
Definition client_conn : Conn :=
  mkConn (if ep_listening (serving "") then None else Some (Errorf "connect: connection refused")) (λ _, None)
    (λ sent, (match ep_served (serving sent) !! length before with Some (_, _, Some answer) => answer | _ => "" end, None)).

Definition comes_up : Prop :=
  sr_SocketPath s ≠ "" ∧ ss_MkdirAll sys = None ∧ (entry = None ∨ ss_unlinks sys = true) ∧ ss_Listen sys = None ∧ ss_Chmod sys = None.

Lemma connections_fmap cs : connections (AcceptConn <$> cs) = cs.
Proof. induction cs as [|c cs IH]; simpl; [done|]. f_equal; exact IH. Qed.

Lemma serving_all sent : comes_up →
  ep_listening (serving sent) = true ∧
  ep_served (serving sent) = (λ c, (Some (socket_mode s), c, serve_client c)) <$> before ++ mkClient sent None provider false :: after.
Proof.
  intros (Hp & Hm & He & Hl & Hc). unfold serving, ListenAndServe. rewrite bool_decide_eq_false_2 by done. rewrite Hm.
  unfold unlink, Listen. simpl. replace (if ss_unlinks sys then None else entry) with (@None Z) by by (destruct He as [He|He]; rewrite He; [destruct (ss_unlinks sys)|]).
  rewrite Hl, Hc. simpl. set (cs := before ++ _).
  pose proof (accept_loop_serves (AcceptConn <$> cs) (mkEndpoint (Some (socket_mode s)) true [])) as Hs.
  destruct (accept_loop _ _) as [ep ret]. simpl in Hs. destruct Hs as (_ & Hli & Hserved & Hnone & Hsome).
  rewrite connections_fmap in Hserved.
  destruct ret as [[e|]|]; [|destruct (Hnone eq_refl) as [e He']|done].
  - specialize (Hsome e eq_refl). apply list_elem_of_fmap in Hsome as (c & Hce & _). discriminate Hce.
  - apply list_elem_of_fmap in He' as (c & Hce & _). discriminate Hce.
Qed.

(** Its connection is that of a client who has the agent to itself. *)
Lemma client_conn_alone req : comes_up → Call client_conn req = Call (agent_socket provider) req.
Proof.
  intros Hup. unfold client_conn. rewrite (proj1 (serving_all "" Hup)). unfold Call, agent_socket. simpl.
  destruct (request_Encode req) as [e|b]; [done|]. rewrite (proj2 (serving_all b Hup)).
  rewrite list_lookup_fmap, lookup_app_r, Nat.sub_diag by done. simpl. unfold serve_client. simpl.
  by destruct (serveConn provider false b None).
Qed.

End exchange.
