(* ===== verification/Control.v ===== *)
(** * The agent as a service under validation ([agent/internal/control])

    config_runtime.go: the runtime that cockpit-ups-wolctl gives to the
    revision manager.  Applying a configuration restarts the service; the
    agent is healthy once it answers GetHealth with a snapshot that is not
    FAILED_SAFE, which is polled until a deadline.

    The clock, [systemctl], the calls on the socket and the pauses answer
    according to the events so far. *)

From S2P Require Import Prelude PowerStateModel Store Health Ipc.
From S2P Require Import Disk Revision.

Module control.

Import ipc.

Inductive Event : Type :=
  | EvNow (t : Time)
  | EvRun (args : list string)
  | EvCall (ok : bool)
  | EvPause (cancelled : option error).

Abbreviation Log := (list Event).

(** What a process that controls the agent meets; its own log is the state. *)
Record Outside `{IpcCodec} : Type := mkOutside {
  os_now : Log → Time;
  os_run : Log → string → list string → string * option error;
  os_call : Log → string → Request → result (Response any);   (* [ipc.Call] within a second *)
  os_pause : Log → option error;                              (* 250 ms, or the context's error *)
}.

Record ServiceRuntime : Type := mkServiceRuntime {
  sr_SocketPath : string;
  sr_Service : string;
  sr_HealthTimeout : Duration;
}.

(** [defaults], apart from the nil runner. *)
Definition defaults (r : ServiceRuntime) : ServiceRuntime :=
  mkServiceRuntime
    (if bool_decide (sr_SocketPath r = "") then "/run/cockpit-ups-wol/agent.sock" else sr_SocketPath r)
    (if bool_decide (sr_Service r = "") then "cockpit-ups-wol-agent.service" else sr_Service r)
    (if (sr_HealthTimeout r <=? 0)%Z then (20 * Second)%Z else sr_HealthTimeout r).

Definition health_request : Request := mkRequest "rollback-health" "GetHealth" "".

Definition model_fuel : error := Sentinel "model.fuel" "health polling has no fuel left".

Section runtime.
Context `{IpcCodec, health.SnapshotCodec}.
Context (os : Outside).

Definition Now : GoM Log Time := λ l, (EvNow (os_now os l) :: l, inr (os_now os l)).

Definition Apply (r : ServiceRuntime) : GoM Log unit := λ l,
  let r := defaults r in
  let args := ["restart"; sr_Service r] in
  match os_run os l "systemctl" args with
  | (_, None) => (EvRun args :: l, inr ())
  | (out, Some e) => (EvRun args :: l, inl (Wrapf ("restart " +:+ sr_Service r +:+ ": ") e (": " +:+ out)))
  end.

(** [json.Marshal(resp.Result)] and [json.Unmarshal] into a snapshot; the
    error of the former is dropped and leaves no bytes; a nil result is
    [null], which leaves the zero snapshot. *)
Definition decoded_snapshot (result : option any) : option health.Snapshot :=
  match result with
  | None => Some health.zeroSnapshot
  | Some a =>
      match any_Marshal a with
      | inl _ => None
      | inr b => match health.hj_Unmarshal b with inl _ => None | inr snap => Some snap end
      end
  end.

(** One poll: healthy, or the new value of [last]. *)
Definition judge (answer : Prelude.result (Response any)) (last : option error) : unit + option error :=
  match answer with
  | inl e => inr (Some e)
  | inr resp =>
      if rp_OK resp then
        match decoded_snapshot (rp_Result resp) with
        | Some snap =>
            if negb (bool_decide (health.sn_State snap = health.FailedSafe)) then inl ()
            else inr (Some (Errorf "agent reported FAILED_SAFE or invalid health snapshot"))
        | None => inr (Some (Errorf "agent reported FAILED_SAFE or invalid health snapshot"))
        end
      else match rp_Error resp with
           | Some e => inr (Some (Errorf (er_Message e)))
           | None => inr last
           end
  end.

Definition healthy_answer (answer : Prelude.result (Response any)) : bool :=
  match judge answer None with inl _ => true | inr _ => false end.

Definition call (r : ServiceRuntime) : GoM Log (Prelude.result (Response any)) := λ l,
  let answer := os_call os l (sr_SocketPath r) health_request in
  (EvCall (healthy_answer answer) :: l, inr answer).

Definition pause : GoM Log (option error) := λ l, (EvPause (os_pause os l) :: l, inr (os_pause os l)).

(** How the polling ends. *)
Inductive Outcome : Type := Answered | Unhealthy (e : error) | OutOfFuel.

(** [for time.Now().Before(deadline)] *)
Fixpoint poll (fuel : nat) (r : ServiceRuntime) (deadline : Time) (last : option error) : GoM Log Outcome :=
  match fuel with
  | O => mret OutOfFuel
  | S fuel =>
      now ← Now;
      if negb (Before now deadline) then mret (Unhealthy (default (Errorf "health IPC did not become ready") last))
      else
        answer ← call r;
        match judge answer last with
        | inl _ => mret Answered
        | inr last =>
            cancelled ← pause;
            match cancelled with
            | Some e => mret (Unhealthy e)
            | None => poll fuel r deadline last
            end
        end
  end.

Definition Healthy (fuel : nat) (r : ServiceRuntime) : GoM Log unit :=
  let r := defaults r in
  now ← Now;
  outcome ← poll fuel r (time_add now (sr_HealthTimeout r)) None;
  match outcome with
  | Answered => mret ()
  | Unhealthy e => throw e
  | OutOfFuel => throw model_fuel
  end.

(** What a method call reports, from a log on. *)
Definition reported (m : GoM Log unit) (l : Log) : option error :=
  match (m l).2 with inl e => Some e | inr _ => None end.
End runtime.

(** As the [Runtime] of the revision manager: each of its calls meets an
    outside that depends on the manager's events so far. *)
Definition service_runtime `{IpcCodec, health.SnapshotCodec} (fuel : nat) (r : ServiceRuntime)
    (os : revision.Log → Outside) : revision.Runtime :=
  revision.mkRuntime (λ l, reported (Apply (os l) r) []) (λ l, reported (Healthy (os l) fuel r) []).
End control.
