(* ===== verification/ControlFacts.v ===== *)
(** * What a promotion says about the running agent

    The polling of the service runtime ends, and reports health only on a
    fresh answer of the agent.  The events in a revision manager's log are the
    runtime's own answers, so a promoted configuration has restarted the
    service and the agent has answered at every check of its probation. *)

From S2P Require Import Prelude PowerStateModel Store Health Ipc Control.
From S2P Require Import ConfigModel Disk DiskFacts Revision RevisionFacts RevisionStartup RevisionCrash.

(** ** Polling *)

Section polling.
Import ipc control.
Context `{IpcCodec, health.SnapshotCodec}.
Context (os : Outside).

(** The agent answered, with OK and a snapshot that is not FAILED_SAFE. *)
Definition agent_healthy (answer : Prelude.result (Response any)) : Prop :=
  ∃ resp snap, answer = inr resp ∧ rp_OK resp = true ∧
    decoded_snapshot (rp_Result resp) = Some snap ∧ health.sn_State snap ≠ health.FailedSafe.

Lemma judge_healthy answer last : judge answer last = inl () → agent_healthy answer.
Proof.
  unfold judge. destruct answer as [e|resp]; [done|]. destruct (rp_OK resp) eqn:Hok; [|by destruct (rp_Error resp)].
  destruct (decoded_snapshot (rp_Result resp)) as [snap|] eqn:Hs; [|done].
  case_bool_decide; simpl; [done|]. intros _. by exists resp, snap.
Qed.

(** A poll that succeeds ends with a healthy answer, before the deadline. *)
Lemma poll_answered fuel r deadline : ∀ last l l',
  poll os fuel r deadline last l = (l', inr Answered) →
  ∃ l1 t, l' = EvCall true :: EvNow t :: l1 ∧ (t < deadline)%Z ∧ t = os_now os l1 ∧
    agent_healthy (os_call os (EvNow t :: l1) (sr_SocketPath r) health_request).
Proof.
  induction fuel as [|fuel IH]; intros last l l'; [done|]. cbn [poll]. unfold mbind, GoM_bind, Now, call.
  unfold Before. destruct (Z.ltb_spec (os_now os l) deadline) as [Hlt|]; simpl; [|done].
  set (answer := os_call os _ _ _). destruct (judge answer last) as [[]|last'] eqn:Hj; simpl.
  - intros [= <-]. assert (Hh : agent_healthy answer) by by apply (judge_healthy answer last).
    exists l, (os_now os l). split_and!; [|done..]. f_equal. f_equal. unfold healthy_answer, judge.
    destruct Hh as (resp & snap & -> & -> & -> & Hne). by rewrite bool_decide_eq_false_2.
  - destruct (os_pause os _); [done|]. apply IH.
Qed.

(** The earliest the clock can show: a pause lasts 250 milliseconds. *)
Fixpoint earliest (l : Log) : Time :=
  match l with
  | [] => min_int64
  | EvNow t :: _ => t
  | EvPause None :: l => (earliest l + 250 * Millisecond)%Z
  | _ :: l => earliest l
  end.

Definition clock_runs : Prop := ∀ l, (earliest l ≤ os_now os l)%Z.

Lemma poll_ends fuel r deadline (Hclock : clock_runs) : ∀ last l,
  (deadline - os_now os l ≤ Z.of_nat fuel * (250 * Millisecond))%Z → (poll os (S fuel) r deadline last l).2 ≠ inr OutOfFuel.
Proof.
  induction fuel as [|fuel IH]; intros last l Hd; cbn [poll]; unfold mbind, GoM_bind, Now, call, Before.
  - rewrite (proj2 (Z.ltb_ge _ _)) by lia. done.
  - destruct (Z.ltb_spec (os_now os l) deadline) as [Hlt|]; simpl; [|done].
    destruct (judge _ last) as [[]|last']; simpl; [done|]. destruct (os_pause os _) eqn:Hp; [done|].
    apply IH. set (l1 := EvPause None :: _). pose proof (Hclock l1) as Hnow. subst l1. cbn [earliest] in Hnow. lia.
Qed.

(** Polls enough for the timeout of a runtime. *)
Definition enough_polls (r : ServiceRuntime) : nat :=
  S (Z.to_nat (sr_HealthTimeout (defaults r) / (250 * Millisecond) + 1)).

Lemma Healthy_ends r l (Hclock : clock_runs) :
  (poll os (enough_polls r) (defaults r) (time_add (os_now os l) (sr_HealthTimeout (defaults r))) None (EvNow (os_now os l) :: l)).2
  ≠ inr OutOfFuel.
Proof.
  apply poll_ends; [done|]. pose proof (Hclock (EvNow (os_now os l) :: l)) as Hnow. cbn [earliest] in Hnow.
  set (d := sr_HealthTimeout (defaults r)) in *. assert (Hd : (0 < d)%Z).
  { unfold d, defaults. simpl. destruct (Z.leb_spec (sr_HealthTimeout r) 0); [done|lia]. }
  unfold time_add. set (q := (250 * Millisecond)%Z). assert (Hq : q = 250000000%Z) by done. clearbody q d.
  pose proof (Z.div_mod d q). pose proof (Z.mod_pos_bound d q).
  rewrite Z2Nat.id by (apply Z.add_nonneg_nonneg; [apply Z.div_pos|]; lia). lia.
Qed.

Lemma Healthy_answered fuel r :
  reported (Healthy os fuel r) [] = None →
  ∃ l t, (t < os_now os [] + sr_HealthTimeout (defaults r))%Z ∧ t = os_now os l ∧
    agent_healthy (os_call os (EvNow t :: l) (sr_SocketPath (defaults r)) health_request).
Proof.
  unfold reported, Healthy, mbind, GoM_bind, Now. simpl.
  set (l0 := [EvNow (os_now os [])]). set (deadline := time_add _ _).
  destruct (poll os fuel (defaults r) deadline None l0) as [l' [e|[|e|]]] eqn:Hp; simpl; try done.
  intros _. destruct (poll_answered fuel (defaults r) deadline None l0 l' Hp) as (l1 & t & _ & Ht & Heq & Hh).
  by exists l1, t.
Qed.

Lemma Apply_restarted r :
  reported (Apply os r) [] = None → (os_run os [] "systemctl" ["restart"; sr_Service (defaults r)]).2 = None.
Proof. unfold reported, Apply. by destruct (os_run os [] _ _) as [out [e|]]. Qed.
End polling.

(** ** The manager's log *)

Section honest.
Import revision.
Context `{RevisionCodec} `{LeafOrder}.
Context (r : Runtime).

(** Every answer of the runtime in the log is its answer to the log before. *)
Fixpoint truthful (l : revision.Log) : Prop :=
  match l with
  | [] => True
  | ev :: l =>
      match ev with EvApply e => e = rt_Apply r l | EvHealthy e => e = rt_Healthy r l | _ => True end ∧ truthful l
  end.

Lemma truthful_app l1 l2 : truthful (l1 ++ l2) → truthful l2.
Proof. induction l1 as [|ev l1 IH]; [done|]. intros [_ Ht]. by apply IH. Qed.

Definition in_truth (dk : Disk revision.Event) : Prop := truthful (dk_log dk).

(** A program that keeps the log truthful. *)
Definition honest {A} (m : M A) : Prop := spec in_truth m (λ _, in_truth) in_truth.

Lemma honest_ret {A} (a : A) : honest (mret a).
Proof. by intros dk Hdk. Qed.
Lemma honest_throw {A} e : honest (throw e : M A).
Proof. by intros dk Hdk. Qed.
Lemma honest_gets {A} (f : Disk revision.Event → A) : honest (gets f).
Proof. by intros dk Hdk. Qed.
Lemma honest_bind {A B} (m : M A) (f : A → M B) : honest m → (∀ a, honest (f a)) → honest (m ≫= f).
Proof. intros Hm Hf. eapply spec_bind; [exact Hm|exact Hf]. Qed.
Lemma honest_attempt {A} (m : M A) : honest m → honest (attempt m).
Proof. intros Hm dk Hdk. specialize (Hm dk Hdk). unfold attempt. by destruct (m dk) as [dk' [e|a]]. Qed.
Lemma honest_wrap_err {A} prefix (m : M A) : honest m → honest (wrap_err prefix m).
Proof. apply wrap_err_spec. Qed.
Lemma honest_lift {A} (x : result A) : honest (lift x).
Proof. by destruct x; intros dk Hdk. Qed.
Lemma honest_throw_opt e : honest (throw_opt e).
Proof. by destruct e; intros dk Hdk. Qed.
Lemma honest_for_each {A} (f : A → M unit) l : (∀ a, honest (f a)) → honest (for_each f l).
Proof. intros Hf. induction l as [|a l IH]; simpl; [apply honest_ret|]. by apply honest_bind. Qed.
Lemma honest_syscall name eff : (∀ dk : Disk revision.Event, dk_log (eff dk) = dk_log dk) → honest (syscall name eff).
Proof.
  intros Hlog dk Hdk. unfold syscall, in_truth in *. destruct (dk_faults dk) as [|[] faults]; simpl; by rewrite ?Hlog.
Qed.
Lemma honest_quiet name : honest (sys_quiet name).
Proof. by apply honest_syscall. Qed.
Lemma honest_Now m : honest (Now m).
Proof. intros dk Hdk. by split. Qed.
Lemma honest_Sleep m d : honest (Sleep m d).
Proof. intros dk Hdk. by split. Qed.
Lemma honest_Apply : honest (Apply r).
Proof. intros dk Hdk. by split. Qed.
Lemma honest_Healthy : honest (Healthy r).
Proof. intros dk Hdk. by split. Qed.
Lemma honest_read_file p : honest (read_file p).
Proof.
  intros dk Hdk. unfold read_file. pose proof (honest_quiet "open" dk Hdk) as Hq.
  by destruct (sys_quiet "open" dk) as [dk' [e|[]]].
Qed.
Lemma honest_sys_mkdir id : honest (sys_mkdir id).
Proof. apply honest_syscall. intros dk. by destruct (t_dirs (dk_view dk) !! id). Qed.
Lemma honest_sys_rename p : honest (sys_rename p).
Proof.
  intros dk Hdk. unfold sys_rename. destruct (resolve _ p), (dk_tmp dk) as [[b sy]|]; try done. by apply honest_syscall.
Qed.
Lemma honest_sys_sync_dir_of p : honest (sys_sync_dir_of p).
Proof. intros dk Hdk. unfold sys_sync_dir_of. destruct (resolve _ p); [by apply honest_syscall|done]. Qed.
Lemma honest_sys_remove_all id : honest (sys_remove_all id).
Proof.
  intros dk Hdk. unfold sys_remove_all. destruct (t_dirs (dk_view dk) !! id) as [g|]; [|by apply honest_quiet].
  revert dk Hdk. apply honest_bind; [|by intros _; apply honest_syscall]. apply honest_for_each. intros leaf. by apply honest_syscall.
Qed.

Create HintDb honest.
#[local] Hint Resolve honest_ret honest_throw honest_gets honest_lift honest_throw_opt honest_quiet honest_Now honest_Sleep
  honest_Apply honest_Healthy honest_read_file honest_sys_mkdir honest_sys_rename honest_sys_sync_dir_of
  honest_sys_remove_all honest_attempt honest_wrap_err : honest.

(** Through binds, matches and the programs already known. *)
Ltac honest :=
  repeat first
    [ solve [auto with honest]
    | apply honest_attempt | apply honest_wrap_err
    | apply honest_bind; [|intros]
    | apply honest_syscall; by intros [? ? [[? ?]|] ? ? ? ?]
    | match goal with
      | |- honest (when ?b _) => unfold when
      | |- honest (match ?x with _ => _ end) => destruct x
      end ].

Lemma honest_writeAtomic p c : honest (writeAtomic p c).
Proof. unfold writeAtomic, mkdir_of, sys_create_temp, sys_write_temp, sys_sync_temp. honest. Qed.
#[local] Hint Resolve honest_writeAtomic : honest.

Lemma honest_lock : honest lock.
Proof. unfold lock, Ensure. honest. Qed.
Lemma honest_writePointer name v : honest (writePointer name v).
Proof. unfold writePointer. honest. Qed.
Lemma honest_readPointer name : honest (readPointer name).
Proof. unfold readPointer. honest. Qed.
#[local] Hint Resolve honest_lock honest_writePointer honest_readPointer : honest.
Lemma honest_pointer_or_empty name : honest (pointer_or_empty name).
Proof. unfold pointer_or_empty. honest. Qed.
Lemma honest_writeManifest m : honest (writeManifest m).
Proof. unfold writeManifest. honest. Qed.
Lemma honest_readManifest id : honest (readManifest id).
Proof. unfold readManifest. honest. Qed.
#[local] Hint Resolve honest_pointer_or_empty honest_writeManifest honest_readManifest : honest.

Lemma honest_known_good_of names : honest (known_good_of names).
Proof. induction names as [|name names IH]; cbn [known_good_of]; honest. Qed.
#[local] Hint Resolve honest_known_good_of : honest.
Lemma honest_KnownGoodRevisions : honest KnownGoodRevisions.
Proof. unfold KnownGoodRevisions, Ensure, ReadDir. honest. Qed.
Lemma honest_protected names : honest (protected_revisions names).
Proof. induction names as [|name names IH]; cbn [protected_revisions]; honest. Qed.
Lemma honest_prune_loop K ms : ∀ removed, honest (prune_loop K ms removed).
Proof. induction ms as [|m ms IH]; intros removed; cbn [prune_loop]; honest. Qed.
#[local] Hint Resolve honest_KnownGoodRevisions honest_protected honest_prune_loop : honest.
Lemma honest_prune keep : honest (pruneRevisionsLocked keep).
Proof. unfold pruneRevisionsLocked, sys_sync_revisions. honest. Qed.
#[local] Hint Resolve honest_prune : honest.

Lemma honest_apply_and_check f g : honest (apply_and_check (Some r) f g).
Proof. unfold apply_and_check. honest. Qed.
Lemma honest_promoteLocked m mf : honest (promoteLocked m mf).
Proof. unfold promoteLocked. honest. Qed.
Lemma honest_failLocked mf e : honest (failLocked mf e).
Proof. unfold failLocked. honest. Qed.
#[local] Hint Resolve honest_apply_and_check honest_promoteLocked honest_failLocked : honest.
Lemma honest_rollbackLocked mf e : honest (rollbackLocked mf e (Some r)).
Proof. unfold rollbackLocked, rollback_to, read_config. honest. Qed.
Lemma honest_probation fuel m (deadline : Time) : honest (probation fuel m r deadline).
Proof. induction fuel as [|fuel IH]; cbn [probation]; honest. Qed.
#[local] Hint Resolve honest_rollbackLocked honest_probation : honest.
Lemma honest_validate_runtime fuel m : honest (validate_runtime fuel m (Some r)).
Proof. unfold validate_runtime. honest. Qed.
#[local] Hint Resolve honest_validate_runtime : honest.
Lemma honest_ActivateAndValidate fuel m id : honest (ActivateAndValidate fuel m id (Some r)).
Proof. unfold ActivateAndValidate, activate, read_config. honest. Qed.
End honest.

(** ** Promotion *)

Section promotion.
Context `{revision.RevisionCodecLaws encodable} `{LeafOrder} `{ipc.IpcCodec, health.SnapshotCodec}.

(** C16: A configuration is promoted only under a live agent: when an
    activation over the service runtime succeeds, the service was restarted
    without error, and at the first check and after every pause of the
    probation the agent answered a GetHealth call, made before the deadline
    of that check, with OK and a snapshot that is not FAILED_SAFE. *)
Theorem promotion_needs_live_agent fuel polls m t id lkg m0 c sr os faults dk mf :
  ready_to_activate t id lkg m0 c →
  revision.ActivateAndValidate fuel m id (Some (control.service_runtime polls sr os)) (boot t faults) = (dk, inr mf) →
  let service := control.defaults sr in
  accepted (revision.defaults m) (dk_log dk) ∧
  (∀ l1 l2, dk_log dk = l1 ++ revision.EvApply None :: l2 →
     (control.os_run (os l2) [] "systemctl" ["restart"; control.sr_Service service]).2 = None) ∧
  (∀ l1 l2, dk_log dk = l1 ++ revision.EvHealthy None :: l2 → ∃ l now,
     (now < control.os_now (os l2) [] + control.sr_HealthTimeout service)%Z ∧ now = control.os_now (os l2) l ∧
     agent_healthy (control.os_call (os l2) (control.EvNow now :: l) (control.sr_SocketPath service) control.health_request)).
Proof.
  intros Hready Hrun service.
  destruct (ActivateAndValidate_safe m t id lkg m0 c Hready fuel (Some (control.service_runtime polls sr os)) faults) as [g Hs].
  rewrite Hrun in Hs. destruct Hs as (_ & Hacc & _). split; [done|].
  pose proof (honest_ActivateAndValidate (control.service_runtime polls sr os) fuel m id (boot t faults) I) as Ht.
  rewrite Hrun in Ht. unfold in_truth in Ht. split; intros l1 l2 Hlog; rewrite Hlog in Ht; apply truthful_app in Ht as [Hev _].
  - by apply (Apply_restarted (os l2) sr).
  - by apply (Healthy_answered (os l2) polls sr).
Qed.
End promotion.
