(* ===== verification/ControlExample.v ===== *)
(** * A call and a promotion, concretely

    A codec over tables of messages, a call that fetches a snapshot, and an
    activation under an agent that fails its first call after the restart. *)

From Stdlib Require Import Ascii.
From S2P Require Import Prelude GoStrings PowerStateModel Store Health HealthExample Ipc Server Control ControlFacts.
From S2P Require Import ConfigModel Disk Revision RevisionCrash RevisionExample.

Import ipc.

(** ** The codec: the length of a text is the place of the message *)

#[local] Existing Instance HealthExample.Snapshot_eq_dec.
#[local] Instance Request_eq_dec : EqDecision Request.
Proof. solve_decision. Defined.
#[local] Instance Error_eq_dec : EqDecision Error.
Proof. solve_decision. Defined.
#[local] Instance Response_eq_dec : EqDecision (Response health.Snapshot).
Proof. solve_decision. Defined.

Definition place {A} `{EqDecision A} (tbl : list A) (x : A) : nat := default 0 (fst <$> list_find (λ y, y = x) tbl).

Lemma place_lookup {A} `{EqDecision A} (tbl : list A) x : x ∈ tbl → tbl !! place tbl x = Some x.
Proof.
  intros Hx. unfold place. destruct (list_find_elem_of (λ y, y = x) tbl x Hx eq_refl) as [[i y] Hf]. rewrite Hf. simpl.
  by apply list_find_Some in Hf as (Hi & -> & _).
Qed.

Definition at_place {A} (tbl : list A) (n : nat) : result A :=
  match tbl !! n with Some x => inr x | None => inl (Errorf "invalid JSON") end.

Definition message_codec (requests : list Request) (responses : list (Response health.Snapshot)) (snaps : list health.Snapshot)
  : IpcCodec := {|
  any := health.Snapshot;
  request_Encode := λ r, inr (ticks (place requests r) +:+ health.newline_text);
  request_Unmarshal := λ b, at_place requests (String.length b - 1);
  response_Encode := λ r, inr (ticks (place responses r));
  response_Decode := λ b _, at_place responses (String.length b);
  any_Marshal := λ s, inr (ticks (place snaps s) +:+ health.newline_text);
|}.

Lemma ticks_line n : newline ∉ String.list_ascii_of_string (ticks n).
Proof. induction n as [|n IH]; simpl; [apply not_elem_of_nil|]. apply not_elem_of_cons. by split. Qed.

Lemma message_codec_laws requests responses snaps :
  @IpcCodecLaws (message_codec requests responses snaps) (snapshot_codec snaps)
    (λ r, r ∈ requests) (λ r, r ∈ responses ∧ ∀ s, rp_Result r = Some s → s ∈ snaps).
Proof.
  split; simpl.
  - intros req Hr. exists (ticks (place requests req)). split_and!; [done|apply ticks_line|].
    unfold at_place. by rewrite length_line, ticks_length, Nat.sub_succ, Nat.sub_0_r, place_lookup by done.
  - intros resp [Hr Hs]. eexists. split; [done|]. exists resp. unfold at_place. rewrite ticks_length, place_lookup by done.
    split; [done|]. split_and!; [done..|]. destruct resp as [id ok [s|] err]; [|done].
    eexists. split; [done|]. cbn. rewrite length_line, ticks_length, Nat.sub_succ, Nat.sub_0_r.
    by rewrite place_lookup by by apply Hs.
Qed.

(** ** A call *)

Definition requests : list Request := [control.health_request].
Definition too_large : Response health.Snapshot := failure "" "INVALID_REQUEST" "request too large".
Definition healthy : Response health.Snapshot := mkResponse "rollback-health" true (Some snap1) None.
Definition responses : list (Response health.Snapshot) := [healthy; too_large].

Abbreviation codec := (message_codec requests responses [snap1]).

(** The server, on a path where an earlier process left its socket; a client
    before this one sends nothing but a broken stream, one after it rubbish. *)
Definition endpoint : server.Server := server.mkServer "/run/cockpit-ups-wol/agent.sock" 0.
Definition calls : server.System := server.mkSystem None true None 493 None.
Definition broken : server.Client := server.mkClient "" (Some (Errorf "connection reset")) None false.
Definition rubbish : server.Client := server.mkClient "rubbish" None (Some (inr snap1)) false.

Abbreviation health_conn := (@client_conn codec endpoint calls (Some 493%Z) [broken] [rubbish] (Some (inr snap1))).


(** The context's end closes the listener, and [Accept] fails. *)
Abbreviation stopped := (@server.ListenAndServe codec endpoint calls
  [server.AcceptConn broken; server.AcceptErr (Errorf "use of closed network connection") true] (server.mkEndpoint (Some 493%Z) false [])).

Lemma server_contract_witness :
  (server.ep_served stopped.1 = [] ∨ server.ep_served stopped.1 = [(Some 384%Z, broken, None)]) ∧
  server.ep_listening stopped.1 = false ∧ (true = true → "/run/cockpit-ups-wol/agent.sock" ≠ "" → @None error = None → server.ep_entry stopped.1 = None) ∧
  ∃ e, server.AcceptErr e true ∈ [server.AcceptConn broken; server.AcceptErr (Errorf "use of closed network connection") true].
Proof.
  exact (@server_contract codec endpoint calls
    [server.AcceptConn broken; server.AcceptErr (Errorf "use of closed network connection") true] (Some 493%Z)
    stopped.1 (Some None) eq_refl).
Defined.

(** ** A promotion *)

(** The agent does not answer its first call after a restart. *)
Definition agent : @control.Outside codec :=
  @control.mkOutside codec
    (λ l, start_time + Z.of_nat (length l) * 300 * Millisecond)%Z
    (λ _ _ _, ("", None))
    (λ l _ _, if (length l <? 4)%nat then inl (Errorf "connection refused") else inr healthy)
    (λ _, None).

Definition service : control.ServiceRuntime := control.mkServiceRuntime "" "" 0.

Abbreviation supervised := (@control.service_runtime codec (snapshot_codec [snap1]) 81 service (λ _, agent)).
Abbreviation promotion := (@revision.ActivateAndValidate toy_codec toy_order 4 manager second (Some supervised) (boot proposed [])).

Example promotion_succeeds : promotion.2 = inr (revision.set_status revision.RevisionKnownGood "" manifest2).
Proof. vm_compute. reflexivity. Qed.

Lemma promotion_needs_live_agent_witness :
  accepted (revision.defaults manager) (dk_log promotion.1) ∧
  (∀ l1 l2, dk_log promotion.1 = l1 ++ revision.EvApply None :: l2 →
     (control.os_run agent [] "systemctl" ["restart"; "cockpit-ups-wol-agent.service"]).2 = None) ∧
  (∀ l1 l2, dk_log promotion.1 = l1 ++ revision.EvHealthy None :: l2 → ∃ l now,
     (now < control.os_now agent [] + 20 * Second)%Z ∧ now = control.os_now agent l ∧
     @agent_healthy codec (snapshot_codec [snap1])
       (control.os_call agent (control.EvNow now :: l) "/run/cockpit-ups-wol/agent.sock" control.health_request)).
Proof.
  apply (@promotion_needs_live_agent toy_codec _ toy_codec_laws toy_order codec (snapshot_codec [snap1])
           4 81 manager proposed second first manifest2 "home 2" service (λ _, agent) [] promotion.1
           (revision.set_status revision.RevisionKnownGood "" manifest2)).
  - exact proposed_ready.
  - exact (run_pair _ _ promotion_succeeds).
Defined.
