(* ===== verification/Agent.v ===== *)
(** * The agent's main loop ([agent/internal/app])

    runtime.go: loading the configuration and choosing the mode, and the
    loops of both modes.  A loop is a function of what its [select] receives,
    one wake-up after the other, in any order: the context's end, the end of
    the IPC server, the watchdog's channel and the tickers.  The tickers'
    times and the systemd notifications are the system's; what READY and the
    start of the watchdog answer are arguments. *)

From S2P Require Import Prelude GoStrings PowerStateModel Nut ConfigModel Policy Store Coordinator Recovery Orchestrator.
From S2P Require Import HostAdapters Health Armed Disk Revision.

Module app.

(** ** Loading ([LoadAndRun], [Run]) *)

(** The configuration the process runs with; [held]: another process is in
    the middle of an activation. *)
Definition load_config `{revision.RevisionCodec} (held : bool) : revision.M ConfigModel.Config :=
  _ ← wrap_err "recover configuration: " (revision.RecoverForStartup held None);
  r ← read_file ActiveConfig;
  data ← wrap_err "read config: " (revision.lift r);
  wrap_err "parse config: " (revision.lift (revision.Parse data)).

Inductive Mode : Type := ModeArmed | ModePassive.

(** [Run] *)
Definition mode_of (cfg : ConfigModel.Config) : Mode := if bool_decide (cf_Mode cfg = "armed") then ModeArmed else ModePassive.

(** The interval of the health ticker in both modes. *)
Definition health_interval (opts : Options) (cfg : ConfigModel.Config) : Duration :=
  let interval :=
    if (op_HealthInterval opts <=? 0)%Z then duration_of (he_IntervalSeconds (cf_Health cfg)) Second
    else op_HealthInterval opts in
  if (interval <=? 0)%Z then (60 * Second)%Z else interval.

(** ** The loops *)

(** What the [select] receives.  [cancelled]: the context is done already;
    only the passive loop has a liveness ticker. *)
Inductive Wakeup : Type :=
  | CtxDone
  | ServerEnded (err : option error) (cancelled : bool)
  | WatchdogClosed
  | WatchdogFailed (err : option error)
  | LivenessTick
  | HealthTick
  | PowerTick (s : health.Snapshot → Sample).

(** The channels a loop still listens to: [serverErr] and [watchdogCh] become
    nil after their end. *)
Record Channels : Type := mkChannels { ch_server : bool; ch_watchdog : bool }.

Definition open_channels : Channels := mkChannels true true.

(** Nothing is received from a nil channel. *)
Definition listens (ch : Channels) (ev : Wakeup) : bool :=
  match ev with
  | ServerEnded _ _ => ch_server ch
  | WatchdogClosed | WatchdogFailed _ => ch_watchdog ch
  | _ => true
  end.

(** The cases both loops share: go on with these channels, or return. *)
Definition channel_turn (ch : Channels) (ev : Wakeup) : Channels + option error :=
  if negb (listens ch ev) then inl ch
  else match ev with
  | CtxDone => inr None
  | ServerEnded (Some e) false => inr (Some (Wrapf "IPC server: " e ""))
  | ServerEnded _ _ => inl (mkChannels false (ch_watchdog ch))
  | WatchdogClosed => inl (mkChannels (ch_server ch) false)
  | WatchdogFailed (Some e) => inr (Some (Wrapf "systemd watchdog: " e ""))
  | _ => inl ch
  end.

(** What precedes the loop: [Ready] and [StartWatchdog]. *)
Definition announce (ready watchdog : option error) : option error :=
  match ready, watchdog with
  | Some e, _ => Some (Wrapf "systemd READY notification: " e "")
  | None, Some e => Some (Wrapf "start systemd watchdog: " e "")
  | None, None => None
  end.

Section loops.
Context `{health.SnapshotCodec}.
Context (clock : health.Log → Time) (supervisor : health.Supervisor) (cfg : ConfigModel.Config).

(** [runAgentHealth] cannot fail. *)
Definition agent_health (autofix : bool) (w : health.World) : health.World * health.Snapshot :=
  match runAgentHealth supervisor autofix clock w with
  | (w, inr snap) => (w, snap)
  | (w, inl _) => (w, health.zeroSnapshot)
  end.

(** *** [runPassive] *)

Record Passive : Type := mkPassive { pa_health : health.World; pa_channels : Channels; pa_beats : nat }.

Definition passive_turn (ev : Wakeup) (p : Passive) : Passive + option error :=
  match channel_turn (pa_channels p) ev with
  | inr err => inr err
  | inl ch =>
      match ev with
      | LivenessTick => inl (mkPassive (pa_health p) ch (S (pa_beats p)))
      | HealthTick => inl (mkPassive (agent_health (he_Autofix (cf_Health cfg)) (pa_health p)).1 ch (S (pa_beats p)))
      | _ => inl (mkPassive (pa_health p) ch (pa_beats p))
      end
  end.

(** The state when the loop starts, with the first beat, or an error. *)
Definition runPassive_start (ready watchdog : option error) (w : health.World) : Passive + option error :=
  let w := (agent_health false w).1 in
  match announce ready watchdog with
  | Some e => inr (Some e)
  | None => inl (mkPassive w open_channels 1)
  end.

Fixpoint runPassive_loop (evs : list Wakeup) (p : Passive) : Passive + option error :=
  match evs with
  | [] => inl p
  | ev :: evs => match passive_turn ev p with inl p => runPassive_loop evs p | inr err => inr err end
  end.

(** *** [runArmed] *)

Context {W : Type} `{StateWriter W}.
Context (os : Outside) (opts : Options) (runtimeCfg : ConfigModel.Config).

Record Loop : Type := mkLoop {
  lp_armed : Armed W;
  lp_health : health.World;
  lp_latest : health.Snapshot;      (* latestHealth *)
  lp_channels : Channels;
}.

(** [armedPowerTick] with the latest health. *)
Definition power_turn (s : health.Snapshot → Sample) (ch : Channels) (l : Loop) : Loop + option error :=
  match armedPowerTick os opts cfg runtimeCfg (s (lp_latest l)) (lp_armed l) with
  | (a, inr _) => inl (mkLoop a (lp_health l) (lp_latest l) ch)
  | (_, inl e) => inr (Some e)
  end.

Definition armed_turn (ev : Wakeup) (l : Loop) : Loop + option error :=
  match channel_turn (lp_channels l) ev with
  | inr err => inr err
  | inl ch =>
      match ev with
      | HealthTick =>
          let '(w, snap) := agent_health (he_Autofix (cf_Health cfg)) (lp_health l) in
          inl (mkLoop (lp_armed l) w snap ch)
      | PowerTick s => power_turn s ch l
      | _ => inl (mkLoop (lp_armed l) (lp_health l) (lp_latest l) ch)
      end
  end.

(** From the controller that has loaded its state ([runArmed_start]): the
    first health run, the first tick, READY and the watchdog. *)
Definition runArmed_enter (ready watchdog : option error) (s : health.Snapshot → Sample) (a : Armed W) (w : health.World)
  : Loop + option error :=
  let '(w, snap) := agent_health false w in
  match power_turn s open_channels (mkLoop a w snap open_channels) with
  | inr err => inr err
  | inl l => match announce ready watchdog with Some e => inr (Some e) | None => inl l end
  end.

Fixpoint runArmed_loop (evs : list Wakeup) (l : Loop) : Loop + option error :=
  match evs with
  | [] => inl l
  | ev :: evs => match armed_turn ev l with inl l => runArmed_loop evs l | inr err => inr err end
  end.
End loops.
End app.
