(* ===== verification/AgentFacts.v ===== *)
(** * What the agent's loops guarantee

    The configuration that is loaded is the one the history records; the armed
    loop is the process that the theorems on the armed runtime speak
    of, and the health each of its ticks uses is that of a run of the
    supervisor; the loops end for the stated reasons only. *)

From S2P Require Import Prelude StableSort GoStrings PowerStateModel Nut ConfigModel ConfigValidate Policy Store Coordinator.
From S2P Require Import Recovery Orchestrator HostAdapters Health HealthFacts Armed ArmedFacts.
From S2P Require Import Disk DiskFacts Revision RevisionFacts RevisionStartup SystemHealthFacts Agent.

Import app.

(** ** The health of the ticks *)

Section health.
Context `{health.SnapshotCodec}.
Context (clock : health.Log → Time) (supervisor : health.Supervisor).

(** A snapshot the loop has from its supervisor. *)
Definition from_supervisor (snap : health.Snapshot) : Prop :=
  ∃ autofix w, snap = (agent_health clock supervisor autofix w).2.

(** It vouches for the UPS only if the query succeeded in that run. *)
Lemma safe_run_queried (query : health.Log → result Status) snap :
  health.sp_StatePath supervisor ≠ "" →
  health.mkCheck "nut.query" (λ l, nutHealthCheck_Run (query l)) ∈ health.sp_Checks supervisor →
  from_supervisor snap → criticalAgentHealthSafe snap = true →
  ∃ l st, query l = inr st ∧ us_Utility st ≠ UtilityUnknown.
Proof.
  intros Hpath Hcheck (autofix & w & ->). unfold agent_health, runAgentHealth.
  destruct (health.Run supervisor autofix w) as [w' [e|snap]] eqn:Hrun; [done|]. cbn [snd].
  destruct (Run_recorded supervisor Hpath autofix w w' snap Hrun) as (new & b & _ & Hrec & _).
  destruct (check_event _ _ _ _ Hrec (health.mkCheck "nut.query" (λ l, nutHealthCheck_Run (query l)))) as [l Hl].
  { by apply SliceStable_elem. }
  unfold criticalAgentHealthSafe. case_bool_decide; [done|]. intros Hsafe%negb_true_iff.
  assert (Hr : critical_failure (result_of (health.mkCheck "nut.query" (λ l, nutHealthCheck_Run (query l))) l) = false).
  { apply not_true_iff_false. intros Hc. apply not_true_iff_false in Hsafe. apply Hsafe, existsb_exists.
    exists (result_of (health.mkCheck "nut.query" (λ l, nutHealthCheck_Run (query l))) l). split; [by apply list_elem_of_In|exact Hc]. }
  revert Hr. unfold result_of, nutHealthCheck_Run, critical_failure. simpl.
  destruct (query l) as [e|st] eqn:Hq; [done|]. destruct (decide (us_Utility st = UtilityUnknown)) as [Hu|Hu]; [|intros _]. { rewrite (bool_decide_true (_ = UtilityUnknown)) by done. done. }
  by exists l, st.
Qed.
End health.

(** ** The armed loop *)

Section armed.
Context {W : Type} `{StateWriter W, health.SnapshotCodec}.
Context (clock : health.Log → Time) (supervisor : health.Supervisor) (cfg runtimeCfg : ConfigModel.Config).
Context (os : Outside) (opts : Options) (w0 : World W).

(** Samples take their health from the loop, and their clock is past Go's
    zero time. *)
Definition loop_sample (s : health.Snapshot → Sample) : Prop := ∀ snap, sm_health (s snap) = snap ∧ (0 < sm_now (s snap))%Z.

Definition loop_samples (evs : list Wakeup) : Prop :=
  Forall (λ ev, match ev with PowerTick s => loop_sample s | _ => True end) evs.

(** The state is one of a process whose ticks used the supervisor's health. *)
Definition process_state (l : Loop) : Prop :=
  from_supervisor clock supervisor (lp_latest l) ∧
  ∃ ss, armed_run os opts cfg runtimeCfg w0 ss (lp_armed l) ∧ Forall (λ s, from_supervisor clock supervisor (sm_health s)) ss.

Lemma power_turn_process s ch l l' :
  loop_sample s → process_state l → power_turn cfg os opts runtimeCfg s ch l = inl l' → process_state l'.
Proof.
  intros Hs (Hlatest & ss & Hrun & Hss). unfold power_turn.
  destruct (armedPowerTick os opts cfg runtimeCfg (s (lp_latest l)) (lp_armed l)) as [a [e|[]]] eqn:Ht; [done|]. intros [= <-].
  destruct (Hs (lp_latest l)) as [Hh Hnow]. split; [done|]. exists (s (lp_latest l) :: ss). simpl. split.
  - replace a with (armedPowerTick os opts cfg runtimeCfg (s (lp_latest l)) (lp_armed l)).1 by by rewrite Ht.
    by apply run_tick.
  - constructor; [by rewrite Hh|done].
Qed.

Lemma armed_turn_process ev l l' :
  (match ev with PowerTick s => loop_sample s | _ => True end) → process_state l →
  armed_turn clock supervisor cfg os opts runtimeCfg ev l = inl l' → process_state l'.
Proof.
  intros Hev Hl. unfold armed_turn. destruct (channel_turn (lp_channels l) ev) as [ch|]; [|done].
  destruct ev as [| | | | | |s]; try by intros [= <-].
  - pose proof (λ autofix w, ex_intro _ autofix (ex_intro _ w eq_refl) : from_supervisor clock supervisor (agent_health clock supervisor autofix w).2) as Hsup.
    specialize (Hsup (he_Autofix (cf_Health cfg)) (lp_health l)). destruct (agent_health _ _ _ _) as [w snap]. intros [= <-].
    destruct Hl as [_ Hrun]. by split.
  - by apply power_turn_process.
Qed.

(** The armed loop is a run of the armed process, in whatever order its
    timers, channels and servers wake it: every state it reaches is one of
    [armed_run], so the theorems on that process hold of it, and the health
    each tick used is the snapshot of a run of the agent's supervisor; such a
    snapshot counts as safe only if the UPS answered that run's query. *)
Theorem armed_loop_is_process query excluded ready watchdog s evs hw l0 l :
  health.sp_StatePath supervisor ≠ "" →
  health.sp_Checks supervisor = armed_checks query cfg excluded →
  loop_sample s → loop_samples evs →
  runArmed_enter clock supervisor cfg os opts runtimeCfg ready watchdog s (mkArmed w0 ∅ zeroTracker [] []) hw = inl l0 →
  runArmed_loop clock supervisor cfg os opts runtimeCfg evs l0 = inl l →
  ∃ ss, armed_run os opts cfg runtimeCfg w0 ss (lp_armed l) ∧
    ∀ tick, tick ∈ ss → from_supervisor clock supervisor (sm_health tick) ∧
      (criticalAgentHealthSafe (sm_health tick) = true → ∃ hl st, query hl = inr st ∧ us_Utility st ≠ UtilityUnknown).
Proof.
  intros Hpath Hcheck Hs Hevs Henter Hloop.
  enough (Hp : process_state l).
  { destruct Hp as (_ & ss & Hrun & Hss). exists ss. split; [done|]. rewrite Forall_forall in Hss. intros tick Ht.
    split; [by apply Hss|]. eapply safe_run_queried; [done|rewrite Hcheck; left|by apply Hss]. }
  assert (Hl0 : process_state l0).
  { revert Henter. unfold runArmed_enter. pose proof (ex_intro _ false (ex_intro _ hw eq_refl) : from_supervisor clock supervisor (agent_health clock supervisor false hw).2) as Hsup.
    destruct (agent_health _ _ _ _) as [w snap]. destruct (power_turn _ _ _ _ _ _ _) as [l1|] eqn:Hp; [|done].
    destruct (announce ready watchdog); [done|]. intros [= <-]. apply power_turn_process in Hp; [done..|].
    split; [done|]. exists []. split; [apply run_start|constructor]. }
  clear Henter. revert l0 Hl0 Hloop. induction Hevs as [|ev evs Hev Hevs IH]; intros l0 Hl0; simpl; [by intros [= <-]|].
  destruct (armed_turn _ _ _ _ _ _ ev l0) as [l1|] eqn:Ht; [|done]. apply IH. by eapply armed_turn_process.
Qed.

(** A loop returns only when its context is done, or with an error of the
    IPC server, of the watchdog or of a tick. *)
Lemma armed_turn_returns ev l err :
  armed_turn clock supervisor cfg os opts runtimeCfg ev l = inr err →
  (ev = CtxDone ∧ err = None) ∨
  (∃ e, ev = ServerEnded (Some e) false ∧ err = Some (Wrapf "IPC server: " e "")) ∨
  (∃ e, ev = WatchdogFailed (Some e) ∧ err = Some (Wrapf "systemd watchdog: " e "")) ∨
  (∃ s a e, ev = PowerTick s ∧ armedPowerTick os opts cfg runtimeCfg (s (lp_latest l)) (lp_armed l) = (a, inl e) ∧ err = Some e).
Proof.
  unfold armed_turn, channel_turn. destruct ev as [|[e|] []| |[e|]| | |s]; simpl;
    destruct (lp_channels l) as [[] []]; simpl; try done; try (intros [= <-]; eauto 6).
  all: try (destruct (agent_health _ _ _ _); done).
  all: unfold power_turn; destruct (armedPowerTick _ _ _ _ _ _) as [a [e|[]]] eqn:Ht; [|done]; intros [= <-]; eauto 10.
Qed.
End armed.

(** ** The configuration of the process *)

Section loading.
Import revision.
Context `{RevisionCodecLaws encodable} `{LeafOrder}.
Implicit Types (v t : Tree).

Lemma sees_load_config v held :
  named v →
  spec (sees false v) (load_config held)
    (λ cfg dk, ∃ v' c, (held = true ∧ v' = v ∨ held = false ∧ ∃ v1, recovered false v v1 ∧ checked false v1 v') ∧
       t_read v' ActiveConfig = Some c ∧ revision.Parse c = inr cfg ∧ sees false v' dk)
    (λ _, True).
Proof.
  intros Hn. unfold load_config. eapply spec_bind.
  { apply wrap_err_spec. eapply spec_E; [by apply sees_RecoverForStartup|done]. }
  intros []. apply spec_ex. intros v'. apply spec_pure. intros Hcase.
  eapply spec_bind; [apply sees_read_file|]. intros [e|c]; apply spec_pure; intros Hc; simpl in Hc; [by intros s _|].
  intros s Hs. unfold wrap_err, mbind, GoM_bind. simpl. destruct (revision.Parse c) as [e|cfg] eqn:Hp; simpl; [done|].
  by exists v', c.
Qed.

(** The active file [c] that decodes to [cfg] is in force on [v']. *)
Definition in_force (held : bool) (v v' : Tree) (cfg : ConfigModel.Config) : Prop :=
  ∃ c, t_read v' ActiveConfig = Some c ∧ revision.Parse c = inr cfg ∧
    same_revisions v v' ∧
    (held = true ∧ v' = v ∨
     held = false ∧ (pointer "active" v' = inr "" ∨
       ∃ id m, pointer "active" v' = inr id ∧ manifest_of id v' = inr m ∧
         ¬ interrupted (revision.mf_Status m) ∧ revision.contentMatches m c = true)).

Lemma load_config_in_force held t faults dk cfg :
  named t → last_known_good_sound t → load_config held (boot t faults) = (dk, inr cfg) → in_force held t (dk_view dk) cfg.
Proof.
  intros Hn Hl Hrun.
  pose proof (sees_load_config t held Hn (boot t faults)) as Hspec.
  ospecialize (Hspec _); [eexists; by apply boot_at|]. rewrite Hrun in Hspec.
  destruct Hspec as (v' & c & Hcase & Hc & Hp & l & Hdk). rewrite (at_view _ _ _ _ _ _ _ Hdk).
  exists c. split; [done|]. split; [done|].
  destruct Hcase as [[-> ->]|(-> & v1 & Hr & Hck)]; [by split; [|left]|]. split.
  - intros id leaf. by rewrite (checked_same _ _ _ Hck), (recovered_same _ _ _ Hr).
  - right. split; [done|]. destruct (checked_in_force _ _ _ (recovered_settled _ _ _ Hl Hr) Hck)
      as [|(id & Ha & m & c' & Hm & Hi & Hc' & Hmt)]; [by left|right].
    exists id, m. rewrite Hc in Hc'. injection Hc' as ->. done.
Qed.
End loading.
