(* ===== verification/Progress.v ===== *)
(** * Progress of a working agent ([agent/internal/host], [agent/internal/app])

    When the armed agent probes a host, waits for confirmations or runs the
    shutdown command, it reports progress to the watchdog's goroutine: the
    checker of status.go after every probe, the executor of shutdown.go
    before, while and after the command runs.  This file gives the operations
    of [HostAdapters] the times at which they report, and the channel that
    carries the reports (runtime.go).  When each probe, each pause and each
    wake-up happens is the system's: the times are part of the input. *)

From S2P Require Import Prelude GoStrings PowerStateModel HostPlan ConfigModel ConfigValidate Orchestrator.
From S2P Require Import HostAdapters HostAdapterFacts Armed Watchdog.

Module progress.

(** ** The checker ([status.go]) *)

(** [StatusChecker.progress] at time [t]; [set]: the hook is not nil. *)
Definition progress (set : bool) (t : Time) : list Time := if set then [t] else [].

(** [Check] with its deferred report. *)
Definition timed_Check (set : bool) (net : ProbeNet) (ended : Time) (address : string) (cfg : StatusConfig)
  : list Time * result ProbeResult := (progress set ended, Check net address cfg).

Definition wait_interval (cfg : StatusConfig) : Duration :=
  let interval := duration_of (sc_ProbeIntervalSeconds cfg) Second in
  if (interval <=? 0)%Z then (5 * Second)%Z else interval.

(** A round with the times at which its probe and its pause end. *)
Record TimedRound : Type := mkTimed { tr_round : Round; tr_probed : Time; tr_resumed : Time }.

(** The loop of [WaitForConsecutive]: the reports, and the time and outcome
    of the return. *)
Fixpoint timed_rounds (set : bool) (address : string) (cfg : StatusConfig) (wantOnline : bool) (streak : Z)
    (rounds : list TimedRound) : list Time * option (Time * option error) :=
  match rounds with
  | [] => ([], None)
  | r :: rounds =>
      let '(report, res) := timed_Check set (rd_net (tr_round r)) (tr_probed r) address cfg in
      match res with
      | inl e => (report, Some (tr_probed r, Some e))
      | inr res =>
          let confirmed := pb_Known res && Bool.eqb (pb_Online res) wantOnline in
          let streak := if confirmed then (streak + 1)%Z else 0%Z in
          if confirmed && (needed cfg <=? streak)%Z then (report, Some (tr_probed r, None))
          else match rd_done (tr_round r) with
               | Some e => (report, Some (tr_resumed r, Some e))
               | None =>
                   let '(reports, ret) := timed_rounds set address cfg wantOnline streak rounds in
                   (report ++ reports, ret)
               end
      end
  end.

Definition timed_wait (set : bool) (address : string) (cfg : StatusConfig) (wantOnline : bool) (rounds : list TimedRound)
  : list Time * option (Time * option error) := timed_rounds set address cfg wantOnline 0 rounds.

(** The time [armedRecoveryChecker.Online] allows for it (armed.go). *)
Definition online_total (cfg : StatusConfig) : Duration :=
  wrap64 (wrap64 (needed cfg * probe_timeout cfg) + wrap64 (needed cfg * wait_interval cfg)).

(** ** The executor ([shutdown.go]) *)

Definition progress_interval (interval : Duration) : Duration := if (interval <=? 0)%Z then (5 * Second)%Z else interval.

(** What the [select] of [runWithProgress] receives. *)
Inductive CommandTurn : Type :=
  | Finished (t : Time) (out : string) (err : CommandErr)
  | Ticked (t : Time)
  | CtxOver (t : Time) (e : error).

Fixpoint command_loop (evs : list CommandTurn) : list Time * option (Time * (string * CommandErr)) :=
  match evs with
  | [] => ([], None)
  | Finished t out err :: _ => ([t], Some (t, (out, err)))
  | Ticked t :: evs => let '(reports, ret) := command_loop evs in (t :: reports, ret)
  | CtxOver t e :: _ => ([], Some (t, ("", CmdOther e)))
  end.

(** [runWithProgress] from time [now]; [direct]: how [Run] returns when there
    is no hook and it is called in place. *)
Definition runWithProgress (set : bool) (now : Time) (direct : Time * (string * CommandErr)) (evs : list CommandTurn)
  : list Time * option (Time * (string * CommandErr)) :=
  if set then let '(reports, ret) := command_loop evs in (now :: reports, ret) else ([], Some direct).

(** ** The channel ([runtime.go]) *)

(** [nonBlockingBeat] on a channel that holds [buffered] beats, of at most
    one. *)
Definition nonBlockingBeat (buffered : nat) : nat := if buffered <? 1 then S buffered else buffered.

(** A report of the agent, or a turn of the watchdog's goroutine. *)
Inductive Feed : Type := Sent (t : Time) | Got (ev : system.Turn).

Definition turn_time (ev : system.Turn) : Time :=
  match ev with system.Done t | system.Beat t _ | system.Tick t _ => t end.

Definition feed_time (ev : Feed) : Time := match ev with Sent t => t | Got ev => turn_time ev end.

(** What the goroutine receives: a beat only when the channel holds one, and
    never its end, for the agent does not close it; [None] is impossible. *)
Fixpoint received (buffered : nat) (evs : list Feed) : option (list system.Turn) :=
  match evs with
  | [] => Some []
  | Sent _ :: evs => received (nonBlockingBeat buffered) evs
  | Got (system.Beat t true) :: evs =>
      match buffered with O => None | S n => cons (system.Beat t true) <$> received n evs end
  | Got (system.Beat _ false) :: _ => None
  | Got ev :: evs => cons ev <$> received buffered evs
  end.

Definition sent_times (evs : list Feed) : list Time := omap (λ ev, match ev with Sent t => Some t | _ => None end) evs.

(** ** What an armed agent works through *)

Inductive Activity : Type :=
  | AProbe (address : string) (cfg : StatusConfig) (net : ProbeNet) (ended : Time)
  | AWait (address : string) (cfg : StatusConfig) (wantOnline : bool) (rounds : list TimedRound)
  | ACommand (evs : list CommandTurn).

(** The reports of one activity that begins at [now], and when it ends. *)
Definition activity (now : Time) (a : Activity) : list Time * option Time :=
  match a with
  | AProbe address cfg net ended => ((timed_Check true net ended address cfg).1, Some ended)
  | AWait address cfg want rounds => let '(reports, ret) := timed_wait true address cfg want rounds in (reports, fst <$> ret)
  | ACommand evs => let '(reports, ret) := runWithProgress true now (now, ("", CmdOk)) evs in (reports, fst <$> ret)
  end.

(** One after the other; a later one only starts when the one before it has
    ended. *)
Fixpoint activities (now : Time) (l : list Activity) : list Time :=
  match l with
  | [] => []
  | a :: l => let '(reports, ret) := activity now a in
              reports ++ match ret with Some t => activities t l | None => [] end
  end.
End progress.

Import progress.

(** ** The waits are those of [HostAdapters] *)

Lemma timed_rounds_outcome set address cfg want rounds : ∀ streak,
  snd <$> (timed_rounds set address cfg want streak rounds).2 = wait_rounds address cfg want streak (tr_round <$> rounds).
Proof.
  induction rounds as [|r rounds IH]; intros streak; simpl; [done|].
  destruct (Check _ _ _) as [e|res]; simpl; [done|]. case_match; simpl; [done|].
  destruct (rd_done (tr_round r)); simpl; [done|].
  rewrite <-IH. by destruct (timed_rounds _ _ _ _ _ rounds).
Qed.

Lemma timed_wait_outcome set address cfg want rounds :
  snd <$> (timed_wait set address cfg want rounds).2 = WaitForConsecutive address cfg want (tr_round <$> rounds).
Proof. apply timed_rounds_outcome. Qed.

(** With the hook set, a command that finishes is not distorted. *)
Lemma runWithProgress_result now direct ticks t out err evs :
  (runWithProgress true now direct ((Ticked <$> ticks) ++ Finished t out err :: evs)).2 = Some (t, (out, err)).
Proof.
  unfold runWithProgress.
  enough (H : (command_loop ((Ticked <$> ticks) ++ Finished t out err :: evs)).2 = Some (t, (out, err))).
  { destruct (command_loop _) as [reports ret]. exact H. }
  induction ticks as [|tick ticks IH]; [done|]. simpl in *. by destruct (command_loop _).
Qed.

(** ** Timing *)

(** Reports at most [gap] apart, the first at most [gap] after [last]. *)
Fixpoint regular (gap : Duration) (last : Time) (ts : list Time) : Prop :=
  match ts with
  | [] => True
  | t :: ts => (last ≤ t ≤ last + gap)%Z ∧ regular gap t ts
  end.

Fixpoint final (last : Time) (ts : list Time) : Time :=
  match ts with [] => last | t :: ts => final t ts end.

Lemma regular_app gap a b : ∀ last, regular gap last (a ++ b) ↔ regular gap last a ∧ regular gap (final last a) b.
Proof. induction a as [|t a IH]; intros last; simpl; [tauto|]. rewrite IH. tauto. Qed.

Lemma final_app a b : ∀ last, final last (a ++ b) = final (final last a) b.
Proof. induction a as [|t a IH]; intros last; simpl; [done|]. apply IH. Qed.

Lemma regular_final gap ts : (0 ≤ gap)%Z → ∀ last, regular gap last ts → (last ≤ final last ts)%Z.
Proof. intros Hg. induction ts as [|t ts IH]; intros last; simpl; [lia|]. intros [H1 H2%IH]. lia. Qed.

(** *** The channel *)

(** Times do not go back, and the goroutine takes a beat within [slack] of
    the first report that has filled the channel ([pending]). *)
Fixpoint prompt (slack : Duration) (now : Time) (pending : option Time) (evs : list Feed) : Prop :=
  match evs with
  | [] => True
  | ev :: evs =>
      (now ≤ feed_time ev)%Z ∧ (∀ p, pending = Some p → feed_time ev ≤ p + slack)%Z ∧
      prompt slack (feed_time ev)
        (match ev with
         | Sent t => Some (default t pending)
         | Got (system.Beat _ _) => None
         | Got _ => pending
         end) evs
  end.

(** Neither the context nor a failed notification ends the goroutine. *)
Definition undisturbed (ev : Feed) : Prop :=
  match ev with Got (system.Done _) | Got (system.Tick _ (Some _)) => False | _ => True end.

Lemma prompt_ordered slack evs : ∀ now pending, prompt slack now pending evs → Forall (λ ev, (now ≤ feed_time ev)%Z) evs.
Proof.
  induction evs as [|ev evs IH]; intros now pending; simpl; [constructor|]. intros (H1 & _ & H2%IH). constructor; [done|].
  eapply Forall_impl; [exact H2|]. simpl. lia.
Qed.

(** Nothing happens later than the next report is due. *)
Lemma next_event_due slack gap now pending last ev evs :
  prompt slack now pending (ev :: evs) → regular gap last (sent_times (ev :: evs)) →
  (feed_time ev ≤ final last (sent_times (ev :: evs)) + gap)%Z → (feed_time ev ≤ last + gap)%Z.
Proof.
  intros Hp Hr Hh. destruct (sent_times (ev :: evs)) as [|t ts] eqn:Hs; [exact Hh|]. destruct Hr as [Ht _].
  enough (feed_time ev ≤ t)%Z by lia. assert (Hin : Sent t ∈ ev :: evs).
  { assert (Ht' : t ∈ sent_times (ev :: evs)) by (rewrite Hs; left). apply list_elem_of_omap in Ht' as (x & Hx & Hm).
    destruct x; [by injection Hm as ->|done]. }
  apply elem_of_cons in Hin as [<-|Hin]; [simpl; lia|]. destruct Hp as (_ & _ & Hp).
  apply prompt_ordered in Hp. rewrite Forall_forall in Hp. by apply Hp in Hin.
Qed.

Definition channel_state (gap last now since : Time) (buffered : nat) (pending : option Time) : Prop :=
  (last ≤ now)%Z ∧
  match pending with
  | None => buffered = 0 ∧ (last ≤ since)%Z
  | Some p => buffered = 1 ∧ (p - since ≤ gap)%Z
  end.

(** [since]: the goroutine's last progress; [last]: the agent's last report. *)
Lemma fed_alive slack gap silence evs :
  (gap + slack ≤ silence)%Z → (0 ≤ slack)%Z → Forall undisturbed evs → ∀ now buffered pending since last turns,
  channel_state gap last now since buffered pending →
  prompt slack now pending evs → regular gap last (sent_times evs) →
  Forall (λ ev, (feed_time ev ≤ final last (sent_times evs) + gap)%Z) evs →
  received buffered evs = Some turns → alive silence since turns.
Proof.
  intros Hsil Hslack Hun. induction Hun as [|ev evs Hev Hun IH]; intros now buffered pending since last turns (Hnow & Hch) Hp Hr Hh Hrec.
  { simpl in Hrec. by injection Hrec as <-. }
  pose proof (next_event_due _ _ _ _ _ _ _ Hp Hr (Forall_inv Hh)) as Hdue. apply Forall_inv_tail in Hh.
  destruct Hp as (Hle & Hpend & Hp). destruct ev as [t|[t|t []|t [e|]]]; simpl in Hrec, Hev, Hle, Hdue; try done.
  - destruct Hr as [Ht Hr]. refine (IH t _ _ _ t _ _ Hp Hr Hh Hrec). split; [lia|].
    destruct pending as [p|]; destruct Hch as [-> Hch]; simpl; split; [done|done|done|lia].
  - destruct pending as [p|]; destruct Hch as [-> Hch]; [|done]. destruct (received 0 evs) as [rest|] eqn:Hrest; [|done].
    injection Hrec as <-. simpl. refine (IH t 0 None t last rest _ Hp Hr Hh Hrest). repeat split; [lia|lia].
  - destruct (received buffered evs) as [rest|] eqn:Hrest; [|done]. injection Hrec as <-. simpl. split.
    + destruct pending as [p|]; destruct Hch as [-> Hch]; [specialize (Hpend p eq_refl); simpl in Hpend|]; lia.
    + refine (IH t buffered pending since last rest _ Hp Hr Hh Hrest). split; [lia|done].
Qed.

(** *** The activities *)

(** [t] comes at most [limit] after [now], give or take the scheduler. *)
Definition on_time (slack : Duration) (now : Time) (limit : Duration) (t : Time) : Prop := (now ≤ t ≤ now + limit + slack)%Z.

(** A dial has the timeout of the configuration, the context of a ping one
    second more; the other methods answer at once. *)
Definition probe_limit (cfg : StatusConfig) : Duration :=
  if bool_decide (probe_method cfg = "tcp") then probe_timeout cfg
  else if bool_decide (probe_method cfg = "ping") then (probe_timeout cfg + Second)%Z else 0%Z.

Fixpoint rounds_on_time (slack : Duration) (cfg : StatusConfig) (now : Time) (rounds : list TimedRound) : Prop :=
  match rounds with
  | [] => True
  | r :: rounds =>
      on_time slack now (probe_limit cfg) (tr_probed r) ∧ on_time slack (tr_probed r) (wait_interval cfg) (tr_resumed r) ∧
      rounds_on_time slack cfg (tr_resumed r) rounds
  end.

(** The ticker, if nothing else, wakes the loop. *)
Fixpoint turns_on_time (slack : Duration) (last : Time) (evs : list CommandTurn) : Prop :=
  match evs with
  | [] => True
  | (Finished t _ _ | Ticked t | CtxOver t _) :: evs => on_time slack last (progress_interval 0) t ∧ turns_on_time slack t evs
  end.

Definition activity_on_time (slack : Duration) (now : Time) (a : Activity) : Prop :=
  match a with
  | AProbe _ cfg _ ended => on_time slack now (probe_limit cfg) ended
  | AWait _ cfg _ rounds => rounds_on_time slack cfg now rounds
  | ACommand evs => turns_on_time slack now evs
  end.

Fixpoint scheduled (slack : Duration) (now : Time) (l : list Activity) : Prop :=
  match l with
  | [] => True
  | a :: l => activity_on_time slack now a ∧
              match (activity now a).2 with Some t => scheduled slack t l | None => True end
  end.

(** What the configurations ask for: pauses up to [pause], probes up to
    [probe]. *)
Definition moderate (pause probe : Duration) (a : Activity) : Prop :=
  match a with
  | AProbe _ cfg _ _ => (probe_limit cfg ≤ probe)%Z
  | AWait _ cfg _ _ => (wait_interval cfg ≤ pause ∧ probe_limit cfg ≤ probe)%Z
  | ACommand _ => (progress_interval 0 ≤ pause)%Z
  end.

Section pace.
Context (slack pause probe : Duration) (slack_nonneg : (0 ≤ slack)%Z) (pause_nonneg : (0 ≤ pause)%Z) (probe_nonneg : (0 ≤ probe)%Z).

Definition longest_gap : Duration := (pause + probe + 2 * slack)%Z.

(** The reports of something that begins at [now] and ends at [ret]: they
    are regular, and it ends at most one pause after the last. *)
Definition paced (last : Time) (reports : list Time) (ret : option Time) : Prop :=
  regular longest_gap last reports ∧ ∀ t, ret = Some t → on_time slack (final last reports) pause t.

Lemma paced_app last reports more ret :
  regular longest_gap last reports → paced (final last reports) more ret → paced last (reports ++ more) ret.
Proof. intros Hr [Hm Hret]. unfold paced. by rewrite regular_app, final_app. Qed.

Lemma rounds_paced address cfg want rounds : (wait_interval cfg ≤ pause)%Z → (probe_limit cfg ≤ probe)%Z → ∀ streak now last,
  on_time slack last pause now → rounds_on_time slack cfg now rounds →
  let '(reports, ret) := timed_rounds true address cfg want streak rounds in paced last reports (fst <$> ret).
Proof.
  intros Hpause Hprobe.
  induction rounds as [|r rounds IH]; intros streak now last Hnow; simpl; [done|].
  intros (Hp & Hq & Hrest).
  assert (Hone : regular longest_gap last [tr_probed r]) by (unfold longest_gap, on_time in *; simpl; split; [lia|done]).
  assert (Hlast : ∀ t o, t = tr_probed r ∨ t = tr_resumed r → paced last [tr_probed r] (fst <$> Some (t, o : option error))).
  { intros t o Ht. split; [done|]. intros t' [= <-]. unfold on_time in *. simpl. lia. }
  destruct (Check _ _ _) as [e|res]; [apply Hlast; auto|].
  set (streak' := if pb_Known res && _ then (streak + 1)%Z else 0%Z). destruct (_ && (_ <=? _)%Z); [apply Hlast; auto|].
  destruct (rd_done (tr_round r)) as [e|]; [apply Hlast; auto|].
  specialize (IH streak' (tr_resumed r) (tr_probed r)).
  destruct (timed_rounds true address cfg want streak' rounds) as [reports ret].
  apply (paced_app last [tr_probed r] reports); [exact Hone|]. apply IH; [|done]. unfold on_time in *. lia.
Qed.

Lemma command_paced evs : (progress_interval 0 ≤ pause)%Z → ∀ last, turns_on_time slack last evs →
  let '(reports, ret) := command_loop evs in paced last reports (fst <$> ret).
Proof.
  intros Hpause. induction evs as [|ev evs IH]; intros last; simpl; [done|].
  destruct ev as [t out err|t|t e]; unfold on_time; intros [Ht Hevs].
  - unfold paced, longest_gap, on_time. simpl. split; [split; [lia|done]|]. intros t' [= <-]. lia.
  - specialize (IH t Hevs). destruct (command_loop evs) as [reports ret].
    apply (paced_app last [t] reports); [|done]. unfold longest_gap. simpl. split; [lia|done].
  - unfold paced, on_time. simpl. split; [done|]. intros t' [= <-]. lia.
Qed.

Lemma activity_paced a now last :
  moderate pause probe a → on_time slack last pause now → activity_on_time slack now a →
  let '(reports, ret) := activity now a in paced last reports ret.
Proof.
  intros Hm Hnow. destruct a as [address cfg net ended|address cfg want rounds|evs]; simpl in *.
  - unfold paced, longest_gap, on_time in *. simpl. intros Hended. split; [split; [lia|done]|]. intros t [= <-]. lia.
  - destruct Hm as [H1 H2]. intros Hr. pose proof (rounds_paced address cfg want rounds H1 H2 0 now last Hnow Hr) as Hpaced.
    unfold timed_wait. by destruct (timed_rounds _ _ _ _ _ _).
  - intros Hevs. pose proof (command_paced evs Hm now Hevs) as Hpaced. destruct (command_loop evs) as [reports ret].
    apply (paced_app last [now] reports); [|done]. unfold on_time, longest_gap in *. simpl. split; [lia|done].
Qed.

Lemma activities_regular l : Forall (moderate pause probe) l → ∀ now last,
  on_time slack last pause now → scheduled slack now l → regular longest_gap last (activities now l).
Proof.
  induction 1 as [|a l Ha Hl IH]; intros now last Hnow; simpl; [done|]. intros [Hat Hrest].
  pose proof (activity_paced a now last Ha Hnow Hat) as Hpaced. destruct (activity now a) as [reports ret].
  destruct Hpaced as [Hr Hret]. apply regular_app. split; [done|]. destruct ret as [t|]; [|done]. by apply IH; [apply Hret|].
Qed.
End pace.

(** C39: A working agent is not restarted.  While the armed agent works
    through any sequence of probes, waits for confirmations and shutdown
    commands, each within the limits of its configuration, it reports often
    enough, and the channel, which drops a report when it still holds one,
    loses none that matters: if the longest pause, the longest probe and
    three scheduling delays fit the silence the watchdog tolerates, every
    tick of its goroutine is answered with a notification. *)
Theorem working_agent_feeds_watchdog s slack pause probe start l evs turns :
  (0 ≤ slack)%Z → (0 ≤ pause)%Z → (0 ≤ probe)%Z →
  (pause + probe + 3 * slack ≤ system.wd_maxSilence s)%Z → (system.wd_maxSilence s < max_int64)%Z →
  Forall (moderate pause probe) l → scheduled slack start l →
  sent_times evs = activities start l →
  Forall (λ ev, (feed_time ev ≤ final start (activities start l) + longest_gap slack pause probe)%Z) evs →
  prompt slack start None evs → Forall undisturbed evs → received 0 evs = Some turns →
  (system.turns s (system.Running start) turns).2 = tick_times turns.
Proof.
  intros H1 H2 H3 Hsil Hmax Hl Hs Hsent Hh Hp Hu Hrec. apply alive_pings; [unfold min_int64; lia|].
  rewrite <-Hsent in Hh.
  refine (fed_alive slack (longest_gap slack pause probe) _ evs _ H1 Hu start 0 None start start turns _ Hp _ Hh Hrec).
  - unfold longest_gap. lia.
  - repeat split; lia.
  - rewrite Hsent. apply activities_regular; try done. unfold on_time. lia.
Qed.

(** ** The deadline of a recovery check *)

(** A host that is up: until the deadline each of its probes finds it online,
    within the timeout, and no pause is cut short. *)
Fixpoint answers (slack : Duration) (address : string) (cfg : StatusConfig) (deadline now : Time) (rounds : list TimedRound) : Prop :=
  match rounds with
  | [] => True
  | r :: rounds =>
      on_time slack now (probe_timeout cfg) (tr_probed r) ∧ on_time slack (tr_probed r) (wait_interval cfg) (tr_resumed r) ∧
      ((tr_probed r < deadline)%Z → Check (rd_net (tr_round r)) address cfg = inr (known true)) ∧
      ((tr_resumed r < deadline)%Z → rd_done (tr_round r) = None) ∧
      answers slack address cfg deadline (tr_resumed r) rounds
  end.

Definition per_round (slack : Duration) (cfg : StatusConfig) : Duration := (probe_timeout cfg + wait_interval cfg + 2 * slack)%Z.

Lemma wait_interval_pos cfg : (0 < wait_interval cfg)%Z.
Proof. unfold wait_interval. case_match; unfold Second in *; lia. Qed.

Lemma probe_timeout_pos cfg : (0 < probe_timeout cfg)%Z.
Proof. unfold probe_timeout. case_match; unfold Second in *; lia. Qed.

(** [streak] rounds have passed since [began]; [left] more are needed. *)
Lemma answered_in_time set slack address cfg began deadline rounds :
  (0 ≤ slack)%Z → (began + needed cfg * per_round slack cfg - wait_interval cfg < deadline)%Z → ∀ left streak now,
  left ≠ 0 → (streak + Z.of_nat left = needed cfg)%Z → left ≤ length rounds →
  (now ≤ began + streak * per_round slack cfg)%Z → answers slack address cfg deadline now rounds →
  ∃ t, (timed_rounds set address cfg true streak rounds).2 = Some (t, None) ∧ (t < deadline)%Z.
Proof.
  intros Hslack Hdl. pose proof (wait_interval_pos cfg) as Hi. pose proof (probe_timeout_pos cfg) as Ht.
  induction rounds as [|r rounds IH]; intros left streak now Hleft Hn Hlen Hnow; simpl in *; [lia|].
  unfold on_time. intros (Hp & Hq & Honline & Hpause & Hrest).
  assert (Hstep : ((streak + 1) * per_round slack cfg = streak * per_round slack cfg + per_round slack cfg)%Z) by lia.
  assert (Hround : per_round slack cfg = (probe_timeout cfg + wait_interval cfg + 2 * slack)%Z) by done.
  assert (Hle : ((streak + 1) * per_round slack cfg ≤ needed cfg * per_round slack cfg)%Z) by (apply Z.mul_le_mono_nonneg_r; lia).
  assert (Hd : (tr_probed r < deadline)%Z) by lia.
  rewrite Honline by done. simpl. destruct (Z.leb_spec (needed cfg) (streak + 1)); simpl; [by exists (tr_probed r)|].
  assert (Hle2 : ((streak + 2) * per_round slack cfg ≤ needed cfg * per_round slack cfg)%Z) by (apply Z.mul_le_mono_nonneg_r; lia).
  rewrite Hpause by lia. destruct (IH (left - 1) (streak + 1)%Z (tr_resumed r)) as (t & Hret & Htd); [lia..|done|].
  exists t. split; [|done]. by destruct (timed_rounds _ _ _ _ _ rounds).
Qed.

(** The deadline of a recovery check is long enough: a host that is up
    and answers every probe within its timeout is reported online, with one
    pause to spare for the scheduler's delays, so it is never sent another
    wake-up packet because the check was cut short. *)
Theorem recovery_check_sees_online_host hosts id h address slack began rounds ctxErr :
  hosts !! id = Some h → h_Address h = Some address →
  (0 ≤ slack)%Z → (2 * needed (h_Status h) * slack < wait_interval (h_Status h))%Z →
  (needed (h_Status h) * (probe_timeout (h_Status h) + wait_interval (h_Status h)) ≤ max_int64)%Z →
  (needed (h_Status h) ≤ Z.of_nat (length rounds))%Z →
  answers slack address (h_Status h) (began + online_total (h_Status h)) began rounds →
  ∃ t, (timed_wait true address (h_Status h) true rounds).2 = Some (t, None) ∧ (t < began + online_total (h_Status h))%Z ∧
    armedRecoveryChecker_Online hosts (λ _, tr_round <$> rounds) ctxErr id = inr true.
Proof.
  intros Hh Ha Hslack Hspare Hmax Hlen Hans. set (cfg := h_Status h) in *.
  pose proof (wait_interval_pos cfg) as Hi. pose proof (probe_timeout_pos cfg) as Ht. pose proof (needed_pos cfg) as Hn.
  assert (Htotal : online_total cfg = (needed cfg * (probe_timeout cfg + wait_interval cfg))%Z).
  { assert (0 ≤ needed cfg * probe_timeout cfg)%Z by nia. assert (0 ≤ needed cfg * wait_interval cfg)%Z by nia.
    rewrite Z.mul_add_distr_l in *. unfold online_total.
    rewrite (wrap64_id (_ * probe_timeout cfg)), (wrap64_id (_ * wait_interval cfg)), wrap64_id; unfold int64_range, min_int64; lia. }
  destruct (answered_in_time true slack address cfg began (began + online_total cfg) rounds) with (left := Z.to_nat (needed cfg))
    (streak := 0%Z) (now := began) as (t & Hret & Hdl); [done| |lia..|done|].
  { rewrite Htotal. unfold per_round. nia. }
  exists t. split_and!; [done|done|]. unfold armedRecoveryChecker_Online. rewrite Hh. simpl. rewrite Ha. simpl.
  rewrite <-(timed_wait_outcome true). unfold timed_wait. fold cfg. rewrite Hret. done.
Qed.
