(* ===== verification/ProgressExample.v ===== *)
(** * A working agent, concretely

    A shutdown of one host with the default settings, its reports and the
    watchdog that hears them; the same wait with a probe every minute, which
    the watchdog does not survive; and the check of a host that has come
    back. *)

From S2P Require Import Prelude GoStrings PowerStateModel HostPlan ConfigModel ConfigValidate ConfigExample.
From S2P Require Import Orchestrator HostAdapters OrchestratorExample ArmedExample Armed Watchdog Progress.
Import progress.

Definition seconds (n : Z) : Time := (n * Second)%Z.

Definition up : ProbeNet := mkProbeNet (λ _, None) (λ _ _, CmdOk) None false.
Definition down : ProbeNet := mkProbeNet (λ _, Some (Errorf "refused")) (λ _ _, CmdExit (Errorf "exit status 1")) None false.

Definition pinged (interval : Z) : StatusConfig := mkStatusConfig "ping" None 1000 3 interval.

(** A round whose probe ends at [t] and whose pause lasts until [u]. *)
Definition round_at (net : ProbeNet) (t u : Z) : TimedRound := mkTimed (mkRound net None) (seconds t) (seconds u).

(** ** A shutdown with the defaults *)

(** The host is up; its shutdown command takes seven seconds; then three
    probes find it down. *)
Definition shutting_down : list Activity :=
  [AProbe "10.0.0.7" (pinged 5) up (seconds 1);
   ACommand [Ticked (seconds 6); Finished (seconds 8) "" CmdOk];
   AWait "10.0.0.7" (pinged 5) false [round_at down 10 15; round_at down 17 22; round_at down 24 29]].

Definition heard : list Feed :=
  [Sent (seconds 1); Got (system.Beat (seconds 1) true); Sent (seconds 1); Got (system.Beat (seconds 1) true);
   Sent (seconds 6); Got (system.Beat (seconds 6) true); Sent (seconds 8); Got (system.Beat (seconds 8) true);
   Sent (seconds 10); Got (system.Beat (seconds 10) true); Got (system.Tick (seconds 15) None);
   Sent (seconds 17); Got (system.Beat (seconds 17) true); Sent (seconds 24); Got (system.Beat (seconds 24) true);
   Got (system.Tick (seconds 30) None)].

Definition heard_turns : list system.Turn := default [] (received 0 heard).

Definition packaged : system.Settings := system.mkSettings (seconds 20) (seconds 15).

Example reports_of_shutdown : activities 0 shutting_down = seconds <$> [1; 1; 6; 8; 10; 17; 24]%Z.
Proof. vm_compute. reflexivity. Qed.

Lemma working_agent_feeds_watchdog_witness : (system.turns packaged (system.Running 0) heard_turns).2 = tick_times heard_turns.
Proof.
  apply (working_agent_feeds_watchdog packaged Second (seconds 5) (seconds 2) 0 shutting_down heard heard_turns).
  1-5: by vm_compute.
  - repeat (constructor; [repeat split; by vm_compute|]). constructor.
  - repeat split; by vm_compute.
  - vm_compute. reflexivity.
  - repeat (constructor; [by vm_compute|]). constructor.
  - repeat split; first [intros p [= <-]; by vm_compute | by vm_compute].
  - repeat (constructor; [exact I|]). constructor.
  - vm_compute. reflexivity.
Defined.

(** Two reports before the goroutine runs: the second is dropped. *)
Example second_report_dropped :
  received 0 [Sent (seconds 1); Sent (seconds 2); Got (system.Beat (seconds 2) true); Got (system.Tick (seconds 3) None)]
  = Some [system.Beat (seconds 2) true; system.Tick (seconds 3) None] ∧
  received 0 [Sent (seconds 1); Sent (seconds 2); Got (system.Beat (seconds 2) true); Got (system.Beat (seconds 2) true)] = None.
Proof. done. Qed.

(** ** A probe every minute *)

Definition slow : ConfigModel.Config :=
  applyDefaults (ConfigModel.mkConfig (cf_ConfigVersion solo) (cf_Mode solo) (cf_NUT solo) (cf_Outage solo) (cf_Controller solo) (cf_Recovery solo)
    (cf_Health solo) (cf_Dependencies solo)
    [mkHostConfig (h_ID alone) (h_Name alone) (h_Address alone) (h_DependsOn alone) (pinged 60)
       (h_Shutdown alone) (h_Wake alone) (h_RestorePolicy alone)]).

(** Validation accepts a probe every minute; with the packaged watchdog of 30
    seconds and the tolerated silence of 20, the goroutine then says nothing
    from the 15th to the 60th second, and systemd kills the agent in the
    middle of the shutdown. *)
Example slow_probes_starve_watchdog :
  let reports := (timed_wait true "10.0.0.7" (pinged 60) false [round_at up 1 61; round_at down 62 122]).1 in
  Validate slow = None ∧ reports = seconds <$> [1; 62]%Z ∧
  system.StartWatchdog "30000000" "" 1 (20 * Second) = inr (Some packaged) ∧
  (system.turns packaged (system.Running 0)
     [system.Beat (seconds 1) true; system.Tick (seconds 15) None; system.Tick (seconds 30) None; system.Tick (seconds 45) None;
      system.Tick (seconds 60) None; system.Beat (seconds 62) true; system.Tick (seconds 75) None]).2 = [seconds 15; seconds 75].
Proof. vm_compute. done. Qed.

(** ** A host that has come back *)

Definition back : HostConfig :=
  mkHostConfig "nas" "nas" (Some "10.0.0.9") [] (pinged 5) (h_Shutdown alone) (h_Wake alone) (h_RestorePolicy alone).

Definition back_rounds : list TimedRound := [round_at up 1 6; round_at up 7 12; round_at up 13 18].

Lemma recovery_check_sees_online_host_witness :
  ∃ t, (timed_wait true "10.0.0.9" (pinged 5) true back_rounds).2 = Some (t, None) ∧ (t < 0 + online_total (pinged 5))%Z ∧
    armedRecoveryChecker_Online {[ "nas" := back ]} (λ _, tr_round <$> back_rounds) None "nas" = inr true.
Proof.
  apply (recovery_check_sees_online_host {[ "nas" := back ]} "nas" back "10.0.0.9" Millisecond 0 back_rounds None).
  1-6: by vm_compute.
  repeat split; first [by vm_compute | intros _; vm_compute; reflexivity].
Defined.
