(* ===== verification/AgentExample.v ===== *)
(** * An agent, concretely

    The start of an agent on a history whose activation was interrupted, and
    the loop of an armed agent through a power failure, woken by its health
    and power tickers and by the end of the IPC server and of the watchdog's
    channel. *)

From S2P Require Import Prelude StableSort GoStrings PowerStateModel Nut ConfigModel ConfigValidate ConfigExample Policy Store.
From S2P Require Import Coordinator Orchestrator HostAdapters Health HealthExample Armed ArmedFacts OrchestratorExample ArmedExample.
From S2P Require Import Disk DiskFacts Revision RevisionFacts RevisionStartup RevisionExample Agent AgentFacts Watchdog.
Import app.

(** ** The start *)

#[local] Existing Instance toy_codec.
#[local] Existing Instance toy_codec_laws.
#[local] Existing Instance toy_order.

Abbreviation loading := (load_config false (boot interrupted_tree [])).

(** The new file was in place when the power failed; the old one is read. *)
Example loads_the_old_file :
  loading.2 = inr (applyDefaults home) ∧ t_read interrupted_tree ActiveConfig = Some "home 2" ∧ t_read (dk_view loading.1) ActiveConfig = Some "home 1".
Proof. vm_compute. done. Qed.

(** ** The armed loop *)

#[local] Existing Instance vouching_codec.

(** The UPS answers every query of the supervisor. *)
Definition query (_ : health.Log) : result Status := inr (status UtilityOnline false).

Definition agent_supervisor : health.Supervisor :=
  health.mkSupervisor (armed_checks query solo ∅) ∅
    "/var/lib/cockpit-ups-wol/health.json" 2 0 0 (λ _, at_s 950).

Definition unwritten : health.World := health.mkWorld (mkFS (mkDir None None) [] None [] []) [].

(** A reading with the health of the loop. *)
Definition reading (n : Z) (u : UtilityState) (low : bool) (snap : health.Snapshot) : Sample :=
  let s := ArmedExample.read n u low None in mkSample (sm_query s) (sm_now s) snap (sm_file s) (sm_dependency s) (sm_FSD s).

Definition entered : Loop + option error :=
  runArmed_enter (λ _, at_s 950) agent_supervisor solo ArmedExample.outside options solo None None (reading 1000 UtilityOnline false)
    (mkArmed (ar_controller begun) ∅ zeroTracker [] []) unwritten.

Definition wakeups : list Wakeup :=
  [PowerTick (reading 1005 UtilityOnBattery false); ServerEnded None false; HealthTick; WatchdogFailed None;
   PowerTick (reading 1010 UtilityOnBattery true); WatchdogClosed; ServerEnded (Some (Errorf "closed")) false;
   PowerTick (reading 1016 UtilityOnBattery true)].

Definition loop_of (r : Loop + option error) : option (Loop (W := Memory)) := match r with inl l => Some l | inr _ => None end.

Definition final : Loop + option error :=
  match entered with
  | inl l => runArmed_loop (λ _, at_s 950) agent_supervisor solo ArmedExample.outside options solo wakeups l
  | inr e => inr e
  end.

(** The shutdown was carried out and that of the controller requested, once;
    the late error of the IPC server is not received any more. *)
Example controller_goes_down :
  (λ l, (lp_channels l, st_PowerState (w_State (ar_controller (lp_armed l))), length (ar_requests (lp_armed l)))) <$> loop_of final
  = Some (mkChannels false false, WaitingForAC, 1).
Proof. vm_compute. reflexivity. Qed.

Definition stopped : Loop := match final with inl l => l | inr _ => mkLoop begun unwritten health.zeroSnapshot open_channels end.
Definition started : Loop := match entered with inl l => l | inr _ => stopped end.

Lemma armed_loop_is_process_witness :
  ∃ ss, armed_run ArmedExample.outside options solo solo (ar_controller begun) ss (lp_armed stopped) ∧
    ∀ tick, tick ∈ ss → from_supervisor (λ _, at_s 950) agent_supervisor (sm_health tick) ∧
      (criticalAgentHealthSafe (sm_health tick) = true → ∃ hl st, query hl = inr st ∧ us_Utility st ≠ UtilityUnknown).
Proof.
  apply (armed_loop_is_process (λ _, at_s 950) agent_supervisor solo solo ArmedExample.outside options (ar_controller begun)
           query ∅ None None (reading 1000 UtilityOnline false) wakeups unwritten started stopped).
  - discriminate.
  - reflexivity.
  - intros snap. vm_compute. done.
  - repeat (constructor; [first [exact I | intros snap; vm_compute; done]|]). constructor.
  - vm_compute. reflexivity.
  - vm_compute. reflexivity.
Defined.
