(* ===== verification/GoFlag.v ===== *)
(** * Command line flags (Go's [flag])

    The part of the standard library's parser that the programs under cmd/
    use: a set of string, boolean, integer and repeatable flags, parsed from
    the left up to the first argument that is not a flag.  What a parse error
    or a request for help prints is left out. *)

From Stdlib Require Import Ascii.
From S2P Require Import Prelude GoStrings.

Module flag.

Inductive Kind : Type := StringFlag | BoolFlag | IntFlag | VarFlag.

(** The defined flags. *)
Definition FlagSet : Type := list (string * Kind).

Fixpoint lookup_flag (fs : FlagSet) (name : string) : option Kind :=
  match fs with
  | [] => None
  | (n, k) :: fs => if bool_decide (n = name) then Some k else lookup_flag fs name
  end.

(** [strconv.ParseBool] *)
Definition ParseBool (s : string) : option bool :=
  if bool_decide (s ∈ ["1"; "t"; "T"; "true"; "TRUE"; "True"]) then Some true
  else if bool_decide (s ∈ ["0"; "f"; "F"; "false"; "FALSE"; "False"]) then Some false
  else None.

(** Split at the first '=' that is not the first character. *)
Fixpoint split_value (s : string) : string * option string :=
  match s with
  | EmptyString => (EmptyString, None)
  | String.String c rest =>
      if Ascii.eqb c "=" then (EmptyString, Some rest)
      else let '(name, value) := split_value rest in (String.String c name, value)
  end.

(** What an argument is. *)
Inductive Token : Type :=
  | Operand                                       (* parsing stops before it *)
  | Terminator                                    (* "--": parsing stops after it *)
  | BadSyntax
  | Named (name : string) (value : option string).

Definition named_token (s : string) : Token :=
  match s with
  | EmptyString => BadSyntax
  | String.String c _ =>
      if Ascii.eqb c "-" || Ascii.eqb c "=" then BadSyntax
      else let '(name, value) := split_value s in Named name value
  end.

Definition token (s : string) : Token :=
  match s with
  | String.String c1 ((String.String c2 rest2) as rest1) =>
      if negb (Ascii.eqb c1 "-") then Operand
      else if negb (Ascii.eqb c2 "-") then named_token rest1
      else match rest2 with EmptyString => Terminator | _ => named_token rest2 end
  | _ => Operand
  end.

(** *** [strconv.ParseInt] with base 0 *)

Definition underscore : ascii := "_"%char.

(** The base its prefix gives a number, and its digits. *)
Definition base_prefix (s : list ascii) : Z * list ascii :=
  match s with
  | "0"%char :: c :: ((_ :: _) as rest) =>
      if Ascii.eqb (lower c) "b" then (2%Z, rest)
      else if Ascii.eqb (lower c) "o" then (8%Z, rest)
      else if Ascii.eqb (lower c) "x" then (16%Z, rest)
      else (8%Z, c :: rest)
  | "0"%char :: rest => (8%Z, rest)
  | _ => (10%Z, s)
  end.

Definition letter_val (c : ascii) : option Z :=
  if is_digit c then Some (digit_val c)
  else let n := nat_of_ascii (lower c) in
       if (97 <=? n) && (n <=? 122) then Some (Z.of_nat n - 97 + 10)%Z else None.

(** Digits of a base, underscores skipped. *)
Fixpoint digits_in (base acc : Z) (s : list ascii) : option Z :=
  match s with
  | [] => Some acc
  | c :: s =>
      if Ascii.eqb c underscore then digits_in base acc s
      else match letter_val c with
           | Some d => if (base <=? d)%Z then None else digits_in base (acc * base + d)%Z s
           | None => None
           end
  end.

(** [strconv.ParseUint(s, 0, 64)], which does not bound its result here. *)
Definition ParseUint0 (s : list ascii) : option Z :=
  match s with
  | [] => None
  | _ =>
      let '(base, digits) := base_prefix s in
      match digits_in base 0 digits with
      | Some n => if bool_decide (underscore ∈ s) && negb (underscoreOK s) then None else Some n
      | None => None
      end
  end.

(** [strconv.ParseInt(s, 0, 64)]; the errors of syntax and range are one. *)
Definition ParseInt0 (s : string) : option Z :=
  let l := String.list_ascii_of_string s in
  let '(neg, l) := split_sign l in
  match ParseUint0 l with
  | Some n =>
      let v := if neg : bool then (- n)%Z else n in
      if (min_int64 <=? v)%Z && (v <=? max_int64)%Z then Some v else None
  | None => None
  end.

Example octal : ParseInt0 "017" = Some 15%Z ∧ ParseInt0 "0" = Some 0%Z ∧ ParseInt0 "08" = None.
Proof. vm_compute. done. Qed.
Example separated : ParseInt0 "-0x_F_f" = Some (-255)%Z ∧ ParseInt0 "1__0" = None ∧ ParseInt0 "1_000" = Some 1000%Z ∧ ParseInt0 "_1" = None.
Proof. vm_compute. done. Qed.
Example out_of_range : ParseInt0 "9223372036854775808" = None ∧ ParseInt0 "-9223372036854775808" = Some min_int64.
Proof. vm_compute. done. Qed.

(** *** Parsing *)

(** [ErrHelp], or another error. *)
Inductive ParseErr : Type := Help | Bad.

Definition Parsed : Type := (ParseErr + list (string * string) * list string)%type.

Definition assign (name value : string) (r : Parsed) : Parsed :=
  match r with inl e => inl e | inr (sets, rest) => inr ((name, value) :: sets, rest) end.

(** Does the flag take this text? *)
Definition accepts (k : Kind) (v : string) : bool :=
  match k with
  | IntFlag => bool_decide (is_Some (ParseInt0 v))
  | BoolFlag => bool_decide (is_Some (ParseBool v))
  | StringFlag | VarFlag => true
  end.

Definition canonical (k : Kind) (v : string) : string :=
  match k with
  | BoolFlag => match ParseBool v with Some true => "true" | _ => "false" end
  | _ => v
  end.

(** The assignments in order, and the remaining arguments. *)
Fixpoint Parse (fs : FlagSet) (args : list string) : Parsed :=
  match args with
  | [] => inr ([], [])
  | s :: args =>
      match token s with
      | Operand => inr ([], s :: args)
      | Terminator => inr ([], args)
      | BadSyntax => inl Bad
      | Named name value =>
          match lookup_flag fs name, value with
          | None, _ => inl (if bool_decide (name = "help") || bool_decide (name = "h") then Help else Bad)
          | Some BoolFlag, None => assign name "true" (Parse fs args)
          | Some k, Some v => if accepts k v then assign name (canonical k v) (Parse fs args) else inl Bad
          | Some k, None =>
              match args with
              | [] => inl Bad
              | v :: args => if accepts k v then assign name (canonical k v) (Parse fs args) else inl Bad
              end
          end
      end
  end.

(** The value of a flag: the last assignment counts. *)
Fixpoint value_of (sets : list (string * string)) (name dflt : string) : string :=
  match sets with
  | [] => dflt
  | (n, v) :: sets => value_of sets name (if bool_decide (n = name) then v else dflt)
  end.

(** An integer flag, and all the values of a repeatable one. *)
Definition int_of (sets : list (string * string)) (name : string) (dflt : Z) : Z :=
  default dflt (ParseInt0 (value_of sets name "")).

Definition values_of (sets : list (string * string)) (name : string) : list string :=
  omap (λ '(n, v), if bool_decide (n = name) then Some v else None) sets.

(** [ExitOnError]: how the program ends when parsing fails. *)
Definition exit_on (e : ParseErr) : Z := match e with Help => 0 | Bad => 2 end.
End flag.

