(* ===== verification/Ctl.v ===== *)
(** * The control program ([agent/cmd/cockpit-ups-wolctl])

    main.go: the commands of cockpit-ups-wolctl.  A command is a program on
    the configuration history; what it meets of the system, its standard
    input, the agent's socket, systemd-run and the journal, is an argument,
    and so are the bounds of the two loops it can get into.  The deadlines of
    its contexts show as errors of the pauses and calls they cut short.  The
    files that the flags -config and -history-dir name are those of the
    history.  The usage text is left out. *)

From S2P Require Import Prelude GoStrings GoFlag PowerStateModel Store ConfigModel ConfigValidate HostAdapters Health.
From S2P Require Import Disk Revision SystemHealth Report Ipc Control.

Module ctl.

Import report.

Abbreviation Exit := systemd.Exit.
Abbreviation mkExit := systemd.mkExit.

Definition maxCandidateBytes : Z := Z.shiftl 2 20.

(** ** The system *)

(** What can be read from standard input, and how that ends. *)
Record Stdin : Type := mkStdin { si_bytes : string; si_err : option error }.

Record System `{ipc.IpcCodec} : Type := mkSystem {
  sy_euid : Z;
  sy_stdin : Stdin;
  sy_local : Local;
  sy_executable : result string;
  sy_call : string → ipc.Request → result (ipc.Response ipc.any);
  sy_journal : string * option error;
  sy_spawn : string → list string → revision.M (string * option error);   (* exec.Command, run to its end *)
  sy_now : revision.Log → Time;
  sy_sleep : revision.Log → Duration → option error;
  sy_service : revision.Log → control.Outside;
}.

(** ** What is printed *)

Inductive Output `{ipc.IpcCodec} : Type :=
  | OResponse (resp : ipc.Response ipc.any)
  | OValid (valid : bool) (plan : Plan)
  | OStatus (status : ConfigStatus)
  | OManifest (manifest : revision.Manifest)
  | OPlan (plan : Plan).

(** How a command that got through ends. *)
Inductive Done `{ipc.IpcCodec} : Type :=
  | Raw (text : string)
  | JSON (o : Output) (status : Z)
  | Quit (ex : Exit).

Class PrintCodec `{ipc.IpcCodec} : Type := {
  version_text : string;      (* json.Marshal of version.Current, which the build sets *)
  output_MarshalIndent : Output → result string;
}.

Definition fatal (err : error) : Exit := mkExit 1 "" ("cockpit-ups-wolctl: " +:+ err_msg err +:+ revision.newline_text).

(** ** The flags *)

Definition flags : flag.FlagSet :=
  [("version", flag.BoolFlag); ("socket", flag.StringFlag); ("config", flag.StringFlag); ("history-dir", flag.StringFlag)].

Record Flags : Type := mkFlags { fl_version : bool; fl_socket : string; fl_config : string; fl_history_dir : string }.

Definition flags_of (sets : list (string * string)) : Flags :=
  mkFlags (bool_decide (flag.value_of sets "version" "false" = "true"))
    (flag.value_of sets "socket" "/run/cockpit-ups-wol/agent.sock")
    (flag.value_of sets "config" "/etc/cockpit-ups-wol/config.yaml")
    (flag.value_of sets "history-dir" "/var/lib/cockpit-ups-wol/config-history").

Section program.
Context `{ipc.IpcCodec, health.SnapshotCodec, revision.RevisionCodec, LeafOrder, PrintCodec}.
Context (probations polls : nat).
Context (sys : System).

Definition printJSON (o : Output) (status : Z) : Exit :=
  match output_MarshalIndent o with
  | inl e => fatal e
  | inr b => mkExit status (b +:+ revision.newline_text) ""
  end.

(** [manager] of [main] *)
Definition manager : revision.Manager := revision.mkManager 0 0 0 (sy_now sys) (sy_sleep sys).

Definition runtime (fl : Flags) : option revision.Runtime :=
  Some (control.service_runtime polls (control.mkServiceRuntime (fl_socket fl) "" 0) (sy_service sys)).

Definition readCandidate (r : Stdin) : result string :=
  let '(content, err) := ipc.limited (maxCandidateBytes + 1) (si_bytes r, si_err r) in
  match err with
  | Some e => inl (Wrapf "read candidate config: " e "")
  | None =>
      if (String.length content =? 0)%nat then inl (Errorf "candidate config is empty")
      else if (maxCandidateBytes <? Z.of_nat (String.length content))%Z
      then inl (Errorf ("candidate config exceeds " +:+ pretty maxCandidateBytes +:+ " bytes"))
      else inr content
  end.

(** What config-validate and config-apply do first; [None] is a panic of
    [ValidateArmedCapabilities]. *)
Definition candidate : option (result (string * Config)) :=
  match readCandidate (sy_stdin sys) with
  | inl e => Some (inl e)
  | inr content =>
      match revision.Parse content with
      | inl e => Some (inl e)
      | inr cfg =>
          capable ← (if bool_decide (cf_Mode cfg = "armed") then ValidateArmedCapabilities (sy_local sys) cfg else Some None);
          Some match capable with Some e => inl e | None => inr (content, cfg) end
      end
  end.

Definition requireRoot (command : string) : revision.M unit :=
  if negb (sy_euid sys =? 0)%Z then throw (Errorf (command +:+ " requires root privileges")) else mret ().

(** A panic ends a program with status 2. *)
Definition panicked : Done := Quit (mkExit 2 "" "panic").

Definition systemd_run_args (fl : Flags) (exe revisionID : string) : list string :=
  ["--quiet"; "--wait"; "--collect"; "--unit=" +:+ "cockpit-ups-wol-config-" +:+ revisionID; exe;
   "--socket"; fl_socket fl; "--config"; fl_config fl; "--history-dir"; fl_history_dir fl; "config-activate"; revisionID].

Definition activateViaSystemd (fl : Flags) (revisionID : string) : revision.M unit :=
  exe ← wrap_err "resolve control executable: " (revision.lift (sy_executable sys));
  '(out, err) ← sy_spawn sys "systemd-run" (systemd_run_args fl exe revisionID);
  match err with
  | Some e => throw (Wrapf "transactional config activation failed: " e (": " +:+ out))
  | None => mret ()
  end.

(** ** The commands *)

Definition health (fl : Flags) : revision.M Done :=
  resp ← revision.lift (sy_call sys (fl_socket fl) (ipc.mkRequest "cli-health" "GetHealth" "{}"));
  mret (JSON (OResponse resp) (if ipc.rp_OK resp then 0 else 1)).

Definition config_get : revision.M Done :=
  r ← read_file ActiveConfig;
  content ← revision.lift r;
  mret (Raw content).

Definition config_validate : revision.M Done :=
  match candidate with
  | None => mret panicked
  | Some r => '(_, cfg) ← revision.lift r; mret (JSON (OValid true (BuildPlan cfg)) 0)
  end.

Definition config_status : revision.M Done :=
  status ← ReadConfigStatus;
  mret (JSON (OStatus status) 0).

Definition config_apply (fl : Flags) : revision.M Done :=
  _ ← requireRoot "config-apply";
  match candidate with
  | None => mret panicked
  | Some r =>
      '(content, _) ← revision.lift r;
      manifest ← revision.Begin manager "cockpit" content;
      _ ← activateViaSystemd fl (revision.mf_RevisionID manifest);
      config_status
  end.

(** The argument of the two commands that take one. *)
Definition revision_argument (command : string) (args : list string) : revision.M string :=
  match args with
  | [revisionID] =>
      _ ← revision.throw_opt (revision.ValidateRevisionID revisionID);
      mret revisionID
  | _ => throw (Errorf (command +:+ " requires exactly one revision id"))
  end.

Definition config_activate (fl : Flags) (args : list string) : revision.M Done :=
  _ ← requireRoot "config-activate";
  revisionID ← revision_argument "config-activate" args;
  manifest ← revision.ActivateAndValidate probations manager revisionID (runtime fl);
  mret (JSON (OManifest manifest) 0).

Definition config_rollback (fl : Flags) (args : list string) : revision.M Done :=
  _ ← requireRoot "config-rollback";
  revisionID ← revision_argument "config-rollback" args;
  _ ← revision.Rollback revisionID (runtime fl);
  config_status.

Definition plan : revision.M Done :=
  r ← read_file ActiveConfig;
  content ← revision.lift r;
  cfg ← revision.lift (revision.Parse content);
  mret (JSON (OPlan (BuildPlan cfg)) 0).

Definition logs : revision.M Done :=
  let '(out, err) := sy_journal sys in
  mret match err with
       | Some e => Quit (mkExit 1 "" ("cockpit-ups-wolctl: " +:+ err_msg e +:+ revision.newline_text +:+ out))
       | None => Raw out
       end.

Definition config_bootstrap : revision.M Done :=
  r ← read_file ActiveConfig;
  content ← revision.lift r;
  manifest ← revision.BootstrapKnownGood manager "installer" content;
  mret (JSON (OManifest manifest) 0).

(** [switch fs.Arg(0)] *)
Definition command (fl : Flags) (name : string) (args : list string) : revision.M Done :=
  if bool_decide (name = "health") then health fl
  else if bool_decide (name = "config-get") then config_get
  else if bool_decide (name = "config-validate") then config_validate
  else if bool_decide (name = "config-apply") then config_apply fl
  else if bool_decide (name = "config-activate") then config_activate fl args
  else if bool_decide (name = "config-status") then config_status
  else if bool_decide (name = "config-rollback") then config_rollback fl args
  else if bool_decide (name = "plan") then plan
  else if bool_decide (name = "logs") then logs
  else if bool_decide (name = "config-bootstrap") then config_bootstrap
  else mret (Quit (mkExit 2 "" ("cockpit-ups-wolctl: unknown command " +:+ Quote name +:+ revision.newline_text))).

Definition exit_of (r : result Done) : Exit :=
  match r with
  | inl e => fatal e
  | inr (Raw text) => mkExit 0 text ""
  | inr (JSON o status) => printJSON o status
  | inr (Quit ex) => ex
  end.

(** [args]: what follows the program's name. *)
Definition main (args : list string) : revision.M Exit :=
  match flag.Parse flags args with
  | inl _ => mret (mkExit 2 "" "")
  | inr (sets, args) =>
      let fl := flags_of sets in
      if fl_version fl then mret (mkExit 0 (version_text +:+ revision.newline_text) "")
      else match args with
           | [] => mret (mkExit 2 "" "")
           | name :: args => r ← attempt (command fl name args); mret (exit_of r)
           end
  end.
End program.
End ctl.
