(* ===== verification/CtlFacts.v ===== *)
(** * What the control program guarantees

    Who may change the configuration, and with what; and what becomes of a
    configuration that is applied, through the transient unit that activates
    it. *)

From S2P Require Import Prelude StableSort GoStrings GoFlag PowerStateModel Store ConfigModel ConfigValidate HostAdapters Health.
From S2P Require Import Disk DiskFacts Revision RevisionFacts RevisionStartup RevisionCrash RevisionRuns RevisionNames RevisionHistory.
From S2P Require Import SystemHealth Report ReportFacts Ipc Control Ctl.

Import report ctl.

(** ** Programs that change no file *)

Section frozen.
Context `{revision.RevisionCodecLaws encodable, LeafOrder}.
Implicit Types t : Tree.

Definition frozen {A} t (m : revision.M A) : Prop := spec (sees false t) m (λ _, sees false t) (sees false t).

Lemma frozen_ret {A} t (a : A) : frozen t (mret a).
Proof. by apply spec_now. Qed.
Lemma frozen_throw {A} t e : frozen t (throw e : revision.M A).
Proof. by apply spec_throw. Qed.
Lemma frozen_bind {A B} t (m : revision.M A) (f : A → revision.M B) :
  frozen t m → (∀ a, frozen t (f a)) → frozen t (m ≫= f).
Proof. intros Hm Hf. by eapply spec_bind. Qed.
Lemma frozen_lift {A} t (r : result A) : frozen t (revision.lift r).
Proof. destruct r; [apply frozen_throw|apply frozen_ret]. Qed.
Lemma frozen_throw_opt t e : frozen t (revision.throw_opt e).
Proof. destruct e; [apply frozen_throw|apply frozen_ret]. Qed.
Lemma frozen_wrap_err {A} t prefix (m : revision.M A) : frozen t m → frozen t (wrap_err prefix m).
Proof. apply wrap_err_spec. Qed.
Lemma frozen_read_file t p : frozen t (read_file p).
Proof. eapply spec_conseq; [apply sees_read_file|done| |done]. by intros r dk [_ ?]. Qed.
Lemma frozen_readPointer t name : frozen t (revision.readPointer name).
Proof. eapply spec_conseq; [apply sees_readPointer|done| |]; [intros r dk|intros dk]; by intros [_ ?]. Qed.
Lemma frozen_readManifest t id : frozen t (revision.readManifest id).
Proof. eapply spec_conseq; [apply sees_readManifest|done| |]; [intros r dk|intros dk]; by intros [_ ?]. Qed.
Lemma frozen_KnownGoodRevisions t : frozen t revision.KnownGoodRevisions.
Proof. eapply spec_conseq; [apply sees_KnownGoodRevisions|done| |]; [intros r dk (_ & _ & ?)|intros dk [_ ?]]; done. Qed.

Lemma frozen_view {A} t (m : revision.M A) faults : frozen t m → dk_view (m (boot t faults)).1 = t.
Proof.
  intros Hm. specialize (Hm (boot t faults)). ospecialize (Hm _); [eexists; by apply boot_at|].
  destruct (m (boot t faults)) as [dk [e|a]]; destruct Hm as [l Hdk]; apply (at_view _ _ _ _ _ _ _ Hdk).
Qed.
End frozen.

Create HintDb frozen discriminated.
#[export] Hint Resolve frozen_ret frozen_throw frozen_bind frozen_lift frozen_throw_opt frozen_wrap_err frozen_read_file
  frozen_readPointer frozen_readManifest frozen_KnownGoodRevisions : frozen.

Ltac frozen :=
  repeat first
    [ progress intros
    | solve [auto 2 with frozen]
    | apply frozen_bind
    | apply frozen_wrap_err
    | match goal with
      | |- context [match ?x with _ => _ end] => destruct x
      | |- frozen _ (if ?b then _ else _) => destruct b
      end ].

Section program.
Context `{ipc.IpcCodec, health.SnapshotCodec} `{revision.RevisionCodecLaws encodable, LeafOrder, !PrintCodec}.
Context (probations polls : nat) (sys : System).
Implicit Types (t v : Tree).

Lemma frozen_ReadConfigStatus t : frozen t ReadConfigStatus.
Proof. unfold ReadConfigStatus, pointed_manifest, revision.ActiveRevision, revision.LastKnownGood, revision.PreviousKnownGood. frozen. Qed.

Lemma frozen_config_status t : frozen t config_status.
Proof. unfold config_status. apply frozen_bind; [apply frozen_ReadConfigStatus|]. frozen. Qed.

(** The commands that may change files. *)
Definition writers : list string := ["config-apply"; "config-activate"; "config-rollback"; "config-bootstrap"].

Lemma frozen_command t fl name args : name ∉ writers → frozen t (command probations polls sys fl name args).
Proof.
  intros Hname. unfold command.
  repeat (case_bool_decide as Hc; [try (by exfalso; apply Hname; subst; set_solver)|clear Hc]).
  all: unfold health, config_get, config_validate, plan, logs; try by frozen.
  apply frozen_config_status.
Qed.
(** *** Candidates *)

Lemma length_substring n s : String.length (String.substring 0 n s) = Nat.min n (String.length s).
Proof. revert n. induction s as [|c s IH]; intros [|n]; simpl; [done..|]. by rewrite IH. Qed.

(** An accepted candidate is all of the input; it is never cut. *)
Lemma readCandidate_whole r content :
  readCandidate r = inr content →
  content = si_bytes r ∧ si_err r = None ∧ (0 < Z.of_nat (String.length content) ≤ maxCandidateBytes)%Z.
Proof.
  unfold readCandidate, ipc.limited. simpl fst.
  destruct (Z.leb_spec (maxCandidateBytes + 1) (Z.of_nat (String.length (si_bytes r)))) as [Hl|Hl].
  - assert (Hlen : Z.of_nat (String.length (ipc.first_bytes (maxCandidateBytes + 1) (si_bytes r))) = (maxCandidateBytes + 1)%Z).
    { unfold ipc.first_bytes. rewrite length_substring, Nat2Z.inj_min, Z2Nat.id by done. lia. }
    destruct (Nat.eqb_spec (String.length (ipc.first_bytes (maxCandidateBytes + 1) (si_bytes r))) 0) as [He|_]; [done|].
    by rewrite Hlen, (proj2 (Z.ltb_lt _ _)) by lia.
  - destruct (si_err r); [done|]. destruct (Nat.eqb_spec (String.length (si_bytes r)) 0) as [|Hn]; [done|].
    destruct (Z.ltb_spec maxCandidateBytes (Z.of_nat (String.length (si_bytes r)))); [done|]. intros [= <-]. split_and!; [done|done|lia|lia].
Qed.

(** What config-validate and config-apply accept. *)
Definition accepted_candidate (content : string) (cfg : Config) : Prop :=
  si_bytes (sy_stdin sys) = content ∧ si_err (sy_stdin sys) = None ∧
  (0 < Z.of_nat (String.length content) ≤ maxCandidateBytes)%Z ∧ revision.Parse content = inr cfg ∧
  (cf_Mode cfg = "armed" → ValidateArmedCapabilities (sy_local sys) cfg = Some None).

Lemma candidate_accepted content cfg :
  candidate sys = Some (inr (content, cfg)) → accepted_candidate content cfg.
Proof.
  unfold candidate. destruct (readCandidate (sy_stdin sys)) as [e|c] eqn:Hr; [done|].
  destruct (readCandidate_whole _ _ Hr) as (Hc & He & Hlen). destruct (revision.Parse c) as [e|cfg'] eqn:Hp; [done|].
  case_bool_decide as Hm; simpl.
  - destruct (ValidateArmedCapabilities (sy_local sys) cfg') as [[e|]|] eqn:Hv; simpl; [done| |done]. intros [= <- <-]. destruct Hlen. by split_and!.
  - intros [= <- <-]. destruct Hlen. by split_and!.
Qed.

(** *** Privileges and arguments *)

Lemma frozen_requireRoot t c : frozen t (requireRoot sys c).
Proof. unfold requireRoot. frozen. Qed.

Lemma unprivileged t c {A} (f : () → revision.M A) : sy_euid sys ≠ 0%Z → frozen t (x ← requireRoot sys c; f x).
Proof. intros Hr. unfold requireRoot. rewrite (proj2 (Z.eqb_neq _ _) Hr). apply frozen_throw. Qed.

Lemma unprivileged_command t fl name args :
  sy_euid sys ≠ 0%Z → name ≠ "config-bootstrap" → frozen t (command probations polls sys fl name args).
Proof.
  intros Hr Hb. destruct (decide (name ∈ writers)) as [Hin|Hout]; [|by apply frozen_command].
  unfold writers in Hin. repeat (apply elem_of_cons in Hin as [->|Hin]); [..|by apply not_elem_of_nil in Hin]; try done.
  - by apply (unprivileged t "config-apply").
  - by apply (unprivileged t "config-activate").
  - by apply (unprivileged t "config-rollback").
Qed.

(** A command with an argument does nothing unless it is one valid name. *)
Lemma revision_argument_checked t c rest (f : string → revision.M Done) :
  ¬ frozen t (id ← revision_argument c rest; f id) → ∃ id, rest = [id] ∧ revision.ValidateRevisionID id = None.
Proof.
  intros Hm. destruct rest as [|id [|]]; [by destruct Hm; apply frozen_throw| |by destruct Hm; apply frozen_throw].
  exists id. split; [done|]. destruct (revision.ValidateRevisionID id) eqn:Hv; [|done].
  destruct Hm. unfold revision_argument. rewrite Hv. apply frozen_throw.
Qed.

(** C17: Nobody changes the configuration by accident or without the right:
    whichever calls fail, if a run of cockpit-ups-wolctl leaves any file of
    the history or the active configuration different, then it was the
    installer's bootstrap, or it ran as root, and it was an apply of a
    candidate that was read whole, is between 1 byte and 2 MiB long, is a
    valid configuration and, when armed, one whose shutdown methods work on
    this machine, or an activation or a rollback of one well-formed revision
    name. *)
Theorem config_changes_are_authorised args t faults dk ex :
  main probations polls sys args (boot t faults) = (dk, inr ex) → dk_view dk ≠ t →
  ∃ sets name rest, flag.Parse flags args = inr (sets, name :: rest) ∧
    (name = "config-bootstrap" ∨
     (sy_euid sys = 0)%Z ∧
     (name = "config-apply" ∧ (∃ content cfg, accepted_candidate content cfg) ∨
      (name = "config-activate" ∨ name = "config-rollback") ∧ ∃ id, rest = [id] ∧ revision.ValidateRevisionID id = None)).
Proof.
  intros Hrun Hchanged.
  assert (Hquiet : ∀ (m : revision.M systemd.Exit), frozen t m → m (boot t faults) = (dk, inr ex) → False).
  { intros m Hm Heq. apply Hchanged. pose proof (frozen_view t m faults Hm) as Hv. by rewrite Heq in Hv. }
  unfold main in Hrun. destruct (flag.Parse flags args) as [e|[sets ops]]; [by destruct (Hquiet _ (frozen_ret t _) Hrun)|].
  cbv zeta in Hrun. destruct (fl_version _); [by destruct (Hquiet _ (frozen_ret t _) Hrun)|].
  destruct ops as [|name rest]; [by destruct (Hquiet _ (frozen_ret t _) Hrun)|].
  exists sets, name, rest. split; [done|].
  assert (Hcmd : ¬ frozen t (command probations polls sys (flags_of sets) name rest)).
  { intros Hf. eapply Hquiet, Hrun. eapply spec_attempt_bind; [exact Hf|intros a; apply frozen_ret..]. }
  destruct (decide (name ∈ writers)) as [Hin|Hout]; [|by exfalso; apply Hcmd, frozen_command].
  destruct (decide (name = "config-bootstrap")) as [->|Hne]; [by left|right].
  destruct (decide (sy_euid sys = 0%Z)) as [Hroot|Hroot]; [split; [done|]|by exfalso; apply Hcmd, unprivileged_command].
  unfold writers in Hin. repeat (apply elem_of_cons in Hin as [->|Hin]); [| | |done|by apply not_elem_of_nil in Hin].
  - left. split; [done|]. destruct (candidate sys) as [[e|[content cfg]]|] eqn:Hc.
    2: { exists content, cfg. by apply candidate_accepted. }
    all: exfalso; apply Hcmd; change (frozen t (config_apply sys (flags_of sets))); unfold config_apply, requireRoot; rewrite Hc, Hroot; first [apply frozen_throw|apply frozen_ret].
  - right. split; [by left|]. apply (revision_argument_checked t "config-activate" rest _ (λ Hf, Hcmd (frozen_bind t _ _ (frozen_requireRoot t _) (λ _, Hf)))).
  - right. split; [by right|]. apply (revision_argument_checked t "config-rollback" rest _ (λ Hf, Hcmd (frozen_bind t _ _ (frozen_requireRoot t _) (λ _, Hf)))).
Qed.
End program.

(** ** An apply, from standard input to the verdict *)

(** Everything the program prints is made of strings, numbers and lists of
    them, which JSON can encode. *)
Class PrintCodecLaws `{PrintCodec} : Prop := { output_printable o : ∃ b, output_MarshalIndent o = inr b }.

(** [systemd-run --wait]: the program runs as a unit of its own, with a
    system of its own, and its exit status decides. *)
Definition transient_unit (program : list string → revision.M systemd.Exit) (name : string) (args : list string)
  : revision.M (string * option error) :=
  match name, args with
  | "systemd-run", "--quiet" :: "--wait" :: "--collect" :: _ :: _ :: args =>
      ex ← program args;
      mret ("", if bool_decide (systemd.ex_status ex = 0%Z) then None else Some (Errorf "exit status"))
  | _, _ => mret ("", Some (Errorf "exit status 1"))
  end.

Section apply.
Context `{ipc.IpcCodec, health.SnapshotCodec} `{revision.RevisionCodecLaws encodable, LeafOrder, PrintCodecLaws}.
Context (probations polls : nat) (sys worker : System).
Implicit Types (t v : Tree).

Lemma sees_config_status v a prev ma :
  pointer "active" v = inr a → pointer "last-known-good" v = inr a → pointer "previous-known-good" v = inr prev →
  manifest_of a v = inr ma → a ≠ "" →
  spec (sees true v) config_status (λ r dk, (∃ st, r = JSON (OStatus st) 0) ∧ sees true v dk) (λ _, False).
Proof.
  intros Ha Hl Hp Hm Hne. unfold config_status, ReadConfigStatus, revision.ActiveRevision, revision.LastKnownGood, revision.PreviousKnownGood.
  assert (Hread : ∀ name x, pointer name v = inr x →
    spec (sees true v) (revision.readPointer name) (λ y dk, y = x ∧ sees true v dk) (λ _, False)).
  { intros name x Hx. eapply spec_conseq; [apply sees_readPointer|done| |].
    - intros y dk [Hy ?]. rewrite Hx in Hy. by injection Hy as <-.
    - intros dk [[?|[e He]] _]; [done|congruence]. }
  assert (Hman : ∀ prefix, spec (sees true v) (pointed_manifest prefix a) (λ _, sees true v) (λ _, False)).
  { intros prefix. unfold pointed_manifest. rewrite bool_decide_eq_false_2 by done.
    eapply spec_bind; [apply wrap_err_spec; eapply spec_conseq; [apply (sees_readManifest true v a)|done| |]|].
    - intros m dk [_ Hdk]. exact Hdk.
    - intros dk [[?|[e He]] _]; [done|congruence].
    - intros m. by apply spec_now. }
  eapply (spec_bind _ _ _ (λ _, sees true v)); [|intros st; apply spec_now; eauto].
  do 3 (eapply spec_bind; [by apply Hread|]; intros ?; apply spec_pure; intros ->).
  eapply spec_bind; [eapply spec_E; [apply sees_KnownGoodRevisions|by intros dk [? _]]|]. intros known.
  apply spec_pure. intros _. apply spec_pure. intros _.
  do 2 (eapply spec_bind; [apply Hman|]; intros ?). by apply spec_now.
Qed.

(** What an activation makes of a prepared candidate. *)
Definition taken v id lkg content : Prop := in_place v id id lkg content ∧ good_revision v id.

Context (Hclock : clock_advances (revision.defaults (manager worker))).
Context (Hfuel : (enough_fuel (revision.defaults (manager worker)) ≤ probations)%nat).

Lemma sees_promote_trial t id lkg m0 content g :
  ready_to_activate t id lkg m0 content → t_dirs t !! id = Some g →
  spec (sees true (on_trial t id m0 content g))
    (revision.promoteLocked (revision.defaults (manager worker)) (revision.set_status revision.RevisionValidating "" m0))
    (λ _ dk, ∃ v, taken v id lkg content ∧ sees true v dk) (λ _, False).
Proof.
  intros Hready Hg. pose proof (elsewhere_on_trial t id lkg m0 content g Hready Hg) as (Hd & Hl & _ & Hc).
  destruct (ready_facts t id lkg m0 content Hready) as (Hname & Hid & Hlv & Henc & _).
  pose proof (ready_distinct t id lkg m0 content Hready) as Hne.
  assert (Hname' : revision.mf_RevisionID (revision.set_status revision.RevisionValidating "" m0) = id) by done.
  eapply spec_conseq; [apply (sees_promote (on_trial t id m0 content g) (revision.defaults (manager worker))
                               (revision.set_status revision.RevisionValidating "" m0) g content lkg "")|done| |done].
  - simpl. unfold revision.defaultRevisionKeep. lia.
  - apply (named_manifest id g); [done|done|by apply revision.mj_set_status|done|].
    intros p mp. rewrite manifest_after_pointer, manifest_after_active. by apply Hready.
  - by rewrite Hname'.
  - by apply revision.mj_set_status.
  - by rewrite Hname', Hd.
  - done.
  - rewrite Hname'. intros [->| ->]; [by apply valid_id_nonempty in Hlv|done].
  - rewrite Hname', Hc. apply Hready.
  - apply Hready.
  - intros mf' dk (v & (-> & [Ha Hlk Hp Hgood Hcc Hf]) & Hdk). rewrite Hname' in *. exists v. split; [|done].
    rewrite (bool_decide_eq_false_2 (lkg = id)), (bool_decide_eq_false_2 (lkg = "")) in Hp; [|by apply valid_id_nonempty|done].
    split; [|done]. split_and!; [done..|]. rewrite Hf. unfold on_trial.
    by rewrite active_after_manifest, active_after_pointer, active_after_active.
Qed.

(** The transient unit. *)
Lemma worker_flags socket config history id :
  flag.Parse flags ["--socket"; socket; "--config"; config; "--history-dir"; history; "config-activate"; id] =
    inr ([("socket", socket); ("config", config); ("history-dir", history)], ["config-activate"; id]) ∧
  flags_of [("socket", socket); ("config", config); ("history-dir", history)] = mkFlags false socket config history.
Proof. done. Qed.

Lemma sees_worker t id lkg m0 content cfg fl exe :
  sy_euid worker = 0%Z → ready_to_activate t id lkg m0 content → revision.Parse content = inr cfg →
  spec (sees true t) (transient_unit (main probations polls worker) "systemd-run" (systemd_run_args fl exe id))
    (λ r dk, ∃ v, sees true v dk ∧
       (r.2 = None ∧ taken v id lkg content ∨ r.2 = Some (Errorf "exit status") ∧ put_back t id lkg v)) (λ _, False).
Proof.
  intros Hroot Hready Hparse. pose proof Hready as [_ _ _ _ Hm _ _ _].
  destruct (manifest_of_dir id t m0 Hm) as [g Hg].
  destruct (worker_flags (fl_socket fl) (fl_config fl) (fl_history_dir fl) id) as [Hflags Hof].
  pose proof (manifest_of_valid _ _ _ Hm) as Hid.
  change (transient_unit _ _ _) with (ex ← main probations polls worker
     ["--socket"; fl_socket fl; "--config"; fl_config fl; "--history-dir"; fl_history_dir fl; "config-activate"; id];
     (mret ("", if bool_decide (systemd.ex_status ex = 0%Z) then None else Some (Errorf "exit status")) : revision.M (string * option error))).
  apply (spec_bind _ _ _ (λ ex dk, ∃ v, sees true v dk ∧
       (systemd.ex_status ex = 0%Z ∧ taken v id lkg content ∨ systemd.ex_status ex = 1%Z ∧ put_back t id lkg v))).
  2: { intros ex. apply spec_now. intros dk (v & Hdk & [[-> Hv]|[-> Hv]]); exists v; simpl; auto. }
  unfold main. rewrite Hflags. cbv zeta. rewrite Hof. cbn [fl_version].
  change (command _ _ _ _ _ _) with (config_activate probations polls worker (mkFlags false (fl_socket fl) (fl_config fl) (fl_history_dir fl)) [id]).
  unfold config_activate, requireRoot, revision_argument. rewrite Hroot, Hid. cbn [Z.eqb negb revision.throw_opt].
  eapply (spec_attempt_bind _ _ _ (λ r dk, ∃ v, (∃ mf, r = JSON (OManifest mf) 0 ∧ taken v id lkg content) ∧ sees true v dk)
            (λ dk, ∃ v, put_back t id lkg v ∧ sees true v dk)).
  - apply (spec_bind _ _ _ (λ _, sees true t)); [by apply spec_now|]. intros _.
    apply (spec_bind _ _ _ (λ x dk, x = id ∧ sees true t dk)); [by intros dk Hdk|]. intros x. apply spec_pure. intros ->.
    eapply spec_bind.
    + apply (sees_ActivateAndValidate probations (manager worker) t id lkg m0 content g); [done|done|done|done|by eexists|done|].
      by apply sees_promote_trial.
    + intros mf. apply spec_now. intros dk (v & Hv & Hdk). eauto 6.
  - intros r. apply spec_now. intros dk (v & (mf & -> & Hv) & Hdk). exists v. split; [done|left]. split; [|done].
    simpl. unfold printJSON. by destruct (output_printable (OManifest mf)) as [b ->].
  - intros e. apply spec_now. intros dk (v & Hv & Hdk). exists v. split; [done|]. by right.
Qed.
Lemma candidate_accepts content cfg : accepted_candidate sys content cfg → candidate sys = Some (inr (content, cfg)).
Proof.
  intros (Hb & He & Hlen & Hp & Hv). unfold candidate, readCandidate, ipc.limited. simpl fst.
  rewrite Hb, (proj2 (Z.leb_gt _ _)) by lia. rewrite He.
  destruct (Nat.eqb_spec (String.length content) 0); [lia|]. rewrite (proj2 (Z.ltb_ge _ _)), Hp by lia.
  case_bool_decide; [|done]. by rewrite Hv.
Qed.

(** The command, on a machine without disk errors. *)
Definition installed t lkg content v : Prop :=
  ∃ mf g t1, began (encodable := encodable) t "cockpit" content lkg mf g t1 ∧ taken v (revision.mf_RevisionID mf) lkg content.
Definition taken_back t lkg content v : Prop :=
  ∃ mf g t1, began (encodable := encodable) t "cockpit" content lkg mf g t1 ∧ put_back t1 (revision.mf_RevisionID mf) lkg v.

Lemma sees_config_apply fl t lkg content cfg exe :
  sy_euid sys = 0%Z → sy_euid worker = 0%Z → accepted_candidate sys content cfg → sy_executable sys = inr exe →
  sy_spawn sys = transient_unit (main probations polls worker) → (∀ l, in_calendar (sy_now sys l)) →
  named t → pointer "active" t = inr lkg → pointer "last-known-good" t = inr lkg → good_revision t lkg → (size (t_dirs t) < 100)%nat →
  spec (sees true t) (config_apply sys fl)
    (λ r dk, ∃ v, ((∃ st, r = JSON (OStatus st) 0) ∧ installed t lkg content v) ∧ sees true v dk)
    (λ dk, ∃ v, taken_back t lkg content v ∧ sees true v dk).
Proof.
  intros Hroot Hwroot Hcand Hexe Hspawn Hcal Hn Ha Hl Hgood Hsize.
  pose proof Hcand as (_ & _ & _ & Hparse & _). apply candidate_accepts in Hcand.
  unfold config_apply, requireRoot. rewrite Hroot, Hcand. cbn [Z.eqb negb].
  apply (spec_bind _ _ _ (λ _, sees true t)); [by apply spec_now|]. intros _.
  apply (spec_bind _ _ _ (λ x dk, x = (content, cfg) ∧ sees true t dk)); [by intros dk Hdk|]. intros x. apply spec_pure. intros ->.
  apply (spec_bind _ _ _ (λ mf dk, ∃ t1, (∃ g, began (encodable := encodable) t "cockpit" content lkg mf g t1) ∧ sees true t1 dk)).
  { unfold revision.Begin. eapply spec_bind; [eapply spec_E; [apply sees_lock|by intros ? [? _]]|]. intros [].
    eapply spec_E; [by eapply (sees_beginLocked t (revision.defaults (manager sys)))|done]. }
  intros mf. apply spec_ex. intros t1. apply spec_pure. intros [g Hb].
  destruct (began_ready t "cockpit" content lkg mf g t1 Hn Ha Hl Hgood Hb) as (m0 & _ & Hready).
  apply (spec_bind _ _ _ (λ _ dk, ∃ v, taken v (revision.mf_RevisionID mf) lkg content ∧ sees true v dk)).
  { unfold activateViaSystemd. rewrite Hexe, Hspawn.
    apply (spec_bind _ _ _ (λ x dk, x = exe ∧ sees true t1 dk)); [by intros dk Hdk|]. intros x. apply spec_pure. intros ->.
    eapply spec_bind; [eapply spec_E; [by eapply sees_worker|done]|].
    intros [out err]. apply spec_ex. intros v. intros dk [Hdk [[He Hv]|[He Hv]]]; simpl in He; subst err; [by exists v|].
    exists v. split; [|done]. by exists mf, g, t1. }
  intros []. apply spec_ex. intros v. apply spec_pure. intros Hv. pose proof Hv as [(Hpa & Hpl & Hpp & _) (mg & _ & Hmg & _)].
  eapply spec_conseq; [eapply (sees_config_status v); [done|done|done|exact Hmg|]|done| |done].
  - apply valid_id_nonempty. by eapply manifest_of_valid.
  - intros r dk [Hr Hdk]. exists v. split; [split; [done|by exists mf, g, t1]|done].
Qed.

(** C10: An apply either installs the candidate or puts everything back:
    when root applies an acceptable candidate on a machine without disk
    errors, whose history has fewer than 100 revisions, the program ends
    with status 0 and the candidate, a new revision, is active and
    last-known-good, known-good, and the active configuration, with the old
    one as previous-known-good; or it ends with status 1 and the old revision
    is active and last-known-good, its configuration is the active one again,
    the candidate is marked failed or rolled back, and every other revision
    is untouched.  Which of the two is up to the restarted agent; the
    activation runs in a transient unit with a clock, a socket and a log of
    its own. *)
Theorem config_apply_outcome args sets rest t lkg content cfg :
  flag.Parse flags args = inr (sets, "config-apply" :: rest) → fl_version (flags_of sets) = false →
  sy_euid sys = 0%Z → sy_euid worker = 0%Z → accepted_candidate sys content cfg → (∃ exe, sy_executable sys = inr exe) →
  sy_spawn sys = transient_unit (main probations polls worker) → (∀ l, in_calendar (sy_now sys l)) →
  named t → pointer "active" t = inr lkg → pointer "last-known-good" t = inr lkg → good_revision t lkg → (size (t_dirs t) < 100)%nat →
  ∃ dk ex mf g t1, main probations polls sys args (boot t []) = (dk, inr ex) ∧
    began (encodable := encodable) t "cockpit" content lkg mf g t1 ∧
    (systemd.ex_status ex = 0%Z ∧ taken (dk_view dk) (revision.mf_RevisionID mf) lkg content ∨
     systemd.ex_status ex = 1%Z ∧ put_back t1 (revision.mf_RevisionID mf) lkg (dk_view dk)).
Proof.
  intros Hargs Hversion Hroot Hwroot Hcand [exe Hexe] Hspawn Hcal Hn Ha Hl Hgood Hsize.
  destruct (sees_run t (main probations polls sys args) (λ ex v,
    systemd.ex_status ex = 0%Z ∧ installed t lkg content v ∨ systemd.ex_status ex = 1%Z ∧ taken_back t lkg content v))
    as (dk & ex & Hrun & [[Hs (mf & g & t1 & Hb & Hv)]|[Hs (mf & g & t1 & Hb & Hv)]]); [|exists dk, ex, mf, g, t1; auto..].
  unfold main. rewrite Hargs, Hversion. change (command _ _ _ _ _ _) with (config_apply sys (flags_of sets)).
  eapply spec_attempt_bind; [by apply (sees_config_apply _ t lkg content cfg exe)|..].
  - intros r. apply spec_now. intros dk (v & ([st ->] & Hv) & Hdk). exists v. split; [left|done]. split; [|done].
    simpl. unfold printJSON. by destruct (output_printable (OStatus st)) as [b ->].
  - intros e. apply spec_now. intros dk (v & Hv & Hdk). exists v. split; [by right|done].
Qed.
End apply.
