(* ===== verification/CtlExample.v ===== *)
(** * Applying a configuration, concretely

    The second configuration of the sample history is given to
    cockpit-ups-wolctl on standard input, the transient unit restarts an
    agent that fails its first call, and the probation passes; with an agent
    that never answers, everything is put back. *)

From S2P Require Import Prelude GoStrings GoFlag GoTime PowerStateModel Store ConfigModel ConfigValidate ConfigExample HostAdapters.
From S2P Require Import Health HealthExample HostAdapterExample ArmedExample Disk DiskFacts Revision RevisionFacts RevisionStartup RevisionCrash.
From S2P Require Import RevisionRuns RevisionHistory RevisionExample SystemHealth Report Ipc Control ControlExample Ctl CtlFacts.

Import ctl.

#[local] Existing Instance toy_codec.
#[local] Existing Instance toy_codec_laws.
#[local] Existing Instance toy_order.
#[local] Instance message_codec_here : ipc.IpcCodec := codec.
#[local] Instance snapshot_codec_here : health.SnapshotCodec := snapshot_codec [snap1].
#[local] Instance printing : PrintCodec := {| version_text := "{}"; output_MarshalIndent _ := inr "{}" |}.
#[local] Instance printing_laws : PrintCodecLaws.
Proof. split. intros o. by eexists. Qed.

(** An agent that is gone. *)
Definition silent : control.Outside :=
  control.mkOutside _ (λ l, start_time + Z.of_nat (length l) * 10 * Second)%Z (λ _ _ _, ("", None))
    (λ _ _ _, inl (Errorf "connection refused")) (λ _, None).

Definition system (euid : Z) (input : string) (now : revision.Log → Time) (service : control.Outside)
    (spawn : string → list string → revision.M (string * option error)) : System :=
  mkSystem _ euid (mkStdin input None) pinned (inr "/usr/libexec/cockpit-ups-wol/cockpit-ups-wolctl")
    (λ _ _, inr healthy) ("", None) spawn now (λ _ _, None) (λ _, service).

Definition unit_system (service : control.Outside) : System :=
  system 0 "" toy_now service (λ _ _, mret ("", Some (Errorf "not found"))).

Definition operator (euid : Z) (service : control.Outside) : System :=
  system euid "home 2" (λ _, start_time) service (transient_unit (main 14 81 (unit_system service))).

Abbreviation applied euid service := (main 14 81 (operator euid service) ["config-apply"] (boot RevisionExample.installed [])).

Definition active_file (dk : Disk revision.Event) : option string := t_read (dk_view dk) ActiveConfig.

Definition status (r : result systemd.Exit) : option Z := match r with inr ex => Some (systemd.ex_status ex) | inl _ => None end.

Example outcomes :
  (status (applied 0%Z agent).2, active_file (applied 0%Z agent).1, status (applied 0%Z silent).2, active_file (applied 0%Z silent).1)
  = (Some 0%Z, Some "home 2", Some 1%Z, Some "home 1").
Proof. vm_compute. reflexivity. Qed.

Example applied_exit : (applied 0%Z agent).2 = inr (mkExit 0 ("{}" +:+ revision.newline_text) "").
Proof. vm_compute. reflexivity. Qed.

(** Who is not root is told so. *)
Example refusal :
  (applied 1000%Z agent).2
  = inr (mkExit 1 "" ("cockpit-ups-wolctl: config-apply requires root privileges" +:+ revision.newline_text)).
Proof. vm_compute. reflexivity. Qed.

Lemma acceptable : accepted_candidate (operator 0 agent) "home 2" parsed.
Proof. split_and!; vm_compute; done. Qed.

Lemma config_apply_outcome_witness :
  ∃ dk ex mf g t1, applied 0%Z agent = (dk, inr ex) ∧
    began (encodable := λ _, True) RevisionExample.installed "cockpit" "home 2" RevisionExample.first mf g t1 ∧
    (systemd.ex_status ex = 0%Z ∧ taken (dk_view dk) (revision.mf_RevisionID mf) RevisionExample.first "home 2" ∨
     systemd.ex_status ex = 1%Z ∧ put_back t1 (revision.mf_RevisionID mf) RevisionExample.first (dk_view dk)).
Proof.
  apply (config_apply_outcome 14 81 (operator 0 agent) (unit_system agent)) with (sets := []) (rest := []) (cfg := parsed).
  - by apply toy_clock_advances.
  - vm_compute. lia.
  - reflexivity.
  - reflexivity.
  - reflexivity.
  - reflexivity.
  - exact acceptable.
  - by eexists.
  - reflexivity.
  - exact still_in_calendar.
  - apply named_of_check. vm_compute. reflexivity.
  - vm_compute. reflexivity.
  - vm_compute. reflexivity.
  - exact installed_good.
  - vm_compute. lia.
Defined.

Lemma config_changes_are_authorised_witness :
  ∃ sets name rest, flag.Parse flags ["config-apply"] = inr (sets, name :: rest) ∧
    (name = "config-bootstrap" ∨
     (sy_euid (operator 0 agent) = 0)%Z ∧
     (name = "config-apply" ∧ (∃ content cfg, accepted_candidate (operator 0 agent) content cfg) ∨
      (name = "config-activate" ∨ name = "config-rollback") ∧ ∃ id, rest = [id] ∧ revision.ValidateRevisionID id = None)).
Proof.
  apply (config_changes_are_authorised 14 81 (operator 0 agent) ["config-apply"] RevisionExample.installed []
           (applied 0%Z agent).1 (mkExit 0 ("{}" +:+ revision.newline_text) "")).
  - exact (run_pair _ _ applied_exit).
  - intros Heq. apply (f_equal (λ t, t_read t ActiveConfig)) in Heq. vm_compute in Heq. discriminate.
Defined.
