(* ===== verification/Programs.v ===== *)
(** * The programs ([agent/cmd])

    The agent's process from its command line to its loops, and the other
    entry points: wolctl, the health program and the schema fixture.  What a
    program meets of the system is an argument; the file that the flag -config
    names is the active file of the configuration history, as in [Ctl]. *)

From S2P Require Import Prelude GoStrings GoNet GoFlag PowerStateModel Nut ConfigModel Policy Store Coordinator Wol.
From S2P Require Import Recovery Orchestrator HostAdapters Health Armed Disk Revision SystemHealth Agent.

(** ** The build ([internal/version]) *)

Module version.

Record Info : Type := mkInfo { in_Version : string; in_Commit : string; in_Date : string }.

(** The variables the linker sets. *)
Definition Version : string := "dev".
Definition Commit : string := "unknown".
Definition Date : string := "unknown".

Definition Current : Info := mkInfo Version Commit Date.

(** What -version prints: the error of [json.Marshal] is dropped. *)
Definition line (info_Marshal : Info → result string) : string :=
  match info_Marshal Current with inl _ => "" | inr b => b end +:+ health.newline_text.
End version.

(** ** The agent ([cmd/cockpit-ups-wol-agent/main.go], [internal/app]) *)

Module process.
Import app.

Definition flags : flag.FlagSet :=
  [("version", flag.BoolFlag); ("config", flag.StringFlag); ("socket", flag.StringFlag);
   ("health-state", flag.StringFlag); ("foreground", flag.BoolFlag)].

(** [app.Options] as [main] fills it in; the other fields are zero. *)
Definition options_of (sets : list (string * string)) : Options :=
  mkOptions (flag.value_of sets "socket" "/run/cockpit-ups-wol/agent.sock")
    (flag.value_of sets "health-state" "/var/lib/cockpit-ups-wol/health.json") "" 0 0 0 "" "" "".

(** What a process meets before its loop: whether another process holds the
    lock of the history; the files looked at for SSH; the answers of upsc to
    the health checks; the clock; the encoder and the digest of the
    configuration; the one new transaction identifier; what READY and the
    watchdog's start answer; the first sample; and, for an armed agent, the
    outside of its controller. *)
Record Surroundings : Type := mkSurroundings {
  su_held : bool;
  su_local : Local;
  su_upsc : string → health.Log → result Status;
  su_clock : health.Log → Time;
  su_marshal : ConfigModel.Config → string → result string;
  su_sha256 : string → string;
  su_newID : string;
  su_ready : option error;
  su_watchdog : option error;
  su_first : health.Snapshot → Sample;
  su_outside : Outside;
}.

(** The files: the configuration history, the state directory and the health
    file. *)
Record Files : Type := mkFiles {
  fi_history : Disk revision.Event;
  fi_state : FS;
  fi_health : health.World;
}.

(** A process in one of its loops, or at its end. *)
Inductive Process : Type :=
  | InArmed (cfg runtimeCfg : ConfigModel.Config) (supervisor : health.Supervisor) (l : Loop (W := FS))
  | InPassive (cfg : ConfigModel.Config) (supervisor : health.Supervisor) (p : Passive)
  | Returned (err : option error)
  | Panicked.

Section agent.
Context `{StateCodec, health.SnapshotCodec, revision.RevisionCodec}.
Context (su : Surroundings).

Definition target (cfg : ConfigModel.Config) : string := Target (nc_UPSName (cf_NUT cfg)) (nc_Host (cf_NUT cfg)) (nc_Port (cf_NUT cfg)).

Definition armed_supervisor (opts : Options) (cfg : ConfigModel.Config) (excluded : gmap string string) : health.Supervisor :=
  health.mkSupervisor (armed_checks (su_upsc su (target cfg)) cfg excluded) ∅ (op_HealthStatePath opts)
    (he_MaxRepairAttempts (cf_Health cfg)) 0 0 (su_clock su).

Definition passive_supervisor (opts : Options) (cfg : ConfigModel.Config) : health.Supervisor :=
  health.mkSupervisor [health.mkCheck "nut.query" (λ l, nutHealthCheck_Run (su_upsc su (target cfg) l))] ∅ (op_HealthStatePath opts)
    (he_MaxRepairAttempts (cf_Health cfg)) 0 0 (su_clock su).

(** [runArmed], up to and including what its loop makes of [evs]. *)
Definition runArmed (opts : Options) (cfg : ConfigModel.Config) (evs : list Wakeup) (fi : Files) : Process :=
  match RuntimeArmedExclusions (su_local su) cfg,
        runArmed_start (su_local su) cfg (configRevision (su_marshal su) (su_sha256 su) cfg) (su_newID su) (fi_state fi) with
  | Some (inr excluded), Some (_, inr (runtimeCfg, w)) =>
      let supervisor := armed_supervisor opts cfg excluded in
      match runArmed_enter (su_clock su) supervisor cfg (su_outside su) opts runtimeCfg (su_ready su) (su_watchdog su) (su_first su)
              (mkArmed w ∅ zeroTracker [] []) (fi_health fi) with
      | inr err => Returned err
      | inl l =>
          match runArmed_loop (su_clock su) supervisor cfg (su_outside su) opts runtimeCfg evs l with
          | inr err => Returned err
          | inl l => InArmed cfg runtimeCfg supervisor l
          end
      end
  | Some _, Some (_, inl e) => Returned (Some e)
  | _, _ => Panicked
  end.

Definition runPassive (opts : Options) (cfg : ConfigModel.Config) (evs : list Wakeup) (fi : Files) : Process :=
  let supervisor := passive_supervisor opts cfg in
  match runPassive_start (su_clock su) supervisor (su_ready su) (su_watchdog su) (fi_health fi) with
  | inr err => Returned err
  | inl p =>
      match runPassive_loop (su_clock su) supervisor cfg evs p with
      | inr err => Returned err
      | inl p => InPassive cfg supervisor p
      end
  end.

Definition Run (cfg : ConfigModel.Config) (opts : Options) (evs : list Wakeup) (fi : Files) : Process :=
  let opts := options_defaults opts in
  match mode_of cfg with
  | ModeArmed => runArmed opts cfg evs fi
  | ModePassive => runPassive opts cfg evs fi
  end.

Definition LoadAndRun (opts : Options) (evs : list Wakeup) (fi : Files) : Files * Process :=
  let opts := options_defaults opts in
  match load_config (su_held su) (fi_history fi) with
  | (dk, inl e) => (mkFiles dk (fi_state fi) (fi_health fi), Returned (Some e))
  | (dk, inr cfg) => let fi := mkFiles dk (fi_state fi) (fi_health fi) in (fi, Run cfg opts evs fi)
  end.

(** How [main] ends: not yet, or with a status and a message. *)
Inductive Status : Type :=
  | Live (p : Process)
  | Exited (status : Z) (stdout stderr : string).

Definition main (info_Marshal : version.Info → result string) (args : list string) (evs : list Wakeup) (fi : Files) : Files * Status :=
  match flag.Parse flags args with
  | inl _ => (fi, Exited 2 "" "")
  | inr (sets, _) =>
      if bool_decide (flag.value_of sets "version" "false" = "true")
      then (fi, Exited 0 (version.line info_Marshal) "")
      else match LoadAndRun (options_of sets) evs fi with
           | (fi, Returned (Some e)) => (fi, Exited 1 "" ("cockpit-ups-wol-agent: " +:+ err_msg e +:+ health.newline_text))
           | (fi, Returned None) => (fi, Exited 0 "" "")
           | (fi, Panicked) => (fi, Exited 2 "" "panic")
           | (fi, p) => (fi, Live p)
           end
  end.
End agent.
End process.

(** ** wolctl ([cmd/wolctl/main.go]) *)

Module wolctl.

Definition flags : flag.FlagSet :=
  [("mac", flag.StringFlag); ("broadcast", flag.StringFlag); ("interface", flag.StringFlag); ("port", flag.IntFlag)].

Definition request_of (sets : list (string * string)) : Request :=
  mkRequest (flag.value_of sets "mac" "") (flag.value_of sets "interface" "")
    (flag.value_of sets "broadcast" "255.255.255.255") (flag.int_of sets "port" 9).

(** The datagrams it sends, and how it ends; [ExitOnError]. *)
Definition main (net : Network) (args : list string) : list Datagram * systemd.Exit :=
  match flag.Parse flags args with
  | inl e => ([], systemd.mkExit (flag.exit_on e) "" "")
  | inr (sets, _) =>
      if bool_decide (flag.value_of sets "mac" "" = "") then ([], systemd.mkExit 2 "" "")
      else match Wake net (request_of sets) with
           | (sent, Some e) => (sent, systemd.mkExit 1 "" ("wolctl: " +:+ err_msg e +:+ health.newline_text))
           | (sent, None) => (sent, systemd.mkExit 0 "" "")
           end
  end.
End wolctl.

(** ** The health program's command line ([cmd/cockpit-ups-wol-health/main.go]) *)

Module healthd.

Definition flags : flag.FlagSet :=
  [("state", flag.StringFlag); ("config", flag.StringFlag); ("repair", flag.BoolFlag);
   ("max-repair-attempts", flag.IntFlag); ("required-unit", flag.VarFlag)].

Definition flags_of (sets : list (string * string)) : systemd.Flags :=
  systemd.mkFlags (flag.value_of sets "state" "/var/lib/cockpit-ups-wol/system-health.json")
    (bool_decide (flag.value_of sets "repair" "false" = "true"))
    (flag.int_of sets "max-repair-attempts" 5)
    (flag.values_of sets "required-unit").

(** [files]: what reading a path returns. *)
Definition main `{health.SnapshotCodec, revision.RevisionCodec} (run : systemd.Runner) (clock : health.Log → Time)
    (files : string → result string) (args : list string) (w : health.World) : health.World * systemd.Exit :=
  match flag.Parse flags args with
  | inl e => (w, systemd.mkExit (flag.exit_on e) "" "")
  | inr (sets, _) =>
      systemd.main run clock (flags_of sets) (files (flag.value_of sets "config" "/etc/cockpit-ups-wol/config.yaml")) w
  end.
End healthd.

(** ** The schema fixture ([internal/state/cmd/schema-fixture/main.go]) *)

Module fixture.

Definition st : State :=
  mkState Version "schema-fixture" "previous" 1 RecoveryWait true false "fixture-revision"
    (Some (mkUPSObservation "ONLINE" (Some false) (Some false) (Some (float64_of_int 95)) (Some 1800%Z) "OL" "2026-01-01T00:00:00Z"))
    42
    (Some {[ "node" := mkHostState (Some true) ShutdownCompleted RecoveryOnline 1 1 "wake:schema-fixture:node:1" "online" "" ]})
    "fixture" "0000000000000000000000000000000000000000000000000000000000000000".

(** The encoder is the one of the state's file. *)
Definition main `{StateCodec} : systemd.Exit :=
  match json_Encode st with
  | inl e => systemd.mkExit 1 "" (err_msg e +:+ health.newline_text)
  | inr b => systemd.mkExit 0 b ""
  end.
End fixture.
