(* ===== verification/ProgramsFacts.v ===== *)
(** * What the programs guarantee

    The agent from its command line: the configuration it runs with is the
    one the history records, whichever mode it is in; and an armed agent is
    the controller that the theorems on the orchestrator speak of. *)

From S2P Require Import Prelude StableSort GoStrings GoFlag PowerStateModel Nut ConfigModel ConfigValidate ConfigFacts Policy Store Coordinator.
From S2P Require Import Recovery Orchestrator OrchestratorRuns HostAdapters Health HealthFacts Armed ArmedFacts.
From S2P Require Import Disk DiskFacts Revision RevisionFacts RevisionStartup SystemHealth Agent AgentFacts Programs.

Import app process.

Section agent.
Context `{revision.RevisionCodecLaws file_encodable, LeafOrder, StateCodecLaws encodable, health.SnapshotCodec}.
Context (su : Surroundings) (info_Marshal : version.Info → result string).
Implicit Types (t : Tree) (fi : Files).

Abbreviation agent args evs fi := (main su info_Marshal args evs fi).

(** The configuration a live process runs with. *)
Definition configuration (p : Process) : option ConfigModel.Config :=
  match p with InArmed cfg _ _ _ | InPassive cfg _ _ => Some cfg | _ => None end.

(** A live process has loaded its configuration and entered a loop. *)
Lemma main_live args evs fi fi' p :
  agent args evs fi = (fi', Live p) →
  ∃ sets rest cfg, flag.Parse flags args = inr (sets, rest) ∧
    load_config (su_held su) (fi_history fi) = (fi_history fi', inr cfg) ∧
    fi' = mkFiles (fi_history fi') (fi_state fi) (fi_health fi) ∧
    p = Run su cfg (options_defaults (options_of sets)) evs fi' ∧ configuration p = Some cfg.
Proof.
  unfold main, LoadAndRun. destruct (flag.Parse flags args) as [e|[sets rest]]; [done|]. case_bool_decide; [done|].
  destruct (load_config _ _) as [dk [e|cfg]] eqn:Hl; [done|].
  destruct (Run su cfg _ evs _) as [cfg' rc sup l|cfg' sup p'|[e|]|] eqn:Hrun; intros [= <- <-].
  all: exists sets, rest, cfg; split_and!; [done|done|done|by symmetry|]; revert Hrun; unfold Run, runArmed, runPassive.
  all: destruct (mode_of cfg); repeat case_match; intros; by simplify_eq.
Qed.


(** What is decoded has been validated. *)
Lemma loaded_ok held dk dk' cfg : load_config held dk = (dk', inr cfg) → config_ok cfg.
Proof.
  unfold load_config, mbind, GoM_bind, wrap_err. intros Hl. repeat case_match; simplify_eq.
  match goal with Hp : revision.lift (revision.Parse ?c) _ = (_, inr cfg) |- _ => revert Hp; unfold revision.Parse end.
  destruct (revision.yaml_decode _) as [[e|c] [| |e']]; [done..| |done|done]. unfold Parse_stream. pose proof (Parse_returns_stable c) as Hs.
  destruct (Parse_decoded c) as [e|c']; [done|]. intros [= _ ->]. by destruct Hs.
Qed.

Lemma options_defaults_twice o : options_defaults (options_defaults o) = options_defaults o.
Proof.
  assert (Hs : ∀ v d, string_or (string_or v d) d = string_or v d) by (intros v d; unfold string_or; by repeat case_bool_decide).
  assert (Hd : ∀ v d, duration_or (duration_or v d) d = duration_or v d) by (intros v d; unfold duration_or; destruct (v <=? 0)%Z eqn:Hv; rewrite ?Hv; by destruct (d <=? 0)%Z).
  unfold options_defaults. simpl. by rewrite !Hs, !Hd.
Qed.

(** C8: An armed agent is the controller.  From its command line, on
    whatever disk, in whatever order its timers, channels and servers wake
    it: an agent in its armed loop runs an accepted configuration that asks
    for it, under the settings of its flags; its controller is in a state
    reachable from a generation of this program, so every guarantee about
    reachable controllers is one about the running agent; and the health each
    of its ticks used is that of a run of its own supervisor, safe only if
    the UPS answered that run's query. *)
Theorem agent_process_refines_controller args evs fi fi' cfg runtimeCfg supervisor l :
  (∀ q, generations (fi_state fi) q → own_state q) → loop_sample (su_first su) → loop_samples evs →
  agent args evs fi = (fi', Live (InArmed cfg runtimeCfg supervisor l)) →
  config_ok cfg ∧ cf_Mode cfg = "armed" ∧ NoDup (h_ID <$> cf_Hosts runtimeCfg) ∧
  (∃ p, own_state p ∧
     reachable (armed_env (su_outside su) runtimeCfg) runtimeCfg "/etc/nut/upsmon.conf" (policyFromConfig cfg) p
       (ar_controller (lp_armed l))) ∧
  ∃ sets rest w0 ss, flag.Parse flags args = inr (sets, rest) ∧
    armed_run (su_outside su) (options_defaults (options_of sets)) cfg runtimeCfg w0 ss (lp_armed l) ∧
    ∀ tick, tick ∈ ss → from_supervisor (su_clock su) supervisor (sm_health tick) ∧
      (criticalAgentHealthSafe (sm_health tick) = true →
       ∃ hl st, su_upsc su (target cfg) hl = inr st ∧ us_Utility st ≠ UtilityUnknown).
Proof.
  intros Hgen Hs Hevs Hrun. destruct (main_live _ _ _ _ _ Hrun) as (sets & rest & cfg' & Hparse & Hload & Hfi & Hp & Hcfg).
  injection Hcfg as <-. pose proof (loaded_ok _ _ _ _ Hload) as Hok. split; [exact Hok|].
  revert Hp. unfold Run, mode_of. case_bool_decide as Hmode; [|unfold runPassive; by repeat case_match].
  rewrite options_defaults_twice. unfold runArmed. rewrite Hfi. cbn [fi_state fi_health].
  set (opts := options_defaults (options_of sets)).
  destruct (RuntimeArmedExclusions _ _) as [[e|excluded]|] eqn:Hex; [by repeat case_match| |by repeat case_match].
  destruct (runArmed_start _ _ _ _ _) as [[fs' [e|[rc w0]]]|] eqn:Hstart; [done| |done].
  destruct (runArmed_enter _ _ _ _ _ _ _ _ _ _ _) as [l0|] eqn:Henter; [|done].
  destruct (runArmed_loop _ _ _ _ _ _ _ l0) as [l'|] eqn:Hloop; [|done]. intros [= -> -> ->].
  destruct (armed_loop_is_process (su_clock su) (armed_supervisor su opts cfg excluded) cfg rc (su_outside su) opts w0 (su_upsc su (target cfg)) excluded
              (su_ready su) (su_watchdog su) (su_first su) evs (fi_health fi) l0 l') as (ss & Hss & Hticks); try done.
  { unfold armed_supervisor, opts. simpl. unfold string_or. by case_bool_decide. }
  destruct (armed_process_is_controller_run (su_outside su) opts (su_local su) cfg _ (su_newID su) (fi_state fi) fs' rc w0 ss
              (lp_armed l') Hok Hgen Hstart Hss) as [Hnd Hreach].
  split_and!; [done|done|exact Hreach|]. by exists sets, rest, w0, ss.
Qed.
End agent.
