(* ===== verification/ProgramsExample.v ===== *)
(** * The programs, concretely

    An agent started on a history whose activation was interrupted, through a
    first reading and a power failure; wolctl and the health program on their
    command lines; and the schema fixture, which is a valid state. *)

From Stdlib Require Import Ascii.
From S2P Require Import Prelude StableSort GoStrings GoNet GoFlag PowerStateModel Nut ConfigModel ConfigValidate ConfigFacts ConfigExample Policy.
From S2P Require Import Store StoreFacts StoreExample Coordinator Wol WolExample Orchestrator OrchestratorRuns OrchestratorExample HostAdapters.
From S2P Require Import HostAdapterExample Health HealthExample Armed ArmedFacts ArmedExample Disk DiskFacts Revision RevisionFacts.
From S2P Require Import RevisionStartup RevisionExample SystemHealth Agent AgentFacts AgentExample Programs ProgramsFacts.

Import app process.

#[local] Existing Instance toy_codec.
#[local] Existing Instance toy_codec_laws.
#[local] Existing Instance toy_order.
#[local] Existing Instance vouching_codec.

(** ** The agent *)

(** A reading of the UPS with the health of the loop. *)
Definition surroundings : Surroundings :=
  mkSurroundings false pinned (λ _ _, inr (status UtilityOnline false)) (λ _, at_s 950)
    (λ _ _, inr "{}") (λ _, "c0ffee") "tx-9" None None (reading 1000 UtilityOnline false) ArmedExample.outside.

Definition events : list Wakeup := [HealthTick; PowerTick (reading 1005 UtilityOnBattery false)].

(** The directory of a fresh installation, which has run before. *)
Definition quiet : State := PowerStateModel.New "tx-1" "sha256:c0ffee".

Definition rehearsal : World Memory :=
  let run s a := (armedPowerTick ArmedExample.outside options parsed parsed (s (health.mkSnapshot 1 health.Healthy (at_s 0) [] [] (health.mkCircuit ∅ ∅ "") 1)) a).1 in
  ar_controller (run (reading 1005 UtilityOnBattery false) (run (reading 1000 UtilityOnline false)
    (mkArmed (start (policyFromConfig parsed) quiet [] (Some quiet)) ∅ zeroTracker [] []))).

Definition states : list State :=
  quiet :: omap (λ ev, match ev with EvPersisted p => Some p | _ => None end) (w_log rehearsal).

#[local] Instance states_codec : StateCodec := table_codec states.
#[local] Instance states_laws : StateCodecLaws (StoreExample.known states) := table_codec_laws states.

Definition installed_state : FS := let fs := (Write quiet Example_store.empty).1 in mkFS (fs_durable fs) [] None [] [].

Definition files : Files := mkFiles (boot interrupted_tree []) installed_state unwritten.

Definition arguments : list string := ["-foreground"; "--socket=/tmp/agent.sock"].

Abbreviation agent := (process.main surroundings (λ _, inr "{}") arguments events files).

(** The agent is in its armed loop; these are its parts. *)
Definition is_armed (s : process.Status) : bool := match s with Live (InArmed _ _ _ _) => true | _ => false end.

Definition process_of (s : process.Status) : Process := match s with Live p => p | Exited _ _ _ => Panicked end.

Definition supervisor_of (p : Process) : health.Supervisor :=
  match p with InArmed _ _ s _ => s | _ => agent_supervisor end.

Definition armed_of (p : Process) : Armed FS :=
  match p with InArmed _ _ _ l => lp_armed l | _ => mkArmed (start (policyFromConfig parsed) quiet [] installed_state) ∅ zeroTracker [] [] end.

Definition configurations (p : Process) : ConfigModel.Config * ConfigModel.Config :=
  match p with InArmed c rc _ _ => (c, rc) | _ => (home, home) end.

Lemma live_agent : is_armed agent.2 = true → ∃ l,
  agent = (agent.1, Live (InArmed (configurations (process_of agent.2)).1 (configurations (process_of agent.2)).2
                                  (supervisor_of (process_of agent.2)) l)) ∧
  lp_armed l = armed_of (process_of agent.2).
Proof. destruct agent as [fi [[c rc s l| | |]|]]; simpl; try done. intros _. by exists l. Qed.

Example it_is_armed :
  is_armed agent.2 = true ∧ configurations (process_of agent.2) = (parsed, parsed) ∧
  st_PowerState (w_State (ar_controller (armed_of (process_of agent.2)))) = OnBattery ∧ t_read (dk_view (fi_history agent.1)) ActiveConfig = Some "home 1".
Proof. vm_compute. done. Qed.

(** Other command lines. *)
Example other_endings :
  (process.main surroundings (λ _, inr "{}") ["-version"] events files).2 = Exited 0 ("{}" +:+ health.newline_text) "" ∧
  (process.main surroundings (λ _, inr "{}") ["-help"] events files).2 = Exited 2 "" "" ∧
  (process.main surroundings (λ _, inr "{}") [] [CtxDone] files).2 = Exited 0 "" "".
Proof. vm_compute. done. Qed.


(** What the first start of the installation left. *)
Definition first_generation : State := default quiet (load_state (fs_durable installed_state)).

Lemma installed_own q : generations installed_state q → own_state q.
Proof.
  intros [Hq|Hq]; [|by vm_compute in Hq].
  assert (Hl : file_state d_current (fs_view installed_state) = Some first_generation) by (vm_compute; reflexivity).
  rewrite Hl in Hq. injection Hq as <-. split; [by vm_compute|]. intros id.
  change (host_at first_generation id) with zeroHostState. done.
Qed.

Lemma agent_process_refines_controller_witness :
  ∃ p, own_state p ∧
    reachable (armed_env ArmedExample.outside parsed) parsed "/etc/nut/upsmon.conf" (policyFromConfig parsed) p
      (ar_controller (armed_of (process_of agent.2))).
Proof.
  destruct (live_agent (proj1 it_is_armed)) as (l & Hrun & Hl). pose proof (proj1 (proj2 it_is_armed)) as Hcfg.
  destruct (agent_process_refines_controller surroundings (λ _, inr "{}") arguments events files agent.1
              (configurations (process_of agent.2)).1 (configurations (process_of agent.2)).2 (supervisor_of (process_of agent.2)) l)
    as (_ & _ & _ & Hreach & _).
  - exact installed_own.
  - intros snap. split; [reflexivity|vm_compute; reflexivity].
  - repeat (constructor; [first [exact I | intros snap; split; [reflexivity|vm_compute; reflexivity]]|]). constructor.
  - exact Hrun.
  - rewrite Hcfg, Hl in Hreach. exact Hreach.
Defined.

(** ** wolctl *)

Definition wake_args : list string := ["--mac"; "00:11:32:aB:Cd:ef"; "--broadcast=192.168.1.255"; "-port"; "0x7"].

Example wolctl_sends :
  let '(sent, ex) := wolctl.main working wake_args in
  systemd.ex_status ex = 0%Z ∧ (λ d, (dg_port d, length (dg_payload d))) <$> sent = [(7%Z, 102)].
Proof. vm_compute. done. Qed.

Example wolctl_refuses :
  (λ args, systemd.ex_status (wolctl.main working args).2) <$> [[]; ["-h"]; ["-port"; "x"; "-mac"; "00:11:32:ab:cd:ef"]; ["-mac"; "00:11"]]
  = [2; 0; 2; 1]%Z.
Proof. vm_compute. reflexivity. Qed.

(** ** The health program *)

Example repeated_units :
  match flag.Parse healthd.flags ["-required-unit"; "a.service"; "-repair"; "-required-unit=b.service"; "-max-repair-attempts=0b11"] with
  | inr (sets, _) => healthd.flags_of sets
  | inl _ => systemd.mkFlags "" false 0 []
  end = systemd.mkFlags "/var/lib/cockpit-ups-wol/system-health.json" true 3 ["a.service"; "b.service"].
Proof. vm_compute. reflexivity. Qed.

(** ** The schema fixture *)

Example fixture_is_valid : validateSemantic fixture.st = None.
Proof. vm_compute. reflexivity. Qed.
